(** * OCR invoice text to line items: model and properties of the pipeline

    The text normaliser, header and footer locator, row sanitiser, row
    parser, schema validator and VAT calculator of the receipt parser,
    embedded as functions on sequences of UTF-16 code units, with the
    properties of its specification proved about them.

    Conventions of the model.  A string is the list of its code units; the
    helper [js] turns a UTF-8 literal into that list.  A regular expression
    is a term of [Re.re] run by a backtracking matcher that follows the
    order of alternatives and the greediness of RegExp.  Integers read from
    digit runs are kept exact in Z (parseInt agrees below 2^53).  The VAT
    calculator works on binary64 numbers as specified by SpecFloat. *)

From Stdlib Require Import ZArith NArith List Bool Lia Ascii String.
From Stdlib Require Import Permutation Sorted.
From Stdlib Require Import Floats.SpecFloat.
Import ListNotations.
Open Scope nat_scope.

(** * JavaScript strings: sequences of UTF-16 code units *)
Module JsStr.
Definition char := N.
Definition jsstring := list char.

(* Decoding of a UTF-8 source literal into code units (BMP only). *)
Fixpoint utf8 (fuel : nat) (l : list N) : jsstring :=
  match fuel with
  | O => []
  | S fuel' =>
      match l with
      | [] => []
      | b0 :: l1 =>
          if (b0 <? 128)%N then b0 :: utf8 fuel' l1
          else if (b0 <? 224)%N then
            match l1 with
            | b1 :: l2 => ((b0 - 192) * 64 + (b1 - 128))%N :: utf8 fuel' l2
            | _ => []
            end
          else
            match l1 with
            | b1 :: b2 :: l3 =>
                ((b0 - 224) * 4096 + (b1 - 128) * 64 + (b2 - 128))%N :: utf8 fuel' l3
            | _ => []
            end
      end
  end.

Definition js (s : string) : jsstring :=
  let bytes := map N_of_ascii (list_ascii_of_string s) in
  utf8 (List.length bytes) bytes.

Definition eqb (a b : jsstring) : bool :=
  if list_eq_dec N.eq_dec a b then true else false.

(* WhiteSpace and LineTerminator code units: the class \s, also what trim() strips. *)
Definition isWs (c : char) : bool :=
  ((9 <=? c) && (c <=? 13) || (c =? 32) || (c =? 160) || (c =? 5760)
   || ((8192 <=? c) && (c <=? 8202)) || (c =? 8232) || (c =? 8233)
   || (c =? 8239) || (c =? 8287) || (c =? 12288) || (c =? 65279))%N.
Definition isDigit (c : char) : bool := ((48 <=? c) && (c <=? 57))%N.
Definition isUpper (c : char) : bool := ((65 <=? c) && (c <=? 90))%N.
Definition isLower (c : char) : bool := ((97 <=? c) && (c <=? 122))%N.
Definition isLatin (c : char) : bool := isUpper c || isLower c.
Definition isHangul (c : char) : bool := ((44032 <=? c) && (c <=? 55203))%N.
Definition isWord (c : char) : bool := isLatin c || isDigit c || (c =? 95)%N.

Fixpoint dropWs (s : jsstring) : jsstring :=
  match s with
  | c :: s' => if isWs c then dropWs s' else s
  | [] => []
  end.
Definition trim (s : jsstring) : jsstring := rev (dropWs (rev (dropWs s))).

Definition slice (s : jsstring) (from to : nat) : jsstring :=
  firstn (to - from) (skipn from s).

Fixpoint isPrefix (p s : jsstring) : bool :=
  match p, s with
  | [], _ => true
  | a :: p', b :: s' => (a =? b)%N && isPrefix p' s'
  | _ :: _, [] => false
  end.

(* s.replace(pat, '') for a string pattern: first occurrence only *)
Fixpoint removeFirst (pat s : jsstring) : jsstring :=
  if isPrefix pat s then skipn (List.length pat) s
  else match s with
       | [] => []
       | c :: s' => c :: removeFirst pat s'
       end.

Fixpoint join (sep : jsstring) (l : list jsstring) : jsstring :=
  match l with
  | [] => []
  | [x] => x
  | x :: l' => x ++ sep ++ join sep l'
  end.

(* decimal digits to an integer: parseInt(s, 10) on a digit run *)
Definition digitsToZ (s : jsstring) : Z :=
  fold_left (fun acc c => (acc * 10 + Z.of_N (c - 48))%Z) s 0%Z.
End JsStr.
Import JsStr.

(** * Regular expressions with the backtracking semantics of RegExp *)
Module Re.
Inductive re :=
| Chr (p : char -> bool)
| Emp
| Cat (r1 r2 : re)
| Alt (r1 r2 : re)
| Star (greedy : bool) (r : re)
| Grp (n : nat) (r : re)
| Bol
| Eol
| WordB.

Definition caps := list (nat * (nat * nat)).
Definition result := option (nat * caps).

Definition wordAt (s : jsstring) (i : nat) : bool :=
  match nth_error s i with Some c => isWord c | None => false end.
Definition isWordBoundary (s : jsstring) (i : nat) : bool :=
  negb (Bool.eqb (match i with O => false | S j => wordAt s j end) (wordAt s i)).

Fixpoint run (r : re) (s : jsstring) (i : nat) (c : caps)
         (k : nat -> caps -> result) {struct r} : result :=
  match r with
  | Chr p =>
      match nth_error s i with
      | Some ch => if p ch then k (S i) c else None
      | None => None
      end
  | Emp => k i c
  | Cat r1 r2 => run r1 s i c (fun j c' => run r2 s j c' k)
  | Alt r1 r2 =>
      match run r1 s i c k with
      | Some x => Some x
      | None => run r2 s i c k
      end
  | Star greedy r1 =>
      (fix loop (n : nat) (i : nat) (c : caps) {struct n} : result :=
         match n with
         | O => k i c
         | S n' =>
             let again := run r1 s i c (fun j c' => if i <? j then loop n' j c' else None) in
             if greedy then
               match again with Some x => Some x | None => k i c end
             else
               match k i c with Some x => Some x | None => again end
         end) (S (List.length s - i)) i c
  | Grp n r1 => run r1 s i c (fun j c' => k j ((n, (i, j)) :: c'))
  | Bol => if i =? 0 then k i c else None
  | Eol => if i =? List.length s then k i c else None
  | WordB => if isWordBoundary s i then k i c else None
  end.

Record mres := { m_start : nat; m_end : nat; m_caps : caps }.

Definition matchAt (r : re) (s : jsstring) (i : nat) : option mres :=
  match run r s i [] (fun j c => Some (j, c)) with
  | Some (j, c) => Some {| m_start := i; m_end := j; m_caps := c |}
  | None => None
  end.

(* leftmost match starting at position from or later *)
Fixpoint searchFrom (r : re) (s : jsstring) (n : nat) (from : nat) : option mres :=
  match matchAt r s from with
  | Some m => Some m
  | None => match n with
            | O => None
            | S n' => searchFrom r s n' (S from)
            end
  end.
Definition exec (r : re) (s : jsstring) (from : nat) : option mres :=
  if List.length s <? from then None else searchFrom r s (List.length s - from) from.

Definition test (r : re) (s : jsstring) : bool :=
  match exec r s 0 with Some _ => true | None => false end.

Definition whole (s : jsstring) (m : mres) : jsstring := slice s (m_start m) (m_end m).
Fixpoint lookup (n : nat) (c : caps) : option (nat * nat) :=
  match c with
  | [] => None
  | (n', v) :: c' => if n =? n' then Some v else lookup n c'
  end.
Definition group (s : jsstring) (m : mres) (n : nat) : option jsstring :=
  match lookup n (m_caps m) with
  | Some (a, b) => Some (slice s a b)
  | None => None
  end.

(* s.replace(r, repl) without the g flag *)
Definition replaceFirst (r : re) (repl s : jsstring) : jsstring :=
  match exec r s 0 with
  | Some m => firstn (m_start m) s ++ repl ++ skipn (m_end m) s
  | None => s
  end.

(* s.replace(r, repl) with the g flag *)
Fixpoint replaceAllFrom (fuel : nat) (r : re) (repl s : jsstring) (pos : nat) : jsstring :=
  match fuel with
  | O => skipn pos s
  | S fuel' =>
      match exec r s pos with
      | None => skipn pos s
      | Some m =>
          slice s pos (m_start m) ++ repl ++
          (if m_end m =? m_start m
           then slice s (m_end m) (S (m_end m)) ++ replaceAllFrom fuel' r repl s (S (m_end m))
           else replaceAllFrom fuel' r repl s (m_end m))
      end
  end.
Definition replaceAll (r : re) (repl s : jsstring) : jsstring :=
  replaceAllFrom (S (List.length s)) r repl s 0.

(* every match of a g-flagged expression, as a while ((m = re.exec(s))) loop sees them *)
Fixpoint execAllFrom (fuel : nat) (r : re) (s : jsstring) (pos : nat) : list mres :=
  match fuel with
  | O => []
  | S fuel' =>
      match exec r s pos with
      | None => []
      | Some m => m :: execAllFrom fuel' r s (if m_end m =? m_start m then S (m_end m) else m_end m)
      end
  end.
Definition execAll (r : re) (s : jsstring) : list mres := execAllFrom (S (List.length s)) r s 0.

(* s.split(r) for an expression without capture groups
   (p: start of the current piece, q: position where a separator is tried) *)
Fixpoint splitFrom (fuel : nat) (r : re) (s : jsstring) (p q : nat) : list jsstring :=
  match fuel with
  | O => [skipn p s]
  | S fuel' =>
      if List.length s <=? q then [skipn p s]
      else match matchAt r s q with
           | None => splitFrom fuel' r s p (S q)
           | Some m =>
               if m_end m =? p then splitFrom fuel' r s p (S q)
               else slice s p q :: splitFrom fuel' r s (m_end m) (m_end m)
           end
  end.
Definition split (r : re) (s : jsstring) : list jsstring :=
  match s with
  | [] => match matchAt r s 0 with Some _ => [] | None => [s] end
  | _ => splitFrom (S (List.length s)) r s 0 0
  end.

(* derived forms *)
Definition Opt (r : re) : re := Alt r Emp.
Definition Plus (r : re) : re := Cat r (Star true r).
Fixpoint Rep (n : nat) (r : re) : re :=
  match n with O => Emp | S n' => Cat r (Rep n' r) end.
(* r{n,m} as n copies followed by (m - n) nested optional copies *)
Fixpoint UpTo (n : nat) (r : re) : re :=
  match n with O => Emp | S n' => Opt (Cat r (UpTo n' r)) end.
Definition Range (n m : nat) (r : re) : re := Cat (Rep n r) (UpTo (m - n) r).
Definition AtLeast (n : nat) (r : re) : re := Cat (Rep n r) (Star true r).
Fixpoint Seq (l : list re) : re :=
  match l with [] => Emp | [r] => r | r :: l' => Cat r (Seq l') end.
Fixpoint Alts (l : list re) : re :=
  match l with [] => Emp | [r] => r | r :: l' => Alt r (Alts l') end.

(* Canonicalize of the i flag, on the characters this program's patterns use *)
Definition canon (c : char) : char := if isLower c then (c - 32)%N else c.
Definition C (c : char) : re := Chr (fun x => (x =? c)%N).
Definition Ci (c : char) : re := Chr (fun x => (canon x =? canon c)%N).
Definition Str (s : jsstring) : re := Seq (map C s).
Definition Stri (s : jsstring) : re := Seq (map Ci s).
Definition oneOf (l : list char) (x : char) : bool := existsb (fun c => (x =? c)%N) l.
Definition oneOfi (l : list char) (x : char) : bool := existsb (fun c => (canon x =? canon c)%N) l.
Definition ws : re := Chr isWs.
Definition digit : re := Chr isDigit.
End Re.
Import Re.

Definition ch (a : ascii) : char := N_of_ascii a.
Arguments ch a%_char.

(* splitToCols *)
Definition re_trailingBar : re := Seq [Star true ws; C (ch "|"); Star true ws; Eol].
Definition re_bar : re := Seq [Star true ws; C (ch "|"); Star true ws].
Definition nonEmpty (s : jsstring) : bool := negb (Nat.eqb (List.length s) 0).
Definition splitToCols (line : jsstring) : list jsstring :=
  filter nonEmpty (map trim (split re_bar (replaceFirst re_trailingBar [] line))).

(** * TextNormalizer *)
Definition LF : char := 10%N.
Definition CR : char := 13%N.
Definition TAB : char := 9%N.
Definition SP : char := 32%N.
Definition BSL : char := 92%N.
Definition QUOTE : char := 34%N.
Definition COMMA : char := 44%N.

(* s.replace(/\\r\\n/g, '\n'): the four characters backslash r backslash n *)
Fixpoint unescapeCRLF (s : jsstring) : jsstring :=
  match s with
  | a :: ((b :: c :: d :: s') as t) =>
      if ((a =? BSL) && (b =? ch "r") && (c =? BSL) && (d =? ch "n"))%N
      then LF :: unescapeCRLF s'
      else a :: unescapeCRLF t
  | _ => s
  end.

(* s.replace(/\\x/g, repl): backslash followed by the letter x *)
Fixpoint unescape (x : char) (repl : char) (s : jsstring) : jsstring :=
  match s with
  | a :: ((b :: s') as t) =>
      if ((a =? BSL) && (b =? x))%N then repl :: unescape x repl s'
      else a :: unescape x repl t
  | _ => s
  end.

(* s.replace(/\r\n/g, '\n') *)
Fixpoint crlfToLf (s : jsstring) : jsstring :=
  match s with
  | a :: ((b :: s') as t) =>
      if ((a =? CR) && (b =? LF))%N then LF :: crlfToLf s'
      else a :: crlfToLf t
  | _ => s
  end.

(* s.replace(/c/g, repl) for a single character c *)
Fixpoint replaceChar (c : char) (repl : jsstring) (s : jsstring) : jsstring :=
  match s with
  | a :: s' => (if (a =? c)%N then repl else [a]) ++ replaceChar c repl s'
  | [] => []
  end.

(* t matches \s*,?\s*$ *)
Definition isWrapTail (t : jsstring) : bool :=
  match dropWs t with
  | [] => true
  | c :: t' => (c =? COMMA)%N && match dropWs t' with [] => true | _ => false end
  end.

(* after the opening quote: the lazy group ([\s\S]*?) stops at the first
   quote that is followed by \s*,?\s*$ *)
Fixpoint wrapBody (s : jsstring) : option jsstring :=
  match s with
  | [] => None
  | c :: s' =>
      if (c =? QUOTE)%N && isWrapTail s' then Some []
      else match wrapBody s' with
           | Some body => Some (c :: body)
           | None => None
           end
  end.

(* s.match(/^\s*"([\s\S]*?)"\s*,?\s*$/), group 1 *)
Definition matchWrap (s : jsstring) : option jsstring :=
  match dropWs s with
  | c :: s' => if (c =? QUOTE)%N then wrapBody s' else None
  | [] => None
  end.

(* s.split(/\n/) *)
Fixpoint splitLines (s : jsstring) : list jsstring :=
  match s with
  | [] => [[]]
  | c :: s' =>
      if (c =? LF)%N then [] :: splitLines s'
      else match splitLines s' with
           | l :: ls => (c :: l) :: ls
           | [] => [[c]]
           end
  end.

(* line.replace(/\s{2,}/g, ' '); inRun: a run of two or more is being skipped *)
Fixpoint collapseFrom (inRun : bool) (s : jsstring) : jsstring :=
  match s with
  | [] => []
  | c :: s' =>
      if isWs c then
        if inRun then collapseFrom true s'
        else match s' with
             | d :: _ => if isWs d then SP :: collapseFrom true s' else c :: collapseFrom false s'
             | [] => [c]
             end
      else c :: collapseFrom false s'
  end.
Definition collapseSpaces (s : jsstring) : jsstring := collapseFrom false s.

Definition cleanLines (s : jsstring) : list jsstring :=
  filter (fun line => 0 <? List.length line) (map (fun line => trim (collapseSpaces line)) (splitLines s)).

Definition cleanOcrText (ocrText : jsstring) : jsstring :=
  let s := ocrText in
  let s := unescape (ch "t") TAB (unescape (ch "n") LF (unescapeCRLF s)) in
  let s := replaceChar CR [LF] (crlfToLf s) in
  let s := match matchWrap s with Some body => body | None => s end in
  let s := replaceChar TAB (js " | ") s in
  join [LF] (cleanLines s).

(** * The normaliser written with the expressions of the source *)
Definition anyChar : re := Chr (fun _ => true).                 (* [\s\S] *)
(* /^\s*"([\s\S]*?)"\s*,?\s*$/ *)
Definition re_wrap : re :=
  Seq [Bol; Star true ws; C QUOTE; Grp 1 (Star false anyChar); C QUOTE;
       Star true ws; Opt (C COMMA); Star true ws; Eol].

Definition cleanOcrTextRe (ocrText : jsstring) : jsstring :=
  let s := ocrText in
  let s := replaceAll (Str [BSL; ch "r"; BSL; ch "n"]) [LF] s in
  let s := replaceAll (Str [BSL; ch "n"]) [LF] s in
  let s := replaceAll (Str [BSL; ch "t"]) [TAB] s in
  let s := replaceAll (C CR) [LF] (replaceAll (Str [CR; LF]) [LF] s) in
  let s := match exec re_wrap s 0 with
           | Some wrap => match group s wrap 1 with Some g => g | None => s end
           | None => s
           end in
  let s := replaceAll (C TAB) (js " | ") s in
  let lines :=
    filter (fun line => 0 <? List.length line)
           (map (fun line => trim (replaceAll (AtLeast 2 ws) [SP] line)) (split (C LF) s)) in
  join [LF] lines.

Definition normaliserSamples : list jsstring :=
  [ [];
    js "a";
    js "  a   b  ";
    js "a\tb  c \n\n  d\r\ne";
    js "\\n\\\t\\r\n \\\r\\n";
    js "x\r\ny\\r\\nz";
    [QUOTE] ++ js "a" ++ [QUOTE];
    [QUOTE; QUOTE] ++ js "a" ++ [QUOTE; QUOTE];
    js "  " ++ [QUOTE] ++ js "a\tb" ++ [QUOTE] ++ js " , ";
    [QUOTE] ++ js "a" ++ [QUOTE] ++ js ",," ;
    [QUOTE] ++ js "a" ++ [QUOTE; COMMA; QUOTE] ++ js "b" ++ [QUOTE; COMMA];
    js "p" ++ [QUOTE] ++ js "q" ++ [QUOTE];
    [QUOTE];
    [QUOTE; QUOTE];
    [CR; LF; CR; CR; LF; LF; TAB; TAB; SP; 160%N; SP; ch "z"; 11%N; ch "w"; 12%N; 12%N; LF];
    js "품목\t규격\t수량\t단 가\r\n품명A\t10\t5,000\t50,000\r\n=== 이하여백 ===" ].

(** * TableLocator *)
Definition K_I : char := 51060%N.      (* U+C774 *)
Definition K_JAMO_I : char := 12643%N. (* U+3163 *)
Definition K_A : char := 50500%N.      (* U+C544 *)

Definition FOOTER_MARKER_REGEX : re :=
  Seq [Plus (C (ch "=")); Star true ws;
       Opt (Seq [Chr (oneOfi [K_I; K_JAMO_I; ch "I"; ch "|"; ch "l"; ch "1"; K_A]); Star true ws]);
       Stri (js "하여백"); Star true ws; Plus (C (ch "="))].

Fixpoint intersperse (sep : re) (l : list re) : list re :=
  match l with
  | [] => []
  | [r] => [r]
  | r :: l' => r :: sep :: intersperse sep l'
  end.

(* escapeRegex makes every character a literal; they are joined by \s*, flag i *)
Definition makeLooseRegexFromKeyword (word : jsstring) : re :=
  Seq (intersperse (Star true ws) (map Ci word)).
Definition buildVariantsRegex (variants : list jsstring) : re :=
  Grp 1 (Alts (map makeLooseRegexFromKeyword variants)).

(* s.replace(/\s+/g, '') *)
Definition stripSpaces (s : jsstring) : jsstring := replaceAll (Plus ws) [] s.

Record KeywordHit := {
  rowIndex : nat; startCol : nat; endCol : nat;
  stitched : jsstring; normalized : jsstring }.

Definition setHas (targets : list jsstring) (x : jsstring) : bool :=
  existsb (JsStr.eqb x) targets.

(* the loop over span, entered with the text stitched so far for columns
   i .. i+span-1; later holds the columns after them, more the spans left *)
Fixpoint stitchSpans (targets : list jsstring) (r i span more : nat)
         (stitchedSoFar : jsstring) (later : list jsstring) : list KeywordHit :=
  let normalizedNow := stripSpaces stitchedSoFar in
  let here :=
    if setHas targets normalizedNow
    then [{| rowIndex := r; startCol := i; endCol := i + span - 1;
             stitched := stitchedSoFar; normalized := normalizedNow |}]
    else [] in
  match more, later with
  | S more', c :: later' =>
      here ++ stitchSpans targets r i (S span) more' (stitchedSoFar ++ [SP] ++ c) later'
  | _, _ => here
  end.

Fixpoint stitchCols (targets : list jsstring) (maxSpan r i : nat)
         (cols : list jsstring) : list KeywordHit :=
  match cols with
  | [] => []
  | c :: later =>
      match maxSpan with
      | O => []
      | S more => stitchSpans targets r i 1 more c later
      end ++ stitchCols targets maxSpan r (S i) later
  end.

Fixpoint stitchRows (targets : list jsstring) (maxSpan r : nat)
         (lines : list jsstring) : list KeywordHit :=
  match lines with
  | [] => []
  | line :: rest =>
      stitchCols targets maxSpan r 0 (splitToCols line) ++ stitchRows targets maxSpan (S r) rest
  end.

Definition findStitchedKeywords (lines baseKeywords : list jsstring) (maxSpan : nat)
  : list KeywordHit :=
  stitchRows (map stripSpaces baseKeywords) maxSpan 0 lines.

Record CellHit := {
  c_rowIndex : nat; c_colIndex : nat; c_value : jsstring; c_line : jsstring }.

Fixpoint cellsOfRow (regex : re) (r c : nat) (line : jsstring) (cols : list jsstring)
  : list CellHit :=
  match cols with
  | [] => []
  | val :: cols' =>
      (if test regex val
       then [{| c_rowIndex := r; c_colIndex := c; c_value := val; c_line := line |}]
       else []) ++ cellsOfRow regex r (S c) line cols'
  end.

Fixpoint cellsOfRows (regex : re) (r : nat) (lines : list jsstring) : list CellHit :=
  match lines with
  | [] => []
  | line :: rest => cellsOfRow regex r 0 line (splitToCols line) ++ cellsOfRows regex (S r) rest
  end.

Definition findCellsByKeywords (lines variants : list jsstring) : list CellHit :=
  cellsOfRows (buildVariantsRegex variants) 0 lines.

Definition getCell (lines : list jsstring) (rowIdx colIdx : nat) : option jsstring :=
  match nth_error lines rowIdx with
  | Some line => nth_error (splitToCols line) colIdx
  | None => None
  end.

(* The Map of checkIsItHeaderLine.  Its keys `${rowIndex}:${startCol}-${endCol}`
   determine the three numbers, so they are kept as triples; set keeps the
   place of a key that is already present, as Map.prototype.set does. *)
Definition HitKey := (nat * nat * nat)%type.
Definition keyEqb (a b : HitKey) : bool :=
  let '(a1, a2, a3) := a in let '(b1, b2, b3) := b in
  (a1 =? b1) && (a2 =? b2) && (a3 =? b3).
Definition HitMap := list (HitKey * KeywordHit).
Fixpoint mapSet (k : HitKey) (v : KeywordHit) (m : HitMap) : HitMap :=
  match m with
  | [] => [(k, v)]
  | (k', v') :: m' => if keyEqb k k' then (k, v) :: m' else (k', v') :: mapSet k v m'
  end.
Definition mapValues (m : HitMap) : list KeywordHit := map snd m.
Definition key (h : KeywordHit) : HitKey := (rowIndex h, startCol h, endCol h).

Definition KW_UNIT_PRICE : jsstring := js "단가".

Definition addSeed (lines : list jsstring) (m : HitMap) (s : CellHit) : HitMap :=
  match getCell lines (c_rowIndex s) (c_colIndex s) with
  | Some cell =>
      if nonEmpty cell && JsStr.eqb (stripSpaces cell) KW_UNIT_PRICE
      then mapSet (c_rowIndex s, c_colIndex s, c_colIndex s)
                  {| rowIndex := c_rowIndex s; startCol := c_colIndex s;
                     endCol := c_colIndex s; stitched := cell;
                     normalized := KW_UNIT_PRICE |} m
      else m
  | None => m
  end.

Definition checkIsItHeaderLine (lines : list jsstring) : list KeywordHit :=
  let seedVariants := [js "단"; js "가"; js "단가"] in
  let seeds := findCellsByKeywords lines seedVariants in
  let stitchedHits := findStitchedKeywords lines [KW_UNIT_PRICE] 2 in
  let m := fold_left (fun m s => mapSet (key s) s m) stitchedHits [] in
  let m := fold_left (addSeed lines) seeds m in
  mapValues m.

Inductive FooterType := footer_marker | assignee.
Record FooterHit := {
  f_type : FooterType; f_rowIndex : nat; f_colIndex : option nat;
  f_value : jsstring; f_line : jsstring }.

Fixpoint findMarkerRow (r : nat) (lines : list jsstring) : option FooterHit :=
  match lines with
  | [] => None
  | line :: rest =>
      if test FOOTER_MARKER_REGEX line
      then Some {| f_type := footer_marker; f_rowIndex := r; f_colIndex := None;
                   f_value := line; f_line := line |}
      else findMarkerRow (S r) rest
  end.

(* hits.reduce((a, b) => (a.rowIndex <= b.rowIndex ? a : b)) on a non-empty array *)
Definition earliestCell (h : CellHit) (hits : list CellHit) : CellHit :=
  fold_left (fun a b => if c_rowIndex a <=? c_rowIndex b then a else b) hits h.

Definition checkIsItFooterLine (lines : list jsstring) : list FooterHit :=
  match findMarkerRow 0 lines with
  | Some f => [f]
  | None =>
      match findCellsByKeywords lines [js "인수자"] with
      | h :: hits =>
          let earliest := earliestCell h hits in
          [{| f_type := assignee; f_rowIndex := c_rowIndex earliest;
              f_colIndex := Some (c_colIndex earliest);
              f_value := c_value earliest; f_line := c_line earliest |}]
      | [] => []
      end
  end.

Open Scope Z_scope.

(* Array.prototype.slice(start, end) *)
Definition relIndex (len i : Z) : Z := if i <? 0 then Z.max (len + i) 0 else Z.min i len.
Definition arraySlice {A : Type} (l : list A) (from to : Z) : list A :=
  let len := Z.of_nat (List.length l) in
  let k := relIndex len from in
  let final := relIndex len to in
  firstn (Z.to_nat (final - k)) (skipn (Z.to_nat k) l).
Definition arraySliceFrom {A : Type} (l : list A) (from : Z) : list A :=
  arraySlice l from (Z.of_nat (List.length l)).

Record TableSlice := { start : option Z; end_ : option Z; rows : list jsstring }.

(* Math.min(...xs) on a non-empty array *)
Definition minOf (x : Z) (xs : list Z) : Z := fold_left Z.min xs x.
Definition earliestFooter (f : FooterHit) (fs : list FooterHit) : FooterHit :=
  fold_left (fun a b => if (f_rowIndex a <=? f_rowIndex b)%nat then a else b) fs f.

Definition sliceRowsBetweenHeaderFooter (lines : list jsstring) : TableSlice :=
  match checkIsItHeaderLine lines with
  | [] => {| start := None; end_ := None; rows := [] |}
  | h :: hs =>
      let headerIndex := minOf (Z.of_nat (rowIndex h)) (map (fun h => Z.of_nat (rowIndex h)) hs) in
      match checkIsItFooterLine lines with
      | [] => {| start := Some (headerIndex + 1); end_ := None;
                 rows := arraySliceFrom lines (headerIndex + 1) |}
      | f :: fs =>
          let firstFooter := earliestFooter f fs in
          let len := Z.of_nat (List.length lines) in
          let start := Z.min (Z.max (headerIndex + 1) 0) len in
          let endCut :=
            match f_type firstFooter with
            | footer_marker => Z.of_nat (f_rowIndex firstFooter) - 1
            | assignee => Z.of_nat (f_rowIndex firstFooter) - 2
            end in
          let end_ := Z.max (Z.min endCut (len - 1)) (-1) in
          let rows := if start <=? end_ then arraySlice lines start (end_ + 1) else [] in
          {| start := Some start; end_ := Some end_; rows := rows |}
      end
  end.
Close Scope Z_scope.

(** * VATCalculator: binary64 numbers *)
Open Scope Z_scope.

Module JsNum.
Definition prec : Z := 53.
Definition emax : Z := 1024.
Definition num := spec_float.
Definition of_Z (z : Z) : num := binary_normalize prec emax z 0 false.
Arguments of_Z z%_Z.
Definition mul (x y : num) : num := SFmul prec emax x y.
Definition div (x y : num) : num := SFdiv prec emax x y.
Definition lit_0_1 : num := div (of_Z 1) (of_Z 10).
Definition is_nan (x : num) : bool := match x with S754_nan => true | _ => false end.
Definition ceil (x : num) : num :=
  match x with
  | S754_finite s m e =>
      if 0 <=? e then x
      else binary_normalize prec emax (- ((- cond_Zopp s (Zpos m)) / 2 ^ (- e))) 0 s
  | _ => x
  end.
End JsNum.

Inductive JsValue := VUndefined | VNull | VNum (x : JsNum.num).
Definition ToBoolean (v : JsValue) : bool :=
  match v with
  | VUndefined | VNull => false
  | VNum (S754_zero _) | VNum S754_nan => false
  | VNum _ => true
  end.
Definition ToNumber (v : JsValue) : JsNum.num :=
  match v with
  | VUndefined => S754_nan
  | VNull => S754_zero false
  | VNum x => x
  end.
Definition isNaN (v : JsValue) : bool := JsNum.is_nan (ToNumber v).
Definition calculateVAT (supplyAmount : JsValue) : JsNum.num :=
  if negb (ToBoolean supplyAmount) || isNaN supplyAmount then JsNum.of_Z 0
  else JsNum.ceil (JsNum.mul (ToNumber supplyAmount) JsNum.lit_0_1).

Close Scope Z_scope.

(** * RowParser *)
Definition allDigits : re := Seq [Bol; Plus digit; Eol].          (* /^\d+$/ *)
Definition qtyLike : re := Seq [Bol; Range 1 2 digit; Eol].       (* /^\d{1,2}$/ *)
Definition hasLetter : re := Chr (fun c => isLatin c || isHangul c). (* /[A-Za-z가-힣]/ *)

Definition toIntStrict (s : jsstring) : option Z :=
  let n := filter isDigit s in                  (* replace(/[^0-9]/g, '') *)
  if nonEmpty n then Some (digitsToZ n) else None.

(* /^(\d{1,3}(,\d{3})+|\d{4,})$/ *)
Definition re_money : re :=
  Seq [Bol;
       Grp 1 (Alt (Seq [Range 1 3 digit; Plus (Grp 2 (Seq [C (ch ","); Rep 3 digit]))])
                  (AtLeast 4 digit));
       Eol].
Definition isMoneyToken (s : jsstring) : bool := test re_money (trim s).

Definition unitWord : re :=
  Alts [Stri (js "kg"); Stri (js "g"); Stri (js "l"); Stri (js "ml");
        Stri (js "cm"); Stri (js "mm"); Stri (js "ea")].
(* [0-9]+(?:\.[0-9]+)?\s*(?:kg|g|l|ml|cm|mm|ea)(?:\s*\*\s*\d+(?:\s*ea)?)? *)
Definition specCore : re :=
  Seq [Plus digit; Opt (Seq [C (ch "."); Plus digit]); Star true ws; unitWord;
       Opt (Seq [Star true ws; C (ch "*"); Star true ws; Plus digit;
                 Opt (Seq [Star true ws; Stri (js "ea")])])].
(* the same followed by (?:\s+\d{1,3})? *)
Definition specCoreCount : re := Seq [specCore; Opt (Seq [Plus ws; Range 1 3 digit])].

Definition re_specAfterDash : re := Seq [C (ch "-"); Star true ws; Grp 1 specCore].
Definition re_specStandalone : re := Seq [WordB; Grp 1 specCore; WordB].
Definition re_splitAfterDash : re := Seq [C (ch "-"); Star true ws; Grp 1 specCoreCount].
Definition re_splitStandalone : re := Seq [WordB; Grp 1 specCoreCount; WordB].

(* m[1].replace(/\s+/g, ' ').trim() *)
Definition tidySpec (s : jsstring) : jsstring := trim (replaceAll (Plus ws) [SP] s).

Fixpoint firstSpec (patterns : list re) (str : jsstring) : jsstring :=
  match patterns with
  | [] => []
  | p :: ps =>
      match exec p str 0 with
      | Some m =>
          match group str m 1 with
          | Some g => if nonEmpty g then tidySpec g else firstSpec ps str
          | None => firstSpec ps str
          end
      | None => firstSpec ps str
      end
  end.
Definition extractSpecificationFromText (text : jsstring) : jsstring :=
  firstSpec [re_specAfterDash; re_specStandalone] text.

Definition EM_DASH : char := 8212%N.
Definition EN_DASH : char := 8211%N.
(* /\([^()]*\)/g *)
Definition re_paren : re :=
  Seq [C (ch "("); Star true (Chr (fun c => negb (oneOf [ch "("; ch ")"] c))); C (ch ")")].
(* /[-—]\s*$/ *)
Definition re_trailingDash : re := Seq [Chr (oneOf [ch "-"; EM_DASH]); Star true ws; Eol].
(* /\s{2,}/g *)
Definition re_spaces2 : re := AtLeast 2 ws.

Record ItemSpec := { is_item : jsstring; is_spec : jsstring }.

Definition isInsideParens (spans : list mres) (idx : nat) : bool :=
  existsb (fun sp => (m_start sp <=? idx) && (idx <? m_end sp)) spans.

Fixpoint firstOutsideParens (spans : list mres) (ms : list mres) : option mres :=
  match ms with
  | [] => None
  | m :: ms' => if isInsideParens spans (m_start m) then firstOutsideParens spans ms' else Some m
  end.

Definition splitSpecFromItemName (text : jsstring) : ItemSpec :=
  let s := text in
  let parenSpans := execAll re_paren s in
  match exec re_splitAfterDash s 0 with
  | Some afterDash =>
      let spec := tidySpec (match group s afterDash 1 with Some g => g | None => [] end) in
      let item := trim (replaceFirst re_trailingDash [] (slice s 0 (m_start afterDash))) in
      {| is_item := item; is_spec := spec |}
  | None =>
      match firstOutsideParens parenSpans (execAll re_splitStandalone s) with
      | Some m =>
          let spec := tidySpec (match group s m 1 with Some g => g | None => [] end) in
          let item :=
            trim (replaceFirst re_trailingDash []
                    (replaceAll re_spaces2 [SP] (removeFirst (whole s m) s))) in
          {| is_item := item; is_spec := spec |}
      | None => {| is_item := trim s; is_spec := [] |}
      end
  end.

Record ParsedItem := {
  item : jsstring;
  specification : option jsstring;
  quantity : option Z;
  unitPrice : option Z;
  supplyAmount : option Z;
  vat : option JsNum.num }.

(* replace(/[\s,.-]/g, '') *)
Definition normalizeDigits (s : jsstring) : jsstring :=
  filter (fun c => negb (isWs c || oneOf [ch ","; ch "."; ch "-"] c)) s.

(* the loop over j of the numeric-item rule; the result is the new item
   and specification once a column is taken *)
Fixpoint promoteItem (later : list jsstring) (specification : jsstring)
  : option (jsstring * jsstring) :=
  match later with
  | [] => None
  | col :: later' =>
      let candidate := trim col in
      if negb (nonEmpty candidate) then promoteItem later' specification
      else
        let candNorm := normalizeDigits candidate in
        if negb (test allDigits candNorm)
           && (test hasLetter candidate || (0 <? List.length candNorm))
        then
          let split2 := splitSpecFromItemName candidate in
          Some (is_item split2,
                if nonEmpty specification then specification else is_spec split2)
        else promoteItem later' specification
  end.

Record Indexed := { ix : nat; num : Z }.

Fixpoint quantityCandidatesFrom (i : nat) (cols : list jsstring) : list Indexed :=
  match cols with
  | [] => []
  | c :: cols' =>
      (if test qtyLike (trim c)
       then [{| ix := i; num := digitsToZ (trim c) |}] else [])
      ++ quantityCandidatesFrom (S i) cols'
  end.

Fixpoint moneyFrom (i : nat) (cols : list jsstring) : list Indexed :=
  match cols with
  | [] => []
  | token :: cols' =>
      (if isMoneyToken token
       then match toIntStrict token with
            | Some n => if (1000 <=? n)%Z then [{| ix := i; num := n |}] else []
            | None => []
            end
       else [])
      ++ moneyFrom (S i) cols'
  end.

(* the first k with money[k+1].i === money[k].i + 1 *)
Fixpoint adjacentPair (money : list Indexed) : option (Indexed * Indexed) :=
  match money with
  | a :: ((b :: _) as rest) =>
      if ix b =? ix a + 1 then Some (a, b) else adjacentPair rest
  | _ => None
  end.

Definition parseItemRow (cols : list jsstring) : option ParsedItem :=
  match cols with
  | [] => None
  | col0 :: later =>
      let rawItem := trim col0 in
      if negb (nonEmpty rawItem) then None else
      let split := splitSpecFromItemName rawItem in
      let item := is_item split in
      let specification := is_spec split in
      (* a purely numeric item name takes the next non-numeric column *)
      let promoted :=
        if test allDigits (normalizeDigits item) then
          let '(item', specification') :=
            match promoteItem later specification with
            | Some p => p
            | None => (item, specification)
            end in
          if test allDigits (normalizeDigits item') then None
          else Some (item', specification')
        else Some (item, specification) in
      match promoted with
      | None => None
      | Some (item, specification) =>
          let specification :=
            match later with
            | col1 :: _ =>
                if negb (nonEmpty specification) then
                  let nextCol := trim col1 in
                  if negb (test qtyLike nextCol) then
                    let extracted := extractSpecificationFromText nextCol in
                    if nonEmpty extracted then extracted else nextCol
                  else specification
                else specification
            | [] => specification
            end in
          let specification :=
            if JsStr.eqb (trim specification) (js "-") then None else Some specification in
          let quantityCandidates := quantityCandidatesFrom 1 later in
          let '(quantity, quantityIndex) :=
            match quantityCandidates with
            | [q] => (Some (num q), Some (ix q))
            | _ => (None, None)
            end in
          let from := Nat.max 1 (match quantityIndex with Some qi => qi + 1 | None => 1 end) in
          let money := moneyFrom from (skipn from cols) in
          let '(unitPrice, unitPriceIndex, supplyAmount, supplyAmountIndex) :=
            match adjacentPair money with
            | Some (a, b) => (Some (num a), Some (ix a), Some (num b), Some (ix b))
            | None =>
                match money with
                | m0 :: _ =>
                    match find (fun m => ix m0 <? ix m) money with
                    | Some nextMoney =>
                        (Some (num m0), Some (ix m0), Some (num nextMoney), Some (ix nextMoney))
                    | None => (Some (num m0), Some (ix m0), None, None)
                    end
                | [] => (None, None, None, None)
                end
            end in
          match unitPrice with
          | None => None
          | Some _ =>
              let occupied (i : nat) :=
                match unitPriceIndex with Some u => i =? u | None => false end
                || match supplyAmountIndex with Some u => i =? u | None => false end in
              let quantity :=
                match quantity, quantityCandidates with
                | None, _ :: _ =>
                    match find (fun q => negb (occupied (ix q))) quantityCandidates with
                    | Some q => Some (num q)
                    | None => None
                    end
                | _, _ => quantity
                end in
              Some {| item := item; specification := specification; quantity := quantity;
                      unitPrice := unitPrice; supplyAmount := supplyAmount; vat := None |}
          end
      end
  end.

Fixpoint parseItemsFromRows (rows : list jsstring) : list ParsedItem :=
  match rows with
  | [] => []
  | line :: rest =>
      match parseItemRow (splitToCols line) with
      | Some row =>
          match unitPrice row with
          | Some _ => row :: parseItemsFromRows rest
          | None => parseItemsFromRows rest
          end
      | None => parseItemsFromRows rest
      end
  end.

(* main: parsedItems.forEach(item => { if (item.supplyAmount) item.vat = calculateVAT(item.supplyAmount) }) *)
Definition attachVAT (it : ParsedItem) : ParsedItem :=
  match supplyAmount it with
  | Some s =>
      if ToBoolean (VNum (JsNum.of_Z s))
      then {| item := item it; specification := specification it; quantity := quantity it;
              unitPrice := unitPrice it; supplyAmount := supplyAmount it;
              vat := Some (calculateVAT (VNum (JsNum.of_Z s))) |}
      else it
  | None => it
  end.
Definition parsedItemsWithVAT (rows : list jsstring) : list ParsedItem :=
  map attachVAT (parseItemsFromRows rows).

(** * RowSanitizer *)
Definition K (s : string) : re := Stri (js s).
Definition dashLike : char -> bool := oneOfi [ch "-"; EN_DASH; EM_DASH; ch "~"].

Definition rules : list re :=
  [ K "softcity.co.kr";                                        (* /softcity\.co\.kr/i *)
    K "www.";                                                  (* /www\./i *)
    K "NO";                                                    (* /NO/i *)
    K "BOX";                                                   (* /BOX/i *)
    K "EA";                                                    (* /EA/i *)
    K "특허출원";                                               (* /특허출원/i *)
    Seq [K "0K"; Star true ws; K "aF"];                        (* /0K\s*aF/i *)
    Seq [K "품목"; Star true ws; Chr dashLike; Star true ws; K "규격"];
                                                               (* /품목\s*[-–—~]\s*규격/i *)
    Grp 1 (Alt (K "경영박사") (K "1영박사"));                    (* /(경영박사|1영박사)/i *)
    Seq [Bol; K "품목"; Eol];                                  (* /^품목$/i *)
    Seq [Bol; Opt (C (ch "-")); Star true ws; K "규격"; Eol];  (* /^-?\s*규격$/i *)
    Seq [Bol; K "수량"; Eol];                                  (* /^수량$/i *)
    Seq [Bol; Range 5 6 digit; C (ch "-"); Range 2 5 digit; Eol];
                                                               (* /^\d{5,6}-\d{2,5}$/i *)
    K "박사" ].                                                 (* /박사/i *)

Record Removed := {
  rm_rowIndex : nat; rm_colIndex : nat; rm_line : jsstring; rm_column : jsstring;
  rm_prefixPruned : bool }.

(* /^\d+(?:\.\d+)?$/ after replace(/[\s,]/g, '') *)
Definition re_numeric : re := Seq [Bol; Plus digit; Opt (Seq [C (ch "."); Plus digit]); Eol].
Definition isNumericToken (s : jsstring) : bool :=
  test re_numeric (filter (fun c => negb (isWs c || (c =? COMMA)%N)) s).

(* /^(?:\d{1,2}\.\d{1,2}\s+\S+|[A-Za-z]{2,}\d{2,}|\d{6,})$/ *)
Definition re_prefixId : re :=
  Seq [Bol;
       Alts [Seq [Range 1 2 digit; C (ch "."); Range 1 2 digit; Plus ws;
                  Plus (Chr (fun c => negb (isWs c)))];
             Seq [AtLeast 2 (Chr isLatin); AtLeast 2 digit];
             AtLeast 6 digit];
       Eol].
Definition looksLikePrefixId (s : jsstring) : bool := test re_prefixId (trim s).
Definition isUnitToken (s : jsstring) : bool := test (Seq [Bol; unitWord; Eol]) (trim s).
Definition isQuantityLike (s : jsstring) : bool := test qtyLike (trim s).

(* the loop over the columns of one line: the columns no rule hits, and the
   record of each dropped one *)
Fixpoint dropNoise (rs : list re) (r c : nat) (line : jsstring) (cols : list jsstring)
  : list jsstring * list Removed :=
  match cols with
  | [] => ([], [])
  | col :: cols' =>
      let '(newCols, removed) := dropNoise rs r (S c) line cols' in
      if existsb (fun rule => test rule col) rs
      then (newCols, {| rm_rowIndex := r; rm_colIndex := c; rm_line := line;
                        rm_column := col; rm_prefixPruned := false |} :: removed)
      else (col :: newCols, removed)
  end.

Definition prunePrefix (r : nat) (line : jsstring) (newCols : list jsstring)
  : list jsstring * list Removed :=
  if 7 <=? List.length newCols then
    match newCols with
    | first :: rest =>
        let hasUnit := existsb isUnitToken rest in
        let quantityCount := List.length (filter isQuantityLike rest) in
        let moneyCount := List.length (filter isMoneyToken rest) in
        if negb (isMoneyToken first) && looksLikePrefixId first && hasUnit
           && (2 <=? moneyCount) && (1 <=? quantityCount)
        then (rest, [{| rm_rowIndex := r; rm_colIndex := 0; rm_line := line;
                        rm_column := first; rm_prefixPruned := true |}])
        else (newCols, [])
    | [] => (newCols, [])
    end
  else (newCols, []).

(* for (j = 0; j < addCount; j++) newCols.push(numericQueue.shift()) *)
Fixpoint appendFromQueue (addCount : nat) (newCols queue : list jsstring)
  : list jsstring * list jsstring :=
  match addCount, queue with
  | S n, q :: queue' => appendFromQueue n (newCols ++ [q]) queue'
  | _, _ => (newCols, queue)
  end.

Fixpoint setNth (idx : nat) (v : jsstring) (l : list jsstring) : list jsstring :=
  match l, idx with
  | [], _ => []
  | _ :: l', O => v :: l'
  | x :: l', S i => x :: setNth i v l'
  end.

(* for (j = 0; j < k; j++) { idx = n - k + j; replaced = newCols[idx];
     newCols[idx] = numericQueue.shift(); numericQueue.push(replaced) } *)
Fixpoint swapFromQueue (k idx : nat) (newCols queue : list jsstring)
  : list jsstring * list jsstring :=
  match k with
  | O => (newCols, queue)
  | S k' =>
      match queue, nth_error newCols idx with
      | q :: queue', Some replaced =>
          swapFromQueue k' (S idx) (setNth idx q newCols) (queue' ++ [replaced])
      | _, _ => (newCols, queue)
      end
  end.

Record CleanState := {
  kept : list jsstring;
  removed : list Removed;
  numericQueue : list jsstring;
  firstQueueFill : bool }.

Definition SEP : jsstring := js " | ".

(* how the queue is used on a row that is not purely numeric: not at all,
   addCount values appended, or the last k cells swapped *)
Inductive QueueUse := Untouched | Append (addCount : nat) | Swap (k : nat).

Definition queueUse (newCols queue : list jsstring) (first : bool) : QueueUse :=
  if (0 <? List.length queue) && (0 <? List.length newCols) then
    let n := List.length newCols in
    let hasQuantityLike := existsb (fun col => test qtyLike (trim col)) newCols in
    let nEffective := n + (if hasQuantityLike then 0 else 1) in
    let threshold := if first then 5 else 6 in
    if nEffective <? threshold then
      let need := threshold - nEffective in
      Append (Nat.max 0 (Nat.min (List.length queue) need))
    else Swap (Nat.min (List.length queue) n)
  else Untouched.

Definition consumeQueue (newCols queue : list jsstring) (first : bool)
  : list jsstring * list jsstring * bool :=
  match queueUse newCols queue first with
  | Untouched => (newCols, queue, first)
  | Append addCount =>
      let '(newCols', queue') := appendFromQueue addCount newCols queue in
      (newCols', queue', if 0 <? addCount then false else first)
  | Swap k =>
      let '(newCols', queue') := swapFromQueue k (List.length newCols - k) newCols queue in
      (newCols', queue', if 0 <? k then false else first)
  end.

(* the columns of a line that survive the noise rules and the prefix pruning *)
Definition filterRow (rs : list re) (r : nat) (line : jsstring)
  : list jsstring * list Removed :=
  let '(newCols, removed1) := dropNoise rs r 0 line (splitToCols line) in
  let '(newCols, removed2) := prunePrefix r line newCols in
  (newCols, removed1 ++ removed2).

(* one turn of the loop over rows *)
Definition cleanRow (rs : list re) (st : CleanState) (r : nat) (line : jsstring) : CleanState :=
  let '(newCols, removedHere) := filterRow rs r line in
  let removed' := removed st ++ removedHere in
  if (0 <? List.length newCols) && forallb isNumericToken newCols then
    {| kept := kept st; removed := removed';
       numericQueue := newCols ++ numericQueue st; firstQueueFill := firstQueueFill st |}
  else
    let '(newCols, queue, first) := consumeQueue newCols (numericQueue st) (firstQueueFill st) in
    let joined := trim (join SEP newCols) in
    if List.length joined =? 0 then
      {| kept := kept st; removed := removed'; numericQueue := queue; firstQueueFill := first |}
    else
      {| kept := kept st ++ [joined]; removed := removed';
         numericQueue := queue; firstQueueFill := first |}.

Fixpoint cleanLoop (rs : list re) (st : CleanState) (r : nat) (rows : list jsstring) : CleanState :=
  match rows with
  | [] => st
  | line :: rest => cleanLoop rs (cleanRow rs st r line) (S r) rest
  end.

Definition initialState : CleanState :=
  {| kept := []; removed := []; numericQueue := []; firstQueueFill := true |}.

Definition cleanRowsWith (rs : list re) (rows : list jsstring) : list jsstring * list Removed :=
  let st := cleanLoop rs initialState 0 rows in (kept st, removed st).
Definition cleanRowsWithRules (rows : list jsstring) : list jsstring * list Removed :=
  cleanRowsWith rules rows.

Definition survivingCols (rs : list re) (line : jsstring) : list jsstring :=
  fst (filterRow rs 0 line).
Definition isNumericLine (rs : list re) (line : jsstring) : bool :=
  (0 <? List.length (survivingCols rs line)) && forallb isNumericToken (survivingCols rs line).

(* whether the trailing-column swap rewrites this line in state st *)
Definition swapsAt (rs : list re) (st : CleanState) (line : jsstring) : bool :=
  negb (isNumericLine rs line)
  && match queueUse (survivingCols rs line) (numericQueue st) (firstQueueFill st) with
     | Swap _ => true
     | _ => false
     end.

(* no line of the run is rewritten by a swap *)
Fixpoint swapFree (rs : list re) (st : CleanState) (r : nat) (rows : list jsstring) : bool :=
  match rows with
  | [] => true
  | line :: rest => negb (swapsAt rs st line) && swapFree rs (cleanRow rs st r line) (S r) rest
  end.

(* the columns a turn of the loop joins into a kept row, when it keeps one *)
Definition emittedCols (rs : list re) (st : CleanState) (line : jsstring)
  : option (list jsstring) :=
  if isNumericLine rs line then None
  else
    let '(newCols, _, _) :=
      consumeQueue (survivingCols rs line) (numericQueue st) (firstQueueFill st) in
    if List.length (trim (join SEP newCols)) =? 0 then None else Some newCols.

(* the columns behind every kept row of a run, in order *)
Fixpoint keptCols (rs : list re) (st : CleanState) (r : nat) (rows : list jsstring)
  : list (list jsstring) :=
  match rows with
  | [] => []
  | line :: rest =>
      match emittedCols rs st line with Some cols => [cols] | None => [] end
      ++ keptCols rs (cleanRow rs st r line) (S r) rest
  end.

Definition joinRow (cols : list jsstring) : jsstring := trim (join SEP cols).
Definition hasTextToken (cols : list jsstring) : bool :=
  existsb (fun c => negb (isNumericToken c)) cols.

(** * SchemaValidator *)
Inductive Issue :=
| InsufficientColumns (got : nat)   (* `Insufficient columns: expected at least 4, got ${cols.length}` *)
| MissingItemName                   (* 'Missing item name (품명)' *)
| MissingMoneyValues (found : nat)  (* `Missing required money values: ... found ${moneyTokens.length}` *)
| MissingQuantity                   (* 'Missing quantity (수량)' *)
| ItemNull                          (* 'Item (품명) cannot be null' *)
| QuantityNull                      (* 'Quantity (수량) cannot be null' *)
| UnitPriceNull                     (* 'Unit price (단가) cannot be null' *)
| SupplyAmountNull.                 (* 'Supply amount (공급가액) cannot be null' *)

Record Schema := {
  s_item : option jsstring; s_specification : option jsstring;
  s_quantity : option jsstring; s_unitPrice : option jsstring;
  s_supplyAmount : option jsstring; s_vat : option jsstring }.

Record Validation := {
  v_rowIndex : nat; v_row : jsstring; v_cols : list jsstring; v_colCount : nat;
  v_schema : option Schema; v_issues : list Issue }.

(* replace(/[,\s]/g, '') *)
Definition dropCommasSpaces (s : jsstring) : jsstring :=
  filter (fun c => negb ((c =? COMMA)%N || isWs c)) s.
Definition isValidMoney (val : jsstring) : bool :=
  nonEmpty val && test (Seq [Bol; AtLeast 4 digit; Eol]) (dropCommasSpaces val).
Definition isValidQuantity (val : jsstring) : bool :=
  nonEmpty val && test (Seq [Bol; Range 1 3 digit; Eol]) (dropCommasSpaces val).
Definition isValidItem (val : jsstring) : bool :=
  nonEmpty val && nonEmpty (trim val) && test (Chr (fun c => isHangul c || isLatin c)) val.

Record Col := { index : nat; value : jsstring }.

(* for (i = from; i < to; i++) if (p(cols[i])) { found = {index: i, value: cols[i]}; break } *)
Fixpoint findCol (p : jsstring -> bool) (cols : list jsstring) (from to : nat) (fuel : nat)
  : option Col :=
  match fuel with
  | O => None
  | S fuel' =>
      if from <? to then
        match nth_error cols from with
        | Some c => if p c then Some {| index := from; value := c |}
                    else findCol p cols (S from) to fuel'
        | None => findCol p cols (S from) to fuel'
        end
      else None
  end.

Fixpoint moneyTokensFrom (i : nat) (cols : list jsstring) : list Col :=
  match cols with
  | [] => []
  | c :: cols' =>
      (if isValidMoney c then [{| index := i; value := c |}] else [])
      ++ moneyTokensFrom (S i) cols'
  end.

Definition truthy (v : option jsstring) : bool :=
  match v with Some s => nonEmpty s | None => false end.

Inductive Verdict := Valid | Invalid.

Definition validateRow (idx : nat) (row : jsstring) : Verdict * Validation :=
  let cols := splitToCols row in
  let mk schema issues :=
    {| v_rowIndex := idx; v_row := row; v_cols := cols; v_colCount := List.length cols;
       v_schema := schema; v_issues := issues |} in
  if List.length cols <? 4 then
    (Invalid, mk None [InsufficientColumns (List.length cols)])
  else
    match findCol isValidItem cols 0 (List.length cols) (List.length cols) with
    | None => (Invalid, mk None [MissingItemName])
    | Some itemCol =>
        let moneyTokens := moneyTokensFrom 0 cols in
        match moneyTokens with
        | unitPriceCol :: supplyAmountCol :: more =>
            let vatCol := match more with c :: _ => Some c | [] => None end in
            let quantityCol :=
              findCol isValidQuantity cols (index itemCol + 1) (index unitPriceCol)
                      (List.length cols) in
            let issues := match quantityCol with None => [MissingQuantity] | Some _ => [] end in
            let specCol :=
              match quantityCol with
              | Some q =>
                  findCol (fun c => nonEmpty c && negb (isValidQuantity c) && negb (isValidMoney c))
                          cols (index itemCol + 1) (index q) (List.length cols)
              | None => None
              end in
            let schema :=
              {| s_item := Some (value itemCol);
                 s_specification := option_map value specCol;
                 s_quantity := option_map value quantityCol;
                 s_unitPrice := Some (value unitPriceCol);
                 s_supplyAmount := Some (value supplyAmountCol);
                 s_vat := option_map value vatCol |} in
            let issues := issues ++ (if truthy (s_item schema) then [] else [ItemNull]) in
            let issues := issues ++ (if truthy (s_quantity schema) then [] else [QuantityNull]) in
            let issues := issues ++ (if truthy (s_unitPrice schema) then [] else [UnitPriceNull]) in
            let issues := issues ++ (if truthy (s_supplyAmount schema) then [] else [SupplyAmountNull]) in
            (match issues with [] => Valid | _ => Invalid end, mk (Some schema) issues)
        | _ => (Invalid, mk None [MissingMoneyValues (List.length moneyTokens)])
        end
    end.

Fixpoint validateFrom (idx : nat) (rows : list jsstring)
  : list Validation * list Validation :=
  match rows with
  | [] => ([], [])
  | row :: rest =>
      let '(valid, invalid) := validateFrom (S idx) rest in
      match validateRow idx row with
      | (Valid, v) => (v :: valid, invalid)
      | (Invalid, v) => (valid, v :: invalid)
      end
  end.
Definition validateRowSchema (rows : list jsstring) : list Validation * list Validation :=
  validateFrom 0 rows.

(** * escapeRegex *)

(* the class /[.*+?^${}()|[\]\\]/ *)
Definition isRegexSpecial (c : char) : bool :=
  oneOf [ch "."; ch "*"; ch "+"; ch "?"; ch "^"; ch "$"; ch "{"; ch "}";
         ch "("; ch ")"; ch "|"; ch "["; ch "]"; BSL] c.

(* s.replace(/[.*+?^${}()|[\]\\]/g, '\\$&'): a backslash before each such character *)
Definition escapeRegex (s : jsstring) : jsstring :=
  flat_map (fun c => if isRegexSpecial c then [BSL; c] else [c]) s.

(* [...String(word)]: the string iterator yields code points, a surrogate
   pair as one element *)
Definition isHighSurrogate (c : char) : bool := ((55296 <=? c) && (c <=? 56319))%N.
Definition isLowSurrogate (c : char) : bool := ((56320 <=? c) && (c <=? 57343))%N.
Fixpoint codePoints (s : jsstring) : list jsstring :=
  match s with
  | a :: ((b :: s') as t) =>
      if isHighSurrogate a && isLowSurrogate b then [a; b] :: codePoints s'
      else [a] :: codePoints t
  | [a] => [[a]]
  | [] => []
  end.

(* the pattern text that makeLooseRegexFromKeyword hands to new RegExp:
   chars.map(ch => escapeRegex(ch)).join('\\s*') *)
Definition looseSource (word : jsstring) : jsstring :=
  join [BSL; ch "s"; ch "*"] (map escapeRegex (codePoints word)).

(* new RegExp(source, 'i') on the pattern texts this program builds: a syntax
   character after a backslash and any other character stand for
   themselves, up to case; \s* is a run of whitespace; None for a text outside
   this fragment *)
Fixpoint parseLoose (fuel : nat) (src : jsstring) : option (list re) :=
  match fuel with
  | O => None
  | S fuel' =>
      match src with
      | [] => Some []
      | a :: rest =>
          if (a =? BSL)%N then
            match rest with
            | b :: rest' =>
                if (b =? ch "s")%N then
                  match rest' with
                  | st :: rest'' =>
                      if (st =? ch "*")%N
                      then option_map (cons (Star true ws)) (parseLoose fuel' rest'')
                      else None
                  | [] => None
                  end
                else if isRegexSpecial b
                     then option_map (cons (Ci b)) (parseLoose fuel' rest')
                     else None
            | [] => None
            end
          else if isRegexSpecial a then None
               else option_map (cons (Ci a)) (parseLoose fuel' rest)
      end
  end.
Definition regExpLoose (src : jsstring) : option re :=
  option_map Seq (parseLoose (S (List.length src)) src).

(** * The sanitiser of the test script: the same loop with twelve rules *)
Definition rules_test : list re :=
  [ K "softcity.co.kr";
    K "www.";
    K "NO";
    K "BOX";
    K "EA";
    K "특허출원";
    Seq [K "0K"; Star true ws; K "aF"];
    Seq [K "품목"; Star true ws; Chr dashLike; Star true ws; K "규격"];
    Grp 1 (Alt (K "경영박사") (K "1영박사"));
    Seq [Bol; K "품목"; Eol];
    Seq [Bol; Opt (C (ch "-")); Star true ws; K "규격"; Eol];
    Seq [Bol; K "수량"; Eol] ].
Definition cleanRowsWithRules_test (rows : list jsstring) : list jsstring * list Removed :=
  cleanRowsWith rules_test rows.

(** * main: from the text of the OCR service to the parsed items *)

(* cleanOcrText(ocrText).split('\n') *)
Definition mainLines (ocrText : jsstring) : list jsstring := splitLines (cleanOcrText ocrText).
Definition mainSlice (ocrText : jsstring) : TableSlice :=
  sliceRowsBetweenHeaderFooter (mainLines ocrText).
Definition mainCleaned (ocrText : jsstring) : list jsstring * list Removed :=
  cleanRowsWithRules (rows (mainSlice ocrText)).
Definition mainValidation (ocrText : jsstring) : list Validation * list Validation :=
  validateRowSchema (fst (mainCleaned ocrText)).
Definition mainParsedItems (ocrText : jsstring) : list ParsedItem :=
  parsedItemsWithVAT (fst (mainCleaned ocrText)).

(* the main of the test script: twelve rules, and no VAT is attached *)
Definition mainParsedItems_test (ocrText : jsstring) : list ParsedItem :=
  parseItemsFromRows (fst (cleanRowsWithRules_test (rows (mainSlice ocrText)))).

(** * main: the valid rows handed on with their VAT *)

(* parseInt(text) without a radix: white space at the start is skipped, a
   sign is read, 0x or 0X selects base 16, then the longest run of digits of
   the base is read; NaN when there is none.  The integer read is converted
   to the nearest binary64 number. *)
Definition digitOfBase (base : Z) (c : char) : option Z :=
  if isDigit c then Some (Z.of_N (c - 48))
  else if (base =? 16)%Z then
         if ((97 <=? c) && (c <=? 102))%N then Some (Z.of_N (c - 87))
         else if ((65 <=? c) && (c <=? 70))%N then Some (Z.of_N (c - 55))
              else None
       else None.
Fixpoint readDigits (base acc : Z) (s : jsstring) : Z :=
  match s with
  | c :: s' =>
      match digitOfBase base c with
      | Some d => readDigits base (acc * base + d) s'
      | None => acc
      end
  | [] => acc
  end.
Definition startsWithDigit (base : Z) (s : jsstring) : bool :=
  match s with
  | c :: _ => match digitOfBase base c with Some _ => true | None => false end
  | [] => false
  end.
Definition parseInt (text : jsstring) : JsNum.num :=
  let s := dropWs text in
  let '(neg, s) :=
    match s with
    | c :: r => if (c =? ch "-")%N then (true, r)
                else if (c =? ch "+")%N then (false, r) else (false, s)
    | [] => (false, s)
    end in
  let '(base, s) :=
    match s with
    | z :: x :: r =>
        if (z =? ch "0")%N && ((x =? ch "x")%N || (x =? ch "X")%N) then (16%Z, r)
        else (10%Z, s)
    | _ => (10%Z, s)
    end in
  if startsWithDigit base s
  then let n := readDigits base 0 s in
       if neg then (if (n =? 0)%Z then S754_zero true else JsNum.of_Z (- n))
       else JsNum.of_Z n
  else S754_nan.

(* the vat field of a schema after main has filled it in: still null, the
   text of the third money column, or the number computed by calculateVAT *)
Inductive VatField := VatNull | VatText (t : jsstring) | VatNumber (x : JsNum.num).
Record SchemaWithVAT := {
  w_item : option jsstring; w_specification : option jsstring;
  w_quantity : option jsstring; w_unitPrice : option jsstring;
  w_supplyAmount : option jsstring; w_vat : VatField }.

(* const schema = { ...v.schema };
   if (schema.supplyAmount && !schema.vat) {
     schema.vat = calculateVAT(parseInt(String(schema.supplyAmount).replace(/[,\s]/g, ''))) } *)
Definition withVAT (v : Validation) : SchemaWithVAT :=
  match v_schema v with
  | Some sch =>
      let vat0 := match s_vat sch with Some t => VatText t | None => VatNull end in
      {| w_item := s_item sch; w_specification := s_specification sch;
         w_quantity := s_quantity sch; w_unitPrice := s_unitPrice sch;
         w_supplyAmount := s_supplyAmount sch;
         w_vat :=
           match s_supplyAmount sch with
           | Some a =>
               if truthy (s_supplyAmount sch) && negb (truthy (s_vat sch))
               then VatNumber (calculateVAT (VNum (parseInt (dropCommasSpaces a))))
               else vat0
           | None => vat0
           end |}
  | None =>
      (* the spread of null is the empty object *)
      {| w_item := None; w_specification := None; w_quantity := None;
         w_unitPrice := None; w_supplyAmount := None; w_vat := VatNull |}
  end.
Definition validRowsWithVAT (valid : list Validation) : list SchemaWithVAT :=
  map withVAT valid.
Definition mainValidRowsWithVAT (ocrText : jsstring) : list SchemaWithVAT :=
  validRowsWithVAT (fst (mainValidation ocrText)).

(** * Predicates and auxiliary functions used in the proofs *)

(* where the bits shifted out of a mantissa lie with respect to one half:
   rest is their value and N the weight of the last kept bit *)
Definition loc_ok (N rest : Z) (r s : bool) : Prop :=
  (match r, s with
   | false, false => rest = 0
   | false, true => 0 < 2 * rest < N
   | true, false => 2 * rest = N
   | true, true => N < 2 * rest
   end)%Z.

(* What holds of every entry of the header map. *)
Definition entryOk (lines : list jsstring) (e : HitKey * KeywordHit) : Prop :=
  key (snd e) = fst e /\ rowIndex (snd e) < List.length lines /\
  normalized (snd e) = KW_UNIT_PRICE.

(* no backslash is directly followed by the letter e; prevBsl tells whether
   the character before s is a backslash *)
Fixpoint escFree (e : char) (prevBsl : bool) (s : jsstring) : bool :=
  match s with
  | [] => true
  | c :: s' => negb (prevBsl && (c =? e)%N) && escFree e (c =? BSL)%N s'
  end.

(* no two adjacent whitespace characters; prevWs tells whether the character
   before s is whitespace *)
Fixpoint runFree (prevWs : bool) (s : jsstring) : bool :=
  match s with
  | [] => true
  | c :: s' => negb (prevWs && isWs c) && runFree (isWs c) s'
  end.

Definition startsTight (s : jsstring) : Prop :=
  match s with c :: _ => isWs c = false | [] => True end.

(* a replacement text without backslash that does not start with e *)
Definition plainText (e : char) (repl : jsstring) : Prop :=
  forall p l, escFree e false l = true -> escFree e p (repl ++ l) = true.

Definition plainLineText (s : jsstring) : Prop :=
  escFree (ch "n") false s = true /\ escFree (ch "t") false s = true /\
  ~ In CR s /\ ~ In TAB s.

Definition normalLine (l : jsstring) : Prop :=
  plainLineText l /\ ~ In LF l /\ l <> [] /\ trim (collapseSpaces l) = l.

Definition BAR : char := ch "|".

(* number of whitespace characters at the head of s *)
Fixpoint wsLen (s : jsstring) : nat :=
  match s with
  | c :: s' => if isWs c then S (wsLen s') else 0
  | [] => 0
  end.

(* the loop that [run] performs for a starred character class *)
Definition starLoop (p : char -> bool) (s : jsstring) (k : nat -> caps -> result)
  : nat -> nat -> caps -> result :=
  fix loop (n i : nat) (c : caps) {struct n} : result :=
    match n with
    | O => k i c
    | S n' =>
        match
          match nth_error s i with
          | Some x => if p x then (if i <? S i then loop n' (S i) c else None) else None
          | None => None
          end
        with
        | Some r => Some r
        | None => k i c
        end
    end.

(* length of the separator \s*\|\s* at the head of t, if there is one *)
Definition barMatchLen (t : jsstring) : option nat :=
  let w := wsLen t in
  match nth_error t w with
  | Some x => if (x =? BAR)%N then Some (S w + wsLen (skipn (S w) t)) else None
  | None => None
  end.

(* s.split(/\s*\|\s*/) on the rest t of the text, piece being the part of
   the current piece already passed *)
Fixpoint splitPieces (fuel : nat) (piece t : jsstring) : list jsstring :=
  match fuel with
  | O => [piece ++ t]
  | S fuel' =>
      match t with
      | [] => [piece]
      | x :: t' =>
          match barMatchLen t with
          | None => splitPieces fuel' (piece ++ [x]) t'
          | Some len => piece :: splitPieces fuel' [] (skipn len t)
          end
      end
  end.

(* what every column produced by splitToCols looks like *)
Definition cellLike (c : jsstring) : Prop :=
  c <> [] /\ startsTight c /\ startsTight (rev c) /\ ~ In BAR c.

(** * Predicates used in the further properties *)

(** * Predicates on the locator's hits *)

(* the hit recorded for a stitched text, if it is a target *)
Definition hitOf (targets : list jsstring) (r i e : nat) (text : jsstring) : list KeywordHit :=
  if setHas targets (stripSpaces text)
  then [{| rowIndex := r; startCol := i; endCol := e;
           stitched := text; normalized := stripSpaces text |}]
  else [].

(* h is the hit of column j alone, or of columns j and j+1 joined by a space,
   in a row r whose columns are numbered from i *)
Definition hitAtCol (targets : list jsstring) (r i : nat) (cols : list jsstring) (j : nat)
           (h : KeywordHit) : Prop :=
  (exists c, nth_error cols j = Some c /\ In h (hitOf targets r (i + j) (i + j) c)) \/
  (exists a b, nth_error cols j = Some a /\ nth_error cols (S j) = Some b /\
               In h (hitOf targets r (i + j) (S (i + j)) (a ++ [SP] ++ b))).

(* reading order of cells: by row, then by column *)
Definition cellBefore (a b : CellHit) : Prop :=
  c_rowIndex a < c_rowIndex b \/
  (c_rowIndex a = c_rowIndex b /\ c_colIndex a < c_colIndex b).

(* t spells the word w, letter by letter up to case, with whitespace allowed
   between one letter and the next *)
Fixpoint spaced (w t : jsstring) : Prop :=
  match w with
  | [] => t = []
  | c :: w' =>
      match w' with
      | [] => exists x, t = [x] /\ canon x = canon c
      | _ :: _ =>
          exists x gap t', t = x :: gap ++ t' /\ canon x = canon c /\
                           forallb isWs gap = true /\ spaced w' t'
      end
  end.

(* the characters of the program's keywords: for these the i flag relates a
   character to nothing but its ASCII case variants *)
Definition asciiOrHangul (c : char) : bool := (c <? 128)%N || isHangul c.


(* the amount n is read from the money column at position i *)
Definition moneyAt (cols : list jsstring) (i : nat) (n : Z) : Prop :=
  exists t, nth_error cols i = Some t /\ isMoneyToken t = true /\
            toIntStrict t = Some n /\ (1000 <= n)%Z.

(* the quantity q is read from the one- or two-digit column at position k *)
Definition quantityAt (cols : list jsstring) (k : nat) (q : Z) : Prop :=
  exists c, nth_error cols k = Some c /\ test qtyLike (trim c) = true /\
            q = digitsToZ (trim c).

Definition latin (x : char) : Prop := isLatin x = true.
(* the column holds digits with blanks, commas, points and dashes only *)
Definition numericColumn (c : jsstring) : Prop :=
  test allDigits (normalizeDigits (trim c)) = true.

(** * What a regular expression matches *)

(* the loop that [run] performs for a starred expression, step being the
   matcher of its body *)
Definition loopStar (greedy : bool)
           (step : nat -> caps -> (nat -> caps -> result) -> result)
           (k : nat -> caps -> result) : nat -> nat -> caps -> result :=
  fix loop (n : nat) (i : nat) (c : caps) {struct n} : result :=
    match n with
    | O => k i c
    | S n' =>
        let again := step i c (fun j c' => if i <? j then loop n' j c' else None) in
        if greedy then
          match again with Some x => Some x | None => k i c end
        else
          match k i c with Some x => Some x | None => again end
    end.

(* r matches the part of s that starts at position i and ends before j *)
Inductive Matches (s : jsstring) : re -> nat -> nat -> Prop :=
| M_Chr (p : char -> bool) (i : nat) (x : char) :
    nth_error s i = Some x -> p x = true -> Matches s (Chr p) i (S i)
| M_Emp (i : nat) : Matches s Emp i i
| M_Cat (r1 r2 : re) (i m j : nat) :
    Matches s r1 i m -> Matches s r2 m j -> Matches s (Cat r1 r2) i j
| M_AltL (r1 r2 : re) (i j : nat) : Matches s r1 i j -> Matches s (Alt r1 r2) i j
| M_AltR (r1 r2 : re) (i j : nat) : Matches s r2 i j -> Matches s (Alt r1 r2) i j
| M_Star0 (g : bool) (r : re) (i : nat) : Matches s (Star g r) i i
| M_StarS (g : bool) (r : re) (i m j : nat) :
    Matches s r i m -> i < m -> Matches s (Star g r) m j -> Matches s (Star g r) i j
| M_Grp (n : nat) (r : re) (i j : nat) : Matches s r i j -> Matches s (Grp n r) i j
| M_Bol : Matches s Bol 0 0
| M_Eol : Matches s Eol (List.length s) (List.length s)
| M_WordB (i : nat) : isWordBoundary s i = true -> Matches s WordB i i.

(* every character of s from position i up to j is in the class p *)
Definition allIn (p : char -> bool) (s : jsstring) (i j : nat) : Prop :=
  forall x, i <= x < j -> exists c, nth_error s x = Some c /\ p c = true.

(* a continuation that accepts the end of the match, whatever was captured *)
Definition accepts (k : nat -> caps -> result) (j : nat) : Prop := forall c, k j c <> None.

(* every match of r contains a character with the property P *)
Inductive Needs (P : char -> Prop) : re -> Prop :=
| N_Chr (p : char -> bool) : (forall x, p x = true -> P x) -> Needs P (Chr p)
| N_CatL (r1 r2 : re) : Needs P r1 -> Needs P (Cat r1 r2)
| N_CatR (r1 r2 : re) : Needs P r2 -> Needs P (Cat r1 r2)
| N_Alt (r1 r2 : re) : Needs P r1 -> Needs P r2 -> Needs P (Alt r1 r2)
| N_Grp (n : nat) (r : re) : Needs P r -> Needs P (Grp n r).

(** * Predicates on the sanitiser's records *)

(* no noise rule matches the column *)
Definition noRuleHits (rs : list re) (col : jsstring) : Prop :=
  existsb (fun rule => test rule col) rs = false.

(* a record of removal tells the truth about the row it names *)
Definition recordOk (rs : list re) (rows : list jsstring) (rec : Removed) : Prop :=
  nth_error rows (rm_rowIndex rec) = Some (rm_line rec) /\
  In (rm_column rec) (splitToCols (rm_line rec)) /\
  (rm_prefixPruned rec = false ->
   nth_error (splitToCols (rm_line rec)) (rm_colIndex rec) = Some (rm_column rec) /\
   existsb (fun rule => test rule (rm_column rec)) rs = true) /\
  (rm_prefixPruned rec = true ->
   rm_colIndex rec = 0 /\ noRuleHits rs (rm_column rec) /\
   looksLikePrefixId (rm_column rec) = true /\ isMoneyToken (rm_column rec) = false).

(** * Facts about binary64 rounding *)

Open Scope Z_scope.

(* the literal 0.1 is the double 0x3FB999999999999A *)
Lemma lit_0_1_bits : JsNum.lit_0_1 = S754_finite false 7205759403792794 (-56).
Proof. vm_compute. reflexivity. Qed.

Lemma iter_pos_nat {A : Type} (f : A -> A) (p : positive) (x : A) :
  iter_pos f p x = Nat.iter (Pos.to_nat p) f x.
Proof.
  revert x; induction p as [p IH | p IH |]; intros x; cbn [iter_pos].
  - rewrite !IH, Pos2Nat.inj_xI.
    replace (S (2 * Pos.to_nat p)) with (Pos.to_nat p + S (Pos.to_nat p))%nat by lia.
    rewrite Nat.iter_add, Nat.iter_succ_r. reflexivity.
  - rewrite !IH, Pos2Nat.inj_xO.
    replace (2 * Pos.to_nat p)%nat with (Pos.to_nat p + Pos.to_nat p)%nat by lia.
    rewrite Nat.iter_add. reflexivity.
  - reflexivity.
Qed.

Lemma shr_1_step (m : Z) (r s : bool) (N rest : Z) :
  0 <= m -> 0 < N -> 0 <= rest < N -> loc_ok N rest r s ->
  let R := shr_1 (Build_shr_record m r s) in
  exists rest',
    m * N + rest = shr_m R * (2 * N) + rest' /\ 0 <= rest' < 2 * N /\
    0 <= shr_m R /\ loc_ok (2 * N) rest' (shr_r R) (shr_s R).
Proof.
  intros Hm HN Hrest Hloc R; subst R.
  destruct m as [| p | p]; [| | lia].
  - exists rest. cbn [shr_1 shr_m shr_r shr_s].
    repeat split; try lia.
    destruct r, s; cbn [loc_ok orb] in *; lia.
  - destruct p as [p | p |].
    + exists (rest + N). cbn [shr_1 shr_m shr_r shr_s].
      repeat split; try lia.
      destruct r, s; cbn [loc_ok orb] in *; lia.
    + exists rest. cbn [shr_1 shr_m shr_r shr_s].
      repeat split; try lia.
      destruct r, s; cbn [loc_ok orb] in *; lia.
    + exists (rest + N). cbn [shr_1 shr_m shr_r shr_s].
      repeat split; try lia.
      destruct r, s; cbn [loc_ok orb] in *; lia.
Qed.

Lemma shr_iter (m : Z) (k : nat) :
  0 <= m ->
  let R := Nat.iter k shr_1 (Build_shr_record m false false) in
  exists rest,
    m = shr_m R * 2 ^ Z.of_nat k + rest /\ 0 <= rest < 2 ^ Z.of_nat k /\
    0 <= shr_m R /\ loc_ok (2 ^ Z.of_nat k) rest (shr_r R) (shr_s R).
Proof.
  intros Hm. induction k as [| k IH].
  - exists 0. cbn [Nat.iter nat_rect shr_m shr_r shr_s loc_ok Z.of_nat]. rewrite Z.pow_0_r. repeat split; lia.
  - cbn zeta in *. destruct IH as (rest & E & Hr & Hp & Hl).
    rewrite Nat.iter_succ.
    destruct (Nat.iter k shr_1 _) as [mk r s] eqn:Ek. cbn [shr_m shr_r shr_s] in *.
    assert (HN : 0 < 2 ^ Z.of_nat k) by (apply Z.pow_pos_nonneg; lia).
    destruct (shr_1_step mk r s _ rest Hp HN Hr Hl) as (rest' & E' & Hr' & Hp' & Hl').
    exists rest'.
    replace (2 ^ Z.of_nat (S k)) with (2 * 2 ^ Z.of_nat k)
      by (rewrite Nat2Z.inj_succ, Z.pow_succ_r; lia).
    repeat split; try lia; assumption.
Qed.

(* rounding to nearest, ties to even, of m = lo * N + rest *)
Lemma round_shr (m : Z) (k : nat) :
  0 <= m ->
  let R := Nat.iter k shr_1 (Build_shr_record m false false) in
  let m2 := round_nearest_even (shr_m R) (loc_of_shr_record R) in
  exists lo rest,
    m = lo * 2 ^ Z.of_nat k + rest /\ 0 <= rest < 2 ^ Z.of_nat k /\
    ((m2 = lo /\ 2 * rest <= 2 ^ Z.of_nat k) \/ (m2 = lo + 1 /\ 2 ^ Z.of_nat k <= 2 * rest)).
Proof.
  intros Hm. cbn zeta.
  destruct (shr_iter m k Hm) as (rest & E & Hr & Hp & Hl).
  destruct (Nat.iter k shr_1 _) as [mk r s]. cbn [shr_m shr_r shr_s] in *.
  exists mk, rest. split; [exact E | split; [exact Hr |]].
  destruct r, s; cbn [loc_ok loc_of_shr_record round_nearest_even] in *;
    try (left; split; [reflexivity | lia]);
    try (right; split; [reflexivity | lia]).
  destruct (Z.even mk); [left | right]; split; try reflexivity; lia.
Qed.

Lemma digits2_bounds (p : positive) :
  2 ^ (Zpos (digits2_pos p) - 1) <= Zpos p < 2 ^ Zpos (digits2_pos p).
Proof.
  induction p as [p IH | p IH |]; cbn [digits2_pos].
  - rewrite Pos2Z.inj_succ.
    replace (Z.succ (Zpos (digits2_pos p)) - 1) with (Z.succ (Zpos (digits2_pos p) - 1)) by lia.
    rewrite !Z.pow_succ_r by lia. lia.
  - rewrite Pos2Z.inj_succ.
    replace (Z.succ (Zpos (digits2_pos p)) - 1) with (Z.succ (Zpos (digits2_pos p) - 1)) by lia.
    rewrite !Z.pow_succ_r by lia. lia.
  - cbn. lia.
Qed.

Lemma digits2_unique (p : positive) (D : Z) :
  2 ^ (D - 1) <= Zpos p < 2 ^ D -> Zpos (digits2_pos p) = D.
Proof.
  intros [Hlo Hhi]. pose proof (digits2_bounds p) as [Blo Bhi].
  set (d := Zpos (digits2_pos p)) in *.
  assert (Hd : 0 < d) by (subst d; lia).
  destruct (Z.lt_trichotomy d D) as [Hlt | [Heq | Hgt]]; [exfalso | exact Heq | exfalso].
  - assert (2 ^ d <= 2 ^ (D - 1)) by (apply Z.pow_le_mono_r; lia). lia.
  - assert (D <= 0 \/ 0 < D) as [HD | HD] by lia.
    + assert (2 ^ D <= 2 ^ 0) by (apply Z.pow_le_mono_r_iff; try lia).
      assert (2 ^ 0 <= 2 ^ (d - 1)) by (apply Z.pow_le_mono_r; lia). 
      change (2 ^ 0) with 1 in *. lia.
    + assert (2 ^ D <= 2 ^ (d - 1)) by (apply Z.pow_le_mono_r; lia). lia.
Qed.

Lemma fexp_normal (e : Z) :
  emin JsNum.prec JsNum.emax <= e - 53 -> fexp JsNum.prec JsNum.emax e = e - 53.
Proof. unfold fexp, JsNum.prec. intros H. lia. Qed.

(* A full-width mantissa within the exponent range is already canonical. *)
Lemma binary_round_aux_exact (sx : bool) (m : positive) (e : Z) :
  2 ^ 52 <= Zpos m < 2 ^ 53 -> -1074 <= e <= 971 ->
  binary_round_aux JsNum.prec JsNum.emax sx (Zpos m) e loc_Exact = S754_finite sx m e.
Proof.
  intros Hm He.
  assert (Hd : Zpos (digits2_pos m) = 53) by (apply digits2_unique; exact Hm).
  assert (Hs : shr_fexp JsNum.prec JsNum.emax (Zpos m) e loc_Exact
               = (Build_shr_record (Zpos m) false false, e)).
  { unfold shr_fexp. cbn [Zdigits2 shr_record_of_loc]. rewrite Hd.
    rewrite fexp_normal by (unfold emin, JsNum.prec, JsNum.emax; lia).
    replace (53 + e - 53 - e) with 0 by lia. reflexivity. }
  unfold binary_round_aux. rewrite Hs. cbn [shr_m loc_of_shr_record round_nearest_even].
  rewrite Hs. cbn [shr_m].
  replace (e <=? JsNum.emax - JsNum.prec) with true; [reflexivity |].
  symmetry; apply Z.leb_le. unfold JsNum.emax, JsNum.prec. lia.
Qed.

Lemma pos_iter_xO (p n : positive) : Zpos (Pos.iter xO p n) = Zpos p * 2 ^ Zpos n.
Proof.
  induction n as [| n IH] using Pos.peano_ind.
  - cbn. lia.
  - rewrite Pos.iter_succ, Pos2Z.inj_xO, IH, Pos2Z.inj_succ, Z.pow_succ_r by lia. lia.
Qed.

(* Conversion of a positive integer below 2^53 is exact. *)
Lemma of_Z_pos (p : positive) :
  Zpos p < 2 ^ 53 ->
  exists (m : positive) (d : Z),
    JsNum.of_Z (Zpos p) = S754_finite false m (d - 53) /\
    1 <= d <= 53 /\ Zpos m = Zpos p * 2 ^ (53 - d) /\ 2 ^ 52 <= Zpos m < 2 ^ 53.
Proof.
  intros Hp. pose proof (digits2_bounds p) as Hb.
  set (d := Zpos (digits2_pos p)) in *.
  assert (Hd1 : 1 <= d) by (subst d; lia).
  assert (Hd53 : d <= 53).
  { destruct (Z_le_gt_dec d 53) as [H | H]; [exact H | exfalso].
    assert (2 ^ 53 <= 2 ^ (d - 1)) by (apply Z.pow_le_mono_r; lia). lia. }
  assert (HK : 2 ^ (d - 1) * 2 ^ (53 - d) = 2 ^ 52)
    by (rewrite <- Z.pow_add_r by lia; f_equal; lia).
  assert (HK' : 2 ^ d * 2 ^ (53 - d) = 2 ^ 53)
    by (rewrite <- Z.pow_add_r by lia; f_equal; lia).
  assert (HKpos : 0 < 2 ^ (53 - d)) by (apply Z.pow_pos_nonneg; lia).
  unfold JsNum.of_Z, binary_normalize, binary_round. fold d.
  rewrite Z.add_0_r, fexp_normal by (unfold emin, JsNum.prec, JsNum.emax; lia).
  unfold shl_align. rewrite Z.sub_0_r.
  destruct (d - 53) as [| q | q] eqn:Eq; [| lia |].
  - exists p, d. replace (53 - d) with 0 in * by lia. rewrite Z.pow_0_r in *.
    assert (Hm : 2 ^ 52 <= Zpos p < 2 ^ 53) by lia.
    rewrite binary_round_aux_exact by (try exact Hm; lia).
    rewrite Eq. repeat split; lia.
  - assert (Hq : Zpos q = 53 - d) by lia.
    assert (Hm : Zpos (Pos.iter xO p q) = Zpos p * 2 ^ (53 - d))
      by (rewrite pos_iter_xO, Hq; reflexivity).
    assert (Hr : 2 ^ 52 <= Zpos (Pos.iter xO p q) < 2 ^ 53) by (rewrite Hm; nia).
    exists (Pos.iter xO p q), d.
    rewrite binary_round_aux_exact by (try exact Hr; lia).
    rewrite Eq. repeat split; try lia.
Qed.

(* Rounding a wide positive mantissa: shift right by n bits, round to nearest
   even, renormalise when the mantissa overflows to 2^53. *)
Lemma binary_round_aux_shift (sx : bool) (P : positive) (ex n : Z) :
  n = Zpos (digits2_pos P) - 53 -> 0 < n -> -1074 <= ex + n -> ex + n + 1 <= 971 ->
  exists (m'' : positive) (e'' m2 lo rest : Z),
    binary_round_aux JsNum.prec JsNum.emax sx (Zpos P) ex loc_Exact = S754_finite sx m'' e'' /\
    Zpos P = lo * 2 ^ n + rest /\ 0 <= rest < 2 ^ n /\ 2 ^ 52 <= lo < 2 ^ 53 /\
    ((m2 = lo /\ 2 * rest <= 2 ^ n) \/ (m2 = lo + 1 /\ 2 ^ n <= 2 * rest)) /\
    ((e'' = ex + n /\ Zpos m'' = m2) \/ (e'' = ex + n + 1 /\ 2 * Zpos m'' = m2)).
Proof.
  intros Hn Hn0 Hlo Hhi.
  pose proof (digits2_bounds P) as HD.
  set (D := Zpos (digits2_pos P)) in *.
  destruct n as [| pn | pn] eqn:En; try lia. rewrite <- En in *.
  assert (Hk : Z.of_nat (Pos.to_nat pn) = n) by (rewrite positive_nat_Z; lia).
  destruct (round_shr (Zpos P) (Pos.to_nat pn) ltac:(lia)) as (lo & rest & E & Hr & Hm2).
  rewrite Hk in *.
  set (R := Nat.iter (Pos.to_nat pn) shr_1 (Build_shr_record (Zpos P) false false)) in *.
  set (m2 := round_nearest_even (shr_m R) (loc_of_shr_record R)) in *.
  assert (HN : 0 < 2 ^ n) by (apply Z.pow_pos_nonneg; lia).
  assert (H52 : 2 ^ (D - 1) = 2 ^ 52 * 2 ^ n)
    by (rewrite <- Z.pow_add_r by lia; f_equal; lia).
  assert (H53 : 2 ^ D = 2 ^ 53 * 2 ^ n)
    by (rewrite <- Z.pow_add_r by lia; f_equal; lia).
  assert (Hlo52 : 2 ^ 52 <= lo < 2 ^ 53) by nia.
  assert (Hs1 : shr_fexp JsNum.prec JsNum.emax (Zpos P) ex loc_Exact = (R, ex + n)).
  { unfold shr_fexp. cbn [Zdigits2 shr_record_of_loc]. fold D.
    rewrite fexp_normal by (unfold emin, JsNum.prec, JsNum.emax; lia).
    replace (D + ex - 53 - ex) with n by lia. rewrite En.
    unfold shr. rewrite iter_pos_nat. reflexivity. }
  unfold binary_round_aux. rewrite Hs1. fold m2.
  assert (Hm2r : 2 ^ 52 <= m2 <= 2 ^ 53) by lia.
  destruct (Z.eq_dec m2 (2 ^ 53)) as [Htop | Htop].
  - exists (4503599627370496%positive), (ex + n + 1), m2, lo, rest.
    rewrite Htop.
    assert (Hs2 : shr_fexp JsNum.prec JsNum.emax (2 ^ 53) (ex + n) loc_Exact
                  = (Build_shr_record (2 ^ 52) false false, ex + n + 1)).
    { unfold shr_fexp. change (Zdigits2 (2 ^ 53)) with 54.
      rewrite fexp_normal by (unfold emin, JsNum.prec, JsNum.emax; lia).
      replace (54 + (ex + n) - 53 - (ex + n)) with 1 by lia. reflexivity. }
    rewrite Hs2. cbn [shr_m]. change (2 ^ 52) with (Zpos 4503599627370496).
    replace (ex + n + 1 <=? JsNum.emax - JsNum.prec) with true
      by (symmetry; apply Z.leb_le; unfold JsNum.emax, JsNum.prec; lia).
    repeat split; try lia; try assumption.
  - destruct m2 as [| pm | pm] eqn:Em2; try lia.
    exists pm, (ex + n), (Zpos pm), lo, rest.
    assert (Hb : 2 ^ 52 <= Zpos pm < 2 ^ 53) by lia.
    pose proof (binary_round_aux_exact sx pm (ex + n) Hb ltac:(lia)) as Hex.
    unfold binary_round_aux in Hex.
    assert (Hs2 : shr_fexp JsNum.prec JsNum.emax (Zpos pm) (ex + n) loc_Exact
                  = (Build_shr_record (Zpos pm) false false, ex + n)).
    { unfold shr_fexp. cbn [Zdigits2 shr_record_of_loc].
      rewrite (digits2_unique pm 53 Hb).
      rewrite fexp_normal by (unfold emin, JsNum.prec, JsNum.emax; lia).
      replace (53 + (ex + n) - 53 - (ex + n)) with 0 by lia. reflexivity. }
    rewrite Hs2. cbn [shr_m].
    replace (ex + n <=? JsNum.emax - JsNum.prec) with true
      by (symmetry; apply Z.leb_le; unfold JsNum.emax, JsNum.prec; lia).
    repeat split; try lia; try assumption.
Qed.

Lemma div_interval (a G c : Z) : 0 < G -> c * G <= a < (c + 1) * G -> a / G = c.
Proof. intros HG H. symmetry. apply (Z.div_unique a G c (a - c * G)); lia. Qed.

(* Pure arithmetic core: the rounded product, taken to its ceiling, is the
   integer ceiling of s / 10. *)
Lemma ceil_of_rounded (s K Nn G P lo rest m2 : Z) :
  0 < s < 2 ^ 53 -> 0 < K -> 0 < Nn -> 8 <= G ->
  K * 2 ^ 56 = Nn * G ->
  P = s * K * 7205759403792794 ->
  P = lo * Nn + rest -> 0 <= rest < Nn -> 2 ^ 52 <= lo < 2 ^ 53 ->
  ((m2 = lo /\ 2 * rest <= Nn) \/ (m2 = lo + 1 /\ Nn <= 2 * rest)) ->
  - ((- m2) / G) = (s + 9) / 10.
Proof.
  intros Hs HK HN HG HU HP HE Hrest Hlo Hm2.
  change (2 ^ 56) with 72057594037927936 in HU.
  change (2 ^ 53) with 9007199254740992 in *.
  change (2 ^ 52) with 4503599627370496 in *.
  pose proof (Z.div_mod s 10 ltac:(lia)) as Hdm.
  pose proof (Z.mod_pos_bound s 10 ltac:(lia)) as Ht.
  set (q := s / 10) in *. set (t := s mod 10) in *.
  assert (H10P : 10 * P = s * (Nn * G) + 4 * s * K) by nia.
  assert (Hq0 : 0 <= q) by lia.
  destruct (Z.eq_dec t 0) as [Ht0 | Ht0].
  - (* s is a multiple of ten: the product rounds to q exactly *)
    assert (Hs10 : s = 10 * q) by lia.
    assert (HPq : P = (q * G) * Nn + 4 * q * K) by nia.
    assert (HqGlo : q * G <= lo).
    { assert (q * G * Nn < (lo + 1) * Nn) by nia. nia. }
    assert (H8 : 8 * q * K < Nn).
    { assert (8 * (q * G) < 72057594037927936) by lia.
      assert (8 * (q * G) * K < 72057594037927936 * K) by nia.
      assert (8 * q * K * G < Nn * G) by nia. nia. }
    assert (Hlo' : lo = q * G).
    { assert (lo * Nn < (q * G + 1) * Nn) by nia.
      assert (lo < q * G + 1) by nia. lia. }
    assert (Hrest' : rest = 4 * q * K) by nia.
    assert (Hm : m2 = q * G) by (destruct Hm2 as [[-> _] | [_ Hc]]; lia).
    rewrite Hm. replace (- (q * G)) with ((- q) * G) by lia.
    rewrite Z.div_mul by lia.
    replace (s + 9) with (q * 10 + 9) by lia.
    rewrite Z.div_add_l by lia. change (9 / 10) with 0. lia.
  - (* otherwise the product stays strictly between q and q + 1 *)
    assert (Hup : m2 <= (q + 1) * G).
    { assert (4 * s * K < Nn * G) by nia.
      assert (10 * P < 10 * ((q + 1) * (Nn * G))) by nia.
      assert (lo * Nn < (q + 1) * G * Nn) by nia.
      assert (lo < (q + 1) * G) by nia. lia. }
    assert (Hdn : q * G < m2).
    { assert (2 * P - Nn <= 2 * m2 * Nn) by nia.
      assert (20 * P - 10 * Nn <= 20 * (m2 * Nn)) by lia.
      assert ((10 * q + 1) * (Nn * G) <= 10 * P) by nia.
      assert (20 * (q * G * Nn) + (2 * G - 10) * Nn <= 20 * (m2 * Nn)) by nia.
      assert (0 < (2 * G - 10) * Nn) by nia.
      assert (q * G * Nn < m2 * Nn) by lia. nia. }
    rewrite (div_interval (- m2) G (- (q + 1))) by lia.
    replace (s + 9) with ((q + 1) * 10 + (t - 1)) by lia.
    rewrite Z.div_add_l by lia. rewrite Z.div_small by lia. lia.
Qed.

Lemma calculateVAT_safe_integer (s : Z) :
  0 <= s < 2 ^ 53 ->
  calculateVAT (VNum (JsNum.of_Z s)) = JsNum.of_Z ((s + 9) / 10).
Proof.
  intros Hs. destruct s as [| p | p]; [reflexivity | | lia].
  destruct (of_Z_pos p ltac:(lia)) as (m & d & Hof & Hd & Hm & Hmr).
  rewrite Hof. unfold calculateVAT.
  cbn [ToBoolean ToNumber isNaN JsNum.is_nan negb orb].
  rewrite lit_0_1_bits. unfold JsNum.mul, SFmul. cbn [xorb].
  set (P := (m * 7205759403792794)%positive).
  assert (HP : Zpos P = Zpos p * 2 ^ (53 - d) * 7205759403792794)
    by (subst P; rewrite Pos2Z.inj_mul, Hm; reflexivity).
  pose proof (digits2_bounds P) as HD.
  set (D := Zpos (digits2_pos P)) in *.
  assert (HPlo : 2 ^ 104 <= Zpos P).
  { change (2 ^ 104) with (2 ^ 52 * 2 ^ 52). subst P. rewrite Pos2Z.inj_mul.
    change (2 ^ 52) with 4503599627370496 in *. nia. }
  assert (HPhi : Zpos P < 2 ^ 106).
  { change (2 ^ 106) with (2 ^ 53 * 2 ^ 53). subst P. rewrite Pos2Z.inj_mul.
    change (2 ^ 53) with 9007199254740992 in *. nia. }
  assert (HD105 : 105 <= D).
  { destruct (Z_le_gt_dec 105 D) as [H | H]; [exact H | exfalso].
    assert (2 ^ D <= 2 ^ 104) by (apply Z.pow_le_mono_r; lia). lia. }
  assert (HD106 : D <= 106).
  { destruct (Z_le_gt_dec D 106) as [H | H]; [exact H | exfalso].
    assert (2 ^ 106 <= 2 ^ (D - 1)) by (apply Z.pow_le_mono_r; lia). lia. }
  destruct (binary_round_aux_shift false P (d - 53 + -56) (D - 53) eq_refl
              ltac:(lia) ltac:(lia) ltac:(lia))
    as (m'' & e'' & m2 & lo & rest & Hbra & HE & Hrest & Hlo & Hm2 & Hfin).
  rewrite Hbra. unfold JsNum.ceil.
  replace (0 <=? e'') with false by (symmetry; apply Z.leb_gt; lia).
  unfold JsNum.of_Z. f_equal. cbn [cond_Zopp].
  set (g := 109 - d - (D - 53)).
  assert (Hg : 3 <= g) by (subst g; lia).
  assert (HG8 : 8 <= 2 ^ g).
  { change 8 with (2 ^ 3). apply Z.pow_le_mono_r; lia. }
  assert (HU : 2 ^ (53 - d) * 2 ^ 56 = 2 ^ (D - 53) * 2 ^ g)
    by (rewrite <- !Z.pow_add_r by lia; f_equal; lia).
  assert (Hceil : - ((- Zpos m'') / 2 ^ (- e'')) = - ((- m2) / 2 ^ g)).
  { destruct Hfin as [[He'' Hmm] | [He'' Hmm]].
    - rewrite Hmm. do 2 f_equal. f_equal. subst g. lia.
    - replace g with (Z.succ (- e'')) by (subst g; lia).
      rewrite Z.pow_succ_r by lia. rewrite <- Hmm.
      replace (- (2 * Zpos m'')) with (2 * (- Zpos m'')) by lia.
      assert (0 < 2 ^ (- e'')) by (apply Z.pow_pos_nonneg; lia).
      rewrite Z.div_mul_cancel_l by lia. reflexivity. }
  rewrite Hceil.
  apply (ceil_of_rounded (Zpos p) (2 ^ (53 - d)) (2 ^ (D - 53)) (2 ^ g) (Zpos P) lo rest m2);
    try assumption; try lia.
Qed.

Close Scope Z_scope.

(** * Facts about the row sanitiser *)

Lemma dropNoise_row_irrelevant (rs : list re) (r r' c : nat) (line : jsstring) (cols : list jsstring) :
  fst (dropNoise rs r c line cols) = fst (dropNoise rs r' c line cols).
Proof.
  revert c; induction cols as [| col cols IH]; intros c; cbn [dropNoise]; [reflexivity |].
  specialize (IH (S c)).
  destruct (dropNoise rs r (S c) line cols) as [n1 m1].
  destruct (dropNoise rs r' (S c) line cols) as [n2 m2].
  cbn [fst] in IH. subst n2.
  destruct (existsb _ rs); reflexivity.
Qed.

Lemma prunePrefix_row_irrelevant (r r' : nat) (line : jsstring) (cols : list jsstring) :
  fst (prunePrefix r line cols) = fst (prunePrefix r' line cols).
Proof.
  unfold prunePrefix. destruct (7 <=? List.length cols); [| reflexivity].
  destruct cols as [| first rest]; [reflexivity |].
  destruct (_ && _); reflexivity.
Qed.

Lemma filterRow_survivingCols (rs : list re) (r : nat) (line : jsstring) :
  fst (filterRow rs r line) = survivingCols rs line.
Proof.
  unfold survivingCols, filterRow.
  pose proof (dropNoise_row_irrelevant rs r 0 0 line (splitToCols line)) as H.
  destruct (dropNoise rs r 0 line (splitToCols line)) as [n1 m1].
  destruct (dropNoise rs 0 0 line (splitToCols line)) as [n2 m2].
  cbn [fst] in H. subst n2.
  pose proof (prunePrefix_row_irrelevant r 0 line n1) as H.
  destruct (prunePrefix r line n1) as [p1 q1].
  destruct (prunePrefix 0 line n1) as [p2 q2].
  exact H.
Qed.

Lemma appendFromQueue_extends (n : nat) (cols queue : list jsstring) :
  exists extra, fst (appendFromQueue n cols queue) = cols ++ extra.
Proof.
  revert cols queue; induction n as [| n IH]; intros cols queue; cbn [appendFromQueue].
  - exists []. cbn. now rewrite app_nil_r.
  - destruct queue as [| q queue].
    + exists []. cbn. now rewrite app_nil_r.
    + destruct (IH (cols ++ [q]) queue) as [extra E].
      exists (q :: extra). rewrite E, <- app_assoc. reflexivity.
Qed.

Lemma not_all_numeric (cols : list jsstring) :
  forallb isNumericToken cols = false ->
  existsb (fun c => negb (isNumericToken c)) cols = true.
Proof.
  induction cols as [| c cols IH]; cbn; [discriminate |].
  destruct (isNumericToken c); cbn; [exact IH | reflexivity].
Qed.

Lemma existsb_app_l {A : Type} (p : A -> bool) (l l' : list A) :
  existsb p l = true -> existsb p (l ++ l') = true.
Proof. intros H. rewrite existsb_app, H. reflexivity. Qed.

Lemma cleanRow_numeric (rs : list re) (st : CleanState) (r : nat) (line : jsstring) :
  isNumericLine rs line = true ->
  kept (cleanRow rs st r line) = kept st /\
  numericQueue (cleanRow rs st r line) = survivingCols rs line ++ numericQueue st.
Proof.
  unfold isNumericLine. intros H.
  pose proof (filterRow_survivingCols rs r line) as E.
  unfold cleanRow. destruct (filterRow rs r line) as [newCols rem].
  cbn [fst] in E. subst newCols. rewrite H. cbn. split; reflexivity.
Qed.

Lemma cleanRow_kept_cols (rs : list re) (st : CleanState) (r : nat) (line : jsstring) :
  kept (cleanRow rs st r line)
  = kept st ++ match emittedCols rs st line with Some cols => [joinRow cols] | None => [] end.
Proof.
  pose proof (filterRow_survivingCols rs r line) as E.
  unfold cleanRow, emittedCols, isNumericLine.
  destruct (filterRow rs r line) as [newCols rem]. cbn [fst] in E. subst newCols.
  destruct ((0 <? List.length (survivingCols rs line))
            && forallb isNumericToken (survivingCols rs line)).
  - cbn [kept]. now rewrite app_nil_r.
  - destruct (consumeQueue (survivingCols rs line) (numericQueue st) (firstQueueFill st))
      as [[cols' queue'] first'].
    destruct (List.length (trim (join SEP cols')) =? 0); cbn [kept].
    + now rewrite app_nil_r.
    + reflexivity.
Qed.

Lemma cleanLoop_kept_cols (rs : list re) (rows : list jsstring) :
  forall st r, kept (cleanLoop rs st r rows) = kept st ++ map joinRow (keptCols rs st r rows).
Proof.
  induction rows as [| line rest IH]; intros st r; cbn [cleanLoop keptCols map].
  - now rewrite app_nil_r.
  - rewrite IH, cleanRow_kept_cols, map_app, <- app_assoc. f_equal. f_equal.
    destruct (emittedCols rs st line); reflexivity.
Qed.

Lemma emittedCols_text (rs : list re) (st : CleanState) (line : jsstring) (cols' : list jsstring) :
  emittedCols rs st line = Some cols' ->
  swapsAt rs st line = false ->
  hasTextToken cols' = true.
Proof.
  unfold emittedCols, swapsAt, isNumericLine, consumeQueue, hasTextToken.
  set (cols := survivingCols rs line).
  destruct ((0 <? List.length cols) && forallb isNumericToken cols) eqn:Hnum; [discriminate |].
  cbn [negb andb].
  destruct (queueUse cols (numericQueue st) (firstQueueFill st)) as [| addCount | k] eqn:Eu;
    [| | discriminate].
  - destruct (List.length (trim (join SEP cols)) =? 0) eqn:El; [discriminate |].
    intros E _; injection E as <-.
    destruct cols as [| c cols0]; [discriminate |].
    cbn [List.length Nat.ltb Nat.leb andb] in Hnum.
    apply not_all_numeric. exact Hnum.
  - destruct (appendFromQueue_extends addCount cols (numericQueue st)) as [extra Ex].
    destruct (appendFromQueue addCount cols (numericQueue st)) as [appended queue'].
    cbn [fst] in Ex. subst appended.
    destruct (List.length (trim (join SEP (cols ++ extra))) =? 0); [discriminate |].
    intros E _; injection E as <-.
    apply existsb_app_l, not_all_numeric.
    unfold queueUse in Eu.
    destruct (0 <? List.length cols) eqn:Hlen;
      [| rewrite andb_false_r in Eu; discriminate].
    exact Hnum.
Qed.

Lemma swapFree_keptCols (rs : list re) (rows : list jsstring) :
  forall st r,
    swapFree rs st r rows = true ->
    Forall (fun cols => hasTextToken cols = true) (keptCols rs st r rows).
Proof.
  induction rows as [| line rest IH]; intros st r Hs; cbn [keptCols]; [constructor |].
  cbn [swapFree] in Hs. apply andb_true_iff in Hs. destruct Hs as [Hs Hrest].
  apply negb_true_iff in Hs.
  apply Forall_app. split; [| apply IH; exact Hrest].
  destruct (emittedCols rs st line) as [cols' |] eqn:E; [| constructor].
  constructor; [| constructor]. exact (emittedCols_text rs st line cols' E Hs).
Qed.

Lemma cleanLoop_app (rs : list re) (st : CleanState) (r : nat) (rows more : list jsstring) :
  cleanLoop rs st r (rows ++ more) = cleanLoop rs (cleanLoop rs st r rows) (r + List.length rows) more.
Proof.
  revert st r; induction rows as [| line rows IH]; intros st r; cbn [cleanLoop app List.length].
  - now rewrite Nat.add_0_r.
  - rewrite IH. f_equal. lia.
Qed.

Lemma cleanRow_empty (rs : list re) (st : CleanState) (r : nat) (line : jsstring) :
  survivingCols rs line = [] ->
  kept (cleanRow rs st r line) = kept st /\
  numericQueue (cleanRow rs st r line) = numericQueue st.
Proof.
  intros H. pose proof (filterRow_survivingCols rs r line) as E.
  unfold cleanRow. destruct (filterRow rs r line) as [newCols rem].
  cbn [fst] in E. rewrite H in E. subst newCols.
  cbn [List.length Nat.ltb Nat.leb andb].
  unfold consumeQueue, queueUse. cbn [List.length Nat.ltb Nat.leb]. rewrite andb_false_r.
  cbn. split; reflexivity.
Qed.

Lemma cleanLoop_empty_lines (rs : list re) (tail_ : list jsstring) :
  Forall (fun l => survivingCols rs l = []) tail_ ->
  forall st r, kept (cleanLoop rs st r tail_) = kept st /\
               numericQueue (cleanLoop rs st r tail_) = numericQueue st.
Proof.
  induction 1 as [| line rest Hl _ IH]; intros st r; cbn [cleanLoop]; [split; reflexivity |].
  destruct (IH (cleanRow rs st r line) (S r)) as [-> ->].
  apply cleanRow_empty. exact Hl.
Qed.

(** * Facts about the row parser *)

Lemma moneyFrom_ge (i : nat) (cols : list jsstring) (m : Indexed) :
  In m (moneyFrom i cols) -> (1000 <= num m)%Z.
Proof.
  revert i; induction cols as [| token cols IH]; intros i; cbn [moneyFrom]; [intros [] |].
  rewrite in_app_iff. intros [H | H]; [| exact (IH _ H)].
  destruct (isMoneyToken token); [| destruct H].
  destruct (toIntStrict token) as [n |]; [| destruct H].
  destruct (1000 <=? n)%Z eqn:E; [| destruct H].
  destruct H as [<- | []]. cbn. apply Z.leb_le. exact E.
Qed.

Lemma adjacentPair_In (money : list Indexed) (a b : Indexed) :
  adjacentPair money = Some (a, b) -> In a money /\ In b money.
Proof.
  induction money as [| x money IH]; cbn [adjacentPair]; [discriminate |].
  destruct money as [| y money]; [discriminate |].
  destruct (ix y =? ix x + 1).
  - intros E; injection E as <- <-. split; [left | right; left]; reflexivity.
  - intros E. destruct (IH E) as [Ha Hb]. split; right; assumption.
Qed.

Lemma parseItemRow_unitPrice (cols : list jsstring) :
  parseItemRow cols = None \/
  exists (it : ParsedItem) (n : Z),
    parseItemRow cols = Some it /\ unitPrice it = Some n /\ (1000 <= n)%Z.
Proof.
  unfold parseItemRow.
  destruct cols as [| col0 later]; [left; reflexivity |].
  destruct (negb (nonEmpty (trim col0))); [left; reflexivity |].
  match goal with |- context [match ?p with Some _ => _ | None => None end] =>
    destruct p as [[item0 spec0] |] end; [| left; reflexivity].
  cbv zeta.
  set (qc := quantityCandidatesFrom 1 later).
  destruct (match qc with [q] => (Some (num q), Some (ix q)) | _ => (None, None) end)
    as [quantity quantityIndex].
  match goal with |- context [moneyFrom ?f ?l] => set (money := moneyFrom f l) in * end.
  assert (Hge : forall m, In m money -> (1000 <= num m)%Z)
    by (intros m; apply moneyFrom_ge).
  clearbody money.
  destruct (adjacentPair money) as [[a b] |] eqn:Ea.
  - destruct (adjacentPair_In _ _ _ Ea) as [Ha _].
    right. eexists. exists (num a). split; [reflexivity |]. split; [reflexivity |].
    apply Hge. exact Ha.
  - destruct money as [| m0 money']; [left; reflexivity |].
    assert (H0 : (1000 <= num m0)%Z) by (apply Hge; left; reflexivity).
    destruct (find _ (m0 :: money')) as [nextMoney |];
      right; eexists; exists (num m0); (split; [reflexivity |]); (split; [reflexivity | exact H0]).
Qed.

Lemma parseItemsFromRows_unitPrice (rows : list jsstring) (it : ParsedItem) :
  In it (parseItemsFromRows rows) -> exists n, unitPrice it = Some n /\ (1000 <= n)%Z.
Proof.
  induction rows as [| line rest IH]; cbn [parseItemsFromRows]; [intros [] |].
  destruct (parseItemRow_unitPrice (splitToCols line)) as [E | (row & n & E & Hu & Hn)];
    rewrite E; [exact IH |].
  rewrite Hu. intros [<- | H]; [exists n; auto | exact (IH H)].
Qed.

Lemma moneyFrom_none (i : nat) (cols : list jsstring) :
  (forall token n, In token cols -> isMoneyToken token = true ->
                   toIntStrict token = Some n -> (n < 1000)%Z) ->
  moneyFrom i cols = [].
Proof.
  revert i; induction cols as [| token cols IH]; intros i H; [reflexivity |].
  cbn [moneyFrom]. rewrite IH by (intros t n Ht; apply H; right; exact Ht).
  rewrite app_nil_r.
  destruct (isMoneyToken token) eqn:Em; [| reflexivity].
  destruct (toIntStrict token) as [n |] eqn:En; [| reflexivity].
  specialize (H token n (or_introl eq_refl) Em En).
  destruct (1000 <=? n)%Z eqn:E; [apply Z.leb_le in E; lia | reflexivity].
Qed.

Lemma skipn_In {A : Type} (n : nat) (l : list A) (x : A) : In x (skipn n l) -> In x l.
Proof.
  revert l; induction n as [| n IH]; intros l; [auto |].
  destruct l as [| a l]; [auto |]. cbn [skipn]. intros H. right. exact (IH _ H).
Qed.

Lemma parseItemRow_no_money (cols : list jsstring) :
  (forall token n, In token cols -> isMoneyToken token = true ->
                   toIntStrict token = Some n -> (n < 1000)%Z) ->
  parseItemRow cols = None.
Proof.
  intros H. unfold parseItemRow.
  destruct cols as [| col0 later]; [reflexivity |].
  destruct (negb (nonEmpty (trim col0))); [reflexivity |].
  match goal with |- context [match ?p with Some _ => _ | None => None end] =>
    destruct p as [[item0 spec0] |] end; [| reflexivity].
  cbv zeta.
  set (qc := quantityCandidatesFrom 1 later).
  destruct (match qc with [q] => (Some (num q), Some (ix q)) | _ => (None, None) end)
    as [quantity quantityIndex].
  rewrite moneyFrom_none; [reflexivity |].
  intros token n Ht. apply H. exact (skipn_In _ _ _ Ht).
Qed.

(** * Facts about the table locator *)

(** ** Hits of the stitching pass *)
Lemma stitchSpans_spec (targets : list jsstring) (r i span more : nat)
      (sofar : jsstring) (later : list jsstring) (h : KeywordHit) :
  In h (stitchSpans targets r i span more sofar later) ->
  rowIndex h = r /\ startCol h = i /\ setHas targets (normalized h) = true.
Proof.
  revert span sofar later; induction more as [| more IH]; intros span sofar later;
    cbn [stitchSpans].
  - destruct (setHas targets (stripSpaces sofar)) eqn:E.
    + destruct later; intros [<- | []]; cbn; auto.
    + destruct later; intros [].
  - destruct later as [| c later].
    + destruct (setHas targets (stripSpaces sofar)) eqn:E; [| intros []].
      intros [<- | []]; cbn; auto.
    + rewrite in_app_iff. intros [H | H]; [| exact (IH _ _ _ H)].
      destruct (setHas targets (stripSpaces sofar)) eqn:E; [| destruct H].
      destruct H as [<- | []]; cbn; auto.
Qed.

Lemma stitchCols_spec (targets : list jsstring) (maxSpan r i : nat)
      (cols : list jsstring) (h : KeywordHit) :
  In h (stitchCols targets maxSpan r i cols) ->
  rowIndex h = r /\ setHas targets (normalized h) = true.
Proof.
  revert i; induction cols as [| c later IH]; intros i; cbn [stitchCols]; [intros [] |].
  rewrite in_app_iff. intros [H | H]; [| exact (IH _ H)].
  destruct maxSpan as [| more]; [destruct H |].
  apply stitchSpans_spec in H. tauto.
Qed.

Lemma stitchRows_spec (targets : list jsstring) (maxSpan r : nat)
      (lines : list jsstring) (h : KeywordHit) :
  In h (stitchRows targets maxSpan r lines) ->
  r <= rowIndex h < r + List.length lines /\ setHas targets (normalized h) = true.
Proof.
  revert r; induction lines as [| line rest IH]; intros r; cbn [stitchRows]; [intros [] |].
  rewrite in_app_iff. intros [H | H].
  - apply stitchCols_spec in H. destruct H as [-> Hn]. cbn [List.length]. split; [lia | exact Hn].
  - apply IH in H. cbn [List.length]. split; [lia | tauto].
Qed.

Lemma cellsOfRow_row (regex : re) (r c : nat) (line : jsstring) (cols : list jsstring)
      (h : CellHit) :
  In h (cellsOfRow regex r c line cols) -> c_rowIndex h = r.
Proof.
  revert c; induction cols as [| val cols IH]; intros c; cbn [cellsOfRow]; [intros [] |].
  rewrite in_app_iff. intros [H | H]; [| exact (IH _ H)].
  destruct (test regex val); [| destruct H]. destruct H as [<- | []]. reflexivity.
Qed.

Lemma cellsOfRows_row (regex : re) (r : nat) (lines : list jsstring) (h : CellHit) :
  In h (cellsOfRows regex r lines) -> r <= c_rowIndex h < r + List.length lines.
Proof.
  revert r; induction lines as [| line rest IH]; intros r; cbn [cellsOfRows]; [intros [] |].
  rewrite in_app_iff. intros [H | H].
  - apply cellsOfRow_row in H. cbn [List.length]. lia.
  - apply IH in H. cbn [List.length]. lia.
Qed.

(** ** The position-keyed map *)
Lemma keyEqb_eq (a b : HitKey) : keyEqb a b = true <-> a = b.
Proof.
  destruct a as [[a1 a2] a3], b as [[b1 b2] b3]. unfold keyEqb.
  rewrite !andb_true_iff, !Nat.eqb_eq. split.
  - intros [[-> ->] ->]. reflexivity.
  - intros E; injection E as -> -> ->. auto.
Qed.

Lemma mapSet_In (k : HitKey) (v : KeywordHit) (m : HitMap) (e : HitKey * KeywordHit) :
  In e (mapSet k v m) -> e = (k, v) \/ In e m.
Proof.
  induction m as [| [k' v'] m IH]; cbn [mapSet].
  - intros [<- | []]. now left.
  - destruct (keyEqb k k').
    + intros [<- | H]; [now left | right; right; exact H].
    + intros [<- | H]; [right; left; reflexivity |].
      destruct (IH H) as [-> | H']; [now left | right; right; exact H'].
Qed.

Lemma mapSet_has (k : HitKey) (v : KeywordHit) (m : HitMap) :
  exists v', In (k, v') (mapSet k v m).
Proof.
  induction m as [| [k' v'] m IH]; cbn [mapSet].
  - exists v. now left.
  - destruct (keyEqb k k') eqn:E.
    + exists v. now left.
    + destruct IH as [w Hw]. exists w. right. exact Hw.
Qed.

Lemma mapSet_keeps (k k0 : HitKey) (v : KeywordHit) (m : HitMap) :
  (exists v0, In (k0, v0) m) -> exists v0, In (k0, v0) (mapSet k v m).
Proof.
  induction m as [| [k' v'] m IH]; cbn [mapSet]; intros [v0 H]; [destruct H |].
  destruct (keyEqb k k') eqn:E.
  - apply keyEqb_eq in E. subst k'. destruct H as [H | H].
    + injection H as <- <-. exists v. now left.
    + exists v0. right. exact H.
  - destruct H as [H | H].
    + exists v0. left. exact H.
    + destruct (IH (ex_intro _ v0 H)) as [w Hw]. exists w. right. exact Hw.
Qed.

Lemma eqb_eq (a b : jsstring) : JsStr.eqb a b = true -> a = b.
Proof. unfold JsStr.eqb. destruct (list_eq_dec N.eq_dec a b); [auto | discriminate]. Qed.

Lemma eqb_refl (a : jsstring) : JsStr.eqb a a = true.
Proof. unfold JsStr.eqb. destruct (list_eq_dec N.eq_dec a a); [auto | contradiction]. Qed.

Lemma unit_price_target (x : jsstring) :
  setHas (map stripSpaces [KW_UNIT_PRICE]) x = true <-> x = KW_UNIT_PRICE.
Proof.
  replace (map stripSpaces [KW_UNIT_PRICE]) with [KW_UNIT_PRICE] by (vm_compute; reflexivity).
  unfold setHas. cbn [existsb]. rewrite orb_false_r. split.
  - apply eqb_eq.
  - intros ->. apply eqb_refl.
Qed.

Lemma mapSet_entries (P : HitKey * KeywordHit -> Prop) (k : HitKey) (v : KeywordHit) (m : HitMap) :
  P (k, v) -> Forall P m -> Forall P (mapSet k v m).
Proof.
  intros Hv Hm. apply Forall_forall. intros e He.
  destruct (mapSet_In _ _ _ _ He) as [-> | H]; [exact Hv |].
  rewrite Forall_forall in Hm. apply Hm. exact H.
Qed.

Lemma fold_stitched_entries (lines : list jsstring) (hits : list KeywordHit) (m : HitMap) :
  Forall (fun h => rowIndex h < List.length lines /\ normalized h = KW_UNIT_PRICE) hits ->
  Forall (entryOk lines) m ->
  Forall (entryOk lines) (fold_left (fun m s => mapSet (key s) s m) hits m).
Proof.
  revert m; induction hits as [| h hits IH]; intros m Hh Hm; cbn [fold_left]; [exact Hm |].
  inversion Hh as [| ? ? [Hr Hn] Hrest]; subst.
  apply IH; [exact Hrest |].
  apply mapSet_entries; [| exact Hm]. unfold entryOk. cbn. auto.
Qed.

Lemma addSeed_entries (lines : list jsstring) (m : HitMap) (s : CellHit) :
  c_rowIndex s < List.length lines ->
  Forall (entryOk lines) m -> Forall (entryOk lines) (addSeed lines m s).
Proof.
  intros Hr Hm. unfold addSeed.
  destruct (getCell lines (c_rowIndex s) (c_colIndex s)) as [cell |]; [| exact Hm].
  destruct (nonEmpty cell && JsStr.eqb (stripSpaces cell) KW_UNIT_PRICE); [| exact Hm].
  apply mapSet_entries; [| exact Hm]. unfold entryOk, key. cbn. auto.
Qed.

Lemma fold_seed_entries (lines : list jsstring) (seeds : list CellHit) (m : HitMap) :
  Forall (fun s => c_rowIndex s < List.length lines) seeds ->
  Forall (entryOk lines) m ->
  Forall (entryOk lines) (fold_left (addSeed lines) seeds m).
Proof.
  revert m; induction seeds as [| s seeds IH]; intros m Hs Hm; cbn [fold_left]; [exact Hm |].
  inversion Hs as [| ? ? Hr Hrest]; subst.
  apply IH; [exact Hrest |]. apply addSeed_entries; assumption.
Qed.

Lemma stitched_hits_ok (lines : list jsstring) :
  Forall (fun h => rowIndex h < List.length lines /\ normalized h = KW_UNIT_PRICE)
         (findStitchedKeywords lines [KW_UNIT_PRICE] 2).
Proof.
  apply Forall_forall. intros h H. unfold findStitchedKeywords in H.
  apply stitchRows_spec in H. destruct H as [Hr Hn].
  split; [lia |]. apply unit_price_target. exact Hn.
Qed.

Lemma seeds_ok (lines variants : list jsstring) :
  Forall (fun s => c_rowIndex s < List.length lines) (findCellsByKeywords lines variants).
Proof.
  apply Forall_forall. intros h H. apply cellsOfRows_row in H. lia.
Qed.

Lemma header_map_entries (lines : list jsstring) :
  Forall (entryOk lines)
    (fold_left (addSeed lines) (findCellsByKeywords lines [js "단"; js "가"; js "단가"])
       (fold_left (fun m s => mapSet (key s) s m)
                  (findStitchedKeywords lines [KW_UNIT_PRICE] 2) [])).
Proof.
  apply fold_seed_entries; [apply seeds_ok |].
  apply fold_stitched_entries; [apply stitched_hits_ok | constructor].
Qed.

Lemma header_hits_ok (lines : list jsstring) (h : KeywordHit) :
  In h (checkIsItHeaderLine lines) ->
  rowIndex h < List.length lines /\ normalized h = KW_UNIT_PRICE.
Proof.
  unfold checkIsItHeaderLine, mapValues. cbv zeta. rewrite in_map_iff.
  intros [e [<- He]].
  pose proof (header_map_entries lines) as Hm. rewrite Forall_forall in Hm.
  destruct (Hm e He) as (_ & Hr & Hn). auto.
Qed.

(** ** Completeness of two-column stitching *)
Lemma stitchCols_pair (targets : list jsstring) (r i0 j : nat) (cols : list jsstring)
      (ci cj : jsstring) :
  nth_error cols j = Some ci -> nth_error cols (S j) = Some cj ->
  setHas targets (stripSpaces (ci ++ [SP] ++ cj)) = true ->
  exists h, In h (stitchCols targets 2 r i0 cols) /\ key h = (r, i0 + j, i0 + j + 1).
Proof.
  revert i0 cols; induction j as [| j IH]; intros i0 cols Hi Hj Hset.
  - destruct cols as [| c0 [| c1 later]]; try discriminate.
    cbn in Hi, Hj. injection Hi as ->. injection Hj as ->.
    cbn [stitchCols stitchSpans]. rewrite Hset.
    eexists. split.
    + apply in_or_app. left. apply in_or_app. right.
      destruct later; left; reflexivity.
    + unfold key. cbn. f_equal; [f_equal |]; lia.
  - destruct cols as [| c0 cols]; [discriminate |].
    cbn [nth_error] in Hi, Hj.
    destruct (IH (S i0) cols Hi Hj Hset) as [h [Hin Hkey]].
    exists h. split.
    + cbn [stitchCols]. apply in_or_app. right. exact Hin.
    + rewrite Hkey. f_equal; [f_equal |]; lia.
Qed.

Lemma stitchRows_pair (targets : list jsstring) (r0 r i : nat) (lines : list jsstring)
      (line ci cj : jsstring) :
  nth_error lines r = Some line ->
  nth_error (splitToCols line) i = Some ci ->
  nth_error (splitToCols line) (S i) = Some cj ->
  setHas targets (stripSpaces (ci ++ [SP] ++ cj)) = true ->
  exists h, In h (stitchRows targets 2 r0 lines) /\ key h = (r0 + r, i, i + 1).
Proof.
  revert r0 lines; induction r as [| r IH]; intros r0 lines Hl Hi Hj Hset.
  - destruct lines as [| l0 rest]; [discriminate |]. cbn in Hl. injection Hl as ->.
    destruct (stitchCols_pair targets r0 0 i _ ci cj Hi Hj Hset) as [h [Hin Hkey]].
    exists h. split.
    + cbn [stitchRows]. apply in_or_app. left. exact Hin.
    + rewrite Hkey. cbn. f_equal. f_equal. lia.
  - destruct lines as [| l0 rest]; [discriminate |]. cbn [nth_error] in Hl.
    destruct (IH (S r0) rest Hl Hi Hj Hset) as [h [Hin Hkey]].
    exists h. split.
    + cbn [stitchRows]. apply in_or_app. right. exact Hin.
    + rewrite Hkey. f_equal. f_equal. lia.
Qed.

Lemma fold_stitched_keeps (k0 : HitKey) (hits : list KeywordHit) (m : HitMap) :
  (exists v0, In (k0, v0) m) ->
  exists v0, In (k0, v0) (fold_left (fun m s => mapSet (key s) s m) hits m).
Proof.
  revert m; induction hits as [| h hits IH]; intros m H; cbn [fold_left]; [exact H |].
  apply IH. apply mapSet_keeps. exact H.
Qed.

Lemma fold_stitched_has (h : KeywordHit) (hits : list KeywordHit) (m : HitMap) :
  In h hits ->
  exists v0, In (key h, v0) (fold_left (fun m s => mapSet (key s) s m) hits m).
Proof.
  revert m; induction hits as [| x hits IH]; intros m H; [destruct H |].
  cbn [fold_left]. destruct H as [-> | H].
  - apply fold_stitched_keeps. apply mapSet_has.
  - apply IH. exact H.
Qed.

Lemma fold_seed_keeps (lines : list jsstring) (k0 : HitKey) (seeds : list CellHit) (m : HitMap) :
  (exists v0, In (k0, v0) m) ->
  exists v0, In (k0, v0) (fold_left (addSeed lines) seeds m).
Proof.
  revert m; induction seeds as [| s seeds IH]; intros m H; cbn [fold_left]; [exact H |].
  apply IH. unfold addSeed.
  destruct (getCell lines (c_rowIndex s) (c_colIndex s)) as [cell |]; [| exact H].
  destruct (nonEmpty cell && JsStr.eqb (stripSpaces cell) KW_UNIT_PRICE); [| exact H].
  apply mapSet_keeps. exact H.
Qed.

(** ** Slicing *)
Open Scope Z_scope.

Lemma minOf_spec (x : Z) (xs : list Z) :
  In (minOf x xs) (x :: xs) /\ forall y, In y (x :: xs) -> minOf x xs <= y.
Proof.
  unfold minOf. revert x; induction xs as [| a xs IH]; intros x; cbn [fold_left].
  - split; [now left |]. intros y [<- | []]. lia.
  - destruct (IH (Z.min x a)) as [Hin Hle]. split.
    + destruct Hin as [E | Hin].
      * rewrite <- E. destruct (Z.min_spec x a) as [[_ ->] | [_ ->]]; [left | right; left]; reflexivity.
      * right; right; exact Hin.
    + intros y [<- | [<- | Hy]].
      * specialize (Hle (Z.min x a) (or_introl eq_refl)). lia.
      * specialize (Hle (Z.min x a) (or_introl eq_refl)). lia.
      * apply Hle. right. exact Hy.
Qed.

Lemma headerIndex_range (lines : list jsstring) (h : KeywordHit) (hs : list KeywordHit) :
  checkIsItHeaderLine lines = h :: hs ->
  0 <= minOf (Z.of_nat (rowIndex h)) (map (fun h => Z.of_nat (rowIndex h)) hs)
    < Z.of_nat (List.length lines).
Proof.
  intros E.
  destruct (minOf_spec (Z.of_nat (rowIndex h)) (map (fun h => Z.of_nat (rowIndex h)) hs))
    as [Hin _].
  change (Z.of_nat (rowIndex h) :: map (fun h => Z.of_nat (rowIndex h)) hs)
    with (map (fun h => Z.of_nat (rowIndex h)) (h :: hs)) in Hin.
  apply in_map_iff in Hin. destruct Hin as [h' [<- Hh']].
  rewrite <- E in Hh'. apply header_hits_ok in Hh'. lia.
Qed.

Lemma footer_at_most_one (lines : list jsstring) (f : FooterHit) (fs : list FooterHit) :
  checkIsItFooterLine lines = f :: fs -> fs = [].
Proof.
  unfold checkIsItFooterLine.
  destruct (findMarkerRow 0 lines); [intros E; injection E; auto |].
  destruct (findCellsByKeywords lines [js "인수자"]); [discriminate |].
  intros E; injection E; auto.
Qed.

Lemma arraySlice_inside {A : Type} (l : list A) (a b : Z) :
  0 <= a <= b -> b <= Z.of_nat (List.length l) ->
  arraySlice l a b = firstn (Z.to_nat (b - a)) (skipn (Z.to_nat a) l).
Proof.
  intros Hab Hb. unfold arraySlice, relIndex.
  destruct (a <? 0) eqn:Ea; [apply Z.ltb_lt in Ea; lia |].
  destruct (b <? 0) eqn:Eb; [apply Z.ltb_lt in Eb; lia |].
  rewrite !Z.min_l by lia. reflexivity.
Qed.

Lemma arraySliceFrom_inside {A : Type} (l : list A) (a : Z) :
  0 <= a <= Z.of_nat (List.length l) ->
  arraySliceFrom l a = skipn (Z.to_nat a) l.
Proof.
  intros Ha. unfold arraySliceFrom. rewrite arraySlice_inside by lia.
  apply firstn_all2. rewrite length_skipn. lia.
Qed.
Close Scope Z_scope.

(** * Facts about the text normaliser *)

(** ** Lists, two elements at a time *)
Lemma list_pair_ind {A : Type} (P : list A -> Prop) :
  P [] -> (forall a, P [a]) ->
  (forall a b l, P l -> P (b :: l) -> P (a :: b :: l)) ->
  forall l, P l.
Proof.
  intros H0 H1 H2 l.
  assert (H : P l /\ forall a, P (a :: l)).
  { induction l as [| b l [IH1 IH2]].
    - split; [exact H0 | exact H1].
    - split; [apply IH2 |]. intros a. apply H2; [exact IH1 | apply IH2]. }
  exact (proj1 H).
Qed.

(** ** escFree *)
Section EscFree.
Variable e : char.

Lemma escFree_weaken (p : bool) (s : jsstring) :
  escFree e p s = true -> escFree e false s = true.
Proof. destruct s as [| c s]; cbn; [auto |]. destruct p; cbn; [| auto].
       rewrite andb_true_iff. tauto. Qed.

Lemma escFree_app (p : bool) (l1 l2 : jsstring) :
  escFree e p (l1 ++ l2) = true -> escFree e p l1 = true /\ escFree e false l2 = true.
Proof.
  revert p; induction l1 as [| c l1 IH]; intros p; cbn [app escFree].
  - intros H. split; [reflexivity | exact (escFree_weaken _ _ H)].
  - rewrite !andb_true_iff. intros [Hc H]. destruct (IH _ H). auto.
Qed.

Lemma escFree_sep (c : char) (p : bool) (l1 l2 : jsstring) :
  (c =? e)%N = false -> (c =? BSL)%N = false ->
  escFree e p l1 = true -> escFree e false l2 = true ->
  escFree e p (l1 ++ c :: l2) = true.
Proof.
  intros Hce Hcb. revert p; induction l1 as [| a l1 IH]; intros p; cbn [app escFree].
  - intros _ H2. rewrite Hce, Hcb, andb_false_r. exact H2.
  - rewrite !andb_true_iff. intros [Ha H1] H2. split; [exact Ha | apply IH; assumption].
Qed.

Lemma unescape_id (repl : char) (s : jsstring) (p : bool) :
  escFree e p s = true -> unescape e repl s = s.
Proof.
  revert p; induction s as [| a s IH]; intros p; [reflexivity |].
  destruct s as [| b s']; [reflexivity |].
  intros H. cbn [escFree] in H. rewrite !andb_true_iff in H.
  destruct H as [_ [Hab H]].
  cbn [unescape]. apply negb_true_iff in Hab. rewrite Hab.
  f_equal. apply (IH (a =? BSL)%N). cbn [escFree].
  rewrite !andb_true_iff. split; [apply negb_true_iff; exact Hab | exact H].
Qed.
End EscFree.

Lemma unescapeCRLF_id (s : jsstring) (p : bool) :
  escFree (ch "n") p s = true -> unescapeCRLF s = s.
Proof.
  revert p; induction s as [| a s IH]; intros p; [reflexivity |].
  destruct s as [| b [| c [| d s']]]; try reflexivity.
  intros H. pose proof H as H'. cbn [escFree] in H. rewrite !andb_true_iff in H.
  destruct H as (_ & _ & _ & Hcd & _).
  cbn [unescapeCRLF]. apply negb_true_iff in Hcd.
  replace ((a =? BSL) && (b =? ch "r") && (c =? BSL) && (d =? ch "n"))%N with false.
  - f_equal. apply (IH (a =? BSL)%N).
    cbn [escFree] in H'. rewrite andb_true_iff in H'. apply H'.
  - symmetry. rewrite <- !andb_assoc. rewrite Hcd. rewrite !andb_false_r. reflexivity.
Qed.

(* after s.replace(/\\x/g, repl) no backslash is followed by x *)
Lemma unescape_establishes (x repl : char) (s : jsstring) :
  (repl =? x)%N = false -> (repl =? BSL)%N = false ->
  forall p, (p = true -> match s with c :: _ => (c =? x)%N = false | [] => True end) ->
            escFree x p (unescape x repl s) = true.
Proof.
  intros Hrx Hrb. induction s as [| a | a b s' IH1 IH2] using list_pair_ind; intros p Hp.
  - reflexivity.
  - cbn. destruct p; cbn; [| reflexivity]. rewrite (Hp eq_refl). reflexivity.
  - cbn [unescape]. destruct ((a =? BSL) && (b =? x))%N eqn:E.
    + cbn [escFree]. rewrite Hrx, Hrb, andb_false_r. cbn. apply IH1. discriminate.
    + cbn [escFree]. rewrite andb_true_iff. split.
      * destruct p; cbn; [| reflexivity]. rewrite (Hp eq_refl). reflexivity.
      * apply IH2. intros Ha. rewrite Ha in E. exact E.
Qed.

(* a later replace(/\\y/g, repl) keeps the absence of backslash-x *)
Lemma unescape_preserves (x y repl : char) (s : jsstring) :
  (repl =? x)%N = false -> (repl =? BSL)%N = false ->
  forall p, escFree x p s = true -> escFree x p (unescape y repl s) = true.
Proof.
  intros Hrx Hrb. induction s as [| a | a b s' IH1 IH2] using list_pair_ind; intros p H.
  - reflexivity.
  - exact H.
  - cbn [unescape]. destruct ((a =? BSL) && (b =? y))%N eqn:E.
    + cbn [escFree] in *. rewrite Hrx, Hrb, andb_false_r. cbn.
      rewrite !andb_true_iff in H. destruct H as (_ & _ & H).
      apply IH1. exact (escFree_weaken _ _ _ H).
    + cbn [escFree] in H |- *. rewrite andb_true_iff in H |- *. destruct H as [Ha H].
      split; [exact Ha |]. apply IH2. exact H.
Qed.

Lemma crlfToLf_escFree (e : char) (s : jsstring) :
  (LF =? e)%N = false ->
  forall p, escFree e p s = true -> escFree e p (crlfToLf s) = true.
Proof.
  intros HL. induction s as [| a | a b s' IH1 IH2] using list_pair_ind; intros p H.
  - reflexivity.
  - exact H.
  - cbn [crlfToLf]. destruct ((a =? CR) && (b =? LF))%N eqn:E.
    + cbn [escFree] in *. rewrite HL, andb_false_r. cbn.
      rewrite !andb_true_iff in H. destruct H as (_ & _ & H).
      apply IH1. exact (escFree_weaken _ _ _ H).
    + cbn [escFree] in H |- *. rewrite andb_true_iff in H |- *. destruct H as [Ha H].
      split; [exact Ha |]. apply IH2. exact H.
Qed.

Lemma replaceChar_escFree (e c : char) (repl : jsstring) (s : jsstring) :
  plainText e repl ->
  forall p, escFree e p s = true -> escFree e p (replaceChar c repl s) = true.
Proof.
  intros Hrepl. induction s as [| a s IH]; intros p H; [reflexivity |].
  cbn [replaceChar]. cbn [escFree] in H. rewrite andb_true_iff in H. destruct H as [Ha H].
  destruct (a =? c)%N.
  - apply Hrepl. apply IH. exact (escFree_weaken _ _ _ H).
  - cbn [app escFree]. rewrite Ha. cbn. apply IH. exact H.
Qed.

Lemma plainText_LF (e : char) : (LF =? e)%N = false -> plainText e [LF].
Proof. intros HL p l H. cbn [app escFree]. rewrite HL, andb_false_r. exact H. Qed.

Lemma plainText_SEP (e : char) :
  (SP =? e)%N = false -> (ch "|" =? e)%N = false -> plainText e (js " | ").
Proof.
  intros H1 H2 p l H. change (js " | ") with [SP; ch "|"; SP].
  cbn [app escFree]. rewrite H1, H2, !andb_false_r. exact H.
Qed.

(** ** trim *)
Lemma dropWs_suffix (s : jsstring) : exists pre, s = pre ++ dropWs s.
Proof.
  induction s as [| c s [pre E]]; [exists []; reflexivity |].
  cbn [dropWs]. destruct (isWs c).
  - exists (c :: pre). cbn. f_equal. exact E.
  - exists []. reflexivity.
Qed.

Lemma dropWs_tight (s : jsstring) : startsTight (dropWs s).
Proof.
  induction s as [| c s IH]; [exact I |].
  cbn [dropWs]. destruct (isWs c) eqn:E; [exact IH | exact E].
Qed.

Lemma dropWs_id (s : jsstring) : startsTight s -> dropWs s = s.
Proof. destruct s as [| c s]; [reflexivity |]. cbn. intros ->. reflexivity. Qed.

Lemma startsTight_app (l1 l2 : jsstring) :
  startsTight (l1 ++ l2) -> l1 <> [] -> startsTight l1.
Proof. destruct l1; [contradiction | auto]. Qed.

(* s = pre ++ trim s ++ post *)
Lemma trim_infix (s : jsstring) : exists pre post, s = pre ++ trim s ++ post.
Proof.
  destruct (dropWs_suffix s) as [pre E].
  destruct (dropWs_suffix (rev (dropWs s))) as [q Eq].
  exists pre, (rev q). unfold trim.
  rewrite <- rev_app_distr, <- Eq, rev_involutive. exact E.
Qed.

Lemma trim_tight (s : jsstring) : startsTight (trim s) /\ startsTight (rev (trim s)).
Proof.
  unfold trim. rewrite rev_involutive. split; [| apply dropWs_tight].
  destruct (dropWs_suffix (rev (dropWs s))) as [q Eq].
  set (v := dropWs (rev (dropWs s))) in *.
  destruct (rev v) as [| c w] eqn:Ev; [exact I |].
  assert (Hu : dropWs s = rev v ++ rev q).
  { rewrite <- rev_app_distr, <- Eq, rev_involutive. reflexivity. }
  pose proof (dropWs_tight s) as Ht. rewrite Hu, Ev in Ht. exact Ht.
Qed.

Lemma trim_id (s : jsstring) : startsTight s -> startsTight (rev s) -> trim s = s.
Proof.
  intros H1 H2. unfold trim. rewrite (dropWs_id s H1), (dropWs_id _ H2).
  apply rev_involutive.
Qed.

Lemma trim_idempotent (s : jsstring) : trim (trim s) = trim s.
Proof. destruct (trim_tight s). apply trim_id; assumption. Qed.

(** ** The quote wrapper *)
Lemma wrapBody_prefix (s body : jsstring) :
  wrapBody s = Some body -> exists post, s = body ++ post.
Proof.
  revert body; induction s as [| c s IH]; intros body; cbn [wrapBody]; [discriminate |].
  destruct ((c =? QUOTE)%N && isWrapTail s).
  - intros E; injection E as <-. exists (c :: s). reflexivity.
  - destruct (wrapBody s) as [b |]; [| discriminate].
    intros E; injection E as <-. destruct (IH b eq_refl) as [post ->].
    exists post. reflexivity.
Qed.

Lemma matchWrap_infix (s body : jsstring) :
  matchWrap s = Some body -> exists pre post, s = pre ++ body ++ post.
Proof.
  unfold matchWrap. destruct (dropWs_suffix s) as [pre E].
  destruct (dropWs s) as [| c s']; [discriminate |].
  destruct (c =? QUOTE)%N; [| discriminate].
  intros H. destruct (wrapBody_prefix _ _ H) as [post ->].
  exists (pre ++ [c]), post. rewrite E, <- app_assoc. reflexivity.
Qed.

(** ** Lines *)
Lemma splitLines_nonempty (s : jsstring) : splitLines s <> [].
Proof.
  destruct s as [| c s]; cbn [splitLines]; [discriminate |].
  destruct (c =? LF)%N; [discriminate |]. destruct (splitLines s); discriminate.
Qed.

Lemma splitLines_escFree (e : char) (s : jsstring) :
  forall p, escFree e p s = true ->
            match splitLines s with
            | l :: ls => escFree e p l = true /\ Forall (fun l => escFree e false l = true) ls
            | [] => True
            end.
Proof.
  induction s as [| c s IH]; intros p H; cbn [splitLines].
  - split; [reflexivity | constructor].
  - cbn [escFree] in H. rewrite andb_true_iff in H. destruct H as [Hc H].
    specialize (IH _ H).
    destruct (c =? LF)%N eqn:E.
    + split; [reflexivity |].
      destruct (splitLines s) as [| l ls]; [constructor |].
      destruct IH as [Hl Hls]. constructor; [| exact Hls].
      exact (escFree_weaken _ _ _ Hl).
    + destruct (splitLines s) as [| l ls].
      * split; [| constructor]. cbn [escFree]. rewrite Hc. reflexivity.
      * destruct IH as [Hl Hls]. split; [| exact Hls].
        cbn [escFree]. rewrite Hc, Hl. reflexivity.
Qed.

Lemma splitLines_In (s : jsstring) (l : jsstring) (a : char) :
  In l (splitLines s) -> In a l -> In a s /\ a <> LF.
Proof.
  revert l; induction s as [| c s IH]; intros l; cbn [splitLines].
  - intros [<- | []] [].
  - destruct (c =? LF)%N eqn:E.
    + intros [<- | H] Ha; [destruct Ha |]. destruct (IH _ H Ha). split; [right |]; assumption.
    + destruct (splitLines s) as [| l0 ls] eqn:Es.
      * intros [<- | []] [<- | []]. split; [now left |].
        intros ->. rewrite N.eqb_refl in E. discriminate.
      * intros [<- | H] Ha.
        -- destruct Ha as [<- | Ha].
           ++ split; [now left |]. intros ->. rewrite N.eqb_refl in E. discriminate.
           ++ destruct (IH l0 (or_introl eq_refl) Ha). split; [right |]; assumption.
        -- destruct (IH l (or_intror H) Ha). split; [right |]; assumption.
Qed.

Lemma splitLines_single (l : jsstring) : ~ In LF l -> splitLines l = [l].
Proof.
  induction l as [| c l IH]; intros H; [reflexivity |].
  cbn [splitLines]. destruct (c =? LF)%N eqn:E.
  - apply N.eqb_eq in E. subst c. exfalso. apply H. now left.
  - rewrite IH; [reflexivity |]. intros C. apply H. now right.
Qed.

Lemma splitLines_app (l rest : jsstring) :
  ~ In LF l -> splitLines (l ++ LF :: rest) = l :: splitLines rest.
Proof.
  induction l as [| c l IH]; intros H.
  - cbn [app splitLines]. rewrite N.eqb_refl. reflexivity.
  - cbn [app splitLines]. destruct (c =? LF)%N eqn:E.
    + apply N.eqb_eq in E. subst c. exfalso. apply H. now left.
    + rewrite IH; [reflexivity |]. intros C. apply H. now right.
Qed.

Lemma splitLines_join (L : list jsstring) :
  L <> [] -> Forall (fun l => ~ In LF l) L -> splitLines (join [LF] L) = L.
Proof.
  induction L as [| l L IH]; intros Hne HL; [contradiction |].
  inversion HL as [| ? ? Hl HL']; subst.
  destruct L as [| l' L'].
  - cbn [join]. apply splitLines_single. exact Hl.
  - change (join [LF] (l :: l' :: L')) with (l ++ LF :: join [LF] (l' :: L')).
    rewrite splitLines_app by exact Hl. f_equal. apply IH; [discriminate | exact HL'].
Qed.

Lemma join_escFree (e : char) (L : list jsstring) :
  (LF =? e)%N = false ->
  Forall (fun l => escFree e false l = true) L -> escFree e false (join [LF] L) = true.
Proof.
  intros HL. induction L as [| l L IH]; intros H; [reflexivity |].
  inversion H as [| ? ? Hl HL']; subst.
  destruct L as [| l' L']; [exact Hl |].
  change (join [LF] (l :: l' :: L')) with (l ++ LF :: join [LF] (l' :: L')).
  apply escFree_sep; [exact HL | reflexivity | exact Hl | apply IH; exact HL'].
Qed.

Lemma join_In (a : char) (L : list jsstring) :
  In a (join [LF] L) -> a = LF \/ exists l, In l L /\ In a l.
Proof.
  induction L as [| l L IH]; [intros [] |].
  destruct L as [| l' L'].
  - cbn [join]. intros H. right. exists l. split; [now left | exact H].
  - change (join [LF] (l :: l' :: L')) with (l ++ LF :: join [LF] (l' :: L')).
    rewrite in_app_iff. intros [H | [H | H]].
    + right. exists l. split; [now left | exact H].
    + left. now symmetry.
    + destruct (IH H) as [-> | [l0 [Hl0 Ha]]]; [now left |].
      right. exists l0. split; [right; exact Hl0 | exact Ha].
Qed.

(** ** Collapsing runs of whitespace *)
Lemma collapseFrom_escFree (e : char) (s : jsstring) :
  (SP =? e)%N = false ->
  forall inRun p, escFree e p s = true ->
                  escFree e (p && negb inRun) (collapseFrom inRun s) = true.
Proof.
  intros HS. induction s as [| c s IH]; intros inRun p H; [reflexivity |].
  cbn [escFree] in H. rewrite andb_true_iff in H. destruct H as [Hc H].
  cbn [collapseFrom]. destruct (isWs c) eqn:Ec.
  - destruct inRun.
    + specialize (IH true _ H). rewrite andb_false_r in IH |- *. exact IH.
    + rewrite andb_true_r. destruct s as [| d s'].
      * cbn [escFree]. rewrite Hc. reflexivity.
      * destruct (isWs d).
        -- cbn [escFree]. rewrite HS, andb_false_r. cbn.
           specialize (IH true _ H). rewrite andb_false_r in IH. exact IH.
        -- cbn [escFree]. rewrite Hc. cbn.
           specialize (IH false _ H). rewrite andb_true_r in IH. exact IH.
  - cbn [escFree]. rewrite andb_true_iff. split.
    + destruct p; cbn in *; [| reflexivity]. destruct inRun; cbn; [reflexivity | exact Hc].
    + specialize (IH false _ H). rewrite andb_true_r in IH. exact IH.
Qed.

Lemma collapseFrom_In (a : char) (s : jsstring) :
  forall inRun, In a (collapseFrom inRun s) -> In a s \/ a = SP.
Proof.
  induction s as [| c s IH]; intros inRun; cbn [collapseFrom]; [intros [] |].
  destruct (isWs c).
  - destruct inRun.
    + intros H. destruct (IH _ H); [left; right |]; auto.
    + destruct s as [| d s'].
      * intros [<- | []]. left. now left.
      * destruct (isWs d).
        -- intros [<- | H]; [now right |]. destruct (IH _ H); [left; right |]; auto.
        -- intros [<- | H]; [left; now left |]. destruct (IH _ H); [left; right |]; auto.
  - intros [<- | H]; [left; now left |]. destruct (IH _ H); [left; right |]; auto.
Qed.

Lemma collapseFrom_runFree (s : jsstring) :
  (forall q, runFree q (collapseFrom true s) = true) /\
  (forall q, (q = true -> startsTight s) -> runFree q (collapseFrom false s) = true).
Proof.
  induction s as [| c s [IHt IHf]]; [split; intros; reflexivity |].
  split.
  - intros q. cbn [collapseFrom]. destruct (isWs c) eqn:Ec; [apply IHt |].
    cbn [runFree]. rewrite Ec, andb_false_r. cbn. apply IHf. discriminate.
  - intros q Hq. cbn [collapseFrom]. destruct (isWs c) eqn:Ec.
    + assert (q = false) as ->.
      { destruct q; [| reflexivity]. specialize (Hq eq_refl). cbn in Hq. congruence. }
      destruct s as [| d s'].
      * cbn. reflexivity.
      * destruct (isWs d) eqn:Ed.
        -- cbn [runFree]. cbn. apply IHt.
        -- cbn [runFree]. rewrite Ec. cbn. apply IHf. intros _. exact Ed.
    + cbn [runFree]. rewrite Ec, andb_false_r. cbn. apply IHf. discriminate.
Qed.

Lemma collapseFrom_id (s : jsstring) :
  forall q, runFree q s = true -> collapseFrom false s = s.
Proof.
  induction s as [| c s IH]; intros q H; [reflexivity |].
  cbn [runFree] in H. rewrite andb_true_iff in H. destruct H as [_ H].
  cbn [collapseFrom]. destruct (isWs c) eqn:Ec.
  - destruct s as [| d s']; [reflexivity |].
    pose proof H as H'. cbn [runFree] in H'. rewrite andb_true_iff in H'.
    destruct H' as [Hd _]. cbn in Hd. apply negb_true_iff in Hd. rewrite Hd.
    f_equal. exact (IH _ H).
  - f_equal. exact (IH _ H).
Qed.

Lemma runFree_weaken (q : bool) (s : jsstring) : runFree q s = true -> runFree false s = true.
Proof. destruct s as [| c s]; cbn; [auto |]. destruct q; cbn; [| auto].
       rewrite andb_true_iff. tauto. Qed.

Lemma runFree_app (q : bool) (l1 l2 : jsstring) :
  runFree q (l1 ++ l2) = true -> runFree q l1 = true /\ runFree false l2 = true.
Proof.
  revert q; induction l1 as [| c l1 IH]; intros q; cbn [app runFree].
  - intros H. split; [reflexivity | exact (runFree_weaken _ _ H)].
  - rewrite !andb_true_iff. intros [Hc H]. destruct (IH _ H). auto.
Qed.

(** ** Characters of the intermediate texts *)
Lemma crlfToLf_In (a : char) (s : jsstring) : In a (crlfToLf s) -> In a s.
Proof.
  induction s as [| x | x y s' IH1 IH2] using list_pair_ind; [auto | auto |].
  cbn [crlfToLf]. destruct ((x =? CR) && (y =? LF))%N eqn:E.
  - apply andb_true_iff in E. destruct E as [_ E]. apply N.eqb_eq in E. subst y.
    intros [<- | H]; [right; now left | right; right; exact (IH1 H)].
  - intros [<- | H]; [now left | right; exact (IH2 H)].
Qed.

Lemma replaceChar_In (a c : char) (repl s : jsstring) :
  In a (replaceChar c repl s) -> (In a s /\ a <> c) \/ In a repl.
Proof.
  induction s as [| x s IH]; cbn [replaceChar]; [intros [] |].
  rewrite in_app_iff. intros [H | H].
  - destruct (x =? c)%N eqn:E; [now right |].
    destruct H as [<- | []]. left. split; [now left |].
    intros ->. rewrite N.eqb_refl in E. discriminate.
  - destruct (IH H) as [[Hin Hne] | Hr]; [left; split; [right |]; assumption | now right].
Qed.

Lemma replaceChar_id (c : char) (repl s : jsstring) : ~ In c s -> replaceChar c repl s = s.
Proof.
  induction s as [| x s IH]; intros H; [reflexivity |].
  cbn [replaceChar]. destruct (x =? c)%N eqn:E.
  - apply N.eqb_eq in E. subst x. exfalso. apply H. now left.
  - cbn. f_equal. apply IH. intros C. apply H. now right.
Qed.

Lemma crlfToLf_id (s : jsstring) : ~ In CR s -> crlfToLf s = s.
Proof.
  induction s as [| x s IH]; intros H; [reflexivity |].
  destruct s as [| y s']; [reflexivity |].
  cbn [crlfToLf]. destruct (x =? CR)%N eqn:E.
  - apply N.eqb_eq in E. subst x. exfalso. apply H. now left.
  - cbn. f_equal. apply IH. intros C. apply H. now right.
Qed.

(** ** Normal form of the lines *)

Lemma infix_In (a : char) (pre mid post : jsstring) : In a mid -> In a (pre ++ mid ++ post).
Proof. intros H. rewrite !in_app_iff. auto. Qed.

Lemma infix_plain (pre mid post : jsstring) :
  plainLineText (pre ++ mid ++ post) -> plainLineText mid.
Proof.
  intros (Hn & Ht & Hc & Hb). repeat split.
  - apply escFree_app in Hn. destruct Hn as [_ Hn]. apply escFree_app in Hn. tauto.
  - apply escFree_app in Ht. destruct Ht as [_ Ht]. apply escFree_app in Ht. tauto.
  - intros C. apply Hc. apply infix_In. exact C.
  - intros C. apply Hb. apply infix_In. exact C.
Qed.

Lemma splitLines_all_escFree (e : char) (s : jsstring) :
  escFree e false s = true -> Forall (fun l => escFree e false l = true) (splitLines s).
Proof.
  intros H. pose proof (splitLines_escFree e s false H) as Hs.
  destruct (splitLines s) as [| l ls]; [constructor |].
  destruct Hs. constructor; assumption.
Qed.

Lemma cleanLines_normal (s : jsstring) :
  plainLineText s -> Forall normalLine (cleanLines s).
Proof.
  intros (Hn & Ht & Hc & Hb). apply Forall_forall. intros l Hl.
  unfold cleanLines in Hl. apply filter_In in Hl. destruct Hl as [Hl Hlen].
  apply in_map_iff in Hl. destruct Hl as [l0 [El Hl0]].
  destruct (trim_infix (collapseSpaces l0)) as [pre [post Ei]]. rewrite El in Ei.
  assert (Hsub : forall a, In a l -> (In a s /\ a <> LF) \/ a = SP).
  { intros a Ha. assert (Hc0 : In a (collapseSpaces l0)) by (rewrite Ei; apply infix_In; exact Ha).
    destruct (collapseFrom_In _ _ _ Hc0) as [H | H]; [left | now right].
    exact (splitLines_In _ _ _ Hl0 H). }
  assert (Hesc : forall e, (SP =? e)%N = false -> escFree e false s = true ->
                           escFree e false l = true).
  { intros e HS He.
    pose proof (splitLines_all_escFree e s He) as Hall. rewrite Forall_forall in Hall.
    pose proof (collapseFrom_escFree e l0 HS false false (Hall _ Hl0)) as H0.
    cbn [andb] in H0. fold (collapseSpaces l0) in H0. rewrite Ei in H0.
    apply escFree_app in H0. destruct H0 as [_ H0]. apply escFree_app in H0. tauto. }
  repeat split.
  - apply Hesc; [reflexivity | exact Hn].
  - apply Hesc; [reflexivity | exact Ht].
  - intros C. destruct (Hsub _ C) as [[C' _] | C']; [exact (Hc C') | discriminate].
  - intros C. destruct (Hsub _ C) as [[C' _] | C']; [exact (Hb C') | discriminate].
  - intros C. destruct (Hsub _ C) as [[_ C'] | C']; [exact (C' eq_refl) | discriminate].
  - intros C. rewrite C in Hlen. discriminate.
  - assert (Hrun : runFree false l = true).
    { pose proof (proj2 (collapseFrom_runFree l0) false ltac:(discriminate)) as H0.
      fold (collapseSpaces l0) in H0. rewrite Ei in H0.
      apply runFree_app in H0. destruct H0 as [_ H0]. apply runFree_app in H0. tauto. }
    unfold collapseSpaces. rewrite (collapseFrom_id l false Hrun).
    rewrite <- El. apply trim_idempotent.
Qed.

Lemma cleanLines_join (L : list jsstring) :
  Forall normalLine L -> cleanLines (join [LF] L) = L.
Proof.
  intros HL. destruct L as [| l0 L0] eqn:EL; [reflexivity |]. rewrite <- EL in *.
  assert (Hne : L <> []) by (rewrite EL; discriminate).
  unfold cleanLines. rewrite splitLines_join.
  - assert (Hmap : map (fun line => trim (collapseSpaces line)) L = L).
    { clear EL Hne. induction HL as [| l L' Hl _ IH]; [reflexivity |].
      cbn [map]. rewrite IH. f_equal. apply Hl. }
    rewrite Hmap. clear EL Hne Hmap.
    induction HL as [| l L' Hl _ IH]; [reflexivity |].
    cbn [filter]. destruct Hl as (_ & _ & Hl & _).
    destruct l as [| c l]; [contradiction |]. cbn. f_equal. exact IH.
  - exact Hne.
  - apply Forall_forall. intros l Hl. rewrite Forall_forall in HL.
    destruct (HL l Hl) as (_ & H & _). exact H.
Qed.

Lemma join_plain (L : list jsstring) : Forall normalLine L -> plainLineText (join [LF] L).
Proof.
  intros HL. rewrite Forall_forall in HL. repeat split.
  - apply join_escFree; [reflexivity |]. apply Forall_forall. intros l Hl. apply (HL l Hl).
  - apply join_escFree; [reflexivity |]. apply Forall_forall. intros l Hl. apply (HL l Hl).
  - intros C. apply join_In in C. destruct C as [C | [l [Hl C]]]; [discriminate |].
    destruct (HL l Hl) as ((_ & _ & H & _) & _). exact (H C).
  - intros C. apply join_In in C. destruct C as [C | [l [Hl C]]]; [discriminate |].
    destruct (HL l Hl) as ((_ & _ & _ & H) & _). exact (H C).
Qed.

(* the text handed to the line splitter is free of escapes, CR and TAB *)
Lemma before_lines_plain (x : jsstring) :
  let s := unescape (ch "t") TAB (unescape (ch "n") LF (unescapeCRLF x)) in
  let s := replaceChar CR [LF] (crlfToLf s) in
  let s := match matchWrap s with Some body => body | None => s end in
  plainLineText (replaceChar TAB (js " | ") s).
Proof.
  cbv zeta.
  set (s3 := unescape (ch "t") TAB (unescape (ch "n") LF (unescapeCRLF x))).
  set (s4 := replaceChar CR [LF] (crlfToLf s3)).
  assert (H3n : escFree (ch "n") false s3 = true).
  { apply unescape_preserves; [reflexivity | reflexivity |].
    apply unescape_establishes; [reflexivity | reflexivity | discriminate]. }
  assert (H3t : escFree (ch "t") false s3 = true).
  { apply unescape_establishes; [reflexivity | reflexivity | discriminate]. }
  assert (H4n : escFree (ch "n") false s4 = true).
  { apply replaceChar_escFree; [apply plainText_LF; reflexivity |].
    apply crlfToLf_escFree; [reflexivity | exact H3n]. }
  assert (H4t : escFree (ch "t") false s4 = true).
  { apply replaceChar_escFree; [apply plainText_LF; reflexivity |].
    apply crlfToLf_escFree; [reflexivity | exact H3t]. }
  assert (H4c : ~ In CR s4).
  { intros C. apply replaceChar_In in C. destruct C as [[_ C] | [C | []]]; [now apply C | discriminate]. }
  set (s5 := match matchWrap s4 with Some body => body | None => s4 end).
  assert (H5 : escFree (ch "n") false s5 = true /\ escFree (ch "t") false s5 = true /\ ~ In CR s5).
  { subst s5. destruct (matchWrap s4) as [body |] eqn:Ew; [| auto].
    destruct (matchWrap_infix _ _ Ew) as [pre [post E]].
    rewrite E in H4n, H4t, H4c. repeat split.
    - apply escFree_app in H4n. destruct H4n as [_ H]. apply escFree_app in H. tauto.
    - apply escFree_app in H4t. destruct H4t as [_ H]. apply escFree_app in H. tauto.
    - intros C. apply H4c. apply infix_In. exact C. }
  destruct H5 as (H5n & H5t & H5c). repeat split.
  - apply replaceChar_escFree; [apply plainText_SEP; reflexivity | exact H5n].
  - apply replaceChar_escFree; [apply plainText_SEP; reflexivity | exact H5t].
  - intros C. apply replaceChar_In in C. destruct C as [[C _] | C]; [exact (H5c C) |].
    change (js " | ") with [SP; ch "|"; SP] in C.
    destruct C as [C | [C | [C | []]]]; discriminate.
  - intros C. apply replaceChar_In in C. destruct C as [[_ C] | C]; [now apply C |].
    change (js " | ") with [SP; ch "|"; SP] in C.
    destruct C as [C | [C | [C | []]]]; discriminate.
Qed.

(** * Facts about the schema validator *)

Lemma validateFrom_partition (idx : nat) (rows : list jsstring) :
  (forall i row, fst (validateRow i row) = Valid <-> v_issues (snd (validateRow i row)) = []) ->
  Forall (fun v => v_issues v = []) (fst (validateFrom idx rows)) /\
  Forall (fun v => v_issues v <> []) (snd (validateFrom idx rows)).
Proof.
  intros Hv. revert idx; induction rows as [| row rest IH]; intros idx; cbn [validateFrom].
  - split; constructor.
  - specialize (IH (S idx)). destruct (validateFrom (S idx) rest) as [valid invalid].
    cbn [fst snd] in IH. destruct IH as [IH1 IH2].
    specialize (Hv idx row).
    destruct (validateRow idx row) as [[|] v]; cbn [fst snd] in *.
    + split; [constructor; [apply Hv; reflexivity | exact IH1] | exact IH2].
    + split; [exact IH1 |]. constructor; [| exact IH2].
      intros C. apply Hv in C. discriminate.
Qed.

Lemma validateRow_issues :
  forall (idx : nat) (row : jsstring),
     let cols := splitToCols row in
     let n := List.length cols in
     let itemCol := findCol isValidItem cols 0 n n in
     let money := moneyTokensFrom 0 cols in
     let v := snd (validateRow idx row) in
     (fst (validateRow idx row) = Valid <-> v_issues v = []) /\
     (n < 4 -> v_issues v = [InsufficientColumns n]) /\
     (4 <= n -> itemCol = None -> v_issues v = [MissingItemName]) /\
     (4 <= n -> itemCol <> None -> List.length money < 2 ->
        v_issues v = [MissingMoneyValues (List.length money)]) /\
     (4 <= n -> forall item u s more,
        itemCol = Some item -> money = u :: s :: more ->
        let q := findCol isValidQuantity cols (index item + 1) (index u) n in
        v_issues v =
          (match q with None => [MissingQuantity] | Some _ => [] end)
          ++ (if truthy (Some (value item)) then [] else [ItemNull])
          ++ (if truthy (option_map value q) then [] else [QuantityNull])
          ++ (if truthy (Some (value u)) then [] else [UnitPriceNull])
          ++ (if truthy (Some (value s)) then [] else [SupplyAmountNull])).
Proof.
  intros idx row cols n itemCol money v.
    subst v. unfold validateRow. fold cols. fold n. fold itemCol. fold money.
    destruct (n <? 4) eqn:En.
    - apply Nat.ltb_lt in En. cbn [fst snd v_issues].
      split; [split; discriminate |].
      split; [reflexivity |]. repeat split; intros; lia.
    - apply Nat.ltb_ge in En.
      destruct itemCol as [item |] eqn:Ei.
      + destruct money as [| u [| s more]] eqn:Em.
        * cbn [fst snd v_issues List.length].
          split; [split; discriminate |].
          repeat split; intros; try lia; try discriminate; try reflexivity.
        * cbn [fst snd v_issues List.length].
          split; [split; discriminate |].
          repeat split; intros; try lia; try discriminate; try reflexivity.
        * cbn [snd v_issues s_item s_quantity s_unitPrice s_supplyAmount].
          split.
          { match goal with |- context [match ?l with [] => Valid | _ :: _ => Invalid end] =>
              destruct l end; cbn [fst]; split; congruence. }
          repeat split; intros; try lia; try congruence.
          -- cbn [List.length] in *. lia.
          -- match goal with H : Some _ = Some _ |- _ => injection H as <- end.
             match goal with H : _ :: _ :: _ = _ :: _ :: _ |- _ => injection H as <- <- <- end.
             rewrite <- !app_assoc. reflexivity.
      + cbn [fst snd v_issues].
        split; [split; discriminate |]. repeat split; intros; try lia; try congruence.
Qed.

(** * Facts about splitting rows into columns *)

(** ** The greedy star of a character class *)
Lemma run_star_loop (p : char -> bool) (s : jsstring) (k : nat -> caps -> result)
      (i : nat) (c : caps) :
  run (Star true (Chr p)) s i c k = starLoop p s k (S (List.length s - i)) i c.
Proof. reflexivity. Qed.

Lemma starLoop_greedy (p : char -> bool) (s : jsstring) (k : nat -> caps -> result) (n : nat) :
  forall (fuel i : nat) (c : caps),
    n < fuel ->
    (forall j, i <= j < i + n -> exists x, nth_error s j = Some x /\ p x = true) ->
    (forall x, nth_error s (i + n) = Some x -> p x = false) ->
    (k (i + n) c <> None \/ forall j, i <= j < i + n -> k j c = None) ->
    starLoop p s k fuel i c = k (i + n) c.
Proof.
  induction n as [| n IH]; intros fuel i c Hfuel Hrun Hstop Hk.
  - destruct fuel as [| fuel]; [lia |]. cbn.
    rewrite Nat.add_0_r in *.
    destruct (nth_error s i) as [x |] eqn:Ex; [rewrite (Hstop x eq_refl) |]; reflexivity.
  - destruct fuel as [| fuel]; [lia |]. cbn -[Nat.ltb]. fold (starLoop p s k).
    destruct (Hrun i ltac:(lia)) as [x [Ex Hp]].
    rewrite Ex, Hp.
    replace (i <? S i) with true by (symmetry; apply Nat.ltb_lt; lia).
    replace (i + S n) with (S i + n) in * by lia.
    rewrite (IH fuel (S i) c); try lia.
    + destruct (k (S i + n) c) eqn:Ek; [reflexivity |].
      destruct Hk as [Hk | Hk]; [contradiction |]. apply Hk. lia.
    + intros j Hj. apply Hrun. lia.
    + exact Hstop.
    + destruct Hk as [Hk | Hk]; [left; exact Hk | right; intros j Hj; apply Hk; lia].
Qed.

(* the whitespace run at position i of s *)
Lemma wsLen_run (s : jsstring) (i : nat) :
  (forall j, i <= j < i + wsLen (skipn i s) ->
             exists x, nth_error s j = Some x /\ isWs x = true) /\
  (forall x, nth_error s (i + wsLen (skipn i s)) = Some x -> isWs x = false).
Proof.
  revert i; induction s as [| a s IH]; intros i.
  - rewrite skipn_nil. cbn [wsLen]. split; [intros j Hj; lia |].
    intros x Hx. destruct (i + 0); discriminate.
  - destruct i as [| i].
    + cbn [skipn wsLen]. destruct (isWs a) eqn:Ea.
      * destruct (IH 0) as [H1 H2]. cbn [skipn] in H1, H2. split.
        -- intros j Hj. destruct j as [| j]; [exists a; auto |].
           cbn [nth_error]. apply H1. lia.
        -- intros x Hx. cbn in Hx. apply H2. exact Hx.
      * split; [intros j Hj; lia |]. intros x Hx. cbn in Hx. injection Hx as <-. exact Ea.
    + cbn [skipn]. destruct (IH i) as [H1 H2]. split.
      * intros j Hj. destruct j as [| j]; [lia |]. cbn [nth_error]. apply H1. lia.
      * intros x Hx. cbn in Hx. apply H2. exact Hx.
Qed.

Lemma run_star_ws (s : jsstring) (k : nat -> caps -> result) (i : nat) (c : caps) :
  (k (i + wsLen (skipn i s)) c <> None \/
   forall j, i <= j < i + wsLen (skipn i s) -> k j c = None) ->
  run (Star true ws) s i c k = k (i + wsLen (skipn i s)) c.
Proof.
  intros Hk. unfold ws. rewrite run_star_loop.
  destruct (wsLen_run s i) as [H1 H2].
  apply starLoop_greedy; try assumption.
  destruct (wsLen (skipn i s)) as [| n] eqn:En; [lia |].
  destruct (H1 (i + n) ltac:(lia)) as [x [Hx _]].
  assert (i + n < List.length s) by (apply nth_error_Some; congruence). lia.
Qed.

Lemma ws_not_bar (x : char) : isWs x = true -> (x =? BAR)%N = false.
Proof.
  intros H. destruct (x =? BAR)%N eqn:E; [| reflexivity].
  apply N.eqb_eq in E. subst x. discriminate.
Qed.

Lemma wsLen_le (s : jsstring) : wsLen s <= List.length s.
Proof. induction s as [| a s IH]; cbn; [lia |]. destruct (isWs a); lia. Qed.

Lemma run_Cat (r1 r2 : re) (s : jsstring) (i : nat) (c : caps) (k : nat -> caps -> result) :
  run (Cat r1 r2) s i c k = run r1 s i c (fun j c' => run r2 s j c' k).
Proof. reflexivity. Qed.

Lemma run_C (x : char) (s : jsstring) (i : nat) (c : caps) (k : nat -> caps -> result) :
  run (C x) s i c k =
  match nth_error s i with
  | Some y => if (y =? x)%N then k (S i) c else None
  | None => None
  end.
Proof. reflexivity. Qed.

Lemma run_Eol (s : jsstring) (i : nat) (c : caps) (k : nat -> caps -> result) :
  run Eol s i c k = if i =? List.length s then k i c else None.
Proof. reflexivity. Qed.

(** ** Where the column separator matches *)
Lemma matchAt_bar (s : jsstring) (q : nat) :
  matchAt re_bar s q =
  let j := q + wsLen (skipn q s) in
  match nth_error s j with
  | Some x =>
      if (x =? BAR)%N
      then Some {| m_start := q; m_end := S j + wsLen (skipn (S j) s); m_caps := [] |}
      else None
  | None => None
  end.
Proof.
  unfold matchAt, re_bar. cbn [Seq]. rewrite run_Cat, run_star_ws.
  - cbv zeta. rewrite run_Cat, run_C.
    destruct (nth_error s (q + wsLen (skipn q s))) as [x |]; [| reflexivity].
    change (ch "|") with BAR. destruct (x =? BAR)%N; [| reflexivity].
    rewrite run_star_ws; [reflexivity | left; discriminate].
  - right. intros j Hj. destruct (wsLen_run s q) as [H1 _].
    destruct (H1 j Hj) as [x [Hx Hw]]. rewrite run_Cat, run_C, Hx.
    change (ch "|") with BAR. rewrite (ws_not_bar x Hw). reflexivity.
Qed.

Lemma matchAt_trailingBar (s : jsstring) (q : nat) :
  matchAt re_trailingBar s q =
  let j := q + wsLen (skipn q s) in
  match nth_error s j with
  | Some x =>
      if (x =? BAR)%N
      then if S j + wsLen (skipn (S j) s) =? List.length s
           then Some {| m_start := q; m_end := S j + wsLen (skipn (S j) s); m_caps := [] |}
           else None
      else None
  | None => None
  end.
Proof.
  unfold matchAt, re_trailingBar. cbn [Seq]. rewrite run_Cat, run_star_ws.
  - cbv zeta. rewrite run_Cat, run_C.
    destruct (nth_error s (q + wsLen (skipn q s))) as [x |] eqn:Ex; [| reflexivity].
    change (ch "|") with BAR. destruct (x =? BAR)%N; [| reflexivity].
    rewrite run_Cat, run_star_ws.
    + rewrite run_Eol. destruct (_ =? List.length s); reflexivity.
    + right. intros j Hj. rewrite run_Eol.
      assert (Hlt : q + wsLen (skipn q s) < List.length s) by (apply nth_error_Some; congruence).
      pose proof (wsLen_le (skipn (S (q + wsLen (skipn q s))) s)) as Hle.
      rewrite length_skipn in Hle.
      replace (j =? List.length s) with false; [reflexivity |].
      symmetry. apply Nat.eqb_neq. lia.
  - right. intros j Hj. destruct (wsLen_run s q) as [H1 _].
    destruct (H1 j Hj) as [x [Hx Hw]]. rewrite run_Cat, run_C, Hx.
    change (ch "|") with BAR. rewrite (ws_not_bar x Hw). reflexivity.
Qed.

(** ** Separator matches, read on the rest of the text *)

Lemma matchAt_bar_suffix (s : jsstring) (q : nat) :
  matchAt re_bar s q =
  match barMatchLen (skipn q s) with
  | Some len => Some {| m_start := q; m_end := q + len; m_caps := [] |}
  | None => None
  end.
Proof.
  rewrite matchAt_bar. cbv zeta. unfold barMatchLen.
  rewrite nth_error_skipn.
  destruct (nth_error s (q + wsLen (skipn q s))) as [x |]; [| reflexivity].
  destruct (x =? BAR)%N; [| reflexivity].
  rewrite skipn_skipn.
  replace (S (wsLen (skipn q s)) + q) with (S (q + wsLen (skipn q s))) by lia.
  do 2 f_equal. lia.
Qed.

Lemma barMatchLen_bounds (t : jsstring) (len : nat) :
  barMatchLen t = Some len -> 1 <= len <= List.length t.
Proof.
  unfold barMatchLen. cbv zeta.
  destruct (nth_error t (wsLen t)) as [x |] eqn:Ex; [| discriminate].
  destruct (x =? BAR)%N; [| discriminate].
  assert (H0 : wsLen t < List.length t) by (apply nth_error_Some; congruence).
  pose proof (wsLen_le (skipn (S (wsLen t)) t)) as H1. rewrite length_skipn in H1.
  set (w2 := wsLen (skipn (S (wsLen t)) t)) in *.
  intros E; injection E as <-. lia.
Qed.

Lemma slice_snoc (s : jsstring) (p q : nat) (x : char) :
  p <= q -> nth_error s q = Some x -> slice s p (S q) = slice s p q ++ [x].
Proof.
  intros Hpq Hx. unfold slice.
  replace (S q - p) with (S (q - p)) by lia.
  assert (Hx' : nth_error (skipn p s) (q - p) = Some x)
    by (rewrite nth_error_skipn; replace (p + (q - p)) with q by lia; exact Hx).
  rewrite <- (firstn_skipn_middle (q - p) (skipn p s) Hx') at 1.
  assert (Hl : List.length (firstn (q - p) (skipn p s)) = q - p).
  { apply firstn_length_le.
    assert (q - p < List.length (skipn p s)) by (apply nth_error_Some; congruence). lia. }
  rewrite firstn_app, Hl.
  replace (S (q - p) - (q - p)) with 1 by lia.
  rewrite firstn_all2 by lia. reflexivity.
Qed.

Lemma skipn_nth_cons (s : jsstring) (q : nat) (x : char) :
  nth_error s q = Some x -> skipn q s = x :: skipn (S q) s.
Proof.
  revert s; induction q as [| q IH]; intros [| a s] H; try discriminate.
  - cbn in H. injection H as ->. reflexivity.
  - cbn [nth_error] in H. cbn [skipn]. rewrite (IH _ H). reflexivity.
Qed.

Lemma splitPieces_step (fuel : nat) (piece : jsstring) (x : char) (t' : jsstring) :
  splitPieces (S fuel) piece (x :: t') =
  match barMatchLen (x :: t') with
  | None => splitPieces fuel (piece ++ [x]) t'
  | Some len => piece :: splitPieces fuel [] (skipn len (x :: t'))
  end.
Proof. reflexivity. Qed.

Lemma split_bar_pieces (fuel : nat) (s : jsstring) :
  forall p q, p <= q <= List.length s ->
              splitFrom fuel re_bar s p q = splitPieces fuel (slice s p q) (skipn q s).
Proof.
  induction fuel as [| fuel IH]; intros p q Hpq.
  - cbn [splitFrom splitPieces]. f_equal. unfold slice.
    replace (skipn q s) with (skipn (q - p) (skipn p s))
      by (rewrite skipn_skipn; f_equal; lia).
    symmetry. apply firstn_skipn.
  - cbn [splitFrom].
    destruct (List.length s <=? q) eqn:Eq.
    + apply Nat.leb_le in Eq. assert (q = List.length s) as -> by lia.
      rewrite skipn_all. cbn [splitPieces]. f_equal. unfold slice.
      symmetry. apply firstn_all2. rewrite length_skipn. lia.
    + apply Nat.leb_gt in Eq.
      destruct (nth_error s q) as [x |] eqn:Ex;
        [| apply nth_error_None in Ex; lia].
      pose proof (skipn_nth_cons s q x Ex) as Es.
      rewrite matchAt_bar_suffix, Es, splitPieces_step, <- Es.
      destruct (barMatchLen (skipn q s)) as [len |] eqn:Eb.
      * pose proof (barMatchLen_bounds _ _ Eb) as Hb. rewrite length_skipn in Hb.
        cbn [m_end].
        replace (q + len =? p) with false by (symmetry; apply Nat.eqb_neq; lia).
        f_equal. rewrite IH by lia.
        unfold slice. rewrite Nat.sub_diag. cbn [firstn].
        rewrite skipn_skipn. do 2 f_equal. lia.
      * rewrite IH by lia. rewrite (slice_snoc s p q x) by (try lia; exact Ex).
        reflexivity.
Qed.

(** ** Columns never contain the separator character *)

Lemma barMatchLen_at_bar (t : jsstring) : barMatchLen (BAR :: t) <> None.
Proof. unfold barMatchLen. cbn. discriminate. Qed.

Lemma splitPieces_noBar (fuel : nat) :
  forall piece t,
    List.length t < fuel -> ~ In BAR piece ->
    Forall (fun p => ~ In BAR p) (splitPieces fuel piece t).
Proof.
  induction fuel as [| fuel IH]; intros piece t Hf Hp; [lia |].
  destruct t as [| x t']; [cbn; constructor; [exact Hp | constructor] |].
  rewrite splitPieces_step.
  destruct (barMatchLen (x :: t')) as [len |] eqn:Eb.
  - constructor; [exact Hp |]. apply IH; [| intros []].
    pose proof (barMatchLen_bounds _ _ Eb) as Hb. rewrite length_skipn. cbn [List.length] in *. lia.
  - apply IH; [cbn [List.length] in Hf; lia |].
    intros C. apply in_app_or in C. destruct C as [C | [C | []]]; [exact (Hp C) |].
    subst x. exact (barMatchLen_at_bar t' Eb).
Qed.

Lemma split_bar_noBar (s : jsstring) : Forall (fun p => ~ In BAR p) (split re_bar s).
Proof.
  unfold split. destruct s as [| a s'].
  - destruct (matchAt re_bar [] 0); constructor; [intros [] | constructor].
  - rewrite split_bar_pieces by (cbn [List.length]; lia).
    apply splitPieces_noBar; [cbn [skipn List.length]; lia | intros []].
Qed.

(** ** The columns of a line *)
Lemma splitToCols_cellLike (line : jsstring) : Forall cellLike (splitToCols line).
Proof.
  unfold splitToCols. apply Forall_forall. intros c Hc.
  apply filter_In in Hc. destruct Hc as [Hc Hne].
  apply in_map_iff in Hc. destruct Hc as [piece [<- Hp]].
  pose proof (split_bar_noBar (replaceFirst re_trailingBar [] line)) as Hnb.
  rewrite Forall_forall in Hnb. specialize (Hnb piece Hp).
  destruct (trim_tight piece) as [T1 T2].
  repeat split; try assumption.
  - intros E. rewrite E in Hne. discriminate.
  - intros Hb. apply Hnb. destruct (trim_infix piece) as [pre [post E]].
    rewrite E. apply in_or_app. right. apply in_or_app. left. exact Hb.
Qed.

Lemma dropNoise_incl (rs : list re) (line : jsstring) (cols : list jsstring) :
  forall r c x, In x (fst (dropNoise rs r c line cols)) -> In x cols.
Proof.
  induction cols as [| col cols IH]; intros r c x; cbn [dropNoise]; [intros [] |].
  specialize (IH r (S c) x).
  destruct (dropNoise rs r (S c) line cols) as [newCols rem].
  destruct (existsb (fun rule => test rule col) rs); cbn [fst] in *.
  - intros H. right. auto.
  - intros [H | H]; [left; exact H | right; auto].
Qed.

Lemma prunePrefix_incl (r : nat) (line : jsstring) (cols : list jsstring) (x : jsstring) :
  In x (fst (prunePrefix r line cols)) -> In x cols.
Proof.
  unfold prunePrefix. destruct (7 <=? List.length cols); [| exact (fun H => H)].
  destruct cols as [| first rest]; [exact (fun H => H) |].
  destruct (negb (isMoneyToken first) && looksLikePrefixId first && existsb isUnitToken rest
            && (2 <=? List.length (filter isMoneyToken rest))
            && (1 <=? List.length (filter isQuantityLike rest)));
    cbn [fst]; [intros H; right; exact H | exact (fun H => H)].
Qed.

Lemma survivingCols_incl (rs : list re) (line : jsstring) (x : jsstring) :
  In x (survivingCols rs line) -> In x (splitToCols line).
Proof.
  unfold survivingCols, filterRow.
  pose proof (dropNoise_incl rs line (splitToCols line) 0 0 x) as H1.
  destruct (dropNoise rs 0 0 line (splitToCols line)) as [n1 m1].
  pose proof (prunePrefix_incl 0 line n1 x) as H2.
  destruct (prunePrefix 0 line n1) as [n2 m2]. cbn [fst] in *. auto.
Qed.

Lemma survivingCols_cellLike (rs : list re) (line : jsstring) :
  Forall cellLike (survivingCols rs line).
Proof.
  apply Forall_forall. intros x Hx.
  pose proof (splitToCols_cellLike line) as H. rewrite Forall_forall in H.
  apply H, (survivingCols_incl rs). exact Hx.
Qed.

(** ** The queue only ever holds columns *)
Section QueueShape.
Variable P : jsstring -> Prop.

Lemma appendFromQueue_Forall (n : nat) :
forall cols queue,
  Forall P cols -> Forall P queue ->
  Forall P (fst (appendFromQueue n cols queue)) /\
  Forall P (snd (appendFromQueue n cols queue)).
Proof.
induction n as [| n IH]; intros cols queue Hc Hq; cbn [appendFromQueue]; [now split |].
destruct queue as [| q queue]; [now split |].
inversion Hq; subst. apply IH; [| assumption].
apply Forall_app. split; [assumption | now constructor].
Qed.

Lemma setNth_Forall (v : jsstring) (l : list jsstring) :
forall idx, P v -> Forall P l -> Forall P (setNth idx v l).
Proof.
induction l as [| x l IH]; intros idx Hv Hl; [destruct idx; constructor |].
inversion Hl; subst. destruct idx; cbn [setNth]; constructor; auto.
Qed.

Lemma swapFromQueue_Forall (k : nat) :
forall idx cols queue,
  Forall P cols -> Forall P queue ->
  Forall P (fst (swapFromQueue k idx cols queue)) /\
  Forall P (snd (swapFromQueue k idx cols queue)).
Proof.
induction k as [| k IH]; intros idx cols queue Hc Hq; cbn [swapFromQueue]; [now split |].
destruct queue as [| q queue]; [now split |].
destruct (nth_error cols idx) as [replaced |] eqn:E; [| now split].
inversion Hq; subst. apply IH.
- now apply setNth_Forall.
- apply Forall_app. split; [assumption |]. constructor; [| constructor].
  rewrite Forall_forall in Hc. apply Hc. exact (nth_error_In _ _ E).
Qed.

Lemma consumeQueue_Forall (cols queue : list jsstring) (first : bool) :
Forall P cols -> Forall P queue ->
Forall P (fst (fst (consumeQueue cols queue first))) /\
Forall P (snd (fst (consumeQueue cols queue first))).
Proof.
intros Hc Hq. unfold consumeQueue.
destruct (queueUse cols queue first) as [| addCount | k]; [now split | |].
- pose proof (appendFromQueue_Forall addCount cols queue Hc Hq) as H.
  destruct (appendFromQueue addCount cols queue). exact H.
- pose proof (swapFromQueue_Forall k (List.length cols - k) cols queue Hc Hq) as H.
  destruct (swapFromQueue k (List.length cols - k) cols queue). exact H.
Qed.
End QueueShape.

Lemma cleanRow_queue_cellLike (rs : list re) (st : CleanState) (r : nat) (line : jsstring) :
  Forall cellLike (numericQueue st) ->
  Forall cellLike (numericQueue (cleanRow rs st r line)).
Proof.
  intros Hq. pose proof (filterRow_survivingCols rs r line) as E.
  pose proof (survivingCols_cellLike rs line) as Hc.
  unfold cleanRow. destruct (filterRow rs r line) as [newCols rem].
  cbn [fst] in E. subst newCols.
  destruct ((0 <? List.length (survivingCols rs line))
            && forallb isNumericToken (survivingCols rs line)).
  - cbn [numericQueue]. apply Forall_app. now split.
  - pose proof (consumeQueue_Forall cellLike _ _ (firstQueueFill st) Hc Hq) as [_ H].
    destruct (consumeQueue (survivingCols rs line) (numericQueue st) (firstQueueFill st))
      as [[cols' queue'] first'].
    cbn [fst snd] in H.
    destruct (List.length (trim (join SEP cols')) =? 0); exact H.
Qed.

Lemma emittedCols_cellLike (rs : list re) (st : CleanState) (line : jsstring)
      (cols : list jsstring) :
  Forall cellLike (numericQueue st) ->
  emittedCols rs st line = Some cols ->
  cols <> [] /\ Forall cellLike cols.
Proof.
  intros Hq. pose proof (survivingCols_cellLike rs line) as Hc.
  unfold emittedCols. destruct (isNumericLine rs line); [discriminate |].
  pose proof (consumeQueue_Forall cellLike _ _ (firstQueueFill st) Hc Hq) as [H _].
  destruct (consumeQueue (survivingCols rs line) (numericQueue st) (firstQueueFill st))
    as [[cols' queue'] first'].
  cbn [fst] in H.
  destruct (List.length (trim (join SEP cols')) =? 0) eqn:El; [discriminate |].
  intros E; injection E as <-. split; [| exact H].
  intros ->. discriminate.
Qed.

Lemma keptCols_cellLike (rs : list re) (rows : list jsstring) :
  forall st r,
    Forall cellLike (numericQueue st) ->
    Forall (fun cols => cols <> [] /\ Forall cellLike cols) (keptCols rs st r rows).
Proof.
  induction rows as [| line rest IH]; intros st r Hq; cbn [keptCols]; [constructor |].
  apply Forall_app. split.
  - destruct (emittedCols rs st line) as [cols |] eqn:E; [| constructor].
    constructor; [| constructor]. exact (emittedCols_cellLike rs st line cols Hq E).
  - apply IH. apply cleanRow_queue_cellLike. exact Hq.
Qed.

(** ** Splitting a joined row gives its columns back *)
Lemma cell_last (c : jsstring) :
  cellLike c -> exists pre z, c = pre ++ [z] /\ isWs z = false /\ z <> BAR.
Proof.
  intros (Hne & _ & Hr & Hb).
  destruct (rev c) as [| z r] eqn:E.
  - apply (f_equal (@rev char)) in E. rewrite rev_involutive in E. contradiction.
  - apply (f_equal (@rev char)) in E. rewrite rev_involutive in E. cbn [rev] in E.
    exists (rev r), z. split; [exact E |]. split; [exact Hr |].
    intros ->. apply Hb. rewrite E. apply in_or_app. right. now left.
Qed.

Lemma cell_first (c : jsstring) :
  cellLike c -> exists y c', c = y :: c' /\ isWs y = false.
Proof.
  intros (Hne & Hs & _ & _). destruct c as [| y c']; [contradiction |].
  exists y, c'. split; [reflexivity | exact Hs].
Qed.

Lemma join_first (cells : list jsstring) :
  cells <> [] -> Forall cellLike cells ->
  exists y t, join SEP cells = y :: t /\ isWs y = false.
Proof.
  intros Hne Hc. destruct cells as [| c cells']; [contradiction |].
  inversion Hc as [| ? ? H1 H2]; subst.
  destruct (cell_first c H1) as (y & c' & -> & Hy).
  destruct cells' as [| c2 tl]; cbn [join]; [exists y, c' | exists y, (c' ++ SEP ++ join SEP (c2 :: tl))];
    (split; [reflexivity | exact Hy]).
Qed.

Lemma join_last (cells : list jsstring) :
  cells <> [] -> Forall cellLike cells ->
  exists pre z, join SEP cells = pre ++ [z] /\ isWs z = false /\ z <> BAR.
Proof.
  induction cells as [| c cells' IH]; intros Hne Hc; [contradiction |].
  inversion Hc as [| ? ? H1 H2]; subst.
  destruct cells' as [| c2 tl].
  - cbn [join]. exact (cell_last c H1).
  - destruct (IH ltac:(discriminate) H2) as (pre & z & E & Hz).
    exists (c ++ SEP ++ pre), z. split; [| exact Hz].
    change (join SEP (c :: c2 :: tl)) with (c ++ SEP ++ join SEP (c2 :: tl)).
    rewrite E, <- !app_assoc. reflexivity.
Qed.

Lemma joinRow_cells (cells : list jsstring) :
  cells <> [] -> Forall cellLike cells -> joinRow cells = join SEP cells.
Proof.
  intros Hne Hc. unfold joinRow. apply trim_id.
  - destruct (join_first cells Hne Hc) as (y & t & -> & Hy). exact Hy.
  - destruct (join_last cells Hne Hc) as (pre & z & -> & Hz & _).
    rewrite rev_app_distr. exact Hz.
Qed.

Lemma wsLen_full (t : jsstring) :
  wsLen t = List.length t -> forall x, In x t -> isWs x = true.
Proof.
  induction t as [| a t IH]; intros H x Hx; [destruct Hx |].
  cbn [wsLen List.length] in H. destruct (isWs a) eqn:Ea.
  - destruct Hx as [<- | Hx]; [exact Ea | apply IH; [lia | exact Hx]].
  - discriminate.
Qed.

Lemma searchFrom_none (r : re) (s : jsstring) :
  (forall q, matchAt r s q = None) -> forall n from, searchFrom r s n from = None.
Proof.
  intros H n; induction n as [| n IH]; intros from; cbn [searchFrom]; rewrite H; auto.
Qed.

(* a text that ends in a character other than space and bar has no trailing bar *)
Lemma no_trailingBar (pre : jsstring) (z : char) :
  isWs z = false -> z <> BAR ->
  replaceFirst re_trailingBar [] (pre ++ [z]) = pre ++ [z].
Proof.
  intros Hz Hb. unfold replaceFirst, exec.
  destruct (List.length (pre ++ [z]) <? 0); [reflexivity |].
  rewrite searchFrom_none; [reflexivity |].
  intros q. rewrite matchAt_trailingBar. cbv zeta.
  set (s := pre ++ [z]). set (j := q + wsLen (skipn q s)).
  destruct (nth_error s j) as [x |] eqn:Ex; [| reflexivity].
  destruct (x =? BAR)%N eqn:Eb; [| reflexivity].
  apply N.eqb_eq in Eb. subst x.
  destruct (S j + wsLen (skipn (S j) s) =? List.length s) eqn:El; [| reflexivity].
  exfalso. apply Nat.eqb_eq in El.
  assert (Hj : j < List.length s) by (apply nth_error_Some; congruence).
  assert (Hlen : List.length s = S (List.length pre))
    by (unfold s; rewrite length_app; cbn; lia).
  destruct (Nat.eq_dec (S j) (List.length s)) as [Hlast | Hmore].
  - assert (j = List.length pre) as Hjp by lia.
    unfold s in Ex. rewrite Hjp, nth_error_app2, Nat.sub_diag in Ex by lia.
    cbn in Ex. injection Ex as ->. contradiction.
  - assert (Hin : In z (skipn (S j) s)).
    { unfold s. rewrite skipn_app.
      apply in_or_app. right.
      replace (S j - List.length pre) with 0 by lia. now left. }
    assert (Hfull : wsLen (skipn (S j) s) = List.length (skipn (S j) s))
      by (rewrite length_skipn; lia).
    rewrite (wsLen_full _ Hfull z Hin) in Hz. discriminate.
Qed.

(* the first character after the leading spaces of c ++ rest lies in c when c
   has a character that is not a space *)
Lemma wsLen_stops_inside (c rest : jsstring) :
  (exists y, In y c /\ isWs y = false) ->
  exists y, nth_error (c ++ rest) (wsLen (c ++ rest)) = Some y /\ In y c.
Proof.
  induction c as [| a c IH]; intros (y & Hy & Hw); [destruct Hy |].
  cbn [app wsLen]. destruct (isWs a) eqn:Ea.
  - destruct Hy as [-> | Hy]; [congruence |].
    destruct (IH (ex_intro _ y (conj Hy Hw))) as (y' & E & Hin).
    exists y'. split; [exact E | now right].
  - exists a. split; [reflexivity | now left].
Qed.

Lemma barMatchLen_inside (c rest : jsstring) :
  (exists y, In y c /\ isWs y = false) -> ~ In BAR c -> barMatchLen (c ++ rest) = None.
Proof.
  intros Hy Hb. destruct (wsLen_stops_inside c rest Hy) as (y & E & Hin).
  unfold barMatchLen. cbv zeta. rewrite E.
  destruct (y =? BAR)%N eqn:Eb; [| reflexivity].
  apply N.eqb_eq in Eb. subst y. contradiction.
Qed.

(* passing over a cell that ends in a character other than space *)
Lemma splitPieces_cell (c : jsstring) :
  forall z piece rest fuel,
    isWs z = false -> ~ In BAR (c ++ [z]) ->
    splitPieces (List.length (c ++ [z]) + fuel) piece ((c ++ [z]) ++ rest)
    = splitPieces fuel (piece ++ c ++ [z]) rest.
Proof.
  induction c as [| a c IH]; intros z piece rest fuel Hz Hb.
  - assert (E : barMatchLen ([z] ++ rest) = None).
    { apply barMatchLen_inside; [| exact Hb]. exists z. split; [now left | exact Hz]. }
    cbn [app List.length Nat.add] in *. rewrite splitPieces_step, E. reflexivity.
  - assert (E : barMatchLen ((a :: c ++ [z]) ++ rest) = None).
    { apply barMatchLen_inside; [| exact Hb].
      exists z. split; [| exact Hz]. right. apply in_or_app. right. now left. }
    cbn [app List.length Nat.add] in *. rewrite splitPieces_step, E.
    rewrite IH; [| exact Hz | intros H; apply Hb; now right].
    rewrite <- app_assoc. reflexivity.
Qed.

Lemma barMatchLen_SEP (y : char) (t : jsstring) :
  isWs y = false -> barMatchLen (SEP ++ y :: t) = Some 3.
Proof.
  intros Hy. change (SEP ++ y :: t) with (SP :: BAR :: SP :: y :: t).
  unfold barMatchLen.
  change (wsLen (SP :: BAR :: SP :: y :: t)) with 1.
  cbv zeta. cbn [nth_error skipn]. rewrite N.eqb_refl.
  cbn [wsLen]. change (isWs SP) with true. cbv iota. rewrite Hy. reflexivity.
Qed.

Lemma splitPieces_join (cells : list jsstring) :
  cells <> [] -> Forall cellLike cells ->
  forall fuel, List.length (join SEP cells) < fuel ->
               splitPieces fuel [] (join SEP cells) = cells.
Proof.
  induction cells as [| c cells' IH]; intros Hne Hc fuel Hf; [contradiction |].
  inversion Hc as [| ? ? H1 H2]; subst.
  destruct (cell_last c H1) as (pre & z & -> & Hz & Hzb).
  assert (Hb : ~ In BAR (pre ++ [z])) by apply H1.
  destruct cells' as [| c2 tl].
  - cbn [join] in *.
    pose proof (splitPieces_cell pre z [] [] (fuel - List.length (pre ++ [z])) Hz Hb) as E.
    rewrite app_nil_r in E.
    replace (List.length (pre ++ [z]) + (fuel - List.length (pre ++ [z]))) with fuel in E by lia.
    rewrite E. cbn [app].
    destruct (fuel - List.length (pre ++ [z])); cbn [splitPieces]; now rewrite ?app_nil_r.
  - change (join SEP ((pre ++ [z]) :: c2 :: tl))
      with ((pre ++ [z]) ++ SEP ++ join SEP (c2 :: tl)) in *.
    set (n := List.length (pre ++ [z])) in *.
    rewrite !length_app in Hf. change (List.length SEP) with 3 in Hf.
    assert (Hn : n = List.length pre + List.length [z]) by (unfold n; apply length_app).
    destruct (join_first (c2 :: tl) ltac:(discriminate) H2) as (y & t & Ej & Hy).
    pose proof (splitPieces_cell pre z [] (SEP ++ join SEP (c2 :: tl)) (S (fuel - n - 1)) Hz Hb)
      as E.
    fold n in E. replace (n + S (fuel - n - 1)) with fuel in E by lia.
    rewrite E. cbn [app]. rewrite Ej.
    change (SEP ++ y :: t) with (SP :: BAR :: SP :: y :: t).
    rewrite splitPieces_step.
    change (SP :: BAR :: SP :: y :: t) with (SEP ++ y :: t).
    rewrite (barMatchLen_SEP y t Hy).
    change (skipn 3 (SEP ++ y :: t)) with (y :: t). rewrite <- Ej.
    f_equal. apply IH; [discriminate | exact H2 | lia].
Qed.

Lemma splitToCols_join (cells : list jsstring) :
  cells <> [] -> Forall cellLike cells -> splitToCols (join SEP cells) = cells.
Proof.
  intros Hne Hc. unfold splitToCols.
  destruct (join_last cells Hne Hc) as (pre & z & E & Hz & Hb).
  rewrite E, (no_trailingBar pre z Hz Hb), <- E.
  assert (Es : split re_bar (join SEP cells) = cells).
  { unfold split. destruct (join SEP cells) as [| a s'] eqn:Ej.
    - destruct pre; discriminate.
    - rewrite split_bar_pieces by (cbn [List.length]; lia).
      change (slice (a :: s') 0 0) with (@nil char).
      change (skipn 0 (a :: s')) with (a :: s').
      rewrite <- Ej. apply splitPieces_join; [exact Hne | exact Hc | lia]. }
  rewrite Es. clear E Es.
  induction Hc as [| c cells' H1 H2 IH]; [contradiction |].
  cbn [map filter].
  assert (Et : trim c = c) by (apply trim_id; apply H1).
  rewrite Et. unfold nonEmpty at 1.
  destruct c as [| y c']; [destruct H1 as [H _]; contradiction |].
  cbn [List.length Nat.eqb negb]. f_equal.
  destruct cells' as [| c2 tl]; [reflexivity |]. apply IH. discriminate.
Qed.

(* the kept rows of a run, split into columns again *)
Lemma keptRows_columns (rs : list re) (rows : list jsstring) :
  map splitToCols (fst (cleanRowsWith rs rows)) = keptCols rs initialState 0 rows.
Proof.
  unfold cleanRowsWith. cbn [fst]. rewrite cleanLoop_kept_cols. cbn [kept initialState app].
  pose proof (keptCols_cellLike rs rows initialState 0 (Forall_nil _)) as H.
  induction H as [| cols l [Hne Hc] _ IH]; [reflexivity |].
  cbn [map]. rewrite IH, (joinRow_cells cols Hne Hc), (splitToCols_join cols Hne Hc).
  reflexivity.
Qed.

(** * The matcher and the relation it decides *)

(** ** The matcher finds exactly the matches *)
Lemma run_Star (g : bool) (r : re) (s : jsstring) (i : nat) (c : caps)
      (k : nat -> caps -> result) :
  run (Star g r) s i c k = loopStar g (run r s) k (S (List.length s - i)) i c.
Proof. reflexivity. Qed.

Lemma Matches_bounds (s : jsstring) (r : re) (i j : nat) :
  Matches s r i j -> i <= j /\ (i < j -> j <= List.length s).
Proof.
  induction 1; try (split; lia).
  assert (i < List.length s) by (apply nth_error_Some; congruence). lia.
Qed.

Lemma loopStar_sound (g : bool) (r : re) (s : jsstring) (k : nat -> caps -> result)
      (IH : forall i c k res, run r s i c k = Some res ->
                              exists j c', Matches s r i j /\ k j c' = Some res) :
  forall n i c res,
    loopStar g (run r s) k n i c = Some res ->
    exists j c', Matches s (Star g r) i j /\ k j c' = Some res.
Proof.
  induction n as [| n IHn]; intros i c res H.
  - cbn in H. exists i, c. split; [constructor | exact H].
  - cbn [loopStar] in H. fold (loopStar g (run r s) k) in H. cbv zeta in H.
    set (again := run r s i c (fun j c' => if i <? j then loopStar g (run r s) k n j c' else None)) in *.
    assert (Hagain : again = Some res ->
                     exists j c', Matches s (Star g r) i j /\ k j c' = Some res).
    { intros E. destruct (IH _ _ _ _ E) as (m & c' & Hm & Hk).
      destruct (i <? m) eqn:Elt; [| discriminate]. apply Nat.ltb_lt in Elt.
      destruct (IHn _ _ _ Hk) as (j & c'' & Hs & Hk').
      exists j, c''. split; [| exact Hk']. eapply M_StarS; eauto. }
    assert (Hk0 : k i c = Some res ->
                  exists j c', Matches s (Star g r) i j /\ k j c' = Some res).
    { intros E. exists i, c. split; [constructor | exact E]. }
    destruct g.
    + destruct again as [x |] eqn:Ea; [apply Hagain; exact H | apply Hk0; exact H].
    + destruct (k i c) as [x |] eqn:Ek; [apply Hk0; exact H | apply Hagain; exact H].
Qed.

Lemma run_sound (s : jsstring) (r : re) :
  forall i c k res,
    run r s i c k = Some res -> exists j c', Matches s r i j /\ k j c' = Some res.
Proof.
  induction r as [p | | r1 IH1 r2 IH2 | r1 IH1 r2 IH2 | g r IH | n r IH | | |];
    intros i c k res H.
  - cbn [run] in H. destruct (nth_error s i) as [x |] eqn:Ex; [| discriminate].
    destruct (p x) eqn:Ep; [| discriminate].
    exists (S i), c. split; [econstructor; eauto | exact H].
  - exists i, c. split; [constructor | exact H].
  - cbn [run] in H. destruct (IH1 _ _ _ _ H) as (m & c' & H1 & Hk).
    destruct (IH2 _ _ _ _ Hk) as (j & c'' & H2 & Hk').
    exists j, c''. split; [econstructor; eauto | exact Hk'].
  - cbn [run] in H. destruct (run r1 s i c k) as [x |] eqn:E1.
    + destruct (IH1 _ _ _ _ E1) as (j & c' & H1 & Hk).
      exists j, c'. split; [apply M_AltL; exact H1 | congruence].
    + destruct (IH2 _ _ _ _ H) as (j & c' & H2 & Hk).
      exists j, c'. split; [apply M_AltR; exact H2 | exact Hk].
  - rewrite run_Star in H. exact (loopStar_sound g r s k IH _ _ _ _ H).
  - cbn [run] in H. destruct (IH _ _ _ _ H) as (j & c' & H1 & Hk).
    exists j, ((n, (i, j)) :: c'). split; [constructor; exact H1 | exact Hk].
  - cbn [run] in H. destruct (i =? 0) eqn:E; [| discriminate].
    apply Nat.eqb_eq in E. subst i. exists 0, c. split; [constructor | exact H].
  - cbn [run] in H. destruct (i =? List.length s) eqn:E; [| discriminate].
    apply Nat.eqb_eq in E. subst i. exists (List.length s), c. split; [constructor | exact H].
  - cbn [run] in H. destruct (isWordBoundary s i) eqn:E; [| discriminate].
    exists i, c. split; [constructor; exact E | exact H].
Qed.

Lemma run_complete_star (s : jsstring) (r : re) (i j : nat) :
  Matches s r i j ->
  (forall k, accepts k j -> forall c, run r s i c k <> None) /\
  match r with
  | Star g r1 =>
      forall n, List.length s - i < n ->
                forall k, accepts k j -> forall c, loopStar g (run r1 s) k n i c <> None
  | _ => True
  end.
Proof.
  induction 1 as [p i x Hx Hp | i | r1 r2 i m j H1 IH1 H2 IH2 | r1 r2 i j H1 IH1
                  | r1 r2 i j H2 IH2 | g r i | g r i m j H1 IH1 Hlt H2 IH2
                  | n r i j H1 IH1 | | | i Hw].
  - split; [| exact I]. intros k Hk c. cbn [run]. rewrite Hx, Hp. apply Hk.
  - split; [| exact I]. intros k Hk c. apply Hk.
  - split; [| exact I]. intros k Hk c. cbn [run].
    apply (proj1 IH1). intros c'. apply (proj1 IH2). exact Hk.
  - split; [| exact I]. intros k Hk c. cbn [run].
    pose proof (proj1 IH1 k Hk c) as E. destruct (run r1 s i c k); congruence.
  - split; [| exact I]. intros k Hk c. cbn [run].
    destruct (run r1 s i c k); [discriminate | apply (proj1 IH2); exact Hk].
  - assert (G : forall n k, accepts k i -> forall c, loopStar g (run r s) k n i c <> None).
    { intros n k Hk c. destruct n as [| n]; [apply Hk |].
      cbn [loopStar]. cbv zeta. pose proof (Hk c) as E.
      destruct g.
      - match goal with |- match ?a with _ => _ end <> None => destruct a end;
          [discriminate | exact E].
      - destruct (k i c); [discriminate | contradiction]. }
    split; [intros k Hk c; rewrite run_Star; apply G; exact Hk |].
    intros n _ k Hk c. apply G. exact Hk.
  - destruct (Matches_bounds _ _ _ _ H1) as [_ Hb]. specialize (Hb Hlt).
    assert (G : forall n, List.length s - i < n ->
                forall k, accepts k j -> forall c, loopStar g (run r s) k n i c <> None).
    { intros n Hn k Hk c. destruct n as [| n]; [lia |].
      cbn [loopStar]. fold (loopStar g (run r s) k). cbv zeta.
      set (K := fun j0 c' => if i <? j0 then loopStar g (run r s) k n j0 c' else None).
      assert (HK : accepts K m).
      { intros c'. unfold K.
        replace (i <? m) with true by (symmetry; apply Nat.ltb_lt; exact Hlt).
        apply (proj2 IH2); [lia | exact Hk]. }
      pose proof (proj1 IH1 K HK c) as E.
      destruct g.
      - destruct (run r s i c K); [discriminate | contradiction].
      - destruct (k i c); [discriminate | exact E]. }
    split; [intros k Hk c; rewrite run_Star; apply G; [lia | exact Hk] | exact G].
  - split; [| exact I]. intros k Hk c. cbn [run]. apply (proj1 IH1). intros c'. apply Hk.
  - split; [| exact I]. intros k Hk c. cbn [run Nat.eqb]. apply Hk.
  - split; [| exact I]. intros k Hk c. cbn [run]. rewrite Nat.eqb_refl. apply Hk.
  - split; [| exact I]. intros k Hk c. cbn [run]. rewrite Hw. apply Hk.
Qed.

Lemma run_complete (s : jsstring) (r : re) (i j : nat) (k : nat -> caps -> result) (c : caps) :
  Matches s r i j -> accepts k j -> run r s i c k <> None.
Proof. intros H Hk. apply (proj1 (run_complete_star s r i j H)). exact Hk. Qed.

Lemma matchAt_sound (r : re) (s : jsstring) (i : nat) (m : mres) :
  matchAt r s i = Some m -> m_start m = i /\ Matches s r i (m_end m).
Proof.
  unfold matchAt. destruct (run r s i [] (fun j c => Some (j, c))) as [[j c] |] eqn:E;
    [| discriminate].
  intros H; injection H as <-. cbn. split; [reflexivity |].
  destruct (run_sound _ _ _ _ _ _ E) as (j' & c' & Hm & Hk). injection Hk as -> _. exact Hm.
Qed.

Lemma matchAt_complete (r : re) (s : jsstring) (i j : nat) :
  Matches s r i j -> matchAt r s i <> None.
Proof.
  intros H. unfold matchAt.
  pose proof (run_complete s r i j (fun j c => Some (j, c)) [] H) as E.
  destruct (run r s i [] (fun j c => Some (j, c))) as [[j' c] |]; [discriminate |].
  exfalso. apply E; [intros c; discriminate | reflexivity].
Qed.

Lemma searchFrom_sound (r : re) (s : jsstring) (m : mres) :
  forall n from, searchFrom r s n from = Some m ->
                 from <= m_start m <= from + n /\ Matches s r (m_start m) (m_end m).
Proof.
  induction n as [| n IH]; intros from H; cbn [searchFrom] in H.
  - destruct (matchAt r s from) as [m' |] eqn:E; [| discriminate].
    assert (m' = m) by congruence. subst m'.
    destruct (matchAt_sound _ _ _ _ E) as [E1 Hm]. rewrite E1. split; [lia | exact Hm].
  - destruct (matchAt r s from) as [m' |] eqn:E.
    + assert (m' = m) by congruence. subst m'.
      destruct (matchAt_sound _ _ _ _ E) as [E1 Hm]. rewrite E1. split; [lia | exact Hm].
    + destruct (IH _ H) as [Hr Hm]. split; [lia | exact Hm].
Qed.

Lemma searchFrom_complete (r : re) (s : jsstring) (i j : nat) :
  Matches s r i j ->
  forall n from, from <= i <= from + n -> searchFrom r s n from <> None.
Proof.
  intros H. induction n as [| n IH]; intros from Hr; cbn [searchFrom].
  - assert (from = i) as -> by lia.
    pose proof (matchAt_complete _ _ _ _ H). destruct (matchAt r s i); congruence.
  - destruct (matchAt r s from) eqn:E; [discriminate |].
    apply IH. destruct (Nat.eq_dec from i) as [-> | Hne]; [| lia].
    exfalso. exact (matchAt_complete _ _ _ _ H E).
Qed.

Lemma exec_sound (r : re) (s : jsstring) (from : nat) (m : mres) :
  exec r s from = Some m ->
  from <= m_start m <= List.length s /\ Matches s r (m_start m) (m_end m).
Proof.
  unfold exec. destruct (List.length s <? from) eqn:E; [discriminate |].
  apply Nat.ltb_ge in E. intros H. destruct (searchFrom_sound _ _ _ _ _ H) as [Hr Hm].
  split; [lia | exact Hm].
Qed.

Lemma exec_complete (r : re) (s : jsstring) (from i j : nat) :
  from <= i <= List.length s -> Matches s r i j -> exec r s from <> None.
Proof.
  intros Hr H. unfold exec.
  replace (List.length s <? from) with false by (symmetry; apply Nat.ltb_ge; lia).
  apply (searchFrom_complete r s i j H). lia.
Qed.

(* test: some part of the text matches *)
Lemma test_spec (r : re) (s : jsstring) :
  test r s = true <-> exists i j, i <= List.length s /\ Matches s r i j.
Proof.
  unfold test. split.
  - destruct (exec r s 0) as [m |] eqn:E; [| discriminate]. intros _.
    destruct (exec_sound _ _ _ _ E) as [Hr Hm]. exists (m_start m), (m_end m). split; [lia | exact Hm].
  - intros (i & j & Hi & Hm).
    pose proof (exec_complete r s 0 i j ltac:(lia) Hm). destruct (exec r s 0); congruence.
Qed.

(** ** Reading matches of the derived forms *)
Lemma Matches_Chr (s : jsstring) (p : char -> bool) (i j : nat) :
  Matches s (Chr p) i j <-> j = S i /\ exists x, nth_error s i = Some x /\ p x = true.
Proof.
  split.
  - inversion 1; subst. split; [reflexivity | eauto].
  - intros (-> & x & Hx & Hp). econstructor; eauto.
Qed.

Lemma Matches_Emp (s : jsstring) (i j : nat) : Matches s Emp i j <-> j = i.
Proof. split; [inversion 1; reflexivity | intros ->; constructor]. Qed.

Lemma Matches_Cat (s : jsstring) (r1 r2 : re) (i j : nat) :
  Matches s (Cat r1 r2) i j <-> exists m, Matches s r1 i m /\ Matches s r2 m j.
Proof.
  split; [inversion 1; subst; eauto | intros (m & H1 & H2); econstructor; eauto].
Qed.

Lemma Matches_Alt (s : jsstring) (r1 r2 : re) (i j : nat) :
  Matches s (Alt r1 r2) i j <-> Matches s r1 i j \/ Matches s r2 i j.
Proof.
  split; [inversion 1; subst; auto | intros [H | H]; [apply M_AltL | apply M_AltR]; exact H].
Qed.

Lemma Matches_Grp (s : jsstring) (n : nat) (r : re) (i j : nat) :
  Matches s (Grp n r) i j <-> Matches s r i j.
Proof. split; [inversion 1; subst; assumption | apply M_Grp]. Qed.

Lemma Matches_Bol (s : jsstring) (i j : nat) : Matches s Bol i j <-> i = 0 /\ j = 0.
Proof. split; [inversion 1; auto | intros [-> ->]; constructor]. Qed.

Lemma Matches_Eol (s : jsstring) (i j : nat) :
  Matches s Eol i j <-> i = List.length s /\ j = List.length s.
Proof. split; [inversion 1; auto | intros [-> ->]; constructor]. Qed.

Lemma Matches_Opt (s : jsstring) (r : re) (i j : nat) :
  Matches s (Opt r) i j <-> Matches s r i j \/ j = i.
Proof. unfold Opt. rewrite Matches_Alt, Matches_Emp. reflexivity. Qed.

Lemma allIn_empty (p : char -> bool) (s : jsstring) (i : nat) : allIn p s i i.
Proof. intros x Hx. lia. Qed.

Lemma allIn_step (p : char -> bool) (s : jsstring) (i j : nat) (x : char) :
  nth_error s i = Some x -> p x = true -> allIn p s (S i) j -> allIn p s i j.
Proof.
  intros Hx Hp H y Hy. destruct (Nat.eq_dec y i) as [-> | Hne]; [eauto | apply H; lia].
Qed.

Lemma allIn_app (p : char -> bool) (s : jsstring) (i m j : nat) :
  allIn p s i m -> allIn p s m j -> allIn p s i j.
Proof.
  intros H1 H2 y Hy. destruct (Nat.lt_ge_cases y m); [apply H1 | apply H2]; lia.
Qed.

Lemma allIn_narrow (p : char -> bool) (s : jsstring) (i j i' j' : nat) :
  allIn p s i j -> i <= i' -> j' <= j -> allIn p s i' j'.
Proof. intros H H1 H2 y Hy. apply H. lia. Qed.


Lemma allIn_whole (p : char -> bool) (s : jsstring) :
  allIn p s 0 (List.length s) <-> forallb p s = true.
Proof.
  rewrite forallb_forall. split.
  - intros H c Hc. destruct (In_nth_error _ _ Hc) as [n Hn].
    assert (n < List.length s) by (apply nth_error_Some; congruence).
    destruct (H n ltac:(lia)) as (c' & Hc' & Hp). congruence.
  - intros H x Hx. destruct (nth_error s x) as [c |] eqn:E.
    + exists c. split; [reflexivity |]. apply H. exact (nth_error_In _ _ E).
    + apply nth_error_None in E. lia.
Qed.

Lemma Matches_Star_class (s : jsstring) (g : bool) (p : char -> bool) (i j : nat) :
  Matches s (Star g (Chr p)) i j <-> i <= j /\ allIn p s i j.
Proof.
  split.
  - intros H. remember (Star g (Chr p)) as r eqn:Er.
    induction H; try discriminate.
    + split; [lia | apply allIn_empty].
    + injection Er as -> ->. apply Matches_Chr in H. destruct H as (-> & x & Hx & Hp).
      destruct (IHMatches2 eq_refl) as [Hle Hall].
      split; [lia |]. eapply allIn_step; eauto.
  - intros [Hle Hall]. remember (j - i) as n eqn:En. revert i Hle Hall En.
    induction n as [| n IH]; intros i Hle Hall En.
    + assert (j = i) as -> by lia. constructor.
    + destruct (Hall i ltac:(lia)) as (x & Hx & Hp).
      apply (M_StarS s g (Chr p) i (S i) j); [econstructor; eauto | lia |].
      apply IH; [lia | eapply allIn_narrow; eauto | lia].
Qed.

Lemma Matches_Rep_class (s : jsstring) (p : char -> bool) (n : nat) :
  forall i j, Matches s (Rep n (Chr p)) i j <-> j = i + n /\ allIn p s i j.
Proof.
  induction n as [| n IH]; intros i j; cbn [Rep].
  - rewrite Matches_Emp. split.
    + intros ->. split; [lia | apply allIn_empty].
    + intros [-> _]. lia.
  - rewrite Matches_Cat. split.
    + intros (m & H1 & H2). apply Matches_Chr in H1. destruct H1 as (-> & x & Hx & Hp).
      apply IH in H2. destruct H2 as [-> Hall]. split; [lia | eapply allIn_step; eauto].
    + intros [-> Hall]. exists (S i). destruct (Hall i ltac:(lia)) as (x & Hx & Hp).
      split; [econstructor; eauto |]. apply IH. split; [lia | eapply allIn_narrow; eauto].
Qed.

Lemma Matches_UpTo_class (s : jsstring) (p : char -> bool) (n : nat) :
  forall i j, Matches s (UpTo n (Chr p)) i j <-> i <= j <= i + n /\ allIn p s i j.
Proof.
  induction n as [| n IH]; intros i j; cbn [UpTo].
  - rewrite Matches_Emp. split.
    + intros ->. split; [lia | apply allIn_empty].
    + intros [H _]. lia.
  - rewrite Matches_Opt, Matches_Cat. split.
    + intros [(m & H1 & H2) | ->].
      * apply Matches_Chr in H1. destruct H1 as (-> & x & Hx & Hp).
        apply IH in H2. destruct H2 as [Hr Hall]. split; [lia | eapply allIn_step; eauto].
      * split; [lia | apply allIn_empty].
    + intros [Hr Hall]. destruct (Nat.eq_dec j i) as [-> | Hne]; [right; reflexivity |].
      left. exists (S i). destruct (Hall i ltac:(lia)) as (x & Hx & Hp).
      split; [econstructor; eauto |]. apply IH. split; [lia | eapply allIn_narrow; eauto].
Qed.

Lemma Matches_Range_class (s : jsstring) (p : char -> bool) (a b i j : nat) :
  a <= b ->
  (Matches s (Range a b (Chr p)) i j <-> i + a <= j <= i + b /\ allIn p s i j).
Proof.
  intros Hab. unfold Range. rewrite Matches_Cat. split.
  - intros (m & H1 & H2). apply Matches_Rep_class in H1. apply Matches_UpTo_class in H2.
    destruct H1 as [-> A1]. destruct H2 as [Hr A2]. split; [lia | eapply allIn_app; eauto].
  - intros [Hr Hall]. exists (i + a). split.
    + apply Matches_Rep_class. split; [reflexivity | eapply allIn_narrow; eauto; lia].
    + apply Matches_UpTo_class. split; [lia | eapply allIn_narrow; eauto; lia].
Qed.

Lemma Matches_AtLeast_class (s : jsstring) (p : char -> bool) (n i j : nat) :
  Matches s (AtLeast n (Chr p)) i j <-> i + n <= j /\ allIn p s i j.
Proof.
  unfold AtLeast. rewrite Matches_Cat. split.
  - intros (m & H1 & H2). apply Matches_Rep_class in H1. apply Matches_Star_class in H2.
    destruct H1 as [-> A1]. destruct H2 as [Hr A2]. split; [lia | eapply allIn_app; eauto].
  - intros [Hr Hall]. exists (i + n). split.
    + apply Matches_Rep_class. split; [reflexivity | eapply allIn_narrow; eauto; lia].
    + apply Matches_Star_class. split; [lia | eapply allIn_narrow; eauto; lia].
Qed.

Lemma Matches_Plus_class (s : jsstring) (p : char -> bool) (i j : nat) :
  Matches s (Plus (Chr p)) i j <-> i + 1 <= j /\ allIn p s i j.
Proof.
  unfold Plus. rewrite Matches_Cat. split.
  - intros (m & H1 & H2). apply Matches_Chr in H1. destruct H1 as (-> & x & Hx & Hp).
    apply Matches_Star_class in H2. destruct H2 as [Hr A2].
    split; [lia | eapply allIn_step; eauto].
  - intros [Hr Hall]. exists (S i). destruct (Hall i ltac:(lia)) as (x & Hx & Hp).
    split; [econstructor; eauto |].
    apply Matches_Star_class. split; [lia | eapply allIn_narrow; eauto].
Qed.

(* an expression between ^ and $ *)
Lemma test_anchored (r : re) (s : jsstring) :
  test (Seq [Bol; r; Eol]) s = true <-> Matches s r 0 (List.length s).
Proof.
  rewrite test_spec. cbn [Seq]. split.
  - intros (i & j & _ & H). apply Matches_Cat in H. destruct H as (m & H1 & H2).
    apply Matches_Bol in H1. destruct H1 as [-> ->].
    apply Matches_Cat in H2. destruct H2 as (m & H2 & H3).
    apply Matches_Eol in H3. destruct H3 as [-> ->]. exact H2.
  - intros H. exists 0, (List.length s). split; [lia |].
    apply Matches_Cat. exists 0. split; [constructor |].
    apply Matches_Cat. exists (List.length s). split; [exact H | constructor].
Qed.

Lemma test_anchored_false (r : re) (s : jsstring) :
  test (Seq [Bol; r; Eol]) s = false <-> ~ Matches s r 0 (List.length s).
Proof.
  rewrite <- test_anchored. destruct (test (Seq [Bol; r; Eol]) s); split; congruence.
Qed.

(** ** Characters that a match must contain *)
Lemma Needs_sound (P : char -> Prop) (s : jsstring) (r : re) :
  Needs P r ->
  forall i j, Matches s r i j -> exists k x, i <= k < j /\ nth_error s k = Some x /\ P x.
Proof.
  induction 1 as [p Hp | r1 r2 H1 IH | r1 r2 H2 IH | r1 r2 H1 IH1 H2 IH2 | n r H1 IH];
    intros i j Hm.
  - apply Matches_Chr in Hm. destruct Hm as (-> & x & Hx & Hpx).
    exists i, x. split; [lia |]. split; [exact Hx | apply Hp; exact Hpx].
  - apply Matches_Cat in Hm. destruct Hm as (m & Ha & Hb).
    destruct (IH _ _ Ha) as (k & x & Hk & Hx).
    pose proof (Matches_bounds _ _ _ _ Hb). exists k, x. split; [lia | exact Hx].
  - apply Matches_Cat in Hm. destruct Hm as (m & Ha & Hb).
    destruct (IH _ _ Hb) as (k & x & Hk & Hx).
    pose proof (Matches_bounds _ _ _ _ Ha). exists k, x. split; [lia | exact Hx].
  - apply Matches_Alt in Hm. destruct Hm as [Hm | Hm]; [exact (IH1 _ _ Hm) | exact (IH2 _ _ Hm)].
  - apply Matches_Grp in Hm. exact (IH _ _ Hm).
Qed.

Lemma exec_none_without (P : char -> Prop) (r : re) (s : jsstring) (from : nat) :
  Needs P r -> (forall x, In x s -> ~ P x) -> exec r s from = None.
Proof.
  intros Hn Hs. destruct (exec r s from) as [m |] eqn:E; [| reflexivity].
  destruct (exec_sound _ _ _ _ E) as [_ Hm].
  destruct (Needs_sound P s r Hn _ _ Hm) as (k & x & _ & Hx & HP).
  exfalso. exact (Hs x (nth_error_In _ _ Hx) HP).
Qed.

Lemma test_false_without (P : char -> Prop) (r : re) (s : jsstring) :
  Needs P r -> (forall x, In x s -> ~ P x) -> test r s = false.
Proof. intros Hn Hs. unfold test. now rewrite (exec_none_without P r s 0 Hn Hs). Qed.

Lemma execAll_none_without (P : char -> Prop) (r : re) (s : jsstring) :
  Needs P r -> (forall x, In x s -> ~ P x) -> execAll r s = [].
Proof.
  intros Hn Hs. unfold execAll. cbn [execAllFrom].
  now rewrite (exec_none_without P r s 0 Hn Hs).
Qed.

(** * Further facts about strings *)

(** ** Whitespace around a text *)
Lemma dropWs_split (s : jsstring) :
  exists pre, s = pre ++ dropWs s /\ forallb isWs pre = true.
Proof.
  induction s as [| c s (pre & E & Hp)]; [exists []; split; reflexivity |].
  cbn [dropWs]. destruct (isWs c) eqn:Ec.
  - exists (c :: pre). cbn [app forallb]. rewrite Ec, Hp. split; [f_equal; exact E | reflexivity].
  - exists []. split; reflexivity.
Qed.

Lemma forallb_rev {A : Type} (p : A -> bool) (l : list A) :
  forallb p (rev l) = forallb p l.
Proof.
  induction l as [| a l IH]; [reflexivity |].
  cbn [rev forallb]. rewrite forallb_app, IH. cbn. rewrite andb_true_r. apply andb_comm.
Qed.

Lemma trim_split (s : jsstring) :
  exists pre post, s = pre ++ trim s ++ post /\
                   forallb isWs pre = true /\ forallb isWs post = true.
Proof.
  destruct (dropWs_split s) as (pre & E & Hp).
  destruct (dropWs_split (rev (dropWs s))) as (q & Eq & Hq).
  exists pre, (rev q). unfold trim. split; [| split; [exact Hp | rewrite forallb_rev; exact Hq]].
  rewrite <- rev_app_distr, <- Eq, rev_involutive. exact E.
Qed.

Lemma filter_none {A : Type} (p : A -> bool) (l : list A) :
  (forall x, In x l -> p x = false) -> filter p l = [].
Proof.
  induction l as [| a l IH]; intros H; [reflexivity |].
  cbn [filter]. rewrite (H a (or_introl eq_refl)). apply IH. intros x Hx. apply H. now right.
Qed.


(* a filter that drops every whitespace character does not see trim *)
Lemma filter_trim (p : char -> bool) (s : jsstring) :
  (forall c, isWs c = true -> p c = false) -> filter p (trim s) = filter p s.
Proof.
  intros Hws. destruct (trim_split s) as (pre & post & E & Hpre & Hpost).
  rewrite E at 2. rewrite !filter_app.
  rewrite (filter_none p pre), (filter_none p post), app_nil_r; [reflexivity | |].
  - intros x Hx. apply Hws. rewrite forallb_forall in Hpost. auto.
  - intros x Hx. apply Hws. rewrite forallb_forall in Hpre. auto.
Qed.


(** ** Character classes *)
Lemma digit_not_ws (c : char) : isDigit c = true -> isWs c = false.
Proof.
  unfold isDigit, isWs. intros H. apply andb_true_iff in H. destruct H as [H1 H2].
  apply N.leb_le in H1, H2.
  repeat match goal with
         | |- (_ || _)%bool = false => apply orb_false_iff; split
         | |- (_ && _)%bool = false => apply andb_false_iff
         | |- (_ =? _)%N = false => apply N.eqb_neq; lia
         end;
    try (left; apply N.leb_gt; lia); try (right; apply N.leb_gt; lia).
Qed.


(** ** Parts of a text *)
Lemma firstn_plus {A : Type} (a b : nat) :
  forall l : list A, firstn (a + b) l = firstn a l ++ firstn b (skipn a l).
Proof.
  induction a as [| a IH]; intros l; [reflexivity |].
  destruct l as [| x l]; [cbn; now rewrite firstn_nil |].
  cbn [Nat.add firstn skipn app]. f_equal. apply IH.
Qed.

Lemma slice_app (s : jsstring) (i m j : nat) :
  i <= m <= j -> slice s i j = slice s i m ++ slice s m j.
Proof.
  intros H. unfold slice.
  replace (j - i) with ((m - i) + (j - m)) by lia.
  rewrite firstn_plus, skipn_skipn. do 3 f_equal. lia.
Qed.


Lemma allIn_slice (p : char -> bool) (s : jsstring) (i j : nat) :
  allIn p s i j -> forallb p (slice s i j) = true.
Proof.
  intros H. apply forallb_forall. intros x Hx. unfold slice in Hx.
  destruct (In_nth_error _ _ Hx) as [k Hk].
  assert (Hlt : k < j - i).
  { assert (k < List.length (firstn (j - i) (skipn i s))) by (apply nth_error_Some; congruence).
    rewrite length_firstn in *. lia. }
  rewrite nth_error_firstn in Hk.
  replace (k <? j - i) with true in Hk by (symmetry; apply Nat.ltb_lt; exact Hlt).
  rewrite nth_error_skipn in Hk.
  destruct (H (i + k) ltac:(lia)) as (c & Hc & Hp). congruence.
Qed.


Lemma allIn_weaken (p q : char -> bool) (s : jsstring) (i j : nat) :
  (forall c, p c = true -> q c = true) -> allIn p s i j -> allIn q s i j.
Proof. intros Hpq H x Hx. destruct (H x Hx) as (c & Hc & Hp). eauto. Qed.

(** ** Digit strings *)
Lemma digitsToZ_acc (s : jsstring) :
  forall acc : Z, (0 <= acc)%Z ->
                  (0 <= fold_left (fun a c => a * 10 + Z.of_N (c - 48)) s acc)%Z.
Proof.
  induction s as [| c s IH]; intros acc Ha; cbn [fold_left]; [exact Ha |].
  apply IH. lia.
Qed.

Lemma digitsToZ_nonneg (s : jsstring) : (0 <= digitsToZ s)%Z.
Proof. apply digitsToZ_acc. lia. Qed.

Lemma app_eq_length {A : Type} (a a' b b' : list A) :
  List.length a = List.length a' -> a ++ b = a' ++ b' -> a = a' /\ b = b'.
Proof.
  revert a'; induction a as [| x a IH]; intros [| y a'] Hl E; try discriminate.
  - split; [reflexivity | exact E].
  - cbn [app List.length] in *. injection E as -> E. injection Hl as Hl.
    destruct (IH _ Hl E) as [-> ->]. split; reflexivity.
Qed.

(** * Further facts about columns *)

(** ** A line without a bar *)
Lemma barMatchLen_none (t : jsstring) : ~ In BAR t -> barMatchLen t = None.
Proof.
  intros H. unfold barMatchLen. cbv zeta.
  destruct (nth_error t (wsLen t)) as [x |] eqn:E; [| reflexivity].
  destruct (x =? BAR)%N eqn:Eb; [| reflexivity].
  apply N.eqb_eq in Eb. subst x. exfalso. exact (H (nth_error_In _ _ E)).
Qed.

Lemma splitPieces_noSeparator (t : jsstring) :
  ~ In BAR t -> forall fuel piece, splitPieces fuel piece t = [piece ++ t].
Proof.
  induction t as [| x t IH]; intros H fuel piece.
  - destruct fuel; cbn [splitPieces]; now rewrite ?app_nil_r.
  - destruct fuel as [| fuel]; [reflexivity |].
    rewrite splitPieces_step, (barMatchLen_none (x :: t) H).
    rewrite IH by (intros C; apply H; now right). rewrite <- app_assoc. reflexivity.
Qed.

Lemma matchAt_trailingBar_none (s : jsstring) (q : nat) :
  ~ In BAR s -> matchAt re_trailingBar s q = None.
Proof.
  intros H. rewrite matchAt_trailingBar. cbv zeta.
  destruct (nth_error s (q + wsLen (skipn q s))) as [x |] eqn:E; [| reflexivity].
  destruct (x =? BAR)%N eqn:Eb; [| reflexivity].
  apply N.eqb_eq in Eb. subst x. exfalso. exact (H (nth_error_In _ _ E)).
Qed.

(** ** Joining and splitting again *)
Lemma cellLike_iff (c : jsstring) :
  cellLike c <-> c <> [] /\ trim c = c /\ ~ In BAR c.
Proof.
  unfold cellLike. split.
  - intros (H1 & H2 & H3 & H4). repeat split; try assumption. apply trim_id; assumption.
  - intros (H1 & H2 & H3). destruct (trim_tight c) as [T1 T2]. rewrite H2 in T1, T2.
    repeat split; assumption.
Qed.

Lemma splitToCols_stable (line : jsstring) :
  splitToCols (join SEP (splitToCols line)) = splitToCols line.
Proof.
  destruct (splitToCols line) as [| c cols] eqn:E; [reflexivity |].
  apply splitToCols_join; [discriminate |]. rewrite <- E. apply splitToCols_cellLike.
Qed.

(** * Conservation of columns in the sanitiser *)

(** ** Columns are moved, never made or lost *)
Lemma appendFromQueue_perm (n : nat) :
  forall cols queue,
    Permutation (cols ++ queue)
                (fst (appendFromQueue n cols queue) ++ snd (appendFromQueue n cols queue)).
Proof.
  induction n as [| n IH]; intros cols queue; cbn [appendFromQueue]; [reflexivity |].
  destruct queue as [| q queue]; [reflexivity |].
  rewrite <- IH, <- app_assoc. reflexivity.
Qed.

Lemma setNth_split (idx : nat) (q : jsstring) :
  forall cols x,
    nth_error cols idx = Some x ->
    exists l1 l2, cols = l1 ++ x :: l2 /\ setNth idx q cols = l1 ++ q :: l2.
Proof.
  induction idx as [| idx IH]; intros [| a cols] x H; try discriminate.
  - cbn in H. injection H as ->. exists [], cols. split; reflexivity.
  - cbn [nth_error] in H. destruct (IH cols x H) as (l1 & l2 & E1 & E2).
    exists (a :: l1), l2. cbn [setNth app]. rewrite <- E1, E2. split; reflexivity.
Qed.

Lemma setNth_length (idx : nat) (q : jsstring) :
  forall cols, List.length (setNth idx q cols) = List.length cols.
Proof.
  induction idx as [| idx IH]; intros [| a cols]; cbn [setNth List.length]; auto.
Qed.

Lemma swapFromQueue_perm (k : nat) :
  forall idx cols queue,
    Permutation (cols ++ queue)
                (fst (swapFromQueue k idx cols queue) ++ snd (swapFromQueue k idx cols queue)).
Proof.
  induction k as [| k IH]; intros idx cols queue; cbn [swapFromQueue]; [reflexivity |].
  destruct queue as [| q queue]; [reflexivity |].
  destruct (nth_error cols idx) as [replaced |] eqn:E; [| reflexivity].
  rewrite <- IH. destruct (setNth_split idx q cols replaced E) as (l1 & l2 & -> & ->).
  rewrite <- !app_assoc. apply Permutation_app_head. cbn [app].
  rewrite (Permutation_cons_append (l2 ++ q :: queue) replaced).
  rewrite <- app_assoc. cbn [app]. symmetry. apply Permutation_middle.
Qed.

Lemma swapFromQueue_length (k : nat) :
  forall idx cols queue,
    List.length (fst (swapFromQueue k idx cols queue)) = List.length cols.
Proof.
  induction k as [| k IH]; intros idx cols queue; cbn [swapFromQueue]; [reflexivity |].
  destruct queue as [| q queue]; [reflexivity |].
  destruct (nth_error cols idx) as [replaced |]; [| reflexivity].
  rewrite IH. apply setNth_length.
Qed.

Lemma consumeQueue_perm (cols queue : list jsstring) (first : bool) :
  Permutation (cols ++ queue)
              (fst (fst (consumeQueue cols queue first))
               ++ snd (fst (consumeQueue cols queue first))).
Proof.
  unfold consumeQueue. destruct (queueUse cols queue first) as [| addCount | k]; [reflexivity | |].
  - pose proof (appendFromQueue_perm addCount cols queue) as H.
    destruct (appendFromQueue addCount cols queue). exact H.
  - pose proof (swapFromQueue_perm k (List.length cols - k) cols queue) as H.
    destruct (swapFromQueue k (List.length cols - k) cols queue). exact H.
Qed.

Lemma consumeQueue_length (cols queue : list jsstring) (first : bool) :
  List.length cols <= List.length (fst (fst (consumeQueue cols queue first))).
Proof.
  unfold consumeQueue. destruct (queueUse cols queue first) as [| addCount | k]; [cbn; lia | |].
  - destruct (appendFromQueue_extends addCount cols queue) as [extra E].
    destruct (appendFromQueue addCount cols queue). cbn [fst] in *. subst. rewrite length_app. lia.
  - pose proof (swapFromQueue_length k (List.length cols - k) cols queue) as H.
    destruct (swapFromQueue k (List.length cols - k) cols queue). cbn [fst] in *. lia.
Qed.

Lemma joined_nonempty (cols : list jsstring) :
  cols <> [] -> Forall cellLike cols -> trim (join SEP cols) <> [].
Proof.
  intros Hne Hc. fold (joinRow cols). rewrite (joinRow_cells cols Hne Hc).
  destruct (join_first cols Hne Hc) as (y & t & -> & _). discriminate.
Qed.

(* the queue and the emitted columns after one turn, read off the surviving
   columns of the line *)
Lemma cleanRow_turn (rs : list re) (st : CleanState) (r : nat) (line : jsstring) :
  Forall cellLike (numericQueue st) ->
  let surv := survivingCols rs line in
  let used := consumeQueue surv (numericQueue st) (firstQueueFill st) in
  if isNumericLine rs line
  then emittedCols rs st line = None /\
       numericQueue (cleanRow rs st r line) = surv ++ numericQueue st
  else numericQueue (cleanRow rs st r line) = snd (fst used) /\
       match surv with
       | [] => emittedCols rs st line = None /\ fst (fst used) = []
       | _ :: _ => emittedCols rs st line = Some (fst (fst used))
       end.
Proof.
  intros Hq surv used.
  pose proof (filterRow_survivingCols rs r line) as E.
  pose proof (survivingCols_cellLike rs line) as Hc. fold surv in Hc.
  unfold cleanRow, emittedCols. fold surv. unfold isNumericLine. fold surv.
  destruct (filterRow rs r line) as [newCols rem]. cbn [fst] in E. fold surv in E. subst newCols.
  destruct ((0 <? List.length surv) && forallb isNumericToken surv) eqn:Hnum.
  - split; reflexivity.
  - pose proof (consumeQueue_Forall cellLike surv _ (firstQueueFill st) Hc Hq) as [Hc' _].
    pose proof (consumeQueue_length surv (numericQueue st) (firstQueueFill st)) as Hlen.
    fold used in Hc', Hlen |- *.
    destruct used as [[cols' queue'] first'] eqn:Eu. cbn [fst snd] in *.
    destruct surv as [| c0 surv'] eqn:Es.
    + assert (cols' = []) as ->.
      { unfold used, consumeQueue, queueUse in Eu. cbn [List.length Nat.ltb Nat.leb] in Eu.
        rewrite andb_false_r in Eu. congruence. }
      cbn. split; [reflexivity | split; reflexivity].
    + assert (Hne : cols' <> []) by (intros ->; cbn in Hlen; lia).
      pose proof (joined_nonempty cols' Hne Hc') as Hj.
      destruct (trim (join SEP cols')) as [| y t] eqn:Ej; [contradiction |].
      cbn [List.length Nat.eqb numericQueue]. split; reflexivity.
Qed.

Lemma cleanRow_conserves (rs : list re) (st : CleanState) (r : nat) (line : jsstring) :
  Forall cellLike (numericQueue st) ->
  Permutation (survivingCols rs line ++ numericQueue st)
              (List.concat (keptCols rs st r [line]) ++ numericQueue (cleanRow rs st r line)).
Proof.
  intros Hq. pose proof (cleanRow_turn rs st r line Hq) as H. cbv zeta in H.
  pose proof (consumeQueue_perm (survivingCols rs line) (numericQueue st) (firstQueueFill st)) as Hp.
  cbn [keptCols]. rewrite app_nil_r.
  destruct (isNumericLine rs line).
  - destruct H as [-> ->]. reflexivity.
  - destruct H as [-> H]. destruct (survivingCols rs line) as [| c0 surv'] eqn:Es.
    + destruct H as [-> E]. rewrite E in Hp. exact Hp.
    + rewrite H. cbn [List.concat]. rewrite app_nil_r. exact Hp.
Qed.

Lemma cleanLoop_conserves (rs : list re) (rows : list jsstring) :
  forall st r,
    Forall cellLike (numericQueue st) ->
    Permutation (List.concat (map (survivingCols rs) rows) ++ numericQueue st)
                (List.concat (keptCols rs st r rows) ++ numericQueue (cleanLoop rs st r rows)).
Proof.
  induction rows as [| line rest IH]; intros st r Hq; [reflexivity |].
  cbn [map List.concat cleanLoop].
  pose proof (cleanRow_conserves rs st r line Hq) as H1.
  pose proof (IH (cleanRow rs st r line) (S r) (cleanRow_queue_cellLike rs st r line Hq)) as H2.
  change (keptCols rs st r (line :: rest))
    with (match emittedCols rs st line with Some cols => [cols] | None => [] end
          ++ keptCols rs (cleanRow rs st r line) (S r) rest).
  cbn [keptCols] in H1. rewrite app_nil_r in H1.
  rewrite concat_app.
  set (A := survivingCols rs line) in *. set (B := List.concat (map (survivingCols rs) rest)) in *.
  set (E := List.concat match emittedCols rs st line with Some cols => [cols] | None => [] end) in *.
  transitivity (B ++ (A ++ numericQueue st)).
  { rewrite !app_assoc. apply Permutation_app_tail. apply Permutation_app_comm. }
  rewrite H1.
  transitivity (E ++ (B ++ numericQueue (cleanRow rs st r line))).
  { rewrite !app_assoc. apply Permutation_app_tail. apply Permutation_app_comm. }
  rewrite H2, app_assoc. reflexivity.
Qed.

(** ** Which lines give a kept row *)
Lemma hasTextToken_spec (cols : list jsstring) :
  hasTextToken cols = true <->
  cols <> [] /\ (0 <? List.length cols) && forallb isNumericToken cols = false.
Proof.
  unfold hasTextToken. induction cols as [| c cols IH]; cbn [existsb forallb List.length].
  - split; [discriminate | intros [H _]; contradiction].
  - change (0 <? S (List.length cols)) with true. cbn [andb].
    destruct (isNumericToken c); cbn [negb orb andb].
    + rewrite IH. split.
      * intros [Hne H]. split; [discriminate |].
        destruct cols; [contradiction | exact H].
      * intros [_ H]. destruct cols as [| c' cols']; [discriminate |].
        split; [discriminate | exact H].
    + split; [intros _; split; [discriminate | reflexivity] | reflexivity].
Qed.

Lemma emittedCols_iff (rs : list re) (st : CleanState) (line : jsstring) :
  Forall cellLike (numericQueue st) ->
  (emittedCols rs st line <> None <-> hasTextToken (survivingCols rs line) = true).
Proof.
  intros Hq. pose proof (cleanRow_turn rs st 0 line Hq) as H. cbv zeta in H.
  rewrite hasTextToken_spec. fold (isNumericLine rs line).
  destruct (isNumericLine rs line).
  - destruct H as [-> _]. split; [congruence | intros [_ H]; discriminate].
  - destruct H as [_ H]. destruct (survivingCols rs line) as [| c0 surv'].
    + destruct H as [-> _]. split; [congruence | intros [H _]; contradiction].
    + rewrite H. split; [intros _; split; [discriminate | reflexivity] | discriminate].
Qed.

Lemma keptCols_count (rs : list re) (rows : list jsstring) :
  forall st r,
    Forall cellLike (numericQueue st) ->
    List.length (keptCols rs st r rows)
    = List.length (filter (fun l => hasTextToken (survivingCols rs l)) rows).
Proof.
  induction rows as [| line rest IH]; intros st r Hq; [reflexivity |].
  cbn [keptCols filter]. rewrite length_app.
  rewrite (IH _ _ (cleanRow_queue_cellLike rs st r line Hq)).
  pose proof (emittedCols_iff rs st line Hq) as H.
  destruct (hasTextToken (survivingCols rs line)).
  - destruct (emittedCols rs st line); [reflexivity |]. exfalso. apply (proj2 H); reflexivity.
  - destruct (emittedCols rs st line); [| reflexivity].
    assert (true = false) by (symmetry; apply H; discriminate). discriminate.
Qed.

(** ** Without numeric lines every line is cleaned on its own *)
Lemma consumeQueue_empty (cols : list jsstring) (first : bool) :
  consumeQueue cols [] first = (cols, [], first).
Proof. reflexivity. Qed.

Lemma keptCols_no_numeric (rs : list re) (rows : list jsstring) :
  Forall (fun l => isNumericLine rs l = false) rows ->
  forall st r,
    numericQueue st = [] ->
    keptCols rs st r rows
    = filter (fun cols => 0 <? List.length cols) (map (survivingCols rs) rows).
Proof.
  induction 1 as [| line rest Hl Hrest IH]; intros st r Hq; [reflexivity |].
  assert (Hq' : Forall cellLike (numericQueue st)) by (rewrite Hq; constructor).
  pose proof (cleanRow_turn rs st r line Hq') as H. cbv zeta in H.
  rewrite Hl, Hq, consumeQueue_empty in H. cbn [fst snd] in H. destruct H as [Hq1 H].
  cbn [keptCols map filter]. rewrite (IH _ _ Hq1).
  destruct (survivingCols rs line) as [| c0 surv'].
  - destruct H as [-> _]. reflexivity.
  - rewrite H. reflexivity.
Qed.

(** ** The record of removed columns *)
Lemma dropNoise_account (rs : list re) (r : nat) (line : jsstring) (cols : list jsstring) :
  forall c,
    let d := dropNoise rs r c line cols in
    List.length (fst d) + List.length (snd d) = List.length cols /\
    Forall (noRuleHits rs) (fst d) /\
    Forall (fun rec => rm_rowIndex rec = r /\ rm_line rec = line /\
                       rm_prefixPruned rec = false /\
                       c <= rm_colIndex rec /\
                       nth_error cols (rm_colIndex rec - c) = Some (rm_column rec) /\
                       existsb (fun rule => test rule (rm_column rec)) rs = true) (snd d).
Proof.
  induction cols as [| col cols IH]; intros c; cbn [dropNoise].
  - cbn. repeat split; constructor.
  - specialize (IH (S c)). cbv zeta in IH.
    destruct (dropNoise rs r (S c) line cols) as [newCols rem]. cbn [fst snd] in IH.
    destruct IH as (Hlen & Hkeep & Hrem).
    assert (Hrem' : Forall (fun rec => rm_rowIndex rec = r /\ rm_line rec = line /\
                       rm_prefixPruned rec = false /\
                       c <= rm_colIndex rec /\
                       nth_error (col :: cols) (rm_colIndex rec - c) = Some (rm_column rec) /\
                       existsb (fun rule => test rule (rm_column rec)) rs = true) rem).
    { eapply Forall_impl; [| exact Hrem]. cbv beta.
      intros rec (H1 & H2 & H3 & H4 & H5 & H6). repeat split; try assumption; try lia.
      replace (rm_colIndex rec - c) with (S (rm_colIndex rec - S c)) by lia. exact H5. }
    destruct (existsb (fun rule => test rule col) rs) eqn:E; cbn [fst snd List.length].
    + split; [lia |]. split; [exact Hkeep |]. constructor; [| exact Hrem'].
      cbn [rm_rowIndex rm_line rm_prefixPruned rm_colIndex rm_column].
      rewrite Nat.sub_diag. repeat split; try lia. exact E.
    + split; [lia |]. split; [constructor; [exact E | exact Hkeep] | exact Hrem'].
Qed.

Lemma prunePrefix_account (r : nat) (line : jsstring) (cols : list jsstring) :
  let d := prunePrefix r line cols in
  (snd d = [] /\ fst d = cols) \/
  (exists first, cols = first :: fst d /\
                 snd d = [{| rm_rowIndex := r; rm_colIndex := 0; rm_line := line;
                             rm_column := first; rm_prefixPruned := true |}] /\
                 7 <= List.length cols /\
                 isMoneyToken first = false /\ looksLikePrefixId first = true).
Proof.
  unfold prunePrefix. destruct (7 <=? List.length cols) eqn:E7; [| left; split; reflexivity].
  apply Nat.leb_le in E7.
  destruct cols as [| first rest]; [left; split; reflexivity |].
  destruct (isMoneyToken first) eqn:Em; cbn [negb andb]; [left; split; reflexivity |].
  destruct (looksLikePrefixId first) eqn:El; cbn [andb]; [| left; split; reflexivity].
  destruct (existsb isUnitToken rest && (2 <=? List.length (filter isMoneyToken rest))
            && (1 <=? List.length (filter isQuantityLike rest)));
    [| left; split; reflexivity].
  right. exists first. cbn [fst snd]. repeat split; assumption.
Qed.

Lemma filterRow_account (rs : list re) (r : nat) (line : jsstring) :
  let f := filterRow rs r line in
  List.length (fst f) + List.length (snd f) = List.length (splitToCols line) /\
  Forall (noRuleHits rs) (fst f) /\
  Forall (fun rec => rm_rowIndex rec = r /\ rm_line rec = line /\
                     In (rm_column rec) (splitToCols line) /\
                     (rm_prefixPruned rec = false ->
                      nth_error (splitToCols line) (rm_colIndex rec) = Some (rm_column rec) /\
                      existsb (fun rule => test rule (rm_column rec)) rs = true) /\
                     (rm_prefixPruned rec = true ->
                      rm_colIndex rec = 0 /\ noRuleHits rs (rm_column rec) /\
                      looksLikePrefixId (rm_column rec) = true /\
                      isMoneyToken (rm_column rec) = false)) (snd f).
Proof.
  unfold filterRow.
  pose proof (dropNoise_account rs r line (splitToCols line) 0) as H. cbv zeta in H.
  pose proof (dropNoise_incl rs line (splitToCols line) r 0) as Hin.
  destruct (dropNoise rs r 0 line (splitToCols line)) as [n1 m1]. cbn [fst snd] in H, Hin.
  destruct H as (Hlen & Hkeep & Hrem).
  pose proof (prunePrefix_account r line n1) as Hp. cbv zeta in Hp.
  destruct (prunePrefix r line n1) as [n2 m2]. cbn [fst snd] in *.
  assert (Hrem1 : Forall (fun rec => rm_rowIndex rec = r /\ rm_line rec = line /\
                     In (rm_column rec) (splitToCols line) /\
                     (rm_prefixPruned rec = false ->
                      nth_error (splitToCols line) (rm_colIndex rec) = Some (rm_column rec) /\
                      existsb (fun rule => test rule (rm_column rec)) rs = true) /\
                     (rm_prefixPruned rec = true ->
                      rm_colIndex rec = 0 /\ noRuleHits rs (rm_column rec) /\
                      looksLikePrefixId (rm_column rec) = true /\
                      isMoneyToken (rm_column rec) = false)) m1).
  { eapply Forall_impl; [| exact Hrem]. cbv beta.
    intros rec (H1 & H2 & H3 & H4 & H5 & H6). rewrite Nat.sub_0_r in H5.
    repeat split; try assumption; try congruence.
    exact (nth_error_In _ _ H5). }
  destruct Hp as [[-> ->] | (first & -> & -> & H7 & Hm & Hl)].
  - rewrite app_nil_r. repeat split; assumption.
  - inversion Hkeep as [| ? ? Hf Hk]; subst. cbn [List.length] in *.
    split; [rewrite length_app; cbn [List.length]; lia |].
    split; [exact Hk |]. apply Forall_app. split; [exact Hrem1 |].
    constructor; [| constructor].
    cbn [rm_rowIndex rm_line rm_prefixPruned rm_colIndex rm_column].
    repeat split; try assumption; try discriminate.
    apply Hin. now left.
Qed.

Lemma survivingCols_noRuleHits (rs : list re) (line : jsstring) :
  Forall (noRuleHits rs) (survivingCols rs line).
Proof. unfold survivingCols. apply (filterRow_account rs 0 line). Qed.

Lemma cleanRow_removed (rs : list re) (st : CleanState) (r : nat) (line : jsstring) :
  removed (cleanRow rs st r line) = removed st ++ snd (filterRow rs r line).
Proof.
  unfold cleanRow. destruct (filterRow rs r line) as [newCols rem]. cbn [snd].
  destruct ((0 <? List.length newCols) && forallb isNumericToken newCols); [reflexivity |].
  destruct (consumeQueue newCols (numericQueue st) (firstQueueFill st)) as [[cols' queue'] first'].
  destruct (List.length (trim (join SEP cols')) =? 0); reflexivity.
Qed.

Lemma cleanLoop_removed (rs : list re) (allRows : list jsstring) (rows : list jsstring) :
  forall pre st,
    allRows = pre ++ rows ->
    Forall (recordOk rs allRows) (removed st) ->
    Forall (recordOk rs allRows) (removed (cleanLoop rs st (List.length pre) rows)).
Proof.
  induction rows as [| line rest IH]; intros pre st E Hst; [exact Hst |].
  cbn [cleanLoop].
  replace (S (List.length pre)) with (List.length (pre ++ [line]))
    by (rewrite length_app; cbn; lia).
  apply IH; [rewrite <- app_assoc; exact E |].
  rewrite cleanRow_removed. apply Forall_app. split; [exact Hst |].
  destruct (filterRow_account rs (List.length pre) line) as (_ & _ & H).
  eapply Forall_impl; [| exact H]. cbv beta.
  intros rec (H1 & H2 & H3 & H4 & H5). unfold recordOk. rewrite H1, H2.
  split; [| repeat split; try apply H4; try apply H5; assumption].
  rewrite E, nth_error_app2, Nat.sub_diag by lia. reflexivity.
Qed.

Lemma cleanLoop_removed_count (rs : list re) (rows : list jsstring) :
  forall st r,
    List.length (removed (cleanLoop rs st r rows))
    + List.length (List.concat (map (survivingCols rs) rows))
    = List.length (removed st) + List.length (List.concat (map splitToCols rows)).
Proof.
  induction rows as [| line rest IH]; intros st r; [cbn; lia |].
  cbn [cleanLoop map List.concat]. rewrite !length_app.
  specialize (IH (cleanRow rs st r line) (S r)). rewrite cleanRow_removed, length_app in IH.
  destruct (filterRow_account rs r line) as (Hlen & _ & _).
  rewrite (filterRow_survivingCols rs r line) in Hlen. lia.
Qed.

Lemma concat_filter_nonempty {A : Type} (L : list (list A)) :
  List.concat (filter (fun l => 0 <? List.length l) L) = List.concat L.
Proof.
  induction L as [| l L IH]; [reflexivity |].
  cbn [filter]. destruct l as [| a l]; [exact IH |].
  change (0 <? List.length (a :: l)) with true. cbv iota. cbn [List.concat].
  rewrite IH. reflexivity.
Qed.

(** * Case analysis of the validator *)

(** ** The column searches of the validator *)
Lemma findCol_some (p : jsstring -> bool) (cols : list jsstring) (to : nat) :
  forall fuel from c,
    findCol p cols from to fuel = Some c ->
    from <= index c < to /\ nth_error cols (index c) = Some (value c) /\ p (value c) = true /\
    forall i v, from <= i < index c -> nth_error cols i = Some v -> p v = false.
Proof.
  induction fuel as [| fuel IH]; intros from c H; [discriminate |].
  cbn [findCol] in H. destruct (from <? to) eqn:E; [| discriminate]. apply Nat.ltb_lt in E.
  destruct (nth_error cols from) as [x |] eqn:Ex.
  - destruct (p x) eqn:Ep.
    + injection H as <-. cbn [index value]. repeat split; try lia; try assumption.
    + destruct (IH _ _ H) as (Hr & Hn & Hp & Hmin).
      repeat split; try lia; try assumption.
      intros i v Hi Hv. destruct (Nat.eq_dec i from) as [-> | Hne]; [congruence |].
      apply (Hmin i v); [lia | exact Hv].
  - destruct (IH _ _ H) as (Hr & Hn & Hp & Hmin).
    repeat split; try lia; try assumption.
    intros i v Hi Hv. destruct (Nat.eq_dec i from) as [-> | Hne]; [congruence |].
    apply (Hmin i v); [lia | exact Hv].
Qed.

Lemma findCol_none (p : jsstring -> bool) (cols : list jsstring) (to : nat) :
  forall fuel from,
    to - from <= fuel ->
    findCol p cols from to fuel = None ->
    forall i v, from <= i < to -> nth_error cols i = Some v -> p v = false.
Proof.
  induction fuel as [| fuel IH]; intros from Hf H i v Hi Hv; [lia |].
  cbn [findCol] in H. destruct (from <? to) eqn:E; [| apply Nat.ltb_ge in E; lia].
  destruct (Nat.eq_dec i from) as [-> | Hne].
  - rewrite Hv in H. destruct (p v); [discriminate | reflexivity].
  - destruct (nth_error cols from) as [x |].
    + destruct (p x); [discriminate |]. apply (IH (S from) ltac:(lia) H i v); [lia | exact Hv].
    + apply (IH (S from) ltac:(lia) H i v); [lia | exact Hv].
Qed.

Lemma moneyTokensFrom_spec (cols : list jsstring) :
  forall i,
    Forall (fun c => i <= index c /\ nth_error cols (index c - i) = Some (value c) /\
                     isValidMoney (value c) = true) (moneyTokensFrom i cols) /\
    StronglySorted lt (map index (moneyTokensFrom i cols)) /\
    (forall j v, nth_error cols j = Some v -> isValidMoney v = true ->
                 In {| index := i + j; value := v |} (moneyTokensFrom i cols)).
Proof.
  induction cols as [| c cols IH]; intros i; cbn [moneyTokensFrom].
  - split; [constructor |]. split; [constructor |]. intros [| j] v H; discriminate.
  - destruct (IH (S i)) as (Hall & Hs & Hc).
    assert (Hall' : Forall (fun c0 => i <= index c0 /\
                       nth_error (c :: cols) (index c0 - i) = Some (value c0) /\
                       isValidMoney (value c0) = true) (moneyTokensFrom (S i) cols)).
    { eapply Forall_impl; [| exact Hall]. cbv beta. intros c0 (H1 & H2 & H3).
      repeat split; try lia; try assumption.
      replace (index c0 - i) with (S (index c0 - S i)) by lia. exact H2. }
    assert (Hc' : forall j v, nth_error cols j = Some v -> isValidMoney v = true ->
                   In {| index := i + S j; value := v |} (moneyTokensFrom (S i) cols)).
    { intros j v H1 H2. replace (i + S j) with (S i + j) by lia. apply Hc; assumption. }
    destruct (isValidMoney c) eqn:E; cbn [app].
    + split; [constructor; [| exact Hall'] |].
      { cbn [index value]. rewrite Nat.sub_diag. repeat split; try lia; assumption. }
      split.
      * cbn [map index]. constructor; [exact Hs |].
        rewrite Forall_map. eapply Forall_impl; [| exact Hall]. cbv beta. intros c0 (H1 & _). lia.
      * intros [| j] v H1 H2.
        -- cbn in H1. injection H1 as ->. rewrite Nat.add_0_r. now left.
        -- right. apply Hc'; assumption.
    + split; [exact Hall' |]. split; [exact Hs |].
      intros [| j] v H1 H2.
      * cbn in H1. injection H1 as ->. congruence.
      * apply Hc'; assumption.
Qed.

Lemma isValidItem_nonEmpty (v : jsstring) : isValidItem v = true -> nonEmpty v = true.
Proof. unfold isValidItem. intros H. apply andb_true_iff in H. destruct H as [H _].
       apply andb_true_iff in H. apply H. Qed.
Lemma isValidMoney_nonEmpty (v : jsstring) : isValidMoney v = true -> nonEmpty v = true.
Proof. unfold isValidMoney. intros H. apply andb_true_iff in H. apply H. Qed.
Lemma isValidQuantity_nonEmpty (v : jsstring) : isValidQuantity v = true -> nonEmpty v = true.
Proof. unfold isValidQuantity. intros H. apply andb_true_iff in H. apply H. Qed.

(* everything validateRow decides, read off the columns *)
Lemma validateRow_cases (idx : nat) (row : jsstring) :
  let cols := splitToCols row in
  let n := List.length cols in
  let out := validateRow idx row in
  let v := snd out in
  v_rowIndex v = idx /\ v_row v = row /\ v_cols v = cols /\ v_colCount v = n /\
  ((n < 4 /\ fst out = Invalid /\ v_issues v = [InsufficientColumns n] /\ v_schema v = None) \/
   (4 <= n /\ fst out = Invalid /\ v_issues v = [MissingItemName] /\ v_schema v = None /\
    forall c, In c cols -> isValidItem c = false) \/
   (4 <= n /\ fst out = Invalid /\ v_schema v = None /\
    exists k, k < 2 /\ k = List.length (moneyTokensFrom 0 cols) /\
              v_issues v = [MissingMoneyValues k]) \/
   (4 <= n /\
    exists itemCol u s more,
      findCol isValidItem cols 0 n n = Some itemCol /\
      moneyTokensFrom 0 cols = u :: s :: more /\
      let q := findCol isValidQuantity cols (index itemCol + 1) (index u) n in
      let sp := match q with
                | Some qc =>
                    findCol (fun c => nonEmpty c && negb (isValidQuantity c) && negb (isValidMoney c))
                            cols (index itemCol + 1) (index qc) n
                | None => None
                end in
      v_schema v = Some {| s_item := Some (value itemCol);
                           s_specification := option_map value sp;
                           s_quantity := option_map value q;
                           s_unitPrice := Some (value u);
                           s_supplyAmount := Some (value s);
                           s_vat := option_map value (hd_error more) |} /\
      match q with
      | Some _ => fst out = Valid /\ v_issues v = []
      | None => fst out = Invalid /\ v_issues v = [MissingQuantity; QuantityNull]
      end)).
Proof.
  intros cols n out v. subst out v. unfold validateRow. fold cols. fold n.
  destruct (n <? 4) eqn:E4.
  { apply Nat.ltb_lt in E4. cbn. repeat split. left. repeat split. exact E4. }
  apply Nat.ltb_ge in E4.
  destruct (findCol isValidItem cols 0 n n) as [itemCol |] eqn:Ei.
  2:{ cbn. repeat split. right. left. repeat split; try assumption.
      intros c Hc. destruct (In_nth_error _ _ Hc) as [i Hi].
      assert (i < n) by (apply nth_error_Some; congruence).
      apply (findCol_none isValidItem cols n n 0 ltac:(lia) Ei i c); [lia | exact Hi]. }
  destruct (findCol_some _ _ _ _ _ _ Ei) as (_ & _ & Hitem & _).
  pose proof (moneyTokensFrom_spec cols 0) as (Hm & _ & _).
  destruct (moneyTokensFrom 0 cols) as [| u [| s more]] eqn:Em.
  { cbn. repeat split. right. right. left. repeat split; try assumption.
    exists 0. repeat split. lia. }
  { cbn. repeat split. right. right. left. repeat split; try assumption.
    exists 1. repeat split. lia. }
  inversion Hm as [| ? ? (_ & _ & Hu) Hm']; subst.
  inversion Hm' as [| ? ? (_ & _ & Hs) _]; subst.
  cbv zeta. cbn [v_rowIndex v_row v_cols v_colCount snd fst v_issues v_schema].
  repeat split. right. right. right. split; [exact E4 |].
  exists itemCol, u, s, more. split; [reflexivity |]. split; [reflexivity |].
  cbn [s_item s_quantity s_unitPrice s_supplyAmount truthy].
  rewrite (isValidItem_nonEmpty _ Hitem), (isValidMoney_nonEmpty _ Hu),
    (isValidMoney_nonEmpty _ Hs).
  destruct (findCol isValidQuantity cols (index itemCol + 1) (index u) n) as [q |] eqn:Eq.
  - destruct (findCol_some _ _ _ _ _ _ Eq) as (_ & _ & Hq & _).
    cbn [option_map truthy]. rewrite (isValidQuantity_nonEmpty _ Hq). cbn [app].
    split; [| split; reflexivity].
    destruct more; reflexivity.
  - cbn [option_map truthy app]. split; [| split; reflexivity].
    destruct more; reflexivity.
Qed.

(** ** Every row is classified once, in order *)
Lemma validateRow_index (idx : nat) (row : jsstring) :
  v_rowIndex (snd (validateRow idx row)) = idx /\ v_row (snd (validateRow idx row)) = row.
Proof. destruct (validateRow_cases idx row) as (H1 & H2 & _). split; assumption. Qed.

Lemma validateFrom_spec (rows : list jsstring) :
  forall idx,
    let out := validateFrom idx rows in
    Forall (fun v => idx <= v_rowIndex v /\
                     nth_error rows (v_rowIndex v - idx) = Some (v_row v) /\
                     validateRow (v_rowIndex v) (v_row v) = (Valid, v)) (fst out) /\
    Forall (fun v => idx <= v_rowIndex v /\
                     nth_error rows (v_rowIndex v - idx) = Some (v_row v) /\
                     validateRow (v_rowIndex v) (v_row v) = (Invalid, v)) (snd out) /\
    StronglySorted lt (map v_rowIndex (fst out)) /\
    StronglySorted lt (map v_rowIndex (snd out)) /\
    Permutation (map v_rowIndex (fst out ++ snd out)) (seq idx (List.length rows)).
Proof.
  induction rows as [| row rest IH]; intros idx; cbn [validateFrom].
  - cbn. repeat split; constructor.
  - specialize (IH (S idx)). cbv zeta in IH.
    destruct (validateFrom (S idx) rest) as [valid invalid]. cbn [fst snd] in IH.
    destruct IH as (Hv & Hi & Sv & Si & Hp).
    assert (Hshift : forall (b : Verdict) (l : list Validation),
               Forall (fun v => S idx <= v_rowIndex v /\
                                nth_error rest (v_rowIndex v - S idx) = Some (v_row v) /\
                                validateRow (v_rowIndex v) (v_row v) = (b, v)) l ->
               Forall (fun v => idx <= v_rowIndex v /\
                                nth_error (row :: rest) (v_rowIndex v - idx) = Some (v_row v) /\
                                validateRow (v_rowIndex v) (v_row v) = (b, v)) l).
    { intros b l H. eapply Forall_impl; [| exact H]. cbv beta. intros v (H1 & H2 & H3).
      repeat split; try lia; try assumption.
      replace (v_rowIndex v - idx) with (S (v_rowIndex v - S idx)) by lia. exact H2. }
    assert (Hlt : forall (b : Verdict) (l : list Validation),
               Forall (fun v => S idx <= v_rowIndex v /\
                                nth_error rest (v_rowIndex v - S idx) = Some (v_row v) /\
                                validateRow (v_rowIndex v) (v_row v) = (b, v)) l ->
               Forall (lt idx) (map v_rowIndex l)).
    { intros b l H. rewrite Forall_map. eapply Forall_impl; [| exact H]. cbv beta.
      intros v (H1 & _). lia. }
    destruct (validateRow_index idx row) as [E1 E2].
    destruct (validateRow idx row) as [[|] v] eqn:Ev; cbn [fst snd] in *.
    + split.
      { constructor; [| exact (Hshift _ _ Hv)].
        rewrite E1, E2, Nat.sub_diag. repeat split; try lia. exact Ev. }
      split; [exact (Hshift _ _ Hi) |].
      split; [cbn [map]; constructor; [exact Sv | rewrite E1; exact (Hlt _ _ Hv)] |].
      split; [exact Si |].
      cbn [app map seq List.length]. rewrite E1. constructor. exact Hp.
    + split; [exact (Hshift _ _ Hv) |].
      split.
      { constructor; [| exact (Hshift _ _ Hi)].
        rewrite E1, E2, Nat.sub_diag. repeat split; try lia. exact Ev. }
      split; [exact Sv |].
      split; [cbn [map]; constructor; [exact Si | rewrite E1; exact (Hlt _ _ Hi)] |].
      cbn [seq List.length]. rewrite map_app. cbn [map]. rewrite E1.
      rewrite <- Permutation_middle. constructor. rewrite <- map_app. exact Hp.
Qed.

(** * Tokens and amounts of the row parser *)

(** ** Texts of digits *)
Lemma test_allDigits (s : jsstring) :
  test allDigits s = true <-> 1 <= List.length s /\ forallb isDigit s = true.
Proof.
  unfold allDigits. rewrite test_anchored. unfold digit. rewrite Matches_Plus_class.
  rewrite <- allIn_whole. cbn [Nat.add]. reflexivity.
Qed.

Lemma test_qtyLike (s : jsstring) :
  test qtyLike s = true <-> 1 <= List.length s <= 2 /\ forallb isDigit s = true.
Proof.
  unfold qtyLike. rewrite test_anchored. unfold digit.
  rewrite Matches_Range_class by lia. rewrite <- allIn_whole. cbn [Nat.add]. reflexivity.
Qed.

Lemma test_atLeast_digits (n : nat) (s : jsstring) :
  test (Seq [Bol; AtLeast n digit; Eol]) s = true
  <-> n <= List.length s /\ forallb isDigit s = true.
Proof.
  rewrite test_anchored. unfold digit. rewrite Matches_AtLeast_class, <- allIn_whole.
  cbn [Nat.add]. reflexivity.
Qed.

Lemma test_range_digits (a b : nat) (s : jsstring) :
  a <= b ->
  (test (Seq [Bol; Range a b digit; Eol]) s = true
   <-> a <= List.length s <= b /\ forallb isDigit s = true).
Proof.
  intros Hab. rewrite test_anchored. unfold digit.
  rewrite Matches_Range_class by exact Hab. rewrite <- allIn_whole. cbn [Nat.add]. reflexivity.
Qed.





Lemma filter_isDigit_all (s : jsstring) : forallb isDigit (filter isDigit s) = true.
Proof. apply forallb_forall. intros c Hc. apply filter_In in Hc. apply Hc. Qed.



(** ** Where the amounts of an item come from *)
Lemma moneyFrom_spec (cols : list jsstring) :
  forall i,
    Forall (fun m => i <= ix m /\
                     exists t, nth_error cols (ix m - i) = Some t /\ isMoneyToken t = true /\
                               toIntStrict t = Some (num m) /\ (1000 <= num m)%Z)
           (moneyFrom i cols) /\
    StronglySorted lt (map ix (moneyFrom i cols)).
Proof.
  induction cols as [| token cols IH]; intros i; cbn [moneyFrom].
  - split; constructor.
  - destruct (IH (S i)) as [Hall Hs].
    assert (Hall' : Forall (fun m => i <= ix m /\
                     exists t, nth_error (token :: cols) (ix m - i) = Some t /\
                               isMoneyToken t = true /\
                               toIntStrict t = Some (num m) /\ (1000 <= num m)%Z)
                           (moneyFrom (S i) cols)).
    { eapply Forall_impl; [| exact Hall]. cbv beta. intros m (H1 & t & H2 & H3).
      split; [lia |]. exists t. split; [| exact H3].
      replace (ix m - i) with (S (ix m - S i)) by lia. exact H2. }
    destruct (isMoneyToken token) eqn:Em; [| split; assumption].
    destruct (toIntStrict token) as [n |] eqn:En; [| split; assumption].
    destruct (1000 <=? n)%Z eqn:E; [| split; assumption].
    apply Z.leb_le in E. cbn [app]. split.
    + constructor; [| exact Hall']. cbn [ix num]. split; [lia |].
      exists token. rewrite Nat.sub_diag. repeat split; assumption.
    + cbn [map ix]. constructor; [exact Hs |].
      rewrite Forall_map. eapply Forall_impl; [| exact Hall]. cbv beta. intros m (H1 & _). lia.
Qed.

Lemma moneyFrom_skipn (cols : list jsstring) (from : nat) (m : Indexed) :
  In m (moneyFrom from (skipn from cols)) -> from <= ix m /\ moneyAt cols (ix m) (num m).
Proof.
  intros H. destruct (moneyFrom_spec (skipn from cols) from) as [Hall _].
  rewrite Forall_forall in Hall. destruct (Hall m H) as (Hle & t & Ht & Hrest).
  split; [exact Hle |]. exists t. split; [| exact Hrest].
  rewrite nth_error_skipn in Ht. replace (from + (ix m - from)) with (ix m) in Ht by lia.
  exact Ht.
Qed.

Lemma quantityCandidates_spec (cols : list jsstring) :
  forall i q,
    In q (quantityCandidatesFrom i cols) ->
    i <= ix q /\ exists c, nth_error cols (ix q - i) = Some c /\
                           test qtyLike (trim c) = true /\ num q = digitsToZ (trim c).
Proof.
  induction cols as [| c cols IH]; intros i q; cbn [quantityCandidatesFrom]; [intros [] |].
  rewrite in_app_iff. intros [H | H].
  - destruct (test qtyLike (trim c)) eqn:E; [| destruct H].
    destruct H as [<- | []]. cbn [ix num]. split; [lia |].
    exists c. rewrite Nat.sub_diag. repeat split. exact E.
  - destruct (IH _ _ H) as (Hle & c' & Hc & Hrest). split; [lia |].
    exists c'. split; [| exact Hrest].
    replace (ix q - i) with (S (ix q - S i)) by lia. exact Hc.
Qed.

Lemma quantityCandidates_at (col0 : jsstring) (later : list jsstring) (q : Indexed) :
  In q (quantityCandidatesFrom 1 later) ->
  1 <= ix q /\ quantityAt (col0 :: later) (ix q) (num q).
Proof.
  intros H. destruct (quantityCandidates_spec later 1 q H) as (Hle & c & Hc & Ht & Hn).
  split; [exact Hle |]. exists c. split; [| split; assumption].
  replace (ix q) with (S (ix q - 1)) by lia. exact Hc.
Qed.

Lemma digit_value (c : char) : isDigit c = true -> (0 <= Z.of_N (c - 48) <= 9)%Z.
Proof.
  unfold isDigit. intros H. apply andb_true_iff in H. destruct H as [H1 H2].
  apply N.leb_le in H1, H2. lia.
Qed.

Lemma quantity_range (s : jsstring) :
  test qtyLike s = true -> (0 <= digitsToZ s <= 99)%Z.
Proof.
  intros H. apply test_qtyLike in H. destruct H as [Hlen Hd].
  destruct s as [| a [| b [| c s']]]; cbn [List.length] in Hlen; try lia.
  - cbn [forallb] in Hd. rewrite andb_true_r in Hd.
    pose proof (digit_value a Hd). unfold digitsToZ. cbn [fold_left]. lia.
  - cbn [forallb] in Hd. rewrite andb_true_r in Hd. apply andb_true_iff in Hd.
    destruct Hd as [Ha Hb]. pose proof (digit_value a Ha). pose proof (digit_value b Hb).
    unfold digitsToZ. cbn [fold_left]. lia.
Qed.

Lemma adjacentPair_spec (money : list Indexed) (a b : Indexed) :
  adjacentPair money = Some (a, b) -> In a money /\ In b money /\ ix b = ix a + 1.
Proof.
  induction money as [| x money IH]; cbn [adjacentPair]; [discriminate |].
  destruct money as [| y money]; [discriminate |].
  destruct (ix y =? ix x + 1) eqn:E.
  - intros H; injection H as <- <-. apply Nat.eqb_eq in E.
    split; [left; reflexivity |]. split; [right; left; reflexivity | exact E].
  - intros H. destruct (IH H) as (Ha & Hb & Hab). repeat split; try (right; assumption). exact Hab.
Qed.

Lemma parseItemRow_provenance (cols : list jsstring) (it : ParsedItem) :
  parseItemRow cols = Some it ->
  exists i n,
    1 <= i /\ unitPrice it = Some n /\ moneyAt cols i n /\
    match supplyAmount it with
    | Some s => exists j, i < j /\ moneyAt cols j s
    | None => True
    end /\
    match quantity it with
    | Some q => (0 <= q <= 99)%Z /\ exists k, 1 <= k /\ k <> i /\ quantityAt cols k q
    | None => True
    end /\
    vat it = None.
Proof.
  unfold parseItemRow.
  destruct cols as [| col0 later]; [discriminate |].
  destruct (negb (nonEmpty (trim col0))); [discriminate |].
  match goal with |- context [match ?p with Some _ => _ | None => None end] =>
    destruct p as [[item0 spec0] |] end; [| discriminate].
  cbv zeta.
  set (qc := quantityCandidatesFrom 1 later).
  assert (Hqc : forall q, In q qc -> 1 <= ix q /\ quantityAt (col0 :: later) (ix q) (num q))
    by (intros q; apply quantityCandidates_at).
  assert (Hqr : forall q k, quantityAt (col0 :: later) k q -> (0 <= q <= 99)%Z).
  { intros q k (c & _ & Ht & ->). apply quantity_range. exact Ht. }
  set (single := match qc with [q] => (Some (num q), Some (ix q)) | _ => (None, None) end).
  assert (Hsingle : match single with
                    | (Some qn, Some qi) => exists q, In q qc /\ qn = num q /\ qi = ix q
                    | (None, None) => True
                    | _ => False
                    end).
  { subst single. destruct qc as [| q [| q' qc']]; try exact I.
    exists q. split; [left; reflexivity | split; reflexivity]. }
  destruct single as [qty0 qtyIdx].
  set (from := Nat.max 1 (match qtyIdx with Some qi => qi + 1 | None => 1 end)).
  set (money := moneyFrom from (skipn from (col0 :: later))).
  assert (Hm : forall m, In m money -> from <= ix m /\ moneyAt (col0 :: later) (ix m) (num m))
    by (intros m; apply moneyFrom_skipn).
  assert (Hfrom : 1 <= from) by (subst from; lia).
  (* the quantity found before the amounts *)
  assert (Hq1 : forall i, from <= i ->
                  match qty0 with
                  | Some q => (0 <= q <= 99)%Z /\
                              exists k, 1 <= k /\ k <> i /\ quantityAt (col0 :: later) k q
                  | None => True
                  end).
  { intros i Hi. destruct qty0 as [qn |]; [| exact I].
    destruct qtyIdx as [qi |]; [| contradiction].
    destruct Hsingle as (q & Hq & -> & ->). destruct (Hqc q Hq) as [Hk Hat].
    split; [exact (Hqr _ _ Hat) |]. exists (ix q). subst from.
    split; [exact Hk |]. split; [lia | exact Hat]. }
  clearbody money.
  destruct (adjacentPair money) as [[a b] |] eqn:Ea.
  - destruct (adjacentPair_spec _ _ _ Ea) as (Ha & Hb & Hab).
    destruct (Hm a Ha) as [Hfa Hma]. destruct (Hm b Hb) as [Hfb Hmb].
    intros H; injection H as <-. cbn [unitPrice supplyAmount quantity vat].
    exists (ix a), (num a). split; [lia |]. split; [reflexivity |]. split; [exact Hma |].
    split; [exists (ix b); split; [lia | exact Hmb] |]. split; [| reflexivity].
    destruct qty0 as [qn |]; [exact (Hq1 (ix a) Hfa) |].
    destruct qc as [| q0 qc'] eqn:Eqc; [exact I |].
    match goal with |- context [find ?f ?l] => destruct (find f l) as [q |] eqn:Ef end; [| exact I].
    apply find_some in Ef. destruct Ef as [Hq Hocc].
    destruct (Hqc q Hq) as [Hk Hat].
    split; [exact (Hqr _ _ Hat) |]. exists (ix q). split; [exact Hk |]. split; [| exact Hat].
    apply negb_true_iff, orb_false_iff in Hocc. destruct Hocc as [Hocc _].
    apply Nat.eqb_neq in Hocc. exact Hocc.
  - destruct money as [| m0 money'] eqn:Emoney; [discriminate |].
    destruct (Hm m0 (or_introl eq_refl)) as [Hf0 Hm0].
    destruct (find (fun m => ix m0 <? ix m) (m0 :: money')) as [nextMoney |] eqn:En.
    + apply find_some in En. destruct En as [Hn Hlt]. apply Nat.ltb_lt in Hlt.
      destruct (Hm nextMoney Hn) as [_ Hmn].
      intros H; injection H as <-. cbn [unitPrice supplyAmount quantity vat].
      exists (ix m0), (num m0). split; [lia |]. split; [reflexivity |]. split; [exact Hm0 |].
      split; [exists (ix nextMoney); split; [exact Hlt | exact Hmn] |]. split; [| reflexivity].
      destruct qty0 as [qn |]; [exact (Hq1 (ix m0) Hf0) |].
      destruct qc as [| q0 qc'] eqn:Eqc; [exact I |].
      match goal with |- context [find ?f ?l] => destruct (find f l) as [q |] eqn:Ef end; [| exact I].
      apply find_some in Ef. destruct Ef as [Hq Hocc].
      destruct (Hqc q Hq) as [Hk Hat].
      split; [exact (Hqr _ _ Hat) |]. exists (ix q). split; [exact Hk |]. split; [| exact Hat].
      apply negb_true_iff, orb_false_iff in Hocc. destruct Hocc as [Hocc _].
      apply Nat.eqb_neq in Hocc. exact Hocc.
    + intros H; injection H as <-. cbn [unitPrice supplyAmount quantity vat].
      exists (ix m0), (num m0). split; [lia |]. split; [reflexivity |]. split; [exact Hm0 |].
      split; [exact I |]. split; [| reflexivity].
      destruct qty0 as [qn |]; [exact (Hq1 (ix m0) Hf0) |].
      destruct qc as [| q0 qc'] eqn:Eqc; [exact I |].
      match goal with |- context [find ?f ?l] => destruct (find f l) as [q |] eqn:Ef end; [| exact I].
      apply find_some in Ef. destruct Ef as [Hq Hocc].
      destruct (Hqc q Hq) as [Hk Hat].
      split; [exact (Hqr _ _ Hat) |]. exists (ix q). split; [exact Hk |]. split; [| exact Hat].
      apply negb_true_iff, orb_false_iff in Hocc. destruct Hocc as [Hocc _].
      apply Nat.eqb_neq in Hocc. exact Hocc.
Qed.

(** ** Specifications need a Latin unit *)
Lemma canon_latin (c x : char) :
  isLatin c = true -> (canon x =? canon c)%N = true -> isLatin x = true.
Proof.
  unfold isLatin, canon, isUpper, isLower. intros Hc Hx. apply N.eqb_eq in Hx.
  apply orb_true_iff in Hc. apply orb_true_iff.
  destruct ((97 <=? x) && (x <=? 122))%N eqn:Ex; [right; reflexivity | left].
  apply andb_true_iff.
  destruct ((97 <=? c) && (c <=? 122))%N eqn:Ec.
  - apply andb_true_iff in Ec. destruct Ec as [E1 E2]. apply N.leb_le in E1, E2.
    split; apply N.leb_le; lia.
  - destruct Hc as [Hc | Hc]; [| discriminate].
    apply andb_true_iff in Hc. destruct Hc as [E1 E2]. apply N.leb_le in E1, E2.
    split; apply N.leb_le; lia.
Qed.

Lemma Needs_Ci (c : char) : isLatin c = true -> Needs latin (Ci c).
Proof. intros Hc. apply N_Chr. intros x Hx. exact (canon_latin c x Hc Hx). Qed.

Lemma Needs_Stri (c : char) (w : jsstring) : isLatin c = true -> Needs latin (Stri (c :: w)).
Proof.
  intros Hc. unfold Stri. cbn [map Seq].
  destruct (map Ci w); [apply Needs_Ci; exact Hc | apply N_CatL, Needs_Ci; exact Hc].
Qed.

Lemma Needs_unitWord : Needs latin unitWord.
Proof.
  unfold unitWord. cbn [Alts].
  repeat (apply N_Alt);
    match goal with
    | |- Needs latin (Stri (js ?w)) =>
        let v := eval vm_compute in (js w) in
        change (js w) with v; apply Needs_Stri; reflexivity
    end.
Qed.

Lemma Needs_specCore : Needs latin specCore.
Proof. unfold specCore. cbn [Seq]. do 3 apply N_CatR. apply N_CatL. exact Needs_unitWord. Qed.

Lemma Needs_specCoreCount : Needs latin specCoreCount.
Proof. unfold specCoreCount. cbn [Seq]. apply N_CatL. exact Needs_specCore. Qed.

Lemma Needs_spec_patterns :
  Needs latin re_specAfterDash /\ Needs latin re_specStandalone /\
  Needs latin re_splitAfterDash /\ Needs latin re_splitStandalone.
Proof.
  unfold re_specAfterDash, re_specStandalone, re_splitAfterDash, re_splitStandalone.
  cbn [Seq]. repeat split.
  - do 2 apply N_CatR. apply N_Grp. exact Needs_specCore.
  - apply N_CatR, N_CatL, N_Grp. exact Needs_specCore.
  - do 2 apply N_CatR. apply N_Grp. exact Needs_specCoreCount.
  - apply N_CatR, N_CatL, N_Grp. exact Needs_specCoreCount.
Qed.

Lemma splitSpec_without_latin (s : jsstring) :
  (forall x, In x s -> ~ latin x) ->
  splitSpecFromItemName s = {| is_item := trim s; is_spec := [] |}.
Proof.
  intros Hs. destruct Needs_spec_patterns as (_ & _ & H3 & H4).
  unfold splitSpecFromItemName.
  rewrite (exec_none_without latin _ s 0 H3 Hs).
  rewrite (execAll_none_without latin _ s H4 Hs). reflexivity.
Qed.

Lemma extractSpec_without_latin (s : jsstring) :
  (forall x, In x s -> ~ latin x) -> extractSpecificationFromText s = [].
Proof.
  intros Hs. destruct Needs_spec_patterns as (H1 & H2 & _ & _).
  unfold extractSpecificationFromText. cbn [firstSpec].
  rewrite (exec_none_without latin _ s 0 H1 Hs), (exec_none_without latin _ s 0 H2 Hs).
  reflexivity.
Qed.

(** ** Rows of numbers are not items *)
Lemma digit_not_latin (c : char) : isDigit c = true -> isLatin c = false.
Proof.
  unfold isDigit, isLatin, isUpper, isLower. intros H. apply andb_true_iff in H.
  destruct H as [H1 H2]. apply N.leb_le in H1, H2.
  apply orb_false_iff. split; apply andb_false_iff; left; apply N.leb_gt; lia.
Qed.

Lemma ws_not_latin (c : char) : isWs c = true -> isLatin c = false.
Proof.
  intros H. destruct (isLatin c) eqn:E; [| reflexivity]. exfalso.
  unfold isLatin, isUpper, isLower in E. unfold isWs in H.
  apply orb_true_iff in E.
  assert (Hr : (65 <= c <= 122)%N).
  { destruct E as [E | E]; apply andb_true_iff in E; destruct E as [E1 E2];
      apply N.leb_le in E1, E2; lia. }
  repeat match type of H with
         | (_ || _)%bool = true => apply orb_true_iff in H; destruct H as [H | H]
         | (_ && _)%bool = true => apply andb_true_iff in H; destruct H as [H H']
         end;
    try (apply N.eqb_eq in H; lia); try (apply N.leb_le in H; try apply N.leb_le in H'; lia).
Qed.

Lemma numericColumn_no_latin (c : jsstring) :
  numericColumn c -> forall x, In x (trim c) -> ~ latin x.
Proof.
  unfold numericColumn, latin. intros H x Hx Hl.
  apply test_allDigits in H. destruct H as [_ Hd]. rewrite forallb_forall in Hd.
  destruct (isWs x || oneOf [ch ","; ch "."; ch "-"] x) eqn:E.
  - apply orb_true_iff in E. destruct E as [E | E].
    + rewrite (ws_not_latin x E) in Hl. discriminate.
    + unfold oneOf in E. cbn [existsb] in E.
      unfold isLatin, isUpper, isLower in Hl.
      apply orb_true_iff in Hl.
      assert (Hr : (65 <= x <= 122)%N).
      { destruct Hl as [Hl | Hl]; apply andb_true_iff in Hl; destruct Hl as [E1 E2];
          apply N.leb_le in E1, E2; lia. }
      repeat (apply orb_true_iff in E; destruct E as [E | E]);
        try discriminate; apply N.eqb_eq in E; subst x; vm_compute in Hr; destruct Hr; congruence.
  - assert (Hin : In x (normalizeDigits (trim c))).
    { unfold normalizeDigits. apply filter_In. split; [exact Hx | now rewrite E]. }
    rewrite (digit_not_latin x (Hd x Hin)) in Hl. discriminate.
Qed.

Lemma promoteItem_numeric (later : list jsstring) (spec : jsstring) :
  Forall numericColumn later -> promoteItem later spec = None.
Proof.
  induction 1 as [| col later Hc Hl IH]; [reflexivity |].
  cbn [promoteItem]. cbv zeta. destruct (negb (nonEmpty (trim col))); [exact IH |].
  unfold numericColumn in Hc. rewrite Hc. cbn [negb andb]. exact IH.
Qed.

Lemma parseItemRow_numeric_row (cols : list jsstring) :
  Forall numericColumn cols -> parseItemRow cols = None.
Proof.
  intros H. destruct cols as [| col0 later]; [reflexivity |].
  inversion H as [| ? ? H0 Hl]; subst. unfold parseItemRow.
  destruct (negb (nonEmpty (trim col0))); [reflexivity |].
  assert (Hs : splitSpecFromItemName (trim col0)
               = {| is_item := trim (trim col0); is_spec := [] |}).
  { apply splitSpec_without_latin. apply numericColumn_no_latin. exact H0. }
  rewrite Hs. cbn [is_item is_spec]. rewrite trim_idempotent.
  unfold numericColumn in H0. rewrite H0.
  rewrite (promoteItem_numeric later [] Hl). rewrite H0. reflexivity.
Qed.

(** ** Numeric tokens of the sanitiser are numeric columns of the parser *)
Lemma numeric_text (f : jsstring) :
  test re_numeric f = true ->
  forallb (fun c => isDigit c || (c =? ch ".")%N) f = true /\
  exists d f', f = d :: f' /\ isDigit d = true.
Proof.
  unfold re_numeric. cbn [Seq]. rewrite test_spec. intros (i & j & _ & H).
  apply Matches_Cat in H. destruct H as (m0 & H0 & H).
  apply Matches_Bol in H0. destruct H0 as [-> ->].
  apply Matches_Cat in H. destruct H as (m & H1 & H).
  apply Matches_Cat in H. destruct H as (m2 & H2 & H3).
  apply Matches_Eol in H3. destruct H3 as [-> ->].
  unfold digit in H1. apply Matches_Plus_class in H1. destruct H1 as [Hm Hd].
  assert (Hrest : allIn (fun c => isDigit c || (c =? ch ".")%N) f m (List.length f)).
  { apply Matches_Opt in H2. destruct H2 as [H2 | <-]; [| apply allIn_empty].
    cbn [Seq] in H2. apply Matches_Cat in H2. destruct H2 as (m3 & Hp & Hq).
    unfold C in Hp. apply Matches_Chr in Hp. destruct Hp as (-> & x & Hx & Hc).
    unfold digit in Hq. apply Matches_Plus_class in Hq. destruct Hq as [_ Hq].
    apply (allIn_step _ _ _ _ x Hx); [rewrite Hc; apply orb_true_r |].
    eapply allIn_weaken; [| exact Hq]. intros c Hcd. now rewrite Hcd. }
  split.
  - apply allIn_whole. apply (allIn_app _ _ 0 m); [| exact Hrest].
    eapply allIn_weaken; [| exact Hd]. intros c Hcd. now rewrite Hcd.
  - destruct (Hd 0 ltac:(lia)) as (d & Hx & Hdd).
    destruct f as [| d' f']; [discriminate |]. cbn in Hx. injection Hx as ->.
    exists d, f'. split; [reflexivity | exact Hdd].
Qed.

Lemma filter_filter_imp {A : Type} (p q : A -> bool) (l : list A) :
  (forall x, q x = true -> p x = true) -> filter q (filter p l) = filter q l.
Proof.
  intros H. induction l as [| a l IH]; [reflexivity |].
  cbn [filter]. destruct (p a) eqn:Ep; cbn [filter].
  - rewrite IH. reflexivity.
  - destruct (q a) eqn:Eq; [rewrite (H a Eq) in Ep; discriminate | exact IH].
Qed.

Lemma digit_kept_by_normalizeDigits (c : char) :
  isDigit c = true -> negb (isWs c || oneOf [ch ","; ch "."; ch "-"] c) = true.
Proof.
  intros Hd. rewrite (digit_not_ws c Hd). cbn [orb]. apply negb_true_iff.
  unfold oneOf. cbn [existsb]. unfold isDigit in Hd. apply andb_true_iff in Hd.
  destruct Hd as [H1 H2]. apply N.leb_le in H1, H2.
  repeat (apply orb_false_iff; split); try reflexivity; apply N.eqb_neq;
    intros ->; vm_compute in H1, H2; congruence.
Qed.

Lemma numericToken_numericColumn (c : jsstring) :
  isNumericToken c = true -> numericColumn c.
Proof.
  unfold isNumericToken, numericColumn. intros H.
  destruct (numeric_text _ H) as (Hall & d & f' & Ef & Hd).
  set (p := fun c0 : char => negb (isWs c0 || (c0 =? COMMA)%N)) in *.
  set (q := fun c0 : char => negb (isWs c0 || oneOf [ch ","; ch "."; ch "-"] c0)).
  assert (E : normalizeDigits (trim c) = filter isDigit (filter p c)).
  { unfold normalizeDigits. fold q.
    rewrite filter_trim by (intros x Hx; unfold q; rewrite Hx; reflexivity).
    rewrite <- (filter_filter_imp p q c).
    - apply filter_ext_in. intros x Hx. rewrite forallb_forall in Hall.
      specialize (Hall x Hx). destruct (isDigit x) eqn:Edx.
      + apply digit_kept_by_normalizeDigits. exact Edx.
      + cbn [orb] in Hall. apply N.eqb_eq in Hall. subst x. reflexivity.
    - intros x Hx. unfold q in Hx. unfold p. apply negb_true_iff in Hx.
      apply orb_false_iff in Hx. destruct Hx as [Hw Ho]. rewrite Hw. cbn [orb].
      unfold oneOf in Ho. cbn [existsb] in Ho. apply orb_false_iff in Ho.
      destruct Ho as [Hc _]. change (ch ",") with COMMA in Hc. rewrite Hc. reflexivity. }
  rewrite E. apply test_allDigits. split; [| apply filter_isDigit_all].
  rewrite Ef. cbn [filter]. rewrite Hd. cbn [List.length]. lia.
Qed.

Lemma parseItemRow_rejects_numeric_tokens (cols : list jsstring) :
  forallb isNumericToken cols = true -> parseItemRow cols = None.
Proof.
  intros H. apply parseItemRow_numeric_row. apply Forall_forall. intros c Hc.
  apply numericToken_numericColumn. rewrite forallb_forall in H. exact (H c Hc).
Qed.

(** * Hits of the table locator *)

(** ** The stitched hits of a row, one or two columns wide *)
Lemma stitchCols_two (targets : list jsstring) (r i : nat) (c : jsstring) (later : list jsstring) :
  stitchCols targets 2 r i (c :: later)
  = hitOf targets r i i c
    ++ match later with
       | c2 :: _ => hitOf targets r i (S i) (c ++ [SP] ++ c2)
       | [] => []
       end
    ++ stitchCols targets 2 r (S i) later.
Proof.
  assert (E1 : i + 1 - 1 = i) by lia. assert (E2 : i + 2 - 1 = S i) by lia.
  cbn [stitchCols stitchSpans]. unfold hitOf. rewrite E1.
  destruct later as [| c2 later'].
  - reflexivity.
  - rewrite E2, <- app_assoc. destruct later'; reflexivity.
Qed.

Lemma hitOf_In (targets : list jsstring) (r i e : nat) (text : jsstring) (h : KeywordHit) :
  In h (hitOf targets r i e text) <->
  setHas targets (stripSpaces text) = true /\
  h = {| rowIndex := r; startCol := i; endCol := e;
         stitched := text; normalized := stripSpaces text |}.
Proof.
  unfold hitOf. destruct (setHas targets (stripSpaces text)).
  - split; [intros [<- | []]; auto | intros [_ ->]; now left].
  - split; [intros [] | intros [H _]; discriminate].
Qed.

Lemma hitAtCol_shift (targets : list jsstring) (r i : nat) (c : jsstring)
      (later : list jsstring) (j : nat) (h : KeywordHit) :
  hitAtCol targets r i (c :: later) (S j) h <-> hitAtCol targets r (S i) later j h.
Proof.
  unfold hitAtCol. cbn [nth_error]. replace (i + S j) with (S i + j) by lia. reflexivity.
Qed.

Lemma stitchCols_In (targets : list jsstring) (r : nat) (cols : list jsstring) (h : KeywordHit) :
  forall i, In h (stitchCols targets 2 r i cols) <-> exists j, hitAtCol targets r i cols j h.
Proof.
  induction cols as [| c later IH]; intros i.
  - cbn [stitchCols]. split; [intros [] |].
    intros (j & [(x & H & _) | (a & b & H & _)]); destruct j; discriminate.
  - rewrite stitchCols_two, !in_app_iff, IH. split.
    + intros [H | [H | (j & H)]].
      * exists 0. left. exists c. rewrite Nat.add_0_r. split; [reflexivity | exact H].
      * destruct later as [| c2 later']; [destruct H |].
        exists 0. right. exists c, c2. rewrite Nat.add_0_r. repeat split. exact H.
      * exists (S j). exact (proj2 (hitAtCol_shift _ _ _ _ _ _ _) H).
    + intros ([| j] & H).
      * destruct H as [(x & Hx & H) | (a & b & Ha & Hb & H)]; rewrite Nat.add_0_r in H.
        -- cbn in Hx. injection Hx as <-. left. exact H.
        -- cbn in Ha, Hb. injection Ha as <-.
           destruct later as [| c2 later']; [discriminate |]. cbn in Hb. injection Hb as <-.
           right. left. exact H.
      * right. right. exists j. exact (proj1 (hitAtCol_shift _ _ _ _ _ _ _) H).
Qed.

Lemma stitchRows_In (targets : list jsstring) (lines : list jsstring) (h : KeywordHit) :
  forall r0,
    In h (stitchRows targets 2 r0 lines) <->
    exists r line j, nth_error lines r = Some line /\
                     hitAtCol targets (r0 + r) 0 (splitToCols line) j h.
Proof.
  induction lines as [| line rest IH]; intros r0; cbn [stitchRows].
  - split; [intros [] | intros (r & l & j & H & _); destruct r; discriminate].
  - rewrite in_app_iff, stitchCols_In, IH. split.
    + intros [(j & H) | (r & l & j & Hl & H)].
      * exists 0, line, j. rewrite Nat.add_0_r. split; [reflexivity | exact H].
      * exists (S r), l, j. replace (r0 + S r) with (S r0 + r) by lia. split; assumption.
    + intros ([| r] & l & j & Hl & H).
      * cbn in Hl. injection Hl as <-. rewrite Nat.add_0_r in H. left. exists j. exact H.
      * cbn [nth_error] in Hl. right. exists r, l, j.
        replace (S r0 + r) with (r0 + S r) by lia. split; assumption.
Qed.

(** ** Distinct positions *)
Lemma hitAtCol_key (targets : list jsstring) (r i : nat) (cols : list jsstring) (j : nat)
      (h : KeywordHit) :
  hitAtCol targets r i cols j h ->
  rowIndex h = r /\ startCol h = i + j /\ (endCol h = i + j \/ endCol h = S (i + j)).
Proof.
  intros [(c & _ & H) | (a & b & _ & _ & H)]; apply hitOf_In in H; destruct H as [_ ->];
    cbn; auto.
Qed.

Lemma hitOf_NoDup (targets : list jsstring) (r i e : nat) (text : jsstring) :
  NoDup (map key (hitOf targets r i e text)).
Proof.
  unfold hitOf. destruct (setHas targets (stripSpaces text)); cbn; repeat constructor.
  intros [].
Qed.

Lemma stitchCols_NoDup (targets : list jsstring) (r : nat) (cols : list jsstring) :
  forall i, NoDup (map key (stitchCols targets 2 r i cols)).
Proof.
  induction cols as [| c later IH]; intros i; [constructor |].
  rewrite stitchCols_two, !map_app.
  assert (Hlater : forall k, In k (map key (stitchCols targets 2 r (S i) later)) ->
                             S i <= snd (fst k)).
  { intros k Hk. apply in_map_iff in Hk. destruct Hk as (h & <- & Hh).
    apply stitchCols_In in Hh. destruct Hh as (j & Hj).
    destruct (hitAtCol_key _ _ _ _ _ _ Hj) as (_ & Hs & _).
    unfold key. cbn [fst snd]. lia. }
  apply NoDup_app; [apply hitOf_NoDup | |].
  - apply NoDup_app; [destruct later; [constructor | apply hitOf_NoDup] | apply IH |].
    intros k Hk Hk'. pose proof (Hlater k Hk') as Hle.
    destruct later as [| c2 later']; [destruct Hk |].
    apply in_map_iff in Hk. destruct Hk as (h & <- & Hh). apply hitOf_In in Hh.
    destruct Hh as [_ ->]. cbn in Hle. lia.
  - intros k Hk Hk'. apply in_map_iff in Hk. destruct Hk as (h & <- & Hh).
    apply hitOf_In in Hh. destruct Hh as [_ ->].
    apply in_app_iff in Hk'. destruct Hk' as [Hk' | Hk'].
    + destruct later as [| c2 later']; [destruct Hk' |].
      apply in_map_iff in Hk'. destruct Hk' as (h' & E & Hh'). apply hitOf_In in Hh'.
      destruct Hh' as [_ ->]. unfold key in E. cbn in E. injection E as E. lia.
    + pose proof (Hlater _ Hk') as Hle. cbn in Hle. lia.
Qed.

Lemma stitchRows_NoDup (targets : list jsstring) (lines : list jsstring) :
  forall r0, NoDup (map key (stitchRows targets 2 r0 lines)).
Proof.
  induction lines as [| line rest IH]; intros r0; [constructor |].
  cbn [stitchRows]. rewrite map_app. apply NoDup_app; [apply stitchCols_NoDup | apply IH |].
  intros k Hk Hk'. apply in_map_iff in Hk. destruct Hk as (h & <- & Hh).
  apply in_map_iff in Hk'. destruct Hk' as (h' & E & Hh').
  apply stitchCols_spec in Hh. destruct Hh as [Hr _].
  apply stitchRows_spec in Hh'. destruct Hh' as [Hr' _].
  unfold key in E. injection E as E _ _. lia.
Qed.

(** ** The map of the header detector *)
Lemma mapSet_fresh (k : HitKey) (v : KeywordHit) (m : HitMap) :
  ~ In k (map fst m) -> mapSet k v m = m ++ [(k, v)].
Proof.
  induction m as [| [k' v'] m IH]; intros H; [reflexivity |].
  cbn [mapSet]. destruct (keyEqb k k') eqn:E.
  - apply keyEqb_eq in E. subst k'. exfalso. apply H. now left.
  - cbn [app]. f_equal. apply IH. intros C. apply H. now right.
Qed.

Lemma mapSet_same (k : HitKey) (v : KeywordHit) (m : HitMap) :
  NoDup (map fst m) -> In (k, v) m -> mapSet k v m = m.
Proof.
  induction m as [| [k' v'] m IH]; intros Hn Hin; [destruct Hin |].
  cbn [mapSet]. inversion Hn as [| ? ? Hk Hn']; subst.
  destruct (keyEqb k k') eqn:E.
  - apply keyEqb_eq in E. subst k'. destruct Hin as [Hin | Hin].
    + injection Hin as ->. reflexivity.
    + exfalso. apply Hk. apply in_map_iff. exists (k, v). split; [reflexivity | exact Hin].
  - destruct Hin as [Hin | Hin].
    + injection Hin as -> _. assert (keyEqb k k = true) by (apply keyEqb_eq; reflexivity).
      congruence.
    + f_equal. apply IH; assumption.
Qed.

Lemma fold_mapSet_distinct (hits : list KeywordHit) :
  forall m,
    NoDup (map fst m ++ map key hits) ->
    fold_left (fun m s => mapSet (key s) s m) hits m = m ++ map (fun h => (key h, h)) hits.
Proof.
  induction hits as [| h hits IH]; intros m Hn; cbn [fold_left map]; [now rewrite app_nil_r |].
  cbn [map] in Hn. pose proof (NoDup_remove_2 _ _ _ Hn) as Hfresh.
  rewrite mapSet_fresh by (intros C; apply Hfresh; apply in_or_app; left; exact C).
  rewrite IH.
  - rewrite <- app_assoc. reflexivity.
  - rewrite map_app. cbn [map fst]. rewrite <- app_assoc. exact Hn.
Qed.

Lemma stitched_single_cell (lines : list jsstring) (r c : nat) (cell : jsstring) :
  getCell lines r c = Some cell ->
  JsStr.eqb (stripSpaces cell) KW_UNIT_PRICE = true ->
  In {| rowIndex := r; startCol := c; endCol := c; stitched := cell;
        normalized := KW_UNIT_PRICE |}
     (findStitchedKeywords lines [KW_UNIT_PRICE] 2).
Proof.
  unfold getCell, findStitchedKeywords. intros Hg He.
  destruct (nth_error lines r) as [line |] eqn:El; [| discriminate].
  apply eqb_eq in He. apply stitchRows_In. exists r, line, c. split; [exact El |].
  left. exists cell. split; [exact Hg |]. apply hitOf_In. cbn [Nat.add]. split.
  - apply unit_price_target. exact He.
  - rewrite He. reflexivity.
Qed.

Lemma header_map_is_stitched (lines : list jsstring) (seeds : list CellHit) :
  let S := findStitchedKeywords lines [KW_UNIT_PRICE] 2 in
  fold_left (addSeed lines) seeds (map (fun h => (key h, h)) S)
  = map (fun h => (key h, h)) S.
Proof.
  intros S. induction seeds as [| s seeds IH]; [reflexivity |].
  cbn [fold_left]. rewrite <- IH at 2. f_equal.
  unfold addSeed.
  destruct (getCell lines (c_rowIndex s) (c_colIndex s)) as [cell |] eqn:Eg; [| reflexivity].
  destruct (nonEmpty cell && JsStr.eqb (stripSpaces cell) KW_UNIT_PRICE) eqn:E; [| reflexivity].
  apply andb_true_iff in E. destruct E as [_ E].
  apply mapSet_same.
  - rewrite map_map. cbn [fst]. apply stitchRows_NoDup.
  - apply in_map_iff.
    exists {| rowIndex := c_rowIndex s; startCol := c_colIndex s; endCol := c_colIndex s;
              stitched := cell; normalized := KW_UNIT_PRICE |}.
    split; [reflexivity |]. apply stitched_single_cell; assumption.
Qed.

Lemma header_is_stitched (lines : list jsstring) :
  checkIsItHeaderLine lines = findStitchedKeywords lines [KW_UNIT_PRICE] 2.
Proof.
  unfold checkIsItHeaderLine. cbv zeta.
  rewrite (fold_mapSet_distinct _ []) by (cbn [map app]; apply stitchRows_NoDup).
  cbn [app]. rewrite header_map_is_stitched. unfold mapValues.
  rewrite map_map. cbn [snd]. apply map_id.
Qed.

(** ** Cells found by keyword *)
Lemma cellsOfRow_In (regex : re) (r : nat) (line : jsstring) (cols : list jsstring)
      (h : CellHit) :
  forall c,
    In h (cellsOfRow regex r c line cols) <->
    c_rowIndex h = r /\ c_line h = line /\ c <= c_colIndex h /\
    nth_error cols (c_colIndex h - c) = Some (c_value h) /\ test regex (c_value h) = true.
Proof.
  induction cols as [| val cols IH]; intros c; cbn [cellsOfRow].
  - split; [intros [] | intros (_ & _ & _ & H & _)]. destruct (c_colIndex h - c); discriminate.
  - rewrite in_app_iff, IH. split.
    + intros [H | (H1 & H2 & H3 & H4 & H5)].
      * destruct (test regex val) eqn:E; [| destruct H]. destruct H as [<- | []].
        cbn. rewrite Nat.sub_diag. repeat split; try lia. exact E.
      * repeat split; try assumption; try lia.
        replace (c_colIndex h - c) with (S (c_colIndex h - S c)) by lia. exact H4.
    + intros (H1 & H2 & H3 & H4 & H5).
      destruct (Nat.eq_dec (c_colIndex h) c) as [E | Hne].
      * left. rewrite E, Nat.sub_diag in H4. cbn in H4. injection H4 as ->.
        rewrite H5. left. destruct h; cbn in *; subst; reflexivity.
      * right. repeat split; try assumption; try lia.
        replace (c_colIndex h - c) with (S (c_colIndex h - S c)) in H4 by lia. exact H4.
Qed.

Lemma cellsOfRows_In (regex : re) (lines : list jsstring) (h : CellHit) :
  forall r0,
    In h (cellsOfRows regex r0 lines) <->
    r0 <= c_rowIndex h /\
    nth_error lines (c_rowIndex h - r0) = Some (c_line h) /\
    nth_error (splitToCols (c_line h)) (c_colIndex h) = Some (c_value h) /\
    test regex (c_value h) = true.
Proof.
  induction lines as [| line rest IH]; intros r0; cbn [cellsOfRows].
  - split; [intros [] | intros (_ & H & _)]. destruct (c_rowIndex h - r0); discriminate.
  - rewrite in_app_iff, cellsOfRow_In, IH. split.
    + intros [(H1 & H2 & _ & H4 & H5) | (H1 & H2 & H3 & H4)].
      * rewrite H1, H2, Nat.sub_diag. rewrite Nat.sub_0_r in H4.
        repeat split; try lia; assumption.
      * repeat split; try assumption; try lia.
        replace (c_rowIndex h - r0) with (S (c_rowIndex h - S r0)) by lia. exact H2.
    + intros (H1 & H2 & H3 & H4).
      destruct (Nat.eq_dec (c_rowIndex h) r0) as [E | Hne].
      * left. rewrite E, Nat.sub_diag in H2. cbn in H2. injection H2 as H2.
        rewrite Nat.sub_0_r, H2. repeat split; try lia; auto.
      * right. repeat split; try assumption; try lia.
        replace (c_rowIndex h - r0) with (S (c_rowIndex h - S r0)) in H2 by lia. exact H2.
Qed.

Lemma cellsOfRow_sorted (regex : re) (r : nat) (line : jsstring) (cols : list jsstring) :
  forall c, StronglySorted cellBefore (cellsOfRow regex r c line cols).
Proof.
  induction cols as [| val cols IH]; intros c; cbn [cellsOfRow]; [constructor |].
  destruct (test regex val); cbn [app]; [| apply IH].
  constructor; [apply IH |]. apply Forall_forall. intros h Hh.
  apply cellsOfRow_In in Hh. destruct Hh as (H1 & _ & H3 & _).
  right. cbn. split; [congruence | lia].
Qed.

Lemma sorted_app {A : Type} (R : A -> A -> Prop) (l1 l2 : list A) :
  StronglySorted R l1 -> StronglySorted R l2 ->
  (forall a b, In a l1 -> In b l2 -> R a b) -> StronglySorted R (l1 ++ l2).
Proof.
  induction 1 as [| a l1 Hs IH Ha]; intros H2 Hx; [exact H2 |].
  cbn [app]. constructor.
  - apply IH; [exact H2 |]. intros x y Hx1 Hy. apply Hx; [now right | exact Hy].
  - apply Forall_app. split; [exact Ha |].
    apply Forall_forall. intros b Hb. apply Hx; [now left | exact Hb].
Qed.

Lemma cellsOfRows_sorted (regex : re) (lines : list jsstring) :
  forall r0, StronglySorted cellBefore (cellsOfRows regex r0 lines).
Proof.
  induction lines as [| line rest IH]; intros r0; cbn [cellsOfRows]; [constructor |].
  apply sorted_app; [apply cellsOfRow_sorted | apply IH |].
  intros a b Ha Hb. apply cellsOfRow_row in Ha. apply cellsOfRows_row in Hb.
  left. lia.
Qed.

(** ** The footer *)
Lemma earliestCell_first (h : CellHit) (hits : list CellHit) :
  Forall (fun b => c_rowIndex h <= c_rowIndex b) hits -> earliestCell h hits = h.
Proof.
  unfold earliestCell. induction 1 as [| b hits Hb Hrest IH]; [reflexivity |].
  cbn [fold_left]. replace (c_rowIndex h <=? c_rowIndex b) with true
    by (symmetry; apply Nat.leb_le; exact Hb).
  exact IH.
Qed.

Lemma findMarkerRow_some (lines : list jsstring) (f : FooterHit) :
  forall r0,
    findMarkerRow r0 lines = Some f ->
    r0 <= f_rowIndex f /\ f_type f = footer_marker /\ f_colIndex f = None /\
    f_value f = f_line f /\
    nth_error lines (f_rowIndex f - r0) = Some (f_line f) /\
    test FOOTER_MARKER_REGEX (f_line f) = true /\
    forall r line, r < f_rowIndex f - r0 -> nth_error lines r = Some line ->
                   test FOOTER_MARKER_REGEX line = false.
Proof.
  induction lines as [| line rest IH]; intros r0 H; [discriminate |].
  cbn [findMarkerRow] in H. destruct (test FOOTER_MARKER_REGEX line) eqn:E.
  - injection H as <-. cbn. rewrite Nat.sub_diag. repeat split; try lia; try assumption.
  - destruct (IH _ H) as (H1 & H2 & H3 & H4 & H5 & H6 & H7).
    replace (f_rowIndex f - r0) with (S (f_rowIndex f - S r0)) by lia.
    repeat split; try lia; try assumption.
    intros r l Hr Hl. destruct r as [| r]; [cbn in Hl; congruence |].
    apply (H7 r l); [lia | exact Hl].
Qed.

Lemma findMarkerRow_none (lines : list jsstring) :
  forall r0,
    findMarkerRow r0 lines = None <->
    forall line, In line lines -> test FOOTER_MARKER_REGEX line = false.
Proof.
  induction lines as [| line rest IH]; intros r0; cbn [findMarkerRow].
  - split; [intros _ l [] | reflexivity].
  - destruct (test FOOTER_MARKER_REGEX line) eqn:E.
    + split; [discriminate |]. intros H. specialize (H line (or_introl eq_refl)). congruence.
    + rewrite IH. split.
      * intros H l [<- | Hl]; [exact E | exact (H l Hl)].
      * intros H l Hl. apply H. now right.
Qed.

Lemma footer_fallback (lines : list jsstring) :
  findMarkerRow 0 lines = None ->
  checkIsItFooterLine lines =
  match findCellsByKeywords lines [js "인수자"] with
  | h :: _ => [{| f_type := assignee; f_rowIndex := c_rowIndex h;
                  f_colIndex := Some (c_colIndex h);
                  f_value := c_value h; f_line := c_line h |}]
  | [] => []
  end.
Proof.
  intros Hn. unfold checkIsItFooterLine. rewrite Hn.
  pose proof (cellsOfRows_sorted (buildVariantsRegex [js "인수자"]) lines 0) as Hs.
  unfold findCellsByKeywords.
  destruct (cellsOfRows (buildVariantsRegex [js "인수자"]) 0 lines) as [| h hits]; [reflexivity |].
  rewrite earliestCell_first; [reflexivity |].
  inversion Hs as [| ? ? _ Hall]; subst. eapply Forall_impl; [| exact Hall].
  cbv beta. intros b [Hb | [Hb _]]; lia.
Qed.

(** * Lines of the normalised text *)

(** ** The shape of the normalised text *)
Lemma escFree_no_escape (e : char) (s : jsstring) :
  forall p, escFree e p s = true -> forall pre post, s <> pre ++ BSL :: e :: post.
Proof.
  induction s as [| c s IH]; intros p H pre post E.
  - destruct pre; discriminate.
  - cbn [escFree] in H. apply andb_true_iff in H. destruct H as [_ H].
    destruct pre as [| a pre].
    + cbn [app] in E. injection E as -> ->.
      cbn [escFree] in H. rewrite !N.eqb_refl in H. discriminate.
    + cbn [app] in E. injection E as _ E. exact (IH _ H pre post E).
Qed.

Lemma runFree_no_run (s : jsstring) :
  forall q, runFree q s = true ->
            forall pre a b post, s = pre ++ a :: b :: post -> isWs a = true -> isWs b = false.
Proof.
  induction s as [| c s IH]; intros q H pre a b post E Ha.
  - destruct pre; discriminate.
  - cbn [runFree] in H. apply andb_true_iff in H. destruct H as [_ H].
    destruct pre as [| x pre].
    + cbn [app] in E. injection E as -> ->. cbn [runFree] in H. rewrite Ha in H.
      apply andb_true_iff in H. destruct H as [H _]. cbn in H. apply negb_true_iff in H. exact H.
    + cbn [app] in E. injection E as _ E. exact (IH _ H pre a b post E Ha).
Qed.

Lemma normalLine_shape (l : jsstring) :
  normalLine l -> l <> [] /\ trim l = l /\ runFree false l = true /\ ~ In LF l.
Proof.
  intros (_ & Hlf & Hne & Ht). split; [exact Hne |].
  split; [rewrite <- Ht at 1; rewrite trim_idempotent; exact Ht |].
  split; [| exact Hlf].
  destruct (trim_infix (collapseSpaces l)) as (pre & post & E). rewrite Ht in E.
  pose proof (proj2 (collapseFrom_runFree l) false ltac:(discriminate)) as Hr.
  fold (collapseSpaces l) in Hr. rewrite E in Hr.
  apply runFree_app in Hr. destruct Hr as [_ Hr]. apply runFree_app in Hr. apply Hr.
Qed.

Lemma cleanOcrText_lines (x : jsstring) :
  exists L, cleanOcrText x = join [LF] L /\ Forall normalLine L /\
            plainLineText (cleanOcrText x).
Proof.
  pose proof (cleanLines_normal _ (before_lines_plain x)) as HL. cbv zeta in HL.
  eexists. split; [reflexivity |]. split; [exact HL |]. apply join_plain. exact HL.
Qed.

Lemma join_nil_iff (L : list jsstring) :
  Forall normalLine L -> (join [LF] L = [] <-> L = []).
Proof.
  intros HL. split; [| intros ->; reflexivity].
  destruct L as [| l L']; [reflexivity |]. inversion HL as [| ? ? (_ & _ & Hne & _) _]; subst.
  destruct l; [contradiction |]. destruct L'; discriminate.
Qed.

(** * Loose keyword patterns *)

(** ** What the loose pattern of a keyword matches *)
Lemma slice_cons (s : jsstring) (i j : nat) (x : char) :
  nth_error s i = Some x -> i < j -> slice s i j = x :: slice s (S i) j.
Proof.
  intros Hx Hlt. unfold slice. rewrite (skipn_nth_cons s i x Hx).
  replace (j - i) with (S (j - S i)) by lia. reflexivity.
Qed.

Lemma slice_empty (s : jsstring) (i : nat) : slice s i i = [].
Proof. unfold slice. rewrite Nat.sub_diag. reflexivity. Qed.

Lemma slice_length (s : jsstring) (i j : nat) :
  i <= j <= List.length s -> List.length (slice s i j) = j - i.
Proof. intros H. unfold slice. rewrite length_firstn, length_skipn. lia. Qed.

Lemma slice_nth (s : jsstring) (i j k : nat) :
  i + k < j -> nth_error (slice s i j) k = nth_error s (i + k).
Proof.
  intros H. unfold slice. rewrite nth_error_firstn.
  replace (k <? j - i) with true by (symmetry; apply Nat.ltb_lt; lia).
  apply nth_error_skipn.
Qed.

Lemma forallb_allIn (p : char -> bool) (s : jsstring) (i j : nat) :
  i <= j <= List.length s -> forallb p (slice s i j) = true -> allIn p s i j.
Proof.
  intros Hr H x Hx. rewrite forallb_forall in H.
  destruct (nth_error s x) as [c |] eqn:E; [| apply nth_error_None in E; lia].
  exists c. split; [reflexivity |]. apply H.
  apply (nth_error_In _ (x - i)). rewrite slice_nth by lia.
  replace (i + (x - i)) with x by lia. exact E.
Qed.

Lemma Matches_Ci (s : jsstring) (c : char) (i j : nat) :
  Matches s (Ci c) i j <-> j = S i /\ exists x, nth_error s i = Some x /\ canon x = canon c.
Proof.
  unfold Ci. rewrite Matches_Chr. split; intros (-> & x & Hx & Hc); (split; [reflexivity |]);
    exists x; (split; [exact Hx |]); [apply N.eqb_eq | apply N.eqb_eq]; exact Hc.
Qed.

Lemma makeLoose_cons (c d : char) (w : jsstring) :
  makeLooseRegexFromKeyword (c :: d :: w)
  = Cat (Ci c) (Cat (Star true ws) (makeLooseRegexFromKeyword (d :: w))).
Proof.
  unfold makeLooseRegexFromKeyword. cbn [map intersperse Seq].
  destruct (map Ci w); reflexivity.
Qed.

Lemma Matches_loose (s : jsstring) (w : jsstring) :
  w <> [] ->
  forall i j,
    Matches s (makeLooseRegexFromKeyword w) i j <->
    i <= j <= List.length s /\ spaced w (slice s i j).
Proof.
  induction w as [| c w IH]; intros Hne i j; [contradiction |].
  destruct w as [| d w].
  - change (makeLooseRegexFromKeyword [c]) with (Ci c). rewrite Matches_Ci. cbn [spaced]. split.
    + intros (-> & x & Hx & Hc).
      assert (i < List.length s) by (apply nth_error_Some; congruence).
      split; [lia |]. exists x. rewrite (slice_cons s i (S i) x Hx) by lia.
      rewrite slice_empty. split; [reflexivity | exact Hc].
    + intros (Hr & x & E & Hc).
      assert (Hl : List.length (slice s i j) = 1) by (rewrite E; reflexivity).
      rewrite slice_length in Hl by exact Hr.
      assert (j = S i) as -> by lia. split; [reflexivity |]. exists x. split; [| exact Hc].
      rewrite <- (Nat.add_0_r i), <- (slice_nth s i (S i) 0) by lia. rewrite E. reflexivity.
  - rewrite makeLoose_cons, Matches_Cat.
    specialize (IH ltac:(discriminate)). cbn [spaced]. split.
    + intros (m & H1 & H2). apply Matches_Ci in H1. destruct H1 as (-> & x & Hx & Hc).
      apply Matches_Cat in H2. destruct H2 as (m & H2 & H3).
      unfold ws in H2. apply Matches_Star_class in H2. destruct H2 as [Hle Hws].
      apply IH in H3. destruct H3 as [Hr Hsp].
      assert (i < List.length s) by (apply nth_error_Some; congruence).
      split; [lia |]. exists x, (slice s (S i) m), (slice s m j).
      split; [| split; [exact Hc | split; [apply allIn_slice; exact Hws | exact Hsp]]].
      rewrite (slice_cons s i j x Hx) by lia. f_equal. apply slice_app. lia.
    + intros (Hr & x & gap & t' & E & Hc & Hgap & Hsp).
      assert (Hlen : List.length (slice s i j) = S (List.length gap + List.length t'))
        by (rewrite E; cbn [List.length]; rewrite length_app; reflexivity).
      rewrite slice_length in Hlen by exact Hr.
      assert (Hx : nth_error s i = Some x).
      { rewrite <- (Nat.add_0_r i), <- (slice_nth s i j 0) by lia. rewrite E. reflexivity. }
      set (m := S i + List.length gap).
      assert (Eg : slice s (S i) m = gap /\ slice s m j = t').
      { rewrite (slice_cons s i j x Hx) in E by lia. injection E as E.
        rewrite (slice_app s (S i) m j) in E by (unfold m; lia).
        apply app_eq_length in E; [exact E |].
        rewrite slice_length by (unfold m; lia). unfold m. lia. }
      destruct Eg as [Eg Et].
      exists (S i). split; [apply Matches_Ci; split; [reflexivity | exists x; auto] |].
      apply Matches_Cat. exists m. split.
      * unfold ws. apply Matches_Star_class. split; [unfold m; lia |].
        apply forallb_allIn; [unfold m; lia | rewrite Eg; exact Hgap].
      * apply IH. split; [unfold m; lia | rewrite Et; exact Hsp].
Qed.

Lemma slice_split3 (s : jsstring) (i j : nat) :
  i <= j -> s = firstn i s ++ slice s i j ++ skipn j s.
Proof.
  intros H. unfold slice.
  replace (skipn j s) with (skipn (j - i) (skipn i s)) by (rewrite skipn_skipn; f_equal; lia).
  rewrite firstn_skipn, firstn_skipn. reflexivity.
Qed.

Lemma slice_middle (pre mid post : jsstring) :
  slice (pre ++ mid ++ post) (List.length pre) (List.length pre + List.length mid) = mid.
Proof.
  unfold slice. rewrite skipn_app, Nat.sub_diag, skipn_all. cbn [app skipn].
  replace (List.length pre + List.length mid - List.length pre) with (List.length mid) by lia.
  rewrite firstn_app, Nat.sub_diag, firstn_all. cbn [firstn]. apply app_nil_r.
Qed.

Lemma test_loose (w cell : jsstring) :
  w <> [] ->
  (test (makeLooseRegexFromKeyword w) cell = true <->
   exists pre mid post, cell = pre ++ mid ++ post /\ spaced w mid).
Proof.
  intros Hne. rewrite test_spec. split.
  - intros (i & j & _ & H). apply (Matches_loose cell w Hne) in H. destruct H as [Hr Hs].
    exists (firstn i cell), (slice cell i j), (skipn j cell).
    split; [apply slice_split3; lia | exact Hs].
  - intros (pre & mid & post & -> & Hs).
    exists (List.length pre), (List.length pre + List.length mid).
    split; [rewrite length_app; lia |].
    apply (Matches_loose _ w Hne). rewrite slice_middle. split; [| exact Hs].
    rewrite !length_app. lia.
Qed.

Lemma Matches_Alts (s : jsstring) (rs : list re) (i j : nat) :
  rs <> [] -> (Matches s (Alts rs) i j <-> exists r, In r rs /\ Matches s r i j).
Proof.
  induction rs as [| r rs IH]; intros Hne; [contradiction |].
  destruct rs as [| r2 rs].
  - cbn [Alts]. split; [intros H; exists r; split; [now left | exact H] |].
    intros (r' & [<- | []] & H). exact H.
  - change (Alts (r :: r2 :: rs)) with (Alt r (Alts (r2 :: rs))).
    rewrite Matches_Alt, IH by discriminate. split.
    + intros [H | (r' & Hin & H)]; [exists r; split; [now left | exact H] |].
      exists r'. split; [now right | exact H].
    + intros (r' & [<- | Hin] & H); [left; exact H | right; exists r'; auto].
Qed.

Lemma test_variants (variants : list jsstring) (cell : jsstring) :
  variants <> [] -> Forall (fun w => w <> []) variants ->
  (test (buildVariantsRegex variants) cell = true <->
   exists w pre mid post, In w variants /\ cell = pre ++ mid ++ post /\ spaced w mid).
Proof.
  intros Hne Hw. unfold buildVariantsRegex. rewrite test_spec. split.
  - intros (i & j & Hi & H). apply Matches_Grp in H.
    apply Matches_Alts in H; [| destruct variants; [contradiction | discriminate]].
    destruct H as (r & Hr & H). apply in_map_iff in Hr. destruct Hr as (w & <- & Hin).
    rewrite Forall_forall in Hw.
    assert (Ht : test (makeLooseRegexFromKeyword w) cell = true)
      by (apply test_spec; exists i, j; auto).
    apply (test_loose w cell (Hw w Hin)) in Ht. destruct Ht as (pre & mid & post & E & Hs).
    exists w, pre, mid, post. auto.
  - intros (w & pre & mid & post & Hin & E & Hs). rewrite Forall_forall in Hw.
    assert (Ht : test (makeLooseRegexFromKeyword w) cell = true)
      by (apply (test_loose w cell (Hw w Hin)); exists pre, mid, post; auto).
    apply test_spec in Ht. destruct Ht as (i & j & Hi & H). exists i, j. split; [exact Hi |].
    apply Matches_Grp. apply Matches_Alts; [destruct variants; [contradiction | discriminate] |].
    exists (makeLooseRegexFromKeyword w). split; [apply in_map; exact Hin | exact H].
Qed.

(** * Pattern texts *)

(** ** Escaping the characters of a keyword *)
Lemma escapeRegex_plain (s : jsstring) :
  escapeRegex s = s <-> forallb (fun c => negb (isRegexSpecial c)) s = true.
Proof.
  induction s as [| c s IH]; [split; reflexivity |].
  cbn [escapeRegex flat_map forallb]. fold (escapeRegex s).
  destruct (isRegexSpecial c) eqn:E; cbn [negb andb app].
  - split; [| discriminate]. intros H.
    assert (Hl : List.length (BSL :: c :: escapeRegex s) = List.length (c :: s)) by (rewrite H; reflexivity).
    cbn [List.length] in Hl. exfalso.
    assert (Hge : List.length s <= List.length (escapeRegex s)).
    { clear. induction s as [| a s IH]; [cbn; lia |].
      cbn [escapeRegex flat_map]. fold (escapeRegex s). rewrite length_app.
      destruct (isRegexSpecial a); cbn [List.length]; lia. }
    lia.
  - rewrite <- IH. split; [intros H; injection H as H; exact H | intros ->; reflexivity].
Qed.

Lemma escapeRegex_length (s : jsstring) :
  List.length (escapeRegex s) = List.length s + List.length (filter isRegexSpecial s).
Proof.
  induction s as [| c s IH]; [reflexivity |].
  cbn [escapeRegex flat_map filter]. fold (escapeRegex s). rewrite length_app, IH.
  destruct (isRegexSpecial c); cbn [List.length]; lia.
Qed.

Lemma codePoints_bmp (w : jsstring) :
  forallb (fun c => negb (isHighSurrogate c)) w = true ->
  codePoints w = map (fun c => [c]) w.
Proof.
  induction w as [| a w IH]; intros H; [reflexivity |].
  cbn [forallb] in H. apply andb_true_iff in H. destruct H as [Ha Hw].
  apply negb_true_iff in Ha. cbn [codePoints map]. rewrite <- (IH Hw).
  destruct w as [| b w']; [reflexivity |]. rewrite Ha. reflexivity.
Qed.

Lemma special_not_s (c : char) : isRegexSpecial c = true -> (c =? ch "s")%N = false.
Proof.
  unfold isRegexSpecial, oneOf. cbn [existsb]. intros H.
  destruct (c =? ch "s")%N eqn:E; [| reflexivity]. apply N.eqb_eq in E. subst c.
  vm_compute in H. discriminate.
Qed.

Lemma BSL_special : isRegexSpecial BSL = true.
Proof. reflexivity. Qed.

Lemma plain_not_BSL (c : char) : isRegexSpecial c = false -> (c =? BSL)%N = false.
Proof.
  intros H. destruct (c =? BSL)%N eqn:E; [| reflexivity]. apply N.eqb_eq in E. subst c.
  rewrite BSL_special in H. discriminate.
Qed.

(* one escaped character at the head of a pattern text *)
Lemma parseLoose_char (fuel : nat) (c : char) (rest : jsstring) :
  parseLoose (S fuel) (escapeRegex [c] ++ rest)
  = option_map (cons (Ci c)) (parseLoose fuel rest).
Proof.
  cbn [escapeRegex flat_map app]. destruct (isRegexSpecial c) eqn:E; cbn [app].
  - cbn [parseLoose]. rewrite N.eqb_refl, (special_not_s c E), E. reflexivity.
  - cbn [parseLoose]. rewrite (plain_not_BSL c E), E. reflexivity.
Qed.

Lemma parseLoose_source (w : jsstring) :
  forall fuel,
    List.length (join [BSL; ch "s"; ch "*"] (map escapeRegex (map (fun c => [c]) w))) < fuel ->
    parseLoose fuel (join [BSL; ch "s"; ch "*"] (map escapeRegex (map (fun c => [c]) w)))
    = Some (intersperse (Star true ws) (map Ci w)).
Proof.
  induction w as [| c w IH]; intros fuel Hf.
  - destruct fuel; [lia | reflexivity].
  - destruct w as [| d w].
    + cbn [map join intersperse] in *.
      assert (1 <= List.length (escapeRegex [c]))
        by (cbn [escapeRegex flat_map]; destruct (isRegexSpecial c); cbn; lia).
      destruct fuel as [| [| fuel]]; try lia.
      rewrite <- (app_nil_r (escapeRegex [c])), parseLoose_char. reflexivity.
    + change (join [BSL; ch "s"; ch "*"] (map escapeRegex (map (fun c => [c]) (c :: d :: w))))
        with (escapeRegex [c] ++ [BSL; ch "s"; ch "*"]
              ++ join [BSL; ch "s"; ch "*"] (map escapeRegex (map (fun c => [c]) (d :: w))))
        in *.
      set (rest := join _ _) in *.
      rewrite !length_app in Hf. cbn [List.length] in Hf.
      destruct fuel as [| [| fuel]]; try lia.
      rewrite parseLoose_char.
      cbn [app parseLoose]. rewrite !N.eqb_refl.
      change (ch "s" =? BSL)%N with false. cbv iota.
      rewrite IH by lia. cbn [option_map map intersperse]. destruct (map Ci w); reflexivity.
Qed.

Lemma regExpLoose_source (w : jsstring) :
  forallb (fun c => negb (isHighSurrogate c)) w = true ->
  regExpLoose (looseSource w) = Some (makeLooseRegexFromKeyword w).
Proof.
  intros Hw. unfold regExpLoose, looseSource, makeLooseRegexFromKeyword.
  rewrite (codePoints_bmp w Hw), parseLoose_source by lia. reflexivity.
Qed.

(** * The pipeline of main *)

(** ** Items of several rows *)
Lemma parseItemsFromRows_app (a b : list jsstring) :
  parseItemsFromRows (a ++ b) = parseItemsFromRows a ++ parseItemsFromRows b.
Proof.
  induction a as [| line a IH]; [reflexivity |].
  cbn [app parseItemsFromRows]. rewrite IH.
  destruct (parseItemRow (splitToCols line)) as [row |]; [| reflexivity].
  destruct (unitPrice row); reflexivity.
Qed.

Lemma parseItemsFromRows_length (rows : list jsstring) :
  List.length (parseItemsFromRows rows) <= List.length rows.
Proof.
  induction rows as [| line rows IH]; [cbn; lia |].
  cbn [parseItemsFromRows List.length].
  destruct (parseItemRow (splitToCols line)) as [row |]; [| lia].
  destruct (unitPrice row); cbn [List.length]; lia.
Qed.

Lemma parseItemsFromRows_In (rows : list jsstring) (it : ParsedItem) :
  In it (parseItemsFromRows rows) <->
  exists line, In line rows /\ parseItemRow (splitToCols line) = Some it.
Proof.
  induction rows as [| line rows IH]; cbn [parseItemsFromRows].
  - split; [intros [] | intros (l & [] & _)].
  - destruct (parseItemRow (splitToCols line)) as [row |] eqn:E.
    + assert (Hu : exists n, unitPrice row = Some n).
      { destruct (parseItemRow_unitPrice (splitToCols line)) as [E' | (it' & n & E' & Hu & _)];
          rewrite E' in E; [discriminate |]. injection E as <-. eauto. }
      destruct Hu as [n Hu]. rewrite Hu. cbn [In]. rewrite IH. split.
      * intros [<- | (l & Hl & Hp)]; [exists line; split; [now left | exact E] |].
        exists l. split; [now right | exact Hp].
      * intros (l & [<- | Hl] & Hp); [left; congruence | right; exists l; auto].
    + rewrite IH. split.
      * intros (l & Hl & Hp). exists l. split; [now right | exact Hp].
      * intros (l & [<- | Hl] & Hp); [congruence | exists l; auto].
Qed.

(** ** The tax attached to an item *)
Lemma of_Z_truthy (s : Z) : (0 < s < 2 ^ 53)%Z -> ToBoolean (VNum (JsNum.of_Z s)) = true.
Proof.
  intros Hs. destruct s as [| p | p]; try lia.
  destruct (of_Z_pos p ltac:(lia)) as (m & d & -> & _). reflexivity.
Qed.

Lemma attachVAT_spec (it : ParsedItem) :
  item (attachVAT it) = item it /\ specification (attachVAT it) = specification it /\
  quantity (attachVAT it) = quantity it /\ unitPrice (attachVAT it) = unitPrice it /\
  supplyAmount (attachVAT it) = supplyAmount it /\
  (supplyAmount it = None -> vat (attachVAT it) = vat it) /\
  (forall s, supplyAmount it = Some s -> (0 < s < 2 ^ 53)%Z ->
             vat (attachVAT it) = Some (JsNum.of_Z ((s + 9) / 10))).
Proof.
  unfold attachVAT. destruct (supplyAmount it) as [s |] eqn:Es.
  - destruct (ToBoolean (VNum (JsNum.of_Z s))) eqn:Et; cbn [item specification quantity
      unitPrice supplyAmount vat]; repeat split; try assumption; try discriminate.
    + intros s' E Hs. injection E as <-. rewrite calculateVAT_safe_integer by lia. reflexivity.
    + intros s' E Hs. injection E as <-. rewrite (of_Z_truthy s Hs) in Et. discriminate.
  - repeat split; try assumption. intros s E. discriminate.
Qed.

(** ** The lines handed to the locator *)
Lemma mainLines_shape (x : jsstring) :
  (cleanOcrText x = [] /\ mainLines x = [[]]) \/
  (cleanOcrText x <> [] /\ Forall normalLine (mainLines x) /\
   cleanOcrText x = join [LF] (mainLines x)).
Proof.
  destruct (cleanOcrText_lines x) as (L & E & HL & _). unfold mainLines. rewrite E.
  destruct L as [| l L'] eqn:EL.
  - left. split; reflexivity.
  - right. rewrite <- EL in *.
    assert (Hne : L <> []) by (rewrite EL; discriminate).
    rewrite splitLines_join.
    + split; [| split; [exact HL | reflexivity]].
      intros C. apply (join_nil_iff L HL) in C. contradiction.
    + exact Hne.
    + eapply Forall_impl; [| exact HL]. intros a (_ & H & _). exact H.
Qed.

Lemma main_without_header (x : jsstring) :
  checkIsItHeaderLine (mainLines x) = [] ->
  mainSlice x = {| start := None; end_ := None; rows := [] |} /\
  mainCleaned x = ([], []) /\ mainValidation x = ([], []) /\ mainParsedItems x = [] /\
  mainParsedItems_test x = [].
Proof.
  intros H.
  assert (Es : mainSlice x = {| start := None; end_ := None; rows := [] |}).
  { unfold mainSlice, sliceRowsBetweenHeaderFooter. rewrite H. reflexivity. }
  assert (Ec : mainCleaned x = ([], [])) by (unfold mainCleaned; rewrite Es; reflexivity).
  split; [exact Es |]. split; [exact Ec |].
  unfold mainValidation, mainParsedItems, mainParsedItems_test. rewrite Ec, Es.
  repeat split.
Qed.

Lemma blank_text_no_header (x : jsstring) :
  cleanOcrText x = [] -> checkIsItHeaderLine (mainLines x) = [].
Proof. intros H. unfold mainLines. rewrite H. vm_compute. reflexivity. Qed.

(** * The valid rows and their VAT *)

Lemma digitOfBase_digit (c : char) :
  isDigit c = true -> digitOfBase 10 c = Some (Z.of_N (c - 48)).
Proof. intros H. unfold digitOfBase. rewrite H. reflexivity. Qed.

Lemma readDigits_digits (s : jsstring) :
  forallb isDigit s = true ->
  forall acc, readDigits 10 acc s = fold_left (fun a c => (a * 10 + Z.of_N (c - 48))%Z) s acc.
Proof.
  induction s as [| c s IH]; intros H acc; [reflexivity |].
  cbn [forallb] in H. apply andb_true_iff in H. destruct H as [Hc Hs].
  cbn [readDigits fold_left]. rewrite (digitOfBase_digit c Hc). apply IH. exact Hs.
Qed.

Lemma digit_codes (c : char) : isDigit c = true -> (48 <= c <= 57)%N.
Proof.
  unfold isDigit. intros H. apply andb_true_iff in H. destruct H as [H1 H2].
  apply N.leb_le in H1, H2. lia.
Qed.

(* parseInt of a run of digits is the number they spell *)
Lemma parseInt_digits (s : jsstring) :
  s <> [] -> forallb isDigit s = true -> parseInt s = JsNum.of_Z (digitsToZ s).
Proof.
  intros Hne H. destruct s as [| c r]; [congruence |].
  pose proof H as H0. cbn [forallb] in H0. apply andb_true_iff in H0. destruct H0 as [Hc Hr].
  pose proof (digit_codes c Hc) as Hcc.
  unfold parseInt. cbn [dropWs]. rewrite (digit_not_ws c Hc).
  assert (E1 : (c =? ch "-")%N = false) by (apply N.eqb_neq; vm_compute ch; lia).
  assert (E2 : (c =? ch "+")%N = false) by (apply N.eqb_neq; vm_compute ch; lia).
  rewrite E1, E2. cbv beta iota zeta.
  destruct r as [| x r0].
  - cbn [startsWithDigit]. rewrite (digitOfBase_digit c Hc).
    rewrite (readDigits_digits _ H). reflexivity.
  - cbn [forallb] in Hr. apply andb_true_iff in Hr. destruct Hr as [Hx _].
    pose proof (digit_codes x Hx) as Hxc.
    assert (Ex1 : (x =? ch "x")%N = false) by (apply N.eqb_neq; vm_compute ch; lia).
    assert (Ex2 : (x =? ch "X")%N = false) by (apply N.eqb_neq; vm_compute ch; lia).
    rewrite Ex1, Ex2, andb_false_r. cbv beta iota zeta.
    cbn [startsWithDigit]. rewrite (digitOfBase_digit c Hc).
    rewrite (readDigits_digits _ H). reflexivity.
Qed.

(* the supply amount and the optional third money column of a valid row *)
Lemma valid_row_schema (rows : list jsstring) (v : Validation) :
  In v (fst (validateRowSchema rows)) ->
  exists sch supply,
    v_schema v = Some sch /\ s_supplyAmount sch = Some supply /\
    isValidMoney supply = true /\
    match s_vat sch with Some t => isValidMoney t = true | None => True end.
Proof.
  intros Hin. unfold validateRowSchema in Hin.
  destruct (validateFrom_spec rows 0) as (Hv & _).
  rewrite Forall_forall in Hv. destruct (Hv v Hin) as (_ & _ & Hrow).
  pose proof (validateRow_cases (v_rowIndex v) (v_row v)) as Hc.
  cbv zeta in Hc. rewrite Hrow in Hc. cbn [fst snd] in Hc.
  destruct Hc as (_ & _ & _ & _ & Hc).
  destruct Hc as [(_ & C & _) | [(_ & C & _) | [(_ & C & _) | (_ & itemCol & u & s & more & _ & Hm & Hs & _)]]];
    try discriminate.
  destruct (moneyTokensFrom_spec (splitToCols (v_row v)) 0) as (Hall & _).
  rewrite Hm in Hall.
  inversion Hall as [| ? ? _ Hall']; subst.
  inversion Hall' as [| ? ? (_ & _ & Hsv) Hall'']; subst.
  eexists. exists (value s). split; [exact Hs |]. cbn [s_supplyAmount s_vat].
  split; [reflexivity |]. split; [exact Hsv |].
  destruct more as [| t more']; cbn [hd_error option_map]; [exact I |].
  inversion Hall'' as [| ? ? (_ & _ & Htv) _]; subst. exact Htv.
Qed.

Lemma withVAT_spec (v : Validation) (sch : Schema) (supply : jsstring) :
  v_schema v = Some sch -> s_supplyAmount sch = Some supply ->
  isValidMoney supply = true ->
  match s_vat sch with Some t => isValidMoney t = true | None => True end ->
  w_supplyAmount (withVAT v) = Some supply /\
  match s_vat sch with
  | Some t => w_vat (withVAT v) = VatText t
  | None =>
      let n := digitsToZ (dropCommasSpaces supply) in
      (n < 2 ^ 53)%Z -> w_vat (withVAT v) = VatNumber (JsNum.of_Z ((n + 9) / 10))
  end.
Proof.
  intros Hs Ha Hm Ht. unfold withVAT. rewrite Hs. cbn [w_supplyAmount w_vat].
  rewrite Ha. split; [reflexivity |]. cbn [truthy].
  rewrite (isValidMoney_nonEmpty _ Hm). cbn [andb].
  destruct (s_vat sch) as [t |].
  - cbn [truthy]. rewrite (isValidMoney_nonEmpty _ Ht). reflexivity.
  - cbn [truthy negb]. cbv zeta. intros Hn.
    unfold isValidMoney in Hm. apply andb_true_iff in Hm. destruct Hm as [_ Hm].
    apply test_atLeast_digits in Hm. destruct Hm as [Hlen Hd].
    rewrite parseInt_digits; [| intros E; rewrite E in Hlen; cbn in Hlen; lia | exact Hd].
    rewrite calculateVAT_safe_integer; [reflexivity |].
    split; [apply digitsToZ_nonneg | exact Hn].
Qed.

(** * Worked examples of the model *)

Example splitToCols_example :
  splitToCols (js "품명A | 10 | 5,000 | 50,000 | ") = [js "품명A"; js "10"; js "5,000"; js "50,000"].
Proof. vm_compute. reflexivity. Qed.

Example cleanOcrText_example :
  cleanOcrText (js "a\tb  c \n\n  d\r\ne") = js "a | b c" ++ [LF] ++ js "d" ++ [LF] ++ js "e".
Proof. vm_compute. reflexivity. Qed.

Example splitSpec_example :
  splitSpecFromItemName (js "사과 (10kg) - 5 kg * 3 ea 12")
  = {| is_item := js "사과 (10kg)"; is_spec := js "5 kg * 3 ea 12" |}.
Proof. vm_compute. reflexivity. Qed.

Example sanitizer_example :
  fst (cleanRowsWithRules
         [js "품명A | 5,000 | 50,000"; js "10"; js "품명B | 6,000"; js "12 | 72,000";
          js "www.x.com | 품명C 1kg | 1 | 1000 | 1000 | 7 | 8"; js "9"])
  = [js "품명A | 5,000 | 50,000"; js "품명B | 6,000 | 10";
     js "품명C 1kg | 1 | 1000 | 1000 | 12 | 72,000"].
Proof. vm_compute. reflexivity. Qed.

(* the direct normaliser and the one written with the expressions of the
   source agree on the samples *)
Example cleanOcrText_agrees_with_expressions :
  forallb (fun x => JsStr.eqb (cleanOcrText x) (cleanOcrTextRe x)) normaliserSamples = true.
Proof. vm_compute. reflexivity. Qed.

(** * The claims *)

(** C1 (as amended): for every integer supply amount s with 0 <= s < 2^53,
    calculateVAT returns the integer ceiling of s / 10, written (s + 9) / 10;
    in particular VAT(6727) = 673, VAT(133364) = 13337 and VAT(10000) = 1000;
    for null, undefined and NaN it returns 0. *)
Theorem vat_is_ceiling_of_tenth :
  (forall s : Z, (0 <= s < 2 ^ 53)%Z ->
     calculateVAT (VNum (JsNum.of_Z s)) = JsNum.of_Z ((s + 9) / 10)) /\
  calculateVAT (VNum (JsNum.of_Z 6727)) = JsNum.of_Z 673 /\
  calculateVAT (VNum (JsNum.of_Z 133364)) = JsNum.of_Z 13337 /\
  calculateVAT (VNum (JsNum.of_Z 10000)) = JsNum.of_Z 1000 /\
  calculateVAT VNull = JsNum.of_Z 0 /\
  calculateVAT VUndefined = JsNum.of_Z 0 /\
  calculateVAT (VNum S754_nan) = JsNum.of_Z 0.
Proof.
  split; [exact calculateVAT_safe_integer |].
  repeat split; vm_compute; reflexivity.
Qed.

Lemma vat_is_ceiling_of_tenth_witness :
  (0 <= 49999 < 2 ^ 53)%Z /\
  calculateVAT (VNum (JsNum.of_Z 49999)) = JsNum.of_Z ((49999 + 9) / 10).
Proof.
  split; [lia |]. apply (proj1 vat_is_ceiling_of_tenth 49999%Z). lia.
Defined.

(* 45035996273704992 = 5629499534213124 * 2^3 is a double; its tenth rounds
   down to an integer, so the ceiling is one short of ceil(s / 10). *)
Lemma vat_beyond_safe_integers :
  JsNum.of_Z 45035996273704992 = S754_finite false 5629499534213124 3 /\
  (5629499534213124 * 2 ^ 3 = 45035996273704992)%Z /\
  calculateVAT (VNum (JsNum.of_Z 45035996273704992)) = JsNum.of_Z 4503599627370499 /\
  calculateVAT (VNum (JsNum.of_Z 45035996273704992))
    <> JsNum.of_Z ((45035996273704992 + 9) / 10).
Proof.
  split; [vm_compute; reflexivity |].
  split; [reflexivity |].
  split; [vm_compute; reflexivity |].
  vm_compute. discriminate.
Qed.

(** C2 (as amended): a line whose surviving columns are all purely numeric
    is absorbed into the queue and not emitted at that turn; the columns
    joined into a kept row without a trailing-column swap (queue untouched,
    or queued values appended) contain a token that is not purely numeric;
    splitting the kept rows of a run into columns gives back exactly the
    columns that were joined; hence in a run without swaps every kept row
    has a column that is not purely numeric. *)
Theorem kept_rows_not_numeric (rs : list re) :
  (forall st r line,
     isNumericLine rs line = true ->
     kept (cleanRow rs st r line) = kept st /\
     numericQueue (cleanRow rs st r line) = survivingCols rs line ++ numericQueue st) /\
  (forall st r line,
     kept (cleanRow rs st r line)
     = kept st ++ match emittedCols rs st line with Some cols => [joinRow cols] | None => [] end) /\
  (forall st line cols,
     emittedCols rs st line = Some cols -> swapsAt rs st line = false ->
     hasTextToken cols = true) /\
  (forall rows,
     map splitToCols (fst (cleanRowsWith rs rows)) = keptCols rs initialState 0 rows /\
     (swapFree rs initialState 0 rows = true ->
      Forall (fun row => hasTextToken (splitToCols row) = true)
             (fst (cleanRowsWith rs rows)))).
Proof.
  split; [intros st r line; apply cleanRow_numeric |].
  split; [intros st r line; apply cleanRow_kept_cols |].
  split; [intros st line cols; apply emittedCols_text |].
  intros rows. split; [apply keptRows_columns |].
  intros Hs. apply swapFree_keptCols in Hs.
  rewrite <- keptRows_columns in Hs. apply Forall_map in Hs. exact Hs.
Qed.

Lemma kept_rows_not_numeric_witness :
  swapFree rules initialState 0
    [js "품명A | 5,000 | 50,000"; js "10"; js "품명B | 6,000"] = true /\
  fst (cleanRowsWith rules [js "품명A | 5,000 | 50,000"; js "10"; js "품명B | 6,000"])
    = [js "품명A | 5,000 | 50,000"; js "품명B | 6,000 | 10"] /\
  Forall (fun row => hasTextToken (splitToCols row) = true)
    (fst (cleanRowsWith rules [js "품명A | 5,000 | 50,000"; js "10"; js "품명B | 6,000"])).
Proof.
  split; [vm_compute; reflexivity |].
  split; [vm_compute; reflexivity |].
  apply (proj2 (proj2 (proj2 (proj2 (kept_rows_not_numeric rules)))
                  [js "품명A | 5,000 | 50,000"; js "10"; js "품명B | 6,000"])).
  vm_compute. reflexivity.
Defined.

(* the queue holds five values when a five-column row arrives: the swap
   replaces every column and the kept row is purely numeric *)
Lemma swap_emits_numeric_row :
  fst (cleanRowsWithRules [js "1 | 2 | 3 | 4 | 5"; js "A | B | C | D | E"])
    = [js "1 | 2 | 3 | 4 | 5"] /\
  keptCols rules initialState 0 [js "1 | 2 | 3 | 4 | 5"; js "A | B | C | D | E"]
    = [[js "1"; js "2"; js "3"; js "4"; js "5"]] /\
  splitToCols (js "1 | 2 | 3 | 4 | 5") = [js "1"; js "2"; js "3"; js "4"; js "5"] /\
  forallb isNumericToken [js "1"; js "2"; js "3"; js "4"; js "5"] = true.
Proof. repeat split; vm_compute; reflexivity. Qed.

(** C3 (as amended): parsing the single row "품명A | 10 | 5,000 | 50,000"
    and attaching VAT yields item "품명A", the empty string as
    specification, quantity 10, unitPrice 5000, supplyAmount 50000 and
    vat 5000. *)
Theorem parse_example_row :
  parsedItemsWithVAT [js "품명A | 10 | 5,000 | 50,000"]
  = [{| item := js "품명A"; specification := Some [];
        quantity := Some 10%Z; unitPrice := Some 5000%Z; supplyAmount := Some 50000%Z;
        vat := Some (JsNum.of_Z 5000) |}].
Proof. vm_compute. reflexivity. Qed.

Lemma parse_example_row_specification_not_null :
  parsedItemsWithVAT [js "품명A | 10 | 5,000 | 50,000"]
  <> [{| item := js "품명A"; specification := None;
         quantity := Some 10%Z; unitPrice := Some 5000%Z; supplyAmount := Some 50000%Z;
         vat := Some (JsNum.of_Z 5000) |}].
Proof. vm_compute. discriminate. Qed.

(** C4: for every row, parseItemRow returns null or an item whose unitPrice
    is present and at least 1000; so every item of parseItemsFromRows has
    unitPrice >= 1000, and a row without a money token of value >= 1000 is
    rejected, never emitted with a null unit price. *)
Theorem rowParser_unitPrice :
  (forall cols : list jsstring,
     parseItemRow cols = None \/
     exists (it : ParsedItem) (n : Z),
       parseItemRow cols = Some it /\ unitPrice it = Some n /\ (1000 <= n)%Z) /\
  (forall (rows : list jsstring) (it : ParsedItem),
     In it (parseItemsFromRows rows) ->
     exists n : Z, unitPrice it = Some n /\ (1000 <= n)%Z) /\
  (forall cols : list jsstring,
     (forall token n, In token cols -> isMoneyToken token = true ->
                      toIntStrict token = Some n -> (n < 1000)%Z) ->
     parseItemRow cols = None).
Proof.
  split; [exact parseItemRow_unitPrice |].
  split; [exact parseItemsFromRows_unitPrice | exact parseItemRow_no_money].
Qed.

Lemma rowParser_unitPrice_witness :
  (forall token n, In token [js "품명A"; js "10"; js "500"; js "900"] ->
                   isMoneyToken token = true -> toIntStrict token = Some n -> (n < 1000)%Z) /\
  parseItemRow [js "품명A"; js "10"; js "500"; js "900"] = None.
Proof.
  assert (H : forall token n, In token [js "품명A"; js "10"; js "500"; js "900"] ->
                isMoneyToken token = true -> toIntStrict token = Some n -> (n < 1000)%Z).
  { intros token n [<- | [<- | [<- | [<- | []]]]] Hm; vm_compute in Hm; discriminate. }
  split; [exact H |].
  apply (proj2 (proj2 rowParser_unitPrice)). exact H.
Defined.

(** C5: when both a header and a footer are found, the slice starts at the
    row right after the header row (the lowest row index among the header
    hits), and its end index is the footer row minus 1 for a banner marker
    and minus 2 for an assignee fallback, clamped to [-1, length - 1]; the
    rows are the lines from start to end inclusive. *)
Theorem slice_between_header_and_footer
        (lines : list jsstring) (h : KeywordHit) (hs : list KeywordHit)
        (f : FooterHit) (fs : list FooterHit) :
  checkIsItHeaderLine lines = h :: hs ->
  checkIsItFooterLine lines = f :: fs ->
  let headerIndex := minOf (Z.of_nat (rowIndex h)) (map (fun h => Z.of_nat (rowIndex h)) hs) in
  let len := Z.of_nat (List.length lines) in
  let endCut :=
    (Z.of_nat (f_rowIndex f) - match f_type f with footer_marker => 1 | assignee => 2 end)%Z in
  let endIdx := Z.max (Z.min endCut (len - 1)) (-1) in
  let sl := sliceRowsBetweenHeaderFooter lines in
  (forall h', In h' (h :: hs) -> (headerIndex <= Z.of_nat (rowIndex h'))%Z) /\
  start sl = Some (headerIndex + 1)%Z /\
  end_ sl = Some endIdx /\
  rows sl = firstn (Z.to_nat (endIdx + 1 - (headerIndex + 1)))
                   (skipn (Z.to_nat (headerIndex + 1)) lines).
Proof.
  intros Eh Ef headerIndex len endCut endIdx sl.
  pose proof (headerIndex_range lines h hs Eh) as Hr. fold headerIndex len in Hr.
  pose proof (footer_at_most_one lines f fs Ef) as ->.
  split.
  { intros h' Hh'.
    destruct (minOf_spec (Z.of_nat (rowIndex h)) (map (fun h => Z.of_nat (rowIndex h)) hs))
      as [_ Hle].
    apply Hle.
    change (Z.of_nat (rowIndex h) :: map (fun h => Z.of_nat (rowIndex h)) hs)
      with (map (fun h => Z.of_nat (rowIndex h)) (h :: hs)).
    apply (in_map (fun h => Z.of_nat (rowIndex h))). exact Hh'. }
  subst sl. unfold sliceRowsBetweenHeaderFooter. rewrite Eh, Ef.
  cbn [earliestFooter fold_left start end_ rows].
  fold headerIndex len.
  replace (match f_type f with
           | footer_marker => Z.of_nat (f_rowIndex f) - 1
           | assignee => Z.of_nat (f_rowIndex f) - 2
           end)%Z with endCut by (subst endCut; destruct (f_type f); reflexivity).
  fold endIdx.
  replace (Z.min (Z.max (headerIndex + 1) 0) len) with (headerIndex + 1)%Z by lia.
  split; [reflexivity |]. split; [reflexivity |].
  destruct (headerIndex + 1 <=? endIdx)%Z eqn:E.
  - apply Z.leb_le in E. rewrite arraySlice_inside by (subst endIdx; lia). reflexivity.
  - apply Z.leb_gt in E. replace (Z.to_nat (endIdx + 1 - (headerIndex + 1))) with 0%nat by lia.
    reflexivity.
Qed.

Definition invoice_with_banner : list jsstring :=
  [js "거래명세서"; js "품목 | 규격 | 수량 | 단 | 가 | 공급가액";
   js "품명A | 10 | 5,000 | 50,000"; js "품명B | 2 | 1,000 | 2,000";
   js "=== 이하여백 ==="; js "인수자 | 홍길동"].
Definition invoice_with_signature : list jsstring :=
  [js "품목 | 수량 | 단가 | 공급가액";
   js "품명A | 10 | 5,000 | 50,000"; js "품명B | 2 | 1,000 | 2,000";
   js "합계 | 52,000"; js "인수자 | 홍길동"].

Lemma slice_between_header_and_footer_witness :
  (checkIsItHeaderLine invoice_with_banner
     = [{| rowIndex := 1; startCol := 3; endCol := 4;
           stitched := js "단 가"; normalized := js "단가" |}] /\
   checkIsItFooterLine invoice_with_banner
     = [{| f_type := footer_marker; f_rowIndex := 4; f_colIndex := None;
           f_value := js "=== 이하여백 ==="; f_line := js "=== 이하여백 ===" |}] /\
   start (sliceRowsBetweenHeaderFooter invoice_with_banner) = Some 2%Z /\
   end_ (sliceRowsBetweenHeaderFooter invoice_with_banner) = Some 3%Z /\
   rows (sliceRowsBetweenHeaderFooter invoice_with_banner)
     = [js "품명A | 10 | 5,000 | 50,000"; js "품명B | 2 | 1,000 | 2,000"]) /\
  (checkIsItHeaderLine invoice_with_signature
     = [{| rowIndex := 0; startCol := 2; endCol := 2;
           stitched := js "단가"; normalized := js "단가" |}] /\
   checkIsItFooterLine invoice_with_signature
     = [{| f_type := assignee; f_rowIndex := 4; f_colIndex := Some 0;
           f_value := js "인수자"; f_line := js "인수자 | 홍길동" |}] /\
   start (sliceRowsBetweenHeaderFooter invoice_with_signature) = Some 1%Z /\
   end_ (sliceRowsBetweenHeaderFooter invoice_with_signature) = Some 2%Z /\
   rows (sliceRowsBetweenHeaderFooter invoice_with_signature)
     = [js "품명A | 10 | 5,000 | 50,000"; js "품명B | 2 | 1,000 | 2,000"]).
Proof.
  split.
  - assert (Eh : checkIsItHeaderLine invoice_with_banner
                 = [{| rowIndex := 1; startCol := 3; endCol := 4;
                       stitched := js "단 가"; normalized := js "단가" |}])
      by (vm_compute; reflexivity).
    assert (Ef : checkIsItFooterLine invoice_with_banner
                 = [{| f_type := footer_marker; f_rowIndex := 4; f_colIndex := None;
                       f_value := js "=== 이하여백 ==="; f_line := js "=== 이하여백 ===" |}])
      by (vm_compute; reflexivity).
    destruct (slice_between_header_and_footer _ _ _ _ _ Eh Ef) as (_ & Hs & He & Hr).
    split; [exact Eh |]. split; [exact Ef |].
    rewrite Hs, He, Hr. repeat split; vm_compute; reflexivity.
  - assert (Eh : checkIsItHeaderLine invoice_with_signature
                 = [{| rowIndex := 0; startCol := 2; endCol := 2;
                       stitched := js "단가"; normalized := js "단가" |}])
      by (vm_compute; reflexivity).
    assert (Ef : checkIsItFooterLine invoice_with_signature
                 = [{| f_type := assignee; f_rowIndex := 4; f_colIndex := Some 0;
                       f_value := js "인수자"; f_line := js "인수자 | 홍길동" |}])
      by (vm_compute; reflexivity).
    destruct (slice_between_header_and_footer _ _ _ _ _ Eh Ef) as (_ & Hs & He & Hr).
    split; [exact Eh |]. split; [exact Ef |].
    rewrite Hs, He, Hr. repeat split; vm_compute; reflexivity.
Defined.

(** C6: if no header hit is found the slicer returns the empty slice, and if
    a header is found but no footer, the slice is every line after the
    header row through the end of the input. *)
Theorem slice_without_header_or_footer (lines : list jsstring) :
  (checkIsItHeaderLine lines = [] ->
     sliceRowsBetweenHeaderFooter lines = {| start := None; end_ := None; rows := [] |}) /\
  (forall h hs,
     checkIsItHeaderLine lines = h :: hs -> checkIsItFooterLine lines = [] ->
     let headerIndex := minOf (Z.of_nat (rowIndex h)) (map (fun h => Z.of_nat (rowIndex h)) hs) in
     sliceRowsBetweenHeaderFooter lines =
       {| start := Some (headerIndex + 1)%Z; end_ := None;
          rows := skipn (Z.to_nat (headerIndex + 1)) lines |}).
Proof.
  split.
  - intros E. unfold sliceRowsBetweenHeaderFooter. rewrite E. reflexivity.
  - intros h hs Eh Ef headerIndex.
    pose proof (headerIndex_range lines h hs Eh) as Hr. fold headerIndex in Hr.
    unfold sliceRowsBetweenHeaderFooter. rewrite Eh, Ef. fold headerIndex.
    rewrite arraySliceFrom_inside by lia. reflexivity.
Qed.

Lemma slice_without_header_or_footer_witness :
  (checkIsItHeaderLine [js "품목 | 수량"; js "품명A | 10"] = [] /\
   sliceRowsBetweenHeaderFooter [js "품목 | 수량"; js "품명A | 10"]
     = {| start := None; end_ := None; rows := [] |}) /\
  (checkIsItHeaderLine [js "거래명세서"; js "품목 | 단 가"; js "품명A | 5,000"; js "품명B | 1,000"]
     = [{| rowIndex := 1; startCol := 1; endCol := 1;
           stitched := js "단 가"; normalized := js "단가" |}] /\
   checkIsItFooterLine [js "거래명세서"; js "품목 | 단 가"; js "품명A | 5,000"; js "품명B | 1,000"]
     = [] /\
   sliceRowsBetweenHeaderFooter
       [js "거래명세서"; js "품목 | 단 가"; js "품명A | 5,000"; js "품명B | 1,000"]
     = {| start := Some 2%Z; end_ := None;
          rows := [js "품명A | 5,000"; js "품명B | 1,000"] |}).
Proof.
  split.
  - assert (E : checkIsItHeaderLine [js "품목 | 수량"; js "품명A | 10"] = [])
      by (vm_compute; reflexivity).
    split; [exact E |].
    exact (proj1 (slice_without_header_or_footer _) E).
  - assert (Eh : checkIsItHeaderLine
                   [js "거래명세서"; js "품목 | 단 가"; js "품명A | 5,000"; js "품명B | 1,000"]
                 = [{| rowIndex := 1; startCol := 1; endCol := 1;
                       stitched := js "단 가"; normalized := js "단가" |}])
      by (vm_compute; reflexivity).
    assert (Ef : checkIsItFooterLine
                   [js "거래명세서"; js "품목 | 단 가"; js "품명A | 5,000"; js "품명B | 1,000"]
                 = []) by (vm_compute; reflexivity).
    split; [exact Eh |]. split; [exact Ef |].
    rewrite (proj2 (slice_without_header_or_footer _) _ _ Eh Ef).
    vm_compute. reflexivity.
Defined.

(** C7 (as amended): cleanOcrText(cleanOcrText(x)) = cleanOcrText(x) for
    every input x whose normalised text is not itself wrapped in a pair of
    double quotes (with an optional trailing comma). *)
Theorem cleanOcrText_idempotent_unless_wrapped (x : jsstring) :
  matchWrap (cleanOcrText x) = None ->
  cleanOcrText (cleanOcrText x) = cleanOcrText x.
Proof.
  intros Hw.
  pose proof (cleanLines_normal _ (before_lines_plain x)) as HL.
  cbv zeta in HL.
  assert (Ey : cleanOcrText x = join [LF] (cleanLines
             (replaceChar TAB (js " | ")
                match matchWrap (replaceChar CR [LF] (crlfToLf
                        (unescape (ch "t") TAB (unescape (ch "n") LF (unescapeCRLF x))))) with
                | Some body => body
                | None => replaceChar CR [LF] (crlfToLf
                        (unescape (ch "t") TAB (unescape (ch "n") LF (unescapeCRLF x))))
                end))) by reflexivity.
  set (L := cleanLines _) in *.
  set (y := cleanOcrText x) in *.
  pose proof (join_plain L HL) as (Hn & Ht & Hc & Hb). rewrite <- Ey in Hn, Ht, Hc, Hb.
  unfold cleanOcrText at 1.
  rewrite (unescapeCRLF_id y false Hn).
  rewrite (unescape_id (ch "n") LF y false Hn).
  rewrite (unescape_id (ch "t") TAB y false Ht).
  rewrite (crlfToLf_id y Hc), (replaceChar_id CR [LF] y Hc).
  rewrite Hw. rewrite (replaceChar_id TAB (js " | ") y Hb).
  rewrite Ey at 1. rewrite (cleanLines_join L HL). symmetry. exact Ey.
Qed.

Lemma cleanOcrText_idempotent_unless_wrapped_witness :
  matchWrap (cleanOcrText ([QUOTE] ++ js "품목\t단가\r\n\n  A \t 5,000  " ++ [QUOTE; COMMA])) = None /\
  cleanOcrText (cleanOcrText ([QUOTE] ++ js "품목\t단가\r\n\n  A \t 5,000  " ++ [QUOTE; COMMA]))
  = cleanOcrText ([QUOTE] ++ js "품목\t단가\r\n\n  A \t 5,000  " ++ [QUOTE; COMMA]).
Proof.
  assert (H : matchWrap (cleanOcrText ([QUOTE] ++ js "품목\t단가\r\n\n  A \t 5,000  "
                                        ++ [QUOTE; COMMA])) = None)
    by (vm_compute; reflexivity).
  split; [exact H |].
  apply cleanOcrText_idempotent_unless_wrapped. exact H.
Defined.

(* a text wrapped twice: each pass strips one pair of quotes *)
Lemma cleanOcrText_not_idempotent :
  cleanOcrText ([QUOTE; QUOTE] ++ js "a" ++ [QUOTE; QUOTE]) = [QUOTE] ++ js "a" ++ [QUOTE] /\
  cleanOcrText (cleanOcrText ([QUOTE; QUOTE] ++ js "a" ++ [QUOTE; QUOTE])) = js "a" /\
  cleanOcrText (cleanOcrText ([QUOTE; QUOTE] ++ js "a" ++ [QUOTE; QUOTE]))
    <> cleanOcrText ([QUOTE; QUOTE] ++ js "a" ++ [QUOTE; QUOTE]).
Proof.
  split; [vm_compute; reflexivity |].
  split; [vm_compute; reflexivity |].
  vm_compute. discriminate.
Qed.

(** C8 (as amended): three checks of validateRowSchema return immediately
    with a single issue (fewer than 4 columns, no item-like column, fewer
    than 2 money tokens); past them every remaining failure reason is
    appended to the issues list; and a row is classified valid if and only
    if its issues list is empty. *)
Theorem validator_issue_collection :
  (forall (idx : nat) (row : jsstring),
     let cols := splitToCols row in
     let n := List.length cols in
     let itemCol := findCol isValidItem cols 0 n n in
     let money := moneyTokensFrom 0 cols in
     let v := snd (validateRow idx row) in
     (fst (validateRow idx row) = Valid <-> v_issues v = []) /\
     (n < 4 -> v_issues v = [InsufficientColumns n]) /\
     (4 <= n -> itemCol = None -> v_issues v = [MissingItemName]) /\
     (4 <= n -> itemCol <> None -> List.length money < 2 ->
        v_issues v = [MissingMoneyValues (List.length money)]) /\
     (4 <= n -> forall item u s more,
        itemCol = Some item -> money = u :: s :: more ->
        let q := findCol isValidQuantity cols (index item + 1) (index u) n in
        v_issues v =
          (match q with None => [MissingQuantity] | Some _ => [] end)
          ++ (if truthy (Some (value item)) then [] else [ItemNull])
          ++ (if truthy (option_map value q) then [] else [QuantityNull])
          ++ (if truthy (Some (value u)) then [] else [UnitPriceNull])
          ++ (if truthy (Some (value s)) then [] else [SupplyAmountNull]))) /\
  (forall rows : list jsstring,
     Forall (fun v => v_issues v = []) (fst (validateRowSchema rows)) /\
     Forall (fun v => v_issues v <> []) (snd (validateRowSchema rows))).
Proof.
  split; [exact validateRow_issues |].
  intros rows. apply validateFrom_partition. intros i row. apply (validateRow_issues i row).
Qed.

Lemma validator_issue_collection_witness :
  4 <= List.length (splitToCols (js "품명A | 1000 | 2000 | 3")) /\
  findCol isValidItem (splitToCols (js "품명A | 1000 | 2000 | 3")) 0 4 4
    = Some {| index := 0; value := js "품명A" |} /\
  moneyTokensFrom 0 (splitToCols (js "품명A | 1000 | 2000 | 3"))
    = [{| index := 1; value := js "1000" |}; {| index := 2; value := js "2000" |}] /\
  v_issues (snd (validateRow 0 (js "품명A | 1000 | 2000 | 3"))) = [MissingQuantity; QuantityNull].
Proof.
  assert (Hn : 4 <= List.length (splitToCols (js "품명A | 1000 | 2000 | 3")))
    by (vm_compute; lia).
  assert (Hi : findCol isValidItem (splitToCols (js "품명A | 1000 | 2000 | 3")) 0 4 4
               = Some {| index := 0; value := js "품명A" |}) by (vm_compute; reflexivity).
  assert (Hm : moneyTokensFrom 0 (splitToCols (js "품명A | 1000 | 2000 | 3"))
               = [{| index := 1; value := js "1000" |}; {| index := 2; value := js "2000" |}])
    by (vm_compute; reflexivity).
  split; [exact Hn |]. split; [exact Hi |]. split; [exact Hm |].
  destruct (proj1 validator_issue_collection 0 (js "품명A | 1000 | 2000 | 3"))
    as (_ & _ & _ & _ & Hacc).
  rewrite (Hacc Hn _ _ _ _ Hi Hm). vm_compute. reflexivity.
Defined.

(* four columns without a letter and without a money token: both the item
   reason and the money reason apply, yet only the first is recorded *)
Lemma missing_item_returns_immediately :
  4 <= List.length (splitToCols (js "1 | 2 | 3 | 4")) /\
  List.length (moneyTokensFrom 0 (splitToCols (js "1 | 2 | 3 | 4"))) < 2 /\
  v_issues (snd (validateRow 0 (js "1 | 2 | 3 | 4"))) = [MissingItemName] /\
  ~ In (MissingMoneyValues 0) (v_issues (snd (validateRow 0 (js "1 | 2 | 3 | 4")))).
Proof.
  split; [vm_compute; lia |]. split; [vm_compute; lia |].
  split; [vm_compute; reflexivity |].
  vm_compute. intros [H | []]. discriminate.
Qed.

(** C9: whenever a row has two adjacent columns that, joined and stripped
    of whitespace, spell the unit-price keyword (for example the cells "단"
    and "가"), checkIsItHeaderLine reports a hit on that row spanning both
    columns (endCol = startCol + 1) whose normalized text is the keyword. *)
Theorem header_stitching (lines : list jsstring) (r i : nat) (line ci cj : jsstring) :
  nth_error lines r = Some line ->
  nth_error (splitToCols line) i = Some ci ->
  nth_error (splitToCols line) (S i) = Some cj ->
  stripSpaces (ci ++ [SP] ++ cj) = KW_UNIT_PRICE ->
  exists h, In h (checkIsItHeaderLine lines) /\
            rowIndex h = r /\ startCol h = i /\ endCol h = startCol h + 1 /\
            normalized h = KW_UNIT_PRICE.
Proof.
  intros Hl Hi Hj Hs.
  assert (Hset : setHas (map stripSpaces [KW_UNIT_PRICE]) (stripSpaces (ci ++ [SP] ++ cj)) = true)
    by (apply unit_price_target; exact Hs).
  destruct (stitchRows_pair _ 0 r i lines line ci cj Hl Hi Hj Hset) as [h0 [Hin Hkey]].
  cbn [Nat.add] in Hkey.
  pose proof (fold_stitched_has h0 _ [] Hin) as Hhas. rewrite Hkey in Hhas.
  apply (fold_seed_keeps lines _ (findCellsByKeywords lines [js "단"; js "가"; js "단가"])) in Hhas.
  destruct Hhas as [v Hv].
  pose proof (header_map_entries lines) as Hm. rewrite Forall_forall in Hm.
  destruct (Hm _ Hv) as (Hk & _ & Hn). cbn [fst snd] in Hk, Hn.
  exists v. split.
  - unfold checkIsItHeaderLine, mapValues. cbv zeta.
    apply in_map_iff. exists ((r, i, i + 1), v). split; [reflexivity | exact Hv].
  - unfold key in Hk. injection Hk as -> -> ->. auto.
Qed.

Lemma header_stitching_witness :
  nth_error [js "거래명세서"; js "품목 | 수량 | 단 | 가 | 금액"] 1
    = Some (js "품목 | 수량 | 단 | 가 | 금액") /\
  nth_error (splitToCols (js "품목 | 수량 | 단 | 가 | 금액")) 2 = Some (js "단") /\
  nth_error (splitToCols (js "품목 | 수량 | 단 | 가 | 금액")) 3 = Some (js "가") /\
  stripSpaces (js "단" ++ [SP] ++ js "가") = KW_UNIT_PRICE /\
  exists h, In h (checkIsItHeaderLine [js "거래명세서"; js "품목 | 수량 | 단 | 가 | 금액"]) /\
            rowIndex h = 1 /\ startCol h = 2 /\ endCol h = startCol h + 1 /\
            normalized h = KW_UNIT_PRICE.
Proof.
  assert (H1 : nth_error [js "거래명세서"; js "품목 | 수량 | 단 | 가 | 금액"] 1
               = Some (js "품목 | 수량 | 단 | 가 | 금액")) by reflexivity.
  assert (H2 : nth_error (splitToCols (js "품목 | 수량 | 단 | 가 | 금액")) 2 = Some (js "단"))
    by (vm_compute; reflexivity).
  assert (H3 : nth_error (splitToCols (js "품목 | 수량 | 단 | 가 | 금액")) 3 = Some (js "가"))
    by (vm_compute; reflexivity).
  assert (H4 : stripSpaces (js "단" ++ [SP] ++ js "가") = KW_UNIT_PRICE)
    by (vm_compute; reflexivity).
  split; [exact H1 |]. split; [exact H2 |]. split; [exact H3 |]. split; [exact H4 |].
  exact (header_stitching _ 1 2 _ _ _ H1 H2 H3 H4).
Defined.

(** C10: the queue is never flushed.  When the last surviving line of the
    input is purely numeric (any lines after it lose all their columns to
    the noise rules), its tokens are left in the queue when the loop ends,
    the function returns only kept and removed, and the kept rows are those
    of the input without that line.  Likewise values that later rows do not
    consume stay behind: of the five values queued by "1 | 2 | 3 | 4 | 5",
    the two following rows take three, and 4 and 5 are in no kept row. *)
Theorem trailing_numeric_line_discarded :
  (forall (rows : list jsstring) (line : jsstring) (tail_ : list jsstring),
     isNumericLine rules line = true ->
     Forall (fun l => survivingCols rules l = []) tail_ ->
     let before := cleanLoop rules initialState 0 rows in
     let after := cleanLoop rules initialState 0 (rows ++ line :: tail_) in
     cleanRowsWithRules (rows ++ line :: tail_) = (kept after, removed after) /\
     survivingCols rules line <> [] /\
     numericQueue after = survivingCols rules line ++ numericQueue before /\
     fst (cleanRowsWithRules (rows ++ line :: tail_)) = fst (cleanRowsWithRules rows)) /\
  (let rows := [js "1 | 2 | 3 | 4 | 5"; js "품명A | 5,000 | 50,000"; js "품명B | 6,000 | 60,000"] in
   numericQueue (cleanLoop rules initialState 0 rows) = [js "4"; js "5"] /\
   fst (cleanRowsWithRules rows)
   = [js "품명A | 5,000 | 50,000 | 1"; js "품명B | 6,000 | 60,000 | 2 | 3"]).
Proof.
  split; [| split; vm_compute; reflexivity].
  intros rows line tail_ H Ht before after.
  assert (Ea : kept after = kept before /\
               numericQueue after = survivingCols rules line ++ numericQueue before).
  { subst after before. rewrite cleanLoop_app. cbn [cleanLoop].
    destruct (cleanLoop_empty_lines rules tail_ Ht
                (cleanRow rules (cleanLoop rules initialState 0 rows) (0 + List.length rows) line)
                (S (0 + List.length rows))) as [-> ->].
    apply cleanRow_numeric. exact H. }
  destruct Ea as [Hk Hq].
  split; [reflexivity |]. split; [| split].
  - unfold isNumericLine in H. destruct (survivingCols rules line); [discriminate | discriminate].
  - exact Hq.
  - unfold cleanRowsWithRules, cleanRowsWith. cbn [fst]. exact Hk.
Qed.

Lemma trailing_numeric_line_discarded_witness :
  isNumericLine rules (js "12 | 72,000") = true /\
  Forall (fun l => survivingCols rules l = []) [js "www.softcity.co.kr"] /\
  numericQueue (cleanLoop rules initialState 0
                  ([js "품명A | 10 | 5,000 | 50,000"] ++ js "12 | 72,000" :: [js "www.softcity.co.kr"]))
    = [js "12"; js "72,000"] /\
  fst (cleanRowsWithRules
         ([js "품명A | 10 | 5,000 | 50,000"] ++ js "12 | 72,000" :: [js "www.softcity.co.kr"]))
    = [js "품명A | 10 | 5,000 | 50,000"].
Proof.
  assert (H1 : isNumericLine rules (js "12 | 72,000") = true) by (vm_compute; reflexivity).
  assert (H2 : Forall (fun l => survivingCols rules l = []) [js "www.softcity.co.kr"])
    by (constructor; [vm_compute; reflexivity | constructor]).
  split; [exact H1 |]. split; [exact H2 |].
  destruct (proj1 trailing_numeric_line_discarded [js "품명A | 10 | 5,000 | 50,000"] _ _ H1 H2)
    as (_ & _ & Hq & Hk).
  split.
  - rewrite Hq. vm_compute. reflexivity.
  - rewrite Hk. vm_compute. reflexivity.
Defined.

(** * Further properties of the program *)

(** ** Columns of a line *)

(** X1: every column that splitToCols returns is non-empty, carries no
    whitespace at either end and contains no bar. *)
Theorem splitToCols_columns_shape (line : jsstring) :
  Forall (fun c => c <> [] /\ trim c = c /\ ~ In (ch "|") c) (splitToCols line).
Proof.
  eapply Forall_impl; [| apply splitToCols_cellLike].
  intros c Hc. apply cellLike_iff. exact Hc.
Qed.

(** X2: joining columns of that shape with " | " and splitting the text
    again gives the same columns back; so splitting, joining and splitting a
    line once more changes nothing. *)
Theorem splitToCols_join_roundtrip :
  (forall cols : list jsstring,
     cols <> [] ->
     Forall (fun c => c <> [] /\ trim c = c /\ ~ In (ch "|") c) cols ->
     splitToCols (join (js " | ") cols) = cols) /\
  (forall line : jsstring,
     splitToCols (join (js " | ") (splitToCols line)) = splitToCols line).
Proof.
  split.
  - intros cols Hne Hc. apply splitToCols_join; [exact Hne |].
    eapply Forall_impl; [| exact Hc]. intros c H. apply cellLike_iff. exact H.
  - exact splitToCols_stable.
Qed.

Lemma splitToCols_join_roundtrip_witness :
  splitToCols (join (js " | ") [js "품명 A"; js "10"; js "5,000"])
  = [js "품명 A"; js "10"; js "5,000"].
Proof.
  apply (proj1 splitToCols_join_roundtrip); [discriminate |].
  repeat constructor; try discriminate; try (vm_compute; reflexivity);
    vm_compute; intuition discriminate.
Defined.

(** X3: a line without a bar is one column, its text without the whitespace
    around it, or no column at all when the line is blank. *)
Theorem splitToCols_line_without_bar (line : jsstring) :
  ~ In (ch "|") line ->
  splitToCols line = if nonEmpty (trim line) then [trim line] else [].
Proof.
  intros H. unfold splitToCols.
  assert (Er : replaceFirst re_trailingBar [] line = line).
  { unfold replaceFirst, exec. destruct (List.length line <? 0); [reflexivity |].
    rewrite searchFrom_none; [reflexivity |]. intros q. apply matchAt_trailingBar_none. exact H. }
  rewrite Er.
  assert (Es : split re_bar line = [line]).
  { unfold split. destruct line as [| a l'] eqn:El.
    - rewrite matchAt_bar. reflexivity.
    - rewrite split_bar_pieces by (cbn [List.length]; lia).
      rewrite <- El in *. rewrite splitPieces_noSeparator by exact H.
      rewrite El. reflexivity. }
  rewrite Es. cbn [map filter]. destruct (nonEmpty (trim line)); reflexivity.
Qed.

Lemma splitToCols_line_without_bar_witness :
  splitToCols (js "  거래 명세서 ") = [js "거래 명세서"] /\ splitToCols (js "   ") = [].
Proof.
  split.
  - rewrite splitToCols_line_without_bar; [vm_compute; reflexivity |].
    vm_compute. intuition discriminate.
  - rewrite splitToCols_line_without_bar; [vm_compute; reflexivity |].
    vm_compute. intuition discriminate.
Defined.

(** ** The row sanitiser, for any list of rules *)

(** X4: the sanitiser neither makes nor loses a column value: the columns
    that survive the rules, over all input lines, are exactly the columns of
    the kept rows together with the values left in the queue when the loop
    ends (as multisets). *)
Theorem sanitizer_conserves_columns (rs : list re) (rows : list jsstring) :
  Permutation (List.concat (map (survivingCols rs) rows))
              (List.concat (map splitToCols (fst (cleanRowsWith rs rows)))
               ++ numericQueue (cleanLoop rs initialState 0 rows)).
Proof.
  rewrite keptRows_columns.
  pose proof (cleanLoop_conserves rs rows initialState 0 (Forall_nil _)) as H.
  cbn [numericQueue initialState] in H. rewrite app_nil_r in H. exact H.
Qed.

(** X5: the number of kept rows is the number of input lines that keep, after
    the rules, at least one column that is not purely numeric; and every kept
    row is a non-empty text without whitespace at its ends. *)
Theorem sanitizer_kept_rows_count (rs : list re) (rows : list jsstring) :
  List.length (fst (cleanRowsWith rs rows))
  = List.length (filter (fun line => hasTextToken (survivingCols rs line)) rows) /\
  Forall (fun row => row <> [] /\ trim row = row) (fst (cleanRowsWith rs rows)).
Proof.
  unfold cleanRowsWith. cbn [fst]. rewrite cleanLoop_kept_cols. cbn [kept initialState app].
  split.
  - rewrite length_map. apply keptCols_count. constructor.
  - pose proof (keptCols_cellLike rs rows initialState 0 (Forall_nil _)) as H.
    rewrite Forall_map. eapply Forall_impl; [| exact H]. cbv beta.
    intros cols [Hne Hc]. split; [apply joined_nonempty; assumption |].
    unfold joinRow. apply trim_idempotent.
Qed.

(** X6: every record of removal names a line of the input and a column of
    that line; a record made by a rule gives the column's index in the line
    and the column matches a rule; a record made by the prefix pruning has
    index 0 and its column matches no rule.  Each column of the input either
    survives or has exactly one record. *)
Theorem sanitizer_removed_records (rs : list re) (rows : list jsstring) :
  Forall (recordOk rs rows) (snd (cleanRowsWith rs rows)) /\
  List.length (snd (cleanRowsWith rs rows))
  + List.length (List.concat (map (survivingCols rs) rows))
  = List.length (List.concat (map splitToCols rows)).
Proof.
  unfold cleanRowsWith. cbn [snd]. split.
  - apply (cleanLoop_removed rs rows rows [] initialState); [reflexivity | constructor].
  - rewrite cleanLoop_removed_count. reflexivity.
Qed.

(** X7: every column of every kept row is a column that survived the rules
    in some input line, and no rule matches it. *)
Theorem sanitizer_kept_columns_origin (rs : list re) (rows : list jsstring) :
  Forall (fun row =>
            Forall (fun c => (exists line, In line rows /\ In c (survivingCols rs line)) /\
                             existsb (fun rule => test rule c) rs = false)
                   (splitToCols row))
         (fst (cleanRowsWith rs rows)).
Proof.
  apply Forall_forall. intros row Hrow. apply Forall_forall. intros c Hc.
  assert (Hin : In c (List.concat (map (survivingCols rs) rows))).
  { pose proof (cleanLoop_conserves rs rows initialState 0 (Forall_nil _)) as H.
    cbn [numericQueue initialState] in H. rewrite app_nil_r in H.
    apply (Permutation_in c (Permutation_sym H)). apply in_or_app. left.
    rewrite <- keptRows_columns. apply in_concat. exists (splitToCols row).
    split; [apply in_map; exact Hrow | exact Hc]. }
  apply in_concat in Hin. destruct Hin as (cols & Hcols & Hcin).
  apply in_map_iff in Hcols. destruct Hcols as (line & <- & Hline).
  split; [exists line; auto |].
  pose proof (survivingCols_noRuleHits rs line) as Hn. rewrite Forall_forall in Hn.
  exact (Hn c Hcin).
Qed.

(** X8: when no input line is purely numeric the queue is never used, and
    the kept rows are, line by line, the surviving columns joined with " | ",
    the lines without surviving columns being dropped. *)
Theorem sanitizer_without_numeric_lines (rs : list re) (rows : list jsstring) :
  Forall (fun line => isNumericLine rs line = false) rows ->
  fst (cleanRowsWith rs rows)
  = map (join (js " | "))
        (filter (fun cols => 0 <? List.length cols) (map (survivingCols rs) rows)) /\
  numericQueue (cleanLoop rs initialState 0 rows) = [].
Proof.
  intros H. unfold cleanRowsWith. cbn [fst]. rewrite cleanLoop_kept_cols.
  cbn [kept initialState app]. split.
  - pose proof (keptCols_cellLike rs rows initialState 0 (Forall_nil _)) as Hc.
    rewrite (keptCols_no_numeric rs rows H initialState 0 eq_refl) in Hc |- *.
    apply map_ext_in. intros cols Hcols. rewrite Forall_forall in Hc.
    destruct (Hc cols Hcols) as [Hne Hcl]. apply joinRow_cells; assumption.
  - pose proof (cleanLoop_conserves rs rows initialState 0 (Forall_nil _)) as Hp.
    cbn [numericQueue initialState] in Hp. rewrite app_nil_r in Hp.
    rewrite (keptCols_no_numeric rs rows H initialState 0 eq_refl) in Hp.
    rewrite concat_filter_nonempty in Hp.
    apply Permutation_length in Hp. rewrite length_app in Hp.
    destruct (numericQueue (cleanLoop rs initialState 0 rows)); [reflexivity |].
    cbn [List.length] in Hp. lia.
Qed.

Lemma sanitizer_without_numeric_lines_witness :
  Forall (fun line => isNumericLine rules line = false)
         [js "품명A | 10 | 5,000 | 50,000"; js "www.softcity.co.kr";
          js "NO | 품명B | 2 | 1,000 | 2,000"] /\
  fst (cleanRowsWithRules [js "품명A | 10 | 5,000 | 50,000"; js "www.softcity.co.kr";
                           js "NO | 품명B | 2 | 1,000 | 2,000"])
  = [js "품명A | 10 | 5,000 | 50,000"; js "품명B | 2 | 1,000 | 2,000"].
Proof.
  assert (H : Forall (fun line => isNumericLine rules line = false)
                [js "품명A | 10 | 5,000 | 50,000"; js "www.softcity.co.kr";
                 js "NO | 품명B | 2 | 1,000 | 2,000"])
    by (repeat constructor; vm_compute; reflexivity).
  split; [exact H |]. unfold cleanRowsWithRules.
  rewrite (proj1 (sanitizer_without_numeric_lines rules _ H)). vm_compute. reflexivity.
Defined.

(** ** The schema validator *)

(** X9: validateRowSchema classifies every row exactly once: the row indices
    of the valid and the invalid entries together are 0 .. length-1, each
    list is in input order, and every entry carries its own row, the columns
    of that row and their number. *)
Theorem validator_classifies_each_row_once (rows : list jsstring) :
  let valid := fst (validateRowSchema rows) in
  let invalid := snd (validateRowSchema rows) in
  Permutation (map v_rowIndex (valid ++ invalid)) (seq 0 (List.length rows)) /\
  StronglySorted lt (map v_rowIndex valid) /\
  StronglySorted lt (map v_rowIndex invalid) /\
  Forall (fun v => nth_error rows (v_rowIndex v) = Some (v_row v) /\
                   v_cols v = splitToCols (v_row v) /\
                   v_colCount v = List.length (v_cols v)) (valid ++ invalid).
Proof.
  intros valid invalid. subst valid invalid. unfold validateRowSchema.
  destruct (validateFrom_spec rows 0) as (Hv & Hi & Sv & Si & Hp).
  split; [exact Hp |]. split; [exact Sv |]. split; [exact Si |].
  apply Forall_app. split; [eapply Forall_impl; [| exact Hv] | eapply Forall_impl; [| exact Hi]];
    cbv beta; intros v (_ & Hn & E); rewrite Nat.sub_0_r in Hn;
    destruct (validateRow_cases (v_rowIndex v) (v_row v)) as (_ & _ & Hc & Hk & _);
    rewrite E in Hc, Hk; cbn [snd] in Hc, Hk; (split; [exact Hn |]);
    (split; [exact Hc | rewrite Hk, Hc; reflexivity]).
Qed.

(** X10: the issue list of a row is one of five: none; a missing quantity,
    always reported twice (as missing and as null); too few columns; no item
    name; fewer than two money values.  The null checks of item, unit price
    and supply amount never fire. *)
Theorem validator_possible_issue_lists :
  (forall (idx : nat) (row : jsstring),
     let issues := v_issues (snd (validateRow idx row)) in
     issues = [] \/ issues = [MissingQuantity; QuantityNull] \/
     issues = [MissingItemName] \/
     (exists n, n < 4 /\ n = List.length (splitToCols row) /\
                issues = [InsufficientColumns n]) \/
     (exists k, k < 2 /\ issues = [MissingMoneyValues k])) /\
  (forall (rows : list jsstring) (v : Validation),
     In v (fst (validateRowSchema rows)) \/ In v (snd (validateRowSchema rows)) ->
     ~ In ItemNull (v_issues v) /\ ~ In UnitPriceNull (v_issues v) /\
     ~ In SupplyAmountNull (v_issues v) /\
     (In MissingQuantity (v_issues v) <-> In QuantityNull (v_issues v))).
Proof.
  assert (H1 : forall (idx : nat) (row : jsstring),
     let issues := v_issues (snd (validateRow idx row)) in
     issues = [] \/ issues = [MissingQuantity; QuantityNull] \/
     issues = [MissingItemName] \/
     (exists n, n < 4 /\ n = List.length (splitToCols row) /\
                issues = [InsufficientColumns n]) \/
     (exists k, k < 2 /\ issues = [MissingMoneyValues k])).
  { intros idx row issues. subst issues.
    destruct (validateRow_cases idx row) as (_ & _ & _ & _ & Hcase).
    destruct Hcase as [(Hn & _ & Hi & _) | [(_ & _ & Hi & _) | [(_ & _ & _ & k & Hk & _ & Hi)
                      | (_ & itemCol & u & s & more & _ & _ & _ & Hq)]]].
    - right. right. right. left. eexists. split; [exact Hn | split; [reflexivity | exact Hi]].
    - right. right. left. exact Hi.
    - right. right. right. right. exists k. split; [exact Hk | exact Hi].
    - cbv zeta in Hq.
      destruct (findCol isValidQuantity (splitToCols row) (index itemCol + 1) (index u)
                        (List.length (splitToCols row)));
        destruct Hq as [_ Hi]; [left | right; left]; exact Hi. }
  split; [exact H1 |].
  intros rows v Hv.
  assert (E : exists b, validateRow (v_rowIndex v) (v_row v) = (b, v)).
  { unfold validateRowSchema in Hv. destruct (validateFrom_spec rows 0) as (Ha & Hb & _).
    rewrite Forall_forall in Ha, Hb.
    destruct Hv as [Hv | Hv]; [destruct (Ha v Hv) as (_ & _ & E) | destruct (Hb v Hv) as (_ & _ & E)];
      eauto. }
  destruct E as [b E]. specialize (H1 (v_rowIndex v) (v_row v)). cbv zeta in H1.
  rewrite E in H1. cbn [snd] in H1.
  destruct H1 as [-> | [-> | [-> | [(n & _ & _ & ->) | (k & _ & ->)]]]]; cbn [In];
    repeat split; try (intros [C | C]; try discriminate; try destruct C; fail);
    try (intros C; destruct C as [C | [C | C]]; try discriminate; try destruct C; fail);
    try (intros []); intuition discriminate.
Qed.

Lemma validator_possible_issue_lists_witness :
  exists v, In v (snd (validateRowSchema [js "품명A | 1000 | 2000 | 3"])) /\
            v_issues v = [MissingQuantity; QuantityNull] /\
            ~ In ItemNull (v_issues v).
Proof.
  assert (E : exists v, snd (validateRowSchema [js "품명A | 1000 | 2000 | 3"]) = [v]
                        /\ v_issues v = [MissingQuantity; QuantityNull]).
  { eexists. split; vm_compute; reflexivity. }
  destruct E as (v & E & Ei). exists v.
  assert (Hin : In v (snd (validateRowSchema [js "품명A | 1000 | 2000 | 3"])))
    by (rewrite E; now left).
  split; [exact Hin |]. split; [exact Ei |].
  exact (proj1 (proj2 validator_possible_issue_lists _ v (or_intror Hin))).
Defined.

(** X11: in a valid row the chosen columns stand in the order item,
    quantity, unit price, supply amount; the item is the first column that
    holds a letter, unit price and supply amount are the first two money
    columns, and the quantity lies strictly between item and unit price. *)
Theorem validator_valid_row_columns (rows : list jsstring) (v : Validation) :
  In v (fst (validateRowSchema rows)) ->
  exists (i q u s : nat) (item qty price supply : jsstring)
         (spec vatv : option jsstring),
    v_schema v = Some {| s_item := Some item; s_specification := spec;
                         s_quantity := Some qty; s_unitPrice := Some price;
                         s_supplyAmount := Some supply; s_vat := vatv |} /\
    i < q /\ q < u /\ u < s /\ s < v_colCount v /\
    nth_error (v_cols v) i = Some item /\ nth_error (v_cols v) q = Some qty /\
    nth_error (v_cols v) u = Some price /\ nth_error (v_cols v) s = Some supply /\
    isValidItem item = true /\ isValidQuantity qty = true /\
    isValidMoney price = true /\ isValidMoney supply = true /\
    (forall j c, j < i -> nth_error (v_cols v) j = Some c -> isValidItem c = false) /\
    (forall j c, j < s -> j <> u -> nth_error (v_cols v) j = Some c ->
                 isValidMoney c = false).
Proof.
  intros Hv. unfold validateRowSchema in Hv.
  destruct (validateFrom_spec rows 0) as (Ha & _). rewrite Forall_forall in Ha.
  destruct (Ha v Hv) as (_ & _ & E).
  destruct (validateRow_cases (v_rowIndex v) (v_row v)) as (_ & _ & Hc & Hk & Hcase).
  rewrite E in Hc, Hk, Hcase. cbn [fst snd] in Hc, Hk, Hcase.
  destruct Hcase as [(_ & C & _) | [(_ & C & _) | [(_ & C & _)
                    | (_ & itemCol & u & s & more & Hi & Hm & Hq)]]]; try discriminate.
  cbv zeta in Hq. rewrite <- Hc in Hi, Hm, Hq, Hk.
  set (cols := v_cols v) in *. set (n := List.length cols) in *.
  destruct (findCol isValidQuantity cols (index itemCol + 1) (index u) n) as [q |] eqn:Eq;
    [| destruct Hq as [_ [C _]]; discriminate].
  destruct Hq as [Hs _].
  destruct (findCol_some _ _ _ _ _ _ Hi) as (_ & Hin & Hiv & Himin).
  destruct (findCol_some _ _ _ _ _ _ Eq) as (Hqr & Hqn & Hqv & _).
  destruct (moneyTokensFrom_spec cols 0) as (Hall & Hsorted & Hcomplete).
  rewrite Hm in Hall, Hsorted, Hcomplete.
  inversion Hall as [| ? ? (_ & Hun & Huv) Hall']; subst.
  inversion Hall' as [| ? ? (_ & Hsn & Hsv) _]; subst.
  rewrite Nat.sub_0_r in Hun, Hsn.
  cbn [map] in Hsorted. inversion Hsorted as [| ? ? Hsorted' Hu_lt]; subst.
  inversion Hsorted' as [| ? ? _ Hs_lt]; subst.
  inversion Hu_lt as [| ? ? Hus _]; subst.
  exists (index itemCol), (index q), (index u), (index s),
         (value itemCol), (value q), (value u), (value s).
  eexists. eexists. split; [exact Hs |].
  assert (Hslen : index s < n) by (unfold n; apply nth_error_Some; congruence).
  repeat split; try assumption; try lia.
  - intros j c Hj Hjc. apply (Himin j c); [lia | exact Hjc].
  - intros j c Hj Hne Hjc. destruct (isValidMoney c) eqn:Ec; [| reflexivity]. exfalso.
    pose proof (Hcomplete j c Hjc Ec) as Hin2. cbn [Nat.add] in Hin2.
    destruct Hin2 as [Hin2 | [Hin2 | Hin2]].
    + apply (f_equal index) in Hin2. cbn [index] in Hin2. lia.
    + apply (f_equal index) in Hin2. cbn [index] in Hin2. lia.
    + rewrite Forall_forall in Hs_lt.
      assert (index s < j).
      { apply (Hs_lt j). apply in_map_iff. exists {| index := j; value := c |}. auto. }
      lia.
Qed.

Lemma validator_valid_row_columns_witness :
  exists v, In v (fst (validateRowSchema [js "1 | 품명A | 10 | 5,000 | 50,000"])) /\
            exists i q u s, i < q /\ q < u /\ u < s /\ s < v_colCount v.
Proof.
  assert (E : exists v, fst (validateRowSchema [js "1 | 품명A | 10 | 5,000 | 50,000"]) = [v])
    by (eexists; vm_compute; reflexivity).
  destruct E as [v E]. exists v.
  assert (Hin : In v (fst (validateRowSchema [js "1 | 품명A | 10 | 5,000 | 50,000"])))
    by (rewrite E; now left).
  split; [exact Hin |].
  destruct (validator_valid_row_columns _ v Hin)
    as (i & q & u & s & _ & _ & _ & _ & _ & _ & _ & H1 & H2 & H3 & H4 & _).
  exists i, q, u, s. exact (conj H1 (conj H2 (conj H3 H4))).
Defined.

(** ** The row parser *)





(** X14: a row all of whose columns are numeric (digits with blanks, commas,
    points and dashes) yields no item; in particular a row all of whose
    columns are numeric tokens in the sanitiser's sense, such as a row that a
    trailing-column swap has filled with queued numbers, is rejected. *)
Theorem parseItemRow_rejects_numeric_rows (cols : list jsstring) :
  (Forall numericColumn cols -> parseItemRow cols = None) /\
  (forallb isNumericToken cols = true -> parseItemRow cols = None).
Proof.
  split; [apply parseItemRow_numeric_row | apply parseItemRow_rejects_numeric_tokens].
Qed.

Lemma parseItemRow_rejects_numeric_rows_witness :
  forallb isNumericToken (splitToCols (js "1 | 2,000 | 3.5 | 40000 | 5")) = true /\
  parseItemRow (splitToCols (js "1 | 2,000 | 3.5 | 40000 | 5")) = None.
Proof.
  assert (H : forallb isNumericToken (splitToCols (js "1 | 2,000 | 3.5 | 40000 | 5")) = true)
    by (vm_compute; reflexivity).
  split; [exact H |]. exact (proj2 (parseItemRow_rejects_numeric_rows _) H).
Defined.

(** X15: a text without a Latin letter has no specification: the unit of a
    specification is one of kg, g, l, ml, cm, mm, ea, so
    splitSpecFromItemName returns the trimmed text as item with an empty
    specification, and extractSpecificationFromText returns the empty text. *)
Theorem specification_needs_latin_unit (text : jsstring) :
  (forall c, In c text -> isLatin c = false) ->
  splitSpecFromItemName text = {| is_item := trim text; is_spec := [] |} /\
  extractSpecificationFromText text = [].
Proof.
  intros H.
  assert (H' : forall x, In x text -> ~ latin x).
  { intros x Hx Hl. unfold latin in Hl. rewrite (H x Hx) in Hl. discriminate. }
  split; [apply splitSpec_without_latin | apply extractSpec_without_latin]; exact H'.
Qed.

Lemma specification_needs_latin_unit_witness :
  splitSpecFromItemName (js " 사과 3개 - 10 ")
  = {| is_item := js "사과 3개 - 10"; is_spec := [] |}.
Proof.
  rewrite (proj1 (specification_needs_latin_unit (js " 사과 3개 - 10 ")
                    ltac:(vm_compute; intuition (subst; reflexivity)))).
  vm_compute. reflexivity.
Defined.

(** X16: parseItemsFromRows works row by row: the items of two lists of rows
    put together are the items of the first followed by the items of the
    second; there are never more items than rows; and an item is in the
    result exactly when some row parses to it. *)
Theorem parseItemsFromRows_rowwise :
  (forall a b : list jsstring,
     parseItemsFromRows (a ++ b) = parseItemsFromRows a ++ parseItemsFromRows b) /\
  (forall rows : list jsstring,
     List.length (parseItemsFromRows rows) <= List.length rows) /\
  (forall (rows : list jsstring) (it : ParsedItem),
     In it (parseItemsFromRows rows) <->
     exists line, In line rows /\ parseItemRow (splitToCols line) = Some it).
Proof.
  split; [exact parseItemsFromRows_app |].
  split; [exact parseItemsFromRows_length | exact parseItemsFromRows_In].
Qed.

(** X17: every item that main prints after attaching the VAT has a unit
    price of at least 1000; it has a VAT exactly when it has a supply amount,
    which is then at least 1000, and below 2^53 the VAT is the ceiling of a
    tenth of the supply amount. *)
Theorem attached_vat (rows : list jsstring) (it : ParsedItem) :
  In it (parsedItemsWithVAT rows) ->
  (exists n, unitPrice it = Some n /\ (1000 <= n)%Z) /\
  match supplyAmount it with
  | None => vat it = None
  | Some s =>
      (1000 <= s)%Z /\
      ((s < 2 ^ 53)%Z -> vat it = Some (JsNum.of_Z ((s + 9) / 10)))
  end.
Proof.
  unfold parsedItemsWithVAT. intros H. apply in_map_iff in H. destruct H as (it0 & <- & Hin).
  apply parseItemsFromRows_In in Hin. destruct Hin as (line & _ & Hp).
  destruct (parseItemRow_provenance _ _ Hp) as (i & n & _ & Hu & (t & _ & _ & _ & Hn) & Hs & _ & Hv).
  destruct (attachVAT_spec it0) as (_ & _ & _ & Eu & Es & Hnone & Hsome).
  rewrite Eu, Es. split; [exists n; auto |].
  destruct (supplyAmount it0) as [s |] eqn:E.
  - destruct Hs as (j & _ & (t' & _ & _ & _ & Hs1000)). split; [exact Hs1000 |].
    intros Hlt. apply (Hsome s eq_refl). lia.
  - rewrite (Hnone eq_refl). exact Hv.
Qed.

Lemma attached_vat_witness :
  exists it, In it (parsedItemsWithVAT [js "품명A | 3 | 2,250 | 6,727"]) /\
             supplyAmount it = Some 6727%Z /\ vat it = Some (JsNum.of_Z 673).
Proof.
  assert (E : exists it, parsedItemsWithVAT [js "품명A | 3 | 2,250 | 6,727"] = [it]
                         /\ supplyAmount it = Some 6727%Z).
  { eexists. split; vm_compute; reflexivity. }
  destruct E as (it & E & Es). exists it.
  assert (Hin : In it (parsedItemsWithVAT [js "품명A | 3 | 2,250 | 6,727"]))
    by (rewrite E; now left).
  split; [exact Hin |]. split; [exact Es |].
  pose proof (proj2 (attached_vat _ it Hin)) as H. rewrite Es in H.
  destruct H as [_ H]. rewrite H by (vm_compute; reflexivity). reflexivity.
Defined.

(** ** The table locator *)

(** X18: the header detector returns exactly the stitched hits for the
    keyword, in the order in which findStitchedKeywords found them: the seed
    cells that the second pass looks up never add a hit, because a cell that
    passes its test has already been recorded by the stitching pass under the
    same key.  No two hits share row, start column and end column. *)
Theorem header_hits_are_stitched_hits (lines : list jsstring) :
  checkIsItHeaderLine lines = findStitchedKeywords lines [KW_UNIT_PRICE] 2 /\
  NoDup (map key (checkIsItHeaderLine lines)).
Proof.
  split; [apply header_is_stitched |].
  rewrite header_is_stitched. unfold findStitchedKeywords. apply stitchRows_NoDup.
Qed.

(** X19: a hit is reported by the header detector exactly when its text,
    with all whitespace removed, is the keyword, and the text is either one
    column of the row or two neighbouring columns joined by one space; the
    hit records the row and the first and last of these columns. *)
Theorem header_hit_characterisation (lines : list jsstring) (h : KeywordHit) :
  In h (checkIsItHeaderLine lines) <->
  exists line,
    nth_error lines (rowIndex h) = Some line /\
    normalized h = KW_UNIT_PRICE /\ stripSpaces (stitched h) = KW_UNIT_PRICE /\
    ((endCol h = startCol h /\
      nth_error (splitToCols line) (startCol h) = Some (stitched h)) \/
     (endCol h = S (startCol h) /\
      exists a b, nth_error (splitToCols line) (startCol h) = Some a /\
                  nth_error (splitToCols line) (S (startCol h)) = Some b /\
                  stitched h = a ++ [SP] ++ b)).
Proof.
  rewrite header_is_stitched. unfold findStitchedKeywords. rewrite stitchRows_In. split.
  - intros (r & line & j & Hl & [(c & Hc & H) | (a & b & Ha & Hb & H)]);
      apply hitOf_In in H; destruct H as [Hs ->]; apply unit_price_target in Hs;
      cbn [rowIndex startCol endCol stitched normalized Nat.add];
      exists line; (split; [exact Hl |]); (split; [exact Hs |]); (split; [exact Hs |]).
    + left. split; [reflexivity | exact Hc].
    + right. split; [reflexivity |]. exists a, b. repeat split; assumption.
  - intros (line & Hl & Hn & Hs & Hcase). exists (rowIndex h), line, (startCol h).
    split; [exact Hl |]. cbn [Nat.add].
    destruct Hcase as [[He Hc] | (He & a & b & Ha & Hb & Hst)].
    + left. exists (stitched h). split; [exact Hc |]. apply hitOf_In.
      split; [apply unit_price_target; exact Hs |].
      destruct h as [hr hs he ht hn]. cbn in *. subst. rewrite Hs. reflexivity.
    + right. exists a, b. split; [exact Ha |]. split; [exact Hb |]. apply hitOf_In.
      rewrite <- Hst. split; [apply unit_price_target; exact Hs |].
      destruct h as [hr hs he ht hn]. cbn in *. subst. rewrite Hs. reflexivity.
Qed.

(** X20: findCellsByKeywords reports a cell exactly when it is a column of
    one of the lines and the loose pattern of the variants matches inside it,
    and it lists the cells in reading order: by row, then by column. *)
Theorem findCellsByKeywords_characterisation (lines variants : list jsstring) :
  (forall h : CellHit,
     In h (findCellsByKeywords lines variants) <->
     nth_error lines (c_rowIndex h) = Some (c_line h) /\
     nth_error (splitToCols (c_line h)) (c_colIndex h) = Some (c_value h) /\
     test (buildVariantsRegex variants) (c_value h) = true) /\
  StronglySorted cellBefore (findCellsByKeywords lines variants).
Proof.
  unfold findCellsByKeywords. split; [| apply cellsOfRows_sorted].
  intros h. rewrite cellsOfRows_In. rewrite Nat.sub_0_r. split.
  - intros (_ & H). exact H.
  - intros H. split; [lia | exact H].
Qed.

(** X21: the footer detector returns at most one hit.  If some line
    matches the footer marker, the hit is the first such line, whatever
    assignee cells there are; otherwise it is the first assignee cell in
    reading order; and it returns nothing only when there is neither. *)
Theorem footer_choice (lines : list jsstring) :
  match checkIsItFooterLine lines with
  | [] =>
      (forall line, In line lines -> test FOOTER_MARKER_REGEX line = false) /\
      findCellsByKeywords lines [js "인수자"] = []
  | [f] =>
      (f_type f = footer_marker /\ f_colIndex f = None /\ f_value f = f_line f /\
       nth_error lines (f_rowIndex f) = Some (f_line f) /\
       test FOOTER_MARKER_REGEX (f_line f) = true /\
       forall r line, r < f_rowIndex f -> nth_error lines r = Some line ->
                      test FOOTER_MARKER_REGEX line = false) \/
      (f_type f = assignee /\
       (forall line, In line lines -> test FOOTER_MARKER_REGEX line = false) /\
       exists h rest,
         findCellsByKeywords lines [js "인수자"] = h :: rest /\
         Forall (cellBefore h) rest /\
         f = {| f_type := assignee; f_rowIndex := c_rowIndex h;
                f_colIndex := Some (c_colIndex h);
                f_value := c_value h; f_line := c_line h |})
  | _ :: _ :: _ => False
  end.
Proof.
  destruct (findMarkerRow 0 lines) as [f |] eqn:E.
  - unfold checkIsItFooterLine. rewrite E. left.
    destruct (findMarkerRow_some _ _ _ E) as (_ & H1 & H2 & H3 & H4 & H5 & H6).
    rewrite Nat.sub_0_r in H4, H6. repeat split; assumption.
  - rewrite (footer_fallback _ E).
    pose proof (proj1 (findMarkerRow_none lines 0) E) as Hno.
    pose proof (cellsOfRows_sorted (buildVariantsRegex [js "인수자"]) lines 0) as Hs.
    fold (findCellsByKeywords lines [js "인수자"]) in Hs.
    destruct (findCellsByKeywords lines [js "인수자"]) as [| h rest].
    + split; [exact Hno | reflexivity].
    + right. split; [reflexivity |]. split; [exact Hno |].
      exists h, rest. split; [reflexivity |]. split; [| reflexivity].
      inversion Hs; assumption.
Qed.

(** X22: the loose pattern built from a list of non-empty keywords of
    ASCII and Hangul characters matches a cell exactly when the cell contains
    one of the keywords spelled letter by letter, up to the case of ASCII
    letters, with any whitespace allowed between one letter and the next. *)
Theorem loose_keyword_match (variants : list jsstring) (cell : jsstring) :
  variants <> [] ->
  Forall (fun w => w <> [] /\ forallb asciiOrHangul w = true) variants ->
  (test (buildVariantsRegex variants) cell = true <->
   exists w pre mid post, In w variants /\ cell = pre ++ mid ++ post /\ spaced w mid).
Proof.
  intros Hne Hw. apply test_variants; [exact Hne |].
  eapply Forall_impl; [| exact Hw]. intros w [H _]. exact H.
Qed.

Lemma loose_keyword_match_witness :
  exists w pre mid post,
    In w [js "단"; js "가"; js "단가"] /\ js "( 단  가 )" = pre ++ mid ++ post /\ spaced w mid.
Proof.
  apply (proj1 (loose_keyword_match [js "단"; js "가"; js "단가"] (js "( 단  가 )")
                  ltac:(discriminate)
                  ltac:(repeat constructor; discriminate))).
  vm_compute. reflexivity.
Defined.

(** X23: escapeRegex leaves a text unchanged exactly when the text has none
    of the characters . * + ? ^ $ { } ( ) | [ ] and backslash; in general it
    lengthens the text by one character for each of them, and it works
    character by character. *)
Theorem escapeRegex_effect :
  (forall s : jsstring,
     escapeRegex s = s <-> forallb (fun c => negb (isRegexSpecial c)) s = true) /\
  (forall s : jsstring,
     List.length (escapeRegex s)
     = List.length s + List.length (filter isRegexSpecial s)) /\
  (forall a b : jsstring, escapeRegex (a ++ b) = escapeRegex a ++ escapeRegex b).
Proof.
  split; [exact escapeRegex_plain |]. split; [exact escapeRegex_length |].
  intros a b. unfold escapeRegex. apply flat_map_app.
Qed.

(** X24: for a keyword of ASCII and Hangul characters, the pattern text
    that makeLooseRegexFromKeyword builds, each character escaped and the
    pieces joined by the whitespace-run pattern, reads back as the pattern:
    each character of the keyword as a literal up to case, even one that is
    a syntax character of patterns, with optional whitespace between one
    character and the next. *)
Theorem loose_pattern_source (w : jsstring) :
  forallb asciiOrHangul w = true ->
  regExpLoose (looseSource w) = Some (makeLooseRegexFromKeyword w).
Proof.
  intros H. apply regExpLoose_source. apply forallb_forall. intros c Hc.
  rewrite forallb_forall in H. specialize (H c Hc).
  unfold asciiOrHangul, isHangul in H. unfold isHighSurrogate.
  apply negb_true_iff. apply andb_false_iff.
  apply orb_true_iff in H. destruct H as [H | H].
  - apply N.ltb_lt in H. left. apply N.leb_gt. lia.
  - apply andb_true_iff in H. destruct H as [_ H]. apply N.leb_le in H.
    left. apply N.leb_gt. lia.
Qed.

Lemma loose_pattern_source_witness :
  looseSource (js "a.b|") = js "a\s*\.\s*b\s*\|" /\
  regExpLoose (looseSource (js "a.b|")) = Some (makeLooseRegexFromKeyword (js "a.b|")).
Proof.
  split; [vm_compute; reflexivity |].
  apply (loose_pattern_source (js "a.b|")). vm_compute. reflexivity.
Defined.

(** ** The text normaliser and main *)

(** X25: the normalised text is its lines joined by line feeds, and unless
    it is empty every line that main gets from it is non-empty, has no
    whitespace at either end, no two whitespace characters in a row, no line
    feed, carriage return or tab, and no backslash followed by n or t. *)
Theorem cleanOcrText_output_shape (x : jsstring) :
  cleanOcrText x = join [LF] (mainLines x) /\
  (mainLines x = [[]] \/
   Forall (fun l : jsstring =>
             l <> [] /\ trim l = l /\
             ~ In LF l /\ ~ In CR l /\ ~ In TAB l /\
             (forall pre a b post, l = pre ++ a :: b :: post ->
                                   isWs a = true -> isWs b = false) /\
             (forall pre post, l <> pre ++ BSL :: ch "n" :: post) /\
             (forall pre post, l <> pre ++ BSL :: ch "t" :: post))
          (mainLines x)).
Proof.
  destruct (mainLines_shape x) as [[E1 E2] | (Hne & HL & E)].
  - rewrite E1, E2. split; [reflexivity | now left].
  - split; [exact E |]. right. eapply Forall_impl; [| exact HL].
    intros l Hl. destruct (normalLine_shape l Hl) as (H1 & H2 & H3 & H4).
    destruct Hl as ((Hn & Ht & Hcr & Htab) & _).
    repeat split; try assumption.
    + intros pre a b post. apply (runFree_no_run l false H3).
    + intros pre post. apply (escFree_no_escape (ch "n") l false Hn).
    + intros pre post. apply (escFree_no_escape (ch "t") l false Ht).
Qed.

(** X26: when the normalised text has no header cell, main has nothing to
    work on: the slice is empty, the sanitiser keeps and removes nothing, the
    validator reports no row, and no item is parsed, with the fourteen rules
    as with the twelve of the test script.  A text that is normalised to the
    empty text is such a text. *)
Theorem main_without_header_yields_nothing (x : jsstring) :
  (checkIsItHeaderLine (mainLines x) = [] ->
   mainSlice x = {| start := None; end_ := None; rows := [] |} /\
   mainCleaned x = ([], []) /\ mainValidation x = ([], []) /\
   mainParsedItems x = [] /\ mainParsedItems_test x = []) /\
  (cleanOcrText x = [] -> checkIsItHeaderLine (mainLines x) = []).
Proof.
  split; [apply main_without_header | apply blank_text_no_header].
Qed.

Lemma main_without_header_yields_nothing_witness :
  mainParsedItems (js "품명A | 10 | 5,000 | 50,000") = [] /\
  mainValidation (js "품명A | 10 | 5,000 | 50,000") = ([], []).
Proof.
  destruct (proj1 (main_without_header_yields_nothing (js "품명A | 10 | 5,000 | 50,000")))
    as (_ & _ & Hv & Hp & _).
  - vm_compute. reflexivity.
  - split; assumption.
Defined.

(** X27: every valid row is handed on with a VAT: a row with a third money
    column keeps the text of that column; a row without one gets, when its
    supply amount read as a number is below 2^53, the ceiling of a tenth of
    that number.  The supply amount of a valid row is always a money text,
    so parseInt reads all of it. *)
Theorem valid_rows_get_vat (rows : list jsstring) (v : Validation) :
  In v (fst (validateRowSchema rows)) ->
  exists sch supply,
    v_schema v = Some sch /\ s_supplyAmount sch = Some supply /\
    isValidMoney supply = true /\
    parseInt (dropCommasSpaces supply) = JsNum.of_Z (digitsToZ (dropCommasSpaces supply)) /\
    In (withVAT v) (validRowsWithVAT (fst (validateRowSchema rows))) /\
    w_supplyAmount (withVAT v) = Some supply /\
    match s_vat sch with
    | Some t => isValidMoney t = true /\ w_vat (withVAT v) = VatText t
    | None =>
        let n := digitsToZ (dropCommasSpaces supply) in
        (n < 2 ^ 53)%Z -> w_vat (withVAT v) = VatNumber (JsNum.of_Z ((n + 9) / 10))
    end.
Proof.
  intros Hin. destruct (valid_row_schema rows v Hin) as (sch & supply & Hs & Ha & Hm & Ht).
  exists sch, supply. split; [exact Hs |]. split; [exact Ha |]. split; [exact Hm |].
  split.
  { pose proof Hm as Hm'. unfold isValidMoney in Hm'. apply andb_true_iff in Hm'.
    destruct Hm' as [_ Hm']. apply test_atLeast_digits in Hm'. destruct Hm' as [Hlen Hd].
    apply parseInt_digits; [intros E; rewrite E in Hlen; cbn in Hlen; lia | exact Hd]. }
  split; [unfold validRowsWithVAT; apply in_map; exact Hin |].
  destruct (withVAT_spec v sch supply Hs Ha Hm Ht) as [H1 H2].
  split; [exact H1 |].
  destruct (s_vat sch) as [t |]; [split; assumption | exact H2].
Qed.

Lemma valid_rows_get_vat_witness :
  exists v, In v (fst (validateRowSchema [js "1 | 품명A | 10 | 5,000 | 6,727"])) /\
            w_vat (withVAT v) = VatNumber (JsNum.of_Z 673).
Proof.
  assert (E : exists v, fst (validateRowSchema [js "1 | 품명A | 10 | 5,000 | 6,727"]) = [v]
                        /\ (exists sch, v_schema v = Some sch /\ s_vat sch = None /\
                                        s_supplyAmount sch = Some (js "6,727"))).
  { eexists. split; [vm_compute; reflexivity |]. eexists. cbn [v_schema].
    split; [reflexivity |]. split; reflexivity. }
  destruct E as (v & E & sch0 & Es & Ev & Ea). exists v.
  assert (Hin : In v (fst (validateRowSchema [js "1 | 품명A | 10 | 5,000 | 6,727"])))
    by (rewrite E; now left).
  split; [exact Hin |].
  destruct (valid_rows_get_vat _ v Hin) as (sch & supply & Hs & Ha & _ & _ & _ & _ & Hv).
  rewrite Es in Hs. injection Hs as <-. rewrite Ev in Hv. rewrite Ea in Ha.
  injection Ha as <-. rewrite Hv by (vm_compute; reflexivity). reflexivity.
Defined.
